(* ===== verification/_CoqProject ===== *)
-Q . S2P
Prelude.v
Bytes.v
Strs.v
Fs.v
Layout.v
Ptr.v
Loops.v
Blz.v
BlzFinder.v
BlzStream.v
BlzEncode.v
BlzDecode.v
BlzCodec.v
BlzRoundTrip.v
Pfs0.v
Pfs0Directory.v
Kip.v
Nro.v
Cnmt.v
Mod0.v
NpdmCaps.v
Npdm.v
Crates.v
Nso.v
Ivfc.v
Partition.v
NcaRaw.v
NcaWrite.v
NcaRead.v
RomFsRaw.v
RomFsTree.v
RomFsWrite.v
RomFsSort.v
RomFsLayout.v
RomFsImage.v
RomFsRead.v
RomFsRoundTrip.v
RomFsHash.v
RomFsExtract.v
RomFsDirectory.v
RomFsPack.v
Nacp.v
Elf.v
Carrier.v
Containers.v
Package.v
TestKit.v
TestsBlz.v
TestsPfs0.v
TestsCnmt.v
TestsKip.v
TestsNso.v
TestsNca.v
TestsRomFs.v
