(* ===== verification/Prelude.v ===== *)
(** * nx-object: verification development

    nx-object (the Rust crate under [src/]) reads and writes the file formats of a Nintendo Switch
    title. Every format has three layers: [src/src/raw/] holds the on-disk structures, [src/src/read/]
    a validated view that borrows a buffer, and [src/src/write/] a builder that returns one. The
    development is a shallow embedding of those layers: each Rust function is a Rocq function of the
    same shape, executable, and the theorems are about those functions.

    ** Files, bottom up

    - [Prelude]: outcomes, machine integers, record update, the tactics of the other files.
    - [Bytes]: bytes, little- and big-endian integers, slices and vectors indexed by [usize],
      buffers filled at increasing offsets. [Strs]: UTF-8 validity and the string functions used.
    - [Fs]: the file system as the two [from_directory] builders see it, and directory trees as
      values. [Ptr]: a memory of bytes, for the [try_from_ptr] readers of images already mapped.
    - [Layout]: the class [Layout] of a [#[repr(C)]] structure and its bytes, with both round trips
      as laws and a combinator per field kind; the class [Zerocopy], the zerocopy crate.
    - [Loops]: a loop iterated a power of two of times, for the loops whose only bound is the width
      of their counter, and what such a run says of the loop itself.
    - [Crates]: the classes [Sha256] and [Lz4] for the crates the builders call, and hashing in
      blocks with the injectivity lemma that exhibits a colliding pair.
    - [Blz], [BlzFinder], [BlzStream], [BlzEncode], [BlzDecode], [BlzRoundTrip]: [blz.rs], the
      compressor of KIP1 segments. [Blz] has every definition; the others prove the match finder
      against its brute-force oracle, the token stream of the encoder, the decoder's run over that
      stream, and the whole codec. [BlzCodec] is the interface a client sees, with the instance.
    - [Pfs0], [Kip], [Nro], [Cnmt], [Mod0], [Nso]: one format each, its [raw], [write] and [read]
      files together. [Kip] uses BLZ through [BlzCodec]; [Nso] uses [Sha256] and [Lz4].
      [Pfs0Directory]: [from_directory] of [write/pfs0.rs].
    - [NpdmCaps], [Npdm]: [write/npdm.rs] twice over: the permission blocks (kernel capabilities,
      service list, filesystem access), then the headers, builder and reader around them.
    - [Ivfc], [Partition]: [write/nca/ivfc.rs] and [write/nca/partition.rs], the hash structures of
      the two kinds of NCA section. [NcaRaw], [NcaWrite], [NcaRead]: [raw/nca.rs], [write/nca.rs]
      and [read/nca.rs] over them.
    - [RomFsRaw]: [raw/romfs.rs] and the path hash. [RomFsTree]: the builder's vectors and
      [add_file], over an abstract map from paths to contents ([represents]). [RomFsWrite]: the rest
      of [write/romfs.rs], definitions and the hash-table sizes; [RomFsSort], [RomFsLayout],
      [RomFsImage]: the sort by path, the offsets, the bytes of the image. [RomFsRead]:
      [read/romfs.rs]. [RomFsRoundTrip], [RomFsHash], [RomFsExtract]: the reader on the writer's
      images, entry by entry, over the hash chains, and as a whole tree. [RomFsDirectory]:
      [from_directory] of [write/romfs.rs]; [RomFsPack]: from a directory to an image and back.
    - [Nacp]: [raw/nacp.rs], [write/nacp.rs], [read/nacp.rs]. [Elf]: [elf/segments.rs] and the
      conversions to the [Nso], [Nro] and [Kip] builders.
    - [Carrier]: the interface of a format that carries a payload, and nesting; [Containers]: its
      instances, a file of a PFS0, a section of an NCA and an asset of an NRO; [Package]: what a client
      makes by composing builders, and gets back by composing readers.
    - [TestKit] and [TestsBlz], [TestsPfs0], [TestsCnmt], [TestsKip], [TestsNso], [TestsNca],
      [TestsRomFs]: the unit tests of the crate, run on the model.

    ** How code becomes definitions

    A builder is a record with a setter per method; [build] is a function of it. A reader is a record
    holding the buffer and the parsed header; [try_from_bytes] makes one and the accessors are
    functions of it. A Rust call returns an [outcome]: [Ok], [Err] with the error enumeration of the
    source, or [Panic]. An infallible function that can panic returns an [option] whose [None] is the
    panic; an accessor that returns an [Option] and can panic returns [option (option _)]. Panics are
    those of a build with overflow checks: out-of-range indexing and slicing, arithmetic out of the
    width of its type, failed assertions, [unwrap] of nothing, and allocations past [isize::MAX].
    Integers are [Z] with the width written at each operation ([checked_add], [as_u32], ...); [usize]
    is 64 bits. A mutable buffer is threaded through its writes ([copy_from_slice], [write_all]).
    A file system is an argument, which answers the same to the same question throughout a call;
    a memory is a function from addresses to bytes, and the slice a [try_from_ptr] borrows is a list.
    Loops are structural recursions on the list or the count they run over; where the Rust loop has
    no such argument ([decode_loop], [encode_loop], [chunks]) they take fuel, bounded by the length of
    the buffer they consume, and the totality theorems show it is enough, since each round consumes
    or produces a byte at least. Three kinds of loop have no such buffer and go through [Loops.run]. The
    hash-table size search runs [2^19] rounds: one of any [510510] consecutive counts is coprime to the
    seven primes it tries, so it always ends ([hash_table_count_terminates]). The RomFS lookups follow
    the offsets of the image, which may be cyclic; they run [2^32] rounds, more than there are [u32]
    offsets, and answer [option (outcome _)] whose [None] is a lookup that never returns:
    [find_returns_or_loops] shows that this is exactly when the loop of the source does not end. The
    walk of [RomFsDirectory.from_directory] lists a directory per round and takes its bound as an
    argument, [2^k] rounds; any bound above the number of directories gives the result
    ([from_directory_spec]).

    ** Third-party code

    The zerocopy, sha2, lz4_flex and object crates and the file system are the classes [Zerocopy],
    [Sha256], [Lz4], [ObjectElf] and [FileSystem], arguments of the definitions that use them. The
    laws are what the crates document: a prefix or an exact slice reads as the structure its bytes lay
    out, a digest has 32 bytes, an LZ4 block decompresses to its input given its length and never
    panics; [FileSystem] has no law, and [on_disk] says that it holds a tree. [zerocopy_reference],
    [sha256_reference], [lz4_reference], [object_reference] and [fs_reference] show that the laws can
    hold, and the witnesses run on them.

    ** What the theorems show

    - Round trips: what each builder writes, the reader of the format accepts and reads back, field
      by field and payload by payload ([decompress_compress], [pfs0_round_trip], [kip_round_trip],
      [nro_round_trip], [nso_round_trip], [cnmt_round_trip], [npdm_round_trip], [nca_round_trip],
      [nacp_round_trip]); an ELF whose segments are those of an image gives that image ([elf_images]);
      the permission words of an NPDM determine the capability they encode, the masks of the system
      calls included ([capability_round_trip]); the AES-CTR counters and
      ranges of the NCA builder are those of the reader ([nca_ctr_sections]).
    - RomFS: the builder's vectors refine a map from paths to contents ([add_files_refines]); two
      builders of one map write the same bytes ([romfs_build_deterministic]); the reader opens every
      path of the map with its contents and no other path ([romfs_round_trip]), walking the image from
      its root gives the map back ([romfs_extract]), and every hash bucket chains exactly its entries,
      the last inserted first, or is empty ([hash_chains_complete]).
    - Directories: [RomFsDirectory.from_directory] ends on every finite tree with a builder of exactly
      its files and directories, or refuses a link ([from_directory_spec]), and never panics whatever
      the file system answers ([from_directory_no_panic]); the image of a directory unpacks to its
      files ([romfs_pack_directory]) and does not depend on the order they are listed in
      ([romfs_pack_reproducible]); a PFS0 of a directory holds its regular files in name order
      ([pfs0_from_directory]).
    - Packages: the content of a program, the metadata of a title and the assets of a homebrew program
      come out of the nested containers as they went in ([program_package], [meta_package],
      [homebrew_package]), whatever carries them ([carried_directory]).
    - Memory: an image in memory reads as it does from a buffer that holds it ([mod0_try_from_ptr],
      [nso_try_from_ptr], [nro_try_from_ptr], [nacp_try_from_ptr]).
    - Safety: on any bytes the readers never panic, and everything an accepted image hands out is
      inside the buffer (the [.._reader_safe] theorems and [decompress_total]); segments of a KIP1 and
      entries and contents of a RomFS are pinned to the offset their headers and links give
      ([kip_reader_safe], [romfs_reader_safe]). [nro_reader_safe]
      characterises the one accessor that can panic, and its witness is such an image.
    - Equivalence: the hash-chain match finder returns what the exhaustive search returns.
    - Hash structures: every digest of a hash tree or table is that of the block it stands for, and
      equal master hashes force equal payloads or exhibit a collision of SHA-256 ([ivfc_verifies],
      [ivfc_binding], [partition_verifies], [partition_binding]).
    - Tests: the [.._tests_pass] examples state that the crate's own unit tests pass on the model.
    - Errors and layout: which builders are accepted, in which order errors are reported, that the
      order of insertion does not reach the bytes, and the alignment and bounds of what is written.

    ** Not modelled

    Accessors that return a field are the projections of the record. The [Display] and [Error] impls of
    the errors, the [Default] impls, which call [new], the [serde] derives and the crate roots have no
    behaviour beyond text and re-exports. Whether an address may be read is left to the callers of
    [try_from_ptr], as in the source; a file system that changes under a walk is not modelled. *)

From Stdlib Require Export ZArith Lia Init.Byte.
From Stdlib Require Strings.Byte.
From stdpp Require Export base option list list_numbers.

#[export] Set Default Goal Selector "!".
#[local] Open Scope Z_scope.

(** Bytes are the 256-element type of the Standard Library. *)
#[export] Instance byte_eq_dec : EqDecision byte := Strings.Byte.byte_eq_dec.
#[export] Instance byte_inhabited : Inhabited byte := populate x00.

(** ** Outcomes

    A Rust call returns normally ([Ok] for an infallible function or an [Ok(_)] value), returns
    an error value ([Err]), or panics ([Panic]: an index or slice out of range, a failed
    assertion, or an arithmetic overflow with overflow checks on). *)
Inductive outcome (E A : Type) : Type :=
| Ok (a : A)
| Err (e : E)
| Panic.
Arguments Ok {E A} a.
Arguments Err {E A} e.
Arguments Panic {E A}.

#[export] Instance outcome_ret {E} : MRet (outcome E) := λ A a, Ok a.
#[export] Instance outcome_bind {E} : MBind (outcome E) := λ A B f m,
  match m with Ok a => f a | Err e => Err e | Panic => Panic end.

(** [Option::ok_or] followed by [?]. *)
Definition ok_or {E A} (o : option A) (e : E) : outcome E A :=
  match o with Some a => Ok a | None => Err e end.

(** [Result::map_err]. *)
Definition map_err {E F A} (f : E → F) (m : outcome E A) : outcome F A :=
  match m with Ok a => Ok a | Err e => Err (f e) | Panic => Panic end.

(** An [Option]-returning helper whose [None] is a panic: [expect], indexing, slicing. *)
Definition or_panic {E A} (o : option A) : outcome E A :=
  match o with Some a => Ok a | None => Panic end.

(** [Result::ok] followed by [?] in a function returning an [Option]. *)
Definition outcome_ok {E A} (m : outcome E A) : option A :=
  match m with Ok a => Some a | _ => None end.

Definition is_ok {E A} (m : outcome E A) : bool := if m is Ok _ then true else false.

(** A guard with an early return of an error. *)
Definition guard_err {E} (b : bool) (e : E) : outcome E unit := if b then Err e else Ok tt.

Lemma bind_ok_inv {E A B} (m : outcome E A) (f : A → outcome E B) b :
  mbind f m = Ok b → ∃ a, m = Ok a ∧ f a = Ok b.
Proof. destruct m; naive_solver. Qed.

Lemma bind_no_panic {E A B} (m : outcome E A) (f : A → outcome E B) :
  m ≠ Panic → (∀ a, m = Ok a → f a ≠ Panic) → mbind f m ≠ Panic.
Proof. destruct m; naive_solver. Qed.

Lemma ok_or_ok_inv {E A} (o : option A) (e : E) a : ok_or o e = Ok a → o = Some a.
Proof. destruct o; naive_solver. Qed.

Lemma ok_or_no_panic {E A} (o : option A) (e : E) : ok_or o e ≠ Panic.
Proof. by destruct o. Qed.

Lemma guard_err_ok_inv {E} b (e : E) u : guard_err b e = Ok u → b = false.
Proof. by destruct b. Qed.

Lemma guard_err_no_panic {E} b (e : E) : guard_err b e ≠ Panic.
Proof. by destruct b. Qed.

Lemma map_err_no_panic {E F A} (f : E → F) (m : outcome E A) : m ≠ Panic → map_err f m ≠ Panic.
Proof. by destruct m. Qed.

(** Boolean comparisons in hypotheses and goals to propositions, then [lia]. *)
Ltac zify_bool :=
  repeat match goal with
  | H : (_ <=? _) = true |- _ => apply Z.leb_le in H
  | H : (_ <=? _) = false |- _ => apply Z.leb_gt in H
  | H : (_ <? _) = true |- _ => apply Z.ltb_lt in H
  | H : (_ <? _) = false |- _ => apply Z.ltb_ge in H
  | H : (_ >? _) = true |- _ => rewrite Z.gtb_ltb in H
  | H : (_ >? _) = false |- _ => rewrite Z.gtb_ltb in H
  | H : (_ >=? _) = true |- _ => rewrite Z.geb_leb in H
  | H : (_ >=? _) = false |- _ => rewrite Z.geb_leb in H
  | H : (_ =? _) = true |- _ => apply Z.eqb_eq in H
  | H : (_ =? _) = false |- _ => apply Z.eqb_neq in H
  | H : (_ && _) = true |- _ => apply andb_true_iff in H as [? ?]
  | H : (_ || _) = false |- _ => apply orb_false_iff in H as [? ?]
  | H : negb _ = true |- _ => apply negb_true_iff in H
  | H : negb _ = false |- _ => apply negb_false_iff in H
  end.
(** [safe P m]: [m] does not panic, and a normal result satisfies [P]. *)
Definition safe {E A} (P : A → Prop) (m : outcome E A) : Prop :=
  match m with Ok a => P a | Err _ => True | Panic => False end.

Lemma safe_bind {E A B} (Q : A → Prop) (P : B → Prop) (m : outcome E A) (f : A → outcome E B) :
  safe Q m → (∀ a, Q a → safe P (f a)) → safe P (mbind f m).
Proof. destruct m; naive_solver. Qed.

Lemma safe_mono {E A} (Q P : A → Prop) (m : outcome E A) :
  safe Q m → (∀ a, Q a → P a) → safe P m.
Proof. destruct m; naive_solver. Qed.

Lemma safe_no_panic {E A} (P : A → Prop) (m : outcome E A) : safe P m → m ≠ Panic.
Proof. by destruct m. Qed.

Lemma safe_ok {E A} (P : A → Prop) (m : outcome E A) a : safe P m → m = Ok a → P a.
Proof. by intros H ->. Qed.

Lemma safe_ok_or {E A} (P : A → Prop) (o : option A) (e : E) :
  (∀ a, o = Some a → P a) → safe P (ok_or o e).
Proof. destruct o; naive_solver. Qed.

Lemma safe_ok_or_eq {E A} (o : option A) (e : E) : safe (λ a, o = Some a) (ok_or o e).
Proof. by destruct o. Qed.

Lemma safe_or_panic {E A} (P : A → Prop) (o : option A) a :
  o = Some a → P a → safe P (@or_panic E A o).
Proof. by intros ->. Qed.

Lemma safe_guard {E} b (e : E) : safe (λ _, b = false) (guard_err b e).
Proof. by destruct b. Qed.

(** [safe] across the next [ok_or] or guard: its success as the hypothesis [H]. *)
Tactic Notation "safe_step" simple_intropattern(x) ident(H) :=
  eapply safe_bind; [first [apply safe_ok_or_eq | apply safe_guard]|];
  intros x H; cbn beta in H; zify_bool.

(** Turns [H : (x ← m; k) = Ok r] into the intermediate results. *)
Ltac inv_bind H :=
  let a := fresh "a" in let Ha := fresh "Hm" in
  apply bind_ok_inv in H as (a & Ha & H).
Ltac inv_outcome :=
  repeat match goal with
  | H : mbind _ _ = Ok _ |- _ => inv_bind H
  | H : ok_or _ _ = Ok _ |- _ => apply ok_or_ok_inv in H
  | H : guard_err _ _ = Ok _ |- _ => apply guard_err_ok_inv in H
  | H : Ok _ = Ok _ |- _ => injection H as H; subst
  | H : Err _ = Ok _ |- _ => discriminate H
  | H : Panic = Ok _ |- _ => discriminate H
  end.

Create HintDb outcome.
#[export] Hint Resolve ok_or_no_panic guard_err_no_panic map_err_no_panic : outcome.

(** ** Machine integers *)

Definition U8_MAX : Z := 0xff.
Definition U32_MAX : Z := 0xffffffff.
Definition U64_MAX : Z := 0xffffffffffffffff.
(** [usize] is 64 bits wide, as on the AArch64 console and on the hosts the packer runs on. *)
Definition USIZE_MAX : Z := U64_MAX.
(** No Rust allocation or slice is longer than [isize::MAX] bytes. *)
Definition ISIZE_MAX : Z := 0x7fffffffffffffff.

Definition is_u8 (z : Z) : Prop := 0 ≤ z ≤ U8_MAX.
Definition is_u32 (z : Z) : Prop := 0 ≤ z ≤ U32_MAX.
Definition is_u64 (z : Z) : Prop := 0 ≤ z ≤ U64_MAX.
Definition is_usize (z : Z) : Prop := 0 ≤ z ≤ USIZE_MAX.

(** [as u8], [as u16], [as u32], [as u64] on a non-negative integer: truncation. *)
Definition as_u8 (z : Z) : Z := z mod 2 ^ 8.
Definition as_u16 (z : Z) : Z := z mod 2 ^ 16.
Definition as_u32 (z : Z) : Z := z mod 2 ^ 32.
Definition as_u64 (z : Z) : Z := z mod 2 ^ 64.

(** [+], [-] and [*] at a type whose largest value is [m]: out of range panics. *)
Definition add_max {E} (m a b : Z) : outcome E Z := if a + b <=? m then Ok (a + b) else Panic.
Definition mul_max {E} (m a b : Z) : outcome E Z := if a * b <=? m then Ok (a * b) else Panic.
Definition usub {E} (a b : Z) : outcome E Z := if b <=? a then Ok (a - b) else Panic.
Definition uadd {E} : Z → Z → outcome E Z := add_max USIZE_MAX.
Definition umul {E} : Z → Z → outcome E Z := mul_max USIZE_MAX.
Definition uadd32 {E} : Z → Z → outcome E Z := add_max U32_MAX.

(** [usize::checked_add] (also [u64::checked_add]) and [usize::checked_sub]. *)
Definition checked_add (a b : Z) : option Z := if a + b <=? USIZE_MAX then Some (a + b) else None.
Definition checked_sub (a b : Z) : option Z := if b <=? a then Some (a - b) else None.

(** [usize] multiplication; [None] is the overflow panic. *)
Definition checked_mul (a b : Z) : option Z := if a * b <=? USIZE_MAX then Some (a * b) else None.

(** The same for [u32], and [iter().sum()] over [usize]. *)
Definition checked_add_u32 (a b : Z) : option Z := if a + b <=? U32_MAX then Some (a + b) else None.
Definition checked_sum (l : list Z) : option Z := foldr (λ a s, s ← s; checked_add a s) (Some 0) l.
Definition zsum (l : list Z) : Z := foldr Z.add 0 l.
Lemma zsum_app l k : zsum (l ++ k) = zsum l + zsum k.
Proof. unfold zsum. induction l as [|a l IH]; [done|]. cbn [app foldr]. rewrite IH. lia. Qed.
#[export] Instance zsum_perm : Proper ((≡ₚ) ==> (=)) zsum.
Proof. intros l k Hp. unfold zsum. induction Hp; cbn [foldr]; lia. Qed.

(** [(value + (alignment - 1)) & !(alignment - 1)]. *)
Definition align_up (value alignment : Z) : Z :=
  Z.land (value + (alignment - 1)) (Z.lnot (alignment - 1)).

(** [usize::div_ceil]. *)
Definition div_ceil (a b : Z) : Z := (a + b - 1) / b.

Lemma uadd_ok {E} a b : a + b ≤ USIZE_MAX → @uadd E a b = Ok (a + b).
Proof. intros. unfold uadd, add_max. by rewrite (proj2 (Z.leb_le _ _)). Qed.

Lemma uadd32_ok {E} a b : a + b ≤ U32_MAX → @uadd32 E a b = Ok (a + b).
Proof. intros. unfold uadd32, add_max. by rewrite (proj2 (Z.leb_le _ _)). Qed.

Lemma usub_ok {E} a b : b ≤ a → @usub E a b = Ok (a - b).
Proof. intros. unfold usub. by rewrite (proj2 (Z.leb_le _ _)). Qed.

Lemma umul_ok {E} a b : a * b ≤ USIZE_MAX → @umul E a b = Ok (a * b).
Proof. intros. unfold umul, mul_max. by rewrite (proj2 (Z.leb_le _ _)). Qed.

Lemma checked_add_ok a b : a + b ≤ USIZE_MAX → checked_add a b = Some (a + b).
Proof. intros. unfold checked_add. by rewrite (proj2 (Z.leb_le _ _)). Qed.

Lemma checked_mul_ok a b : a * b ≤ USIZE_MAX → checked_mul a b = Some (a * b).
Proof. intros. unfold checked_mul. by rewrite (proj2 (Z.leb_le _ _)). Qed.

Lemma checked_add_inv a b c : checked_add a b = Some c → c = a + b ∧ a + b ≤ USIZE_MAX.
Proof. unfold checked_add. destruct (Z.leb_spec (a + b) USIZE_MAX); naive_solver. Qed.

Lemma checked_add_overflow a b : USIZE_MAX < a + b → checked_add a b = None.
Proof. intros. unfold checked_add. by rewrite (proj2 (Z.leb_gt _ _)). Qed.

Lemma checked_sub_ok a b : b ≤ a → checked_sub a b = Some (a - b).
Proof. intros. unfold checked_sub. by rewrite (proj2 (Z.leb_le _ _)). Qed.

Lemma checked_sub_inv a b c : checked_sub a b = Some c → c = a - b ∧ b ≤ a.
Proof. unfold checked_sub. destruct (Z.leb_spec b a); naive_solver. Qed.

Lemma checked_add_u32_ok a b : a + b ≤ U32_MAX → checked_add_u32 a b = Some (a + b).
Proof. intros. unfold checked_add_u32. by rewrite (proj2 (Z.leb_le _ _)). Qed.

Lemma zsum_nonneg l : Forall (λ a, 0 ≤ a) l → 0 ≤ zsum l.
Proof. induction 1; cbn [zsum foldr] in *; unfold zsum in *; lia. Qed.

Lemma checked_sum_ok l :
  Forall (λ a, 0 ≤ a) l → zsum l ≤ USIZE_MAX → checked_sum l = Some (zsum l).
Proof.
  induction 1 as [|a l Ha Hl IH]; [done|]. cbn. fold (zsum l) (checked_sum l).
  intros Hm. pose proof (zsum_nonneg l Hl). rewrite IH by lia. cbn. by apply checked_add_ok.
Qed.

(** [align_up] rounds up to the next multiple of a power of two. *)
Lemma align_up_pow2 v k :
  0 ≤ k → align_up v (2 ^ k) = 2 ^ k * ((v + (2 ^ k - 1)) / 2 ^ k).
Proof.
  intros Hk. unfold align_up. replace (2 ^ k - 1) with (Z.ones k) by (rewrite Z.ones_equiv; lia).
  rewrite <-Z.ldiff_land, Z.ldiff_ones_r, Z.shiftl_mul_pow2, Z.shiftr_div_pow2 by lia. lia.
Qed.

Lemma align_up_spec v a k :
  0 ≤ k → a = 2 ^ k →
  align_up v a mod a = 0 ∧ v ≤ align_up v a < v + a.
Proof.
  intros Hk ->. rewrite align_up_pow2 by done.
  assert (0 < 2 ^ k) by (by apply Z.pow_pos_nonneg).
  split; [rewrite Z.mul_comm; apply Z.mod_mul; lia|].
  pose proof (Z.div_mod (v + (2 ^ k - 1)) (2 ^ k)).
  pose proof (Z.mod_pos_bound (v + (2 ^ k - 1)) (2 ^ k)). lia.
Qed.

Lemma as_u8_small z : is_u8 z → as_u8 z = z.
Proof. unfold is_u8, U8_MAX, as_u8. intros. apply Z.mod_small. lia. Qed.

Lemma as_u32_small z : is_u32 z → as_u32 z = z.
Proof. unfold is_u32, U32_MAX, as_u32. intros. apply Z.mod_small. lia. Qed.

Lemma as_u64_small z : is_u64 z → as_u64 z = z.
Proof. unfold is_u64, U64_MAX, as_u64. intros. apply Z.mod_small. lia. Qed.

(** The low two bits, and the distance to the next multiple of four. *)
Lemma land_3 z : Z.land z 3 = z mod 4.
Proof. change 3 with (Z.ones 2). by rewrite Z.land_ones. Qed.

Lemma mod_2_64_4 z : (z mod 2 ^ 64) mod 4 = z mod 4.
Proof. apply Z.mod_mod_divide. exists (2 ^ 62). reflexivity. Qed.

(** Testing a flag through a mask. *)
Lemma land_flag_eqb flags i : 0 ≤ i → (Z.land flags (Z.shiftl 1 i) =? 0) = negb (Z.testbit flags i).
Proof.
  intros Hi. rewrite Z.shiftl_1_l.
  assert (∀ j, Z.testbit (Z.land flags (2 ^ i)) j = Z.testbit flags j && (j =? i)) as Hb.
  { intros j. rewrite Z.land_spec. f_equal. destruct (Z.eqb_spec j i) as [->|].
    - by apply Z.pow2_bits_true.
    - destruct (Z.lt_ge_cases j 0); [by apply Z.testbit_neg_r|]. apply Z.pow2_bits_false. lia. }
  destruct (Z.testbit flags i) eqn:E; cbn [negb].
  - apply Z.eqb_neq. intros H0. specialize (Hb i). by rewrite H0, E, Z.eqb_refl, Z.bits_0 in Hb.
  - apply Z.eqb_eq. apply Z.bits_inj'. intros j _. rewrite Hb, Z.bits_0.
    destruct (Z.eqb_spec j i) as [->|]; [by rewrite E|apply andb_false_r].
Qed.

(** Disjoint bit fields add up. *)
Lemma lor_shiftl a b n : 0 ≤ n → 0 ≤ b < 2 ^ n → Z.lor (Z.shiftl a n) b = a * 2 ^ n + b.
Proof.
  intros Hn Hb. assert (Z.land (Z.shiftl a n) b = 0) as H0.
  { apply Z.bits_inj'. intros i Hi. rewrite Z.land_spec, Z.bits_0.
    destruct (Z.lt_ge_cases i n); [by rewrite Z.shiftl_spec_low|].
    rewrite andb_comm, <-(Z.mod_small b (2 ^ n)), Z.mod_pow2_bits_high by lia. done. }
  rewrite <-Z.shiftl_mul_pow2, (Z.add_nocarry_lxor _ _ H0) by done. symmetry. by apply Z.lxor_lor.
Qed.

Ltac unfold_max :=
  unfold is_u8, is_u32, is_u64, is_usize, USIZE_MAX, ISIZE_MAX, U64_MAX, U32_MAX, U8_MAX in *.
Ltac mlia := zify_bool; unfold_max; lia.
(** Linear arithmetic with divisions and remainders by constants. *)
Ltac div_lia := Z.div_mod_to_equations; lia.

(** Reduces a decided test of the goal, whichever way [lia] settles it. *)
Ltac test_true t := replace t with true by (symmetry; first [apply Z.leb_le | apply Z.ltb_lt | apply Z.eqb_eq]; unfold_max; lia).
Ltac test_false t := replace t with false by (symmetry; first [apply Z.leb_gt | apply Z.ltb_ge | apply Z.eqb_neq]; unfold_max; lia).
Ltac settle :=
  repeat match goal with
  | |- context [?a <=? ?b] => first [test_true (a <=? b) | test_false (a <=? b)]
  | |- context [?a <? ?b] => first [test_true (a <? b) | test_false (a <? b)]
  | |- context [?a =? ?b] => first [test_true (a =? b) | test_false (a =? b)]
  end; cbn [andb orb negb guard_err].

(** One step of a monadic computation: the outermost arithmetic operation or guard, in range. *)
Ltac bind_cbn := cbn [mbind option_bind outcome_bind ok_or or_panic guard_err map_err].
Ltac bind_step :=
  match goal with
  | |- context [mbind _ (checked_add ?a ?b)] => rewrite (checked_add_ok a b) by mlia
  | |- context [mbind _ (checked_sub ?a ?b)] => rewrite (checked_sub_ok a b) by mlia
  | |- context [mbind _ (checked_mul ?a ?b)] => rewrite (checked_mul_ok a b) by mlia
  | |- context [mbind _ (checked_add_u32 ?a ?b)] => rewrite (checked_add_u32_ok a b) by mlia
  | |- context [mbind _ (ok_or (checked_add ?a ?b) _)] => rewrite (checked_add_ok a b) by mlia
  | |- context [mbind _ (ok_or (checked_sub ?a ?b) _)] => rewrite (checked_sub_ok a b) by mlia
  | |- context [mbind _ (or_panic (checked_add ?a ?b))] => rewrite (checked_add_ok a b) by mlia
  | |- context [mbind _ (or_panic (checked_sub ?a ?b))] => rewrite (checked_sub_ok a b) by mlia
  | |- context [mbind _ (@uadd ?E ?a ?b)] => rewrite (@uadd_ok E a b) by mlia
  | |- context [mbind _ (@usub ?E ?a ?b)] => rewrite (@usub_ok E a b) by mlia
  | |- context [mbind _ (@umul ?E ?a ?b)] => rewrite (@umul_ok E a b) by mlia
  end; bind_cbn.

(** ** Record update

    [r <| f := v |>] is [r] with the field [f] set to [v]: a builder's setter. A record opts in by
    an [Eta] instance that rebuilds it from its fields. *)
Class Eta (R : Type) := eta : R → R.
Class SetField {R T : Type} (f : R → T) := set_field : T → R → R.
Ltac derive_set_field :=
  lazymatch goal with
  | |- @SetField ?R ?T ?f =>
    let i := constr:(_ : Eta R) in
    let e := eval red in i in
    let p := eval pattern f in e in
    lazymatch p with ?g _ => let s := eval cbv beta in (λ (v : T) (r : R), g (λ _, v) r) in exact s end
  end.
#[export] Hint Extern 1 (SetField _) => derive_set_field : typeclass_instances.
#[warnings="-postfix-notation-not-level-1"]
Notation "r <| f := v |>" := (set_field (f := f) v r)
  (at level 12, f global, left associativity, format "r  <| f  :=  v |>").
