(* ===== verification/Bytes.v ===== *)
(** * Bytes and buffers

    The parts of Rust's core library the crate handles buffers with: bytes and the little- and
    big-endian encodings of integers, and slices and vectors indexed by [usize]. *)

From S2P Require Import Prelude.
#[local] Open Scope Z_scope.

(** ** Bytes as integers *)

Definition b2z (b : byte) : Z := Z.of_N (Strings.Byte.to_N b).
Definition z2b (z : Z) : byte :=
  match Strings.Byte.of_N (Z.to_N (z mod 256)) with Some b => b | None => x00 end.

Lemma b2z_range b : 0 ≤ b2z b < 256.
Proof. unfold b2z. pose proof (Strings.Byte.to_N_bounded b). lia. Qed.

Lemma b2z_is_u8 b : is_u8 (b2z b).
Proof. pose proof (b2z_range b). mlia. Qed.

Lemma b2z_z2b z : b2z (z2b z) = z mod 256.
Proof.
  unfold b2z, z2b. pose proof (Z.mod_pos_bound z 256 eq_refl) as Hz.
  destruct (Strings.Byte.of_N _) as [b|] eqn:E.
  - apply Strings.Byte.to_of_N in E. lia.
  - apply Strings.Byte.of_N_None_iff in E. lia.
Qed.

Lemma b2z_inj b1 b2 : b2z b1 = b2z b2 → b1 = b2.
Proof.
  unfold b2z. intros H%N2Z.inj.
  pose proof (Strings.Byte.of_to_N b1) as E1. rewrite H, Strings.Byte.of_to_N in E1. congruence.
Qed.

Lemma z2b_b2z b : z2b (b2z b) = b.
Proof. apply b2z_inj. rewrite b2z_z2b. apply Z.mod_small, b2z_range. Qed.

Lemma b2z_z2b_u8 z : is_u8 z → b2z (z2b z) = z.
Proof. intros. rewrite b2z_z2b. apply Z.mod_small. mlia. Qed.

(** ** Little- and big-endian integers *)

(** [to_le_bytes] of an [n]-byte integer. *)
Fixpoint le_bytes (n : nat) (z : Z) : list byte :=
  match n with O => [] | S n => z2b z :: le_bytes n (z / 256) end.

(** [from_le_bytes]. *)
Fixpoint le_val (l : list byte) : Z :=
  match l with [] => 0 | b :: l => b2z b + 256 * le_val l end.

(** [to_be_bytes]. *)
Definition be_bytes (n : nat) (z : Z) : list byte := reverse (le_bytes n z).

Lemma length_le_bytes n z : length (le_bytes n z) = n.
Proof. revert z. induction n; intros; simpl; auto. Qed.

Lemma le_val_range l : 0 ≤ le_val l < 256 ^ Z.of_nat (length l).
Proof.
  induction l as [|b l IH]; [simpl; lia|].
  cbn [le_val length]. rewrite Nat2Z.inj_succ, Z.pow_succ_r by lia.
  pose proof (b2z_range b). lia.
Qed.

Lemma le_val_le_bytes n z : le_val (le_bytes n z) = z mod 256 ^ Z.of_nat n.
Proof.
  revert z. induction n as [|n IH]; intros z; cbn [le_bytes le_val].
  - by rewrite Z.mod_1_r.
  - rewrite IH, b2z_z2b, Nat2Z.inj_succ, Z.pow_succ_r by lia.
    rewrite Z.rem_mul_r by lia. lia.
Qed.

Lemma le_val_le_bytes_small n z : 0 ≤ z < 256 ^ Z.of_nat n → le_val (le_bytes n z) = z.
Proof. intros. rewrite le_val_le_bytes. by apply Z.mod_small. Qed.

Lemma le_bytes_le_val l : le_bytes (length l) (le_val l) = l.
Proof.
  induction l as [|b l IH]; [done|]. cbn [le_val length le_bytes].
  pose proof (b2z_range b). f_equal.
  - apply b2z_inj. rewrite b2z_z2b, Z.mul_comm, Z.mod_add by lia. apply Z.mod_small. lia.
  - rewrite Z.mul_comm, Z.div_add by lia. rewrite Z.div_small by lia. by rewrite Z.add_0_l.
Qed.

(** ** Lengths, prefixes and suffixes by [usize] *)

Section lists.
Context {A : Type}.
Implicit Types (l k : list A) (x : A).

(** [len()]. *)
Definition len l : Z := Z.of_nat (length l).
Definition ztake (n : Z) l : list A := take (Z.to_nat n) l.
Definition zdrop (n : Z) l : list A := drop (Z.to_nat n) l.
(** [vec![x; n]]. *)
Definition zrep (n : Z) x : list A := replicate (Z.to_nat n) x.

(** [get(i)]; an index expression [l[i]] panics where this is [None]. *)
Definition index l (i : Z) : option A := if 0 <=? i then l !! Z.to_nat i else None.
(** [l[i] = x]. *)
Definition set_index l (i : Z) x : option (list A) :=
  if (0 <=? i) && (i <? len l) then Some (<[Z.to_nat i := x]> l) else None.
(** [get(a..)], [get(..b)] and [get(a..b)]; the slicing expressions panic on [None]. *)
Definition get_from l (a : Z) : option (list A) :=
  if (0 <=? a) && (a <=? len l) then Some (zdrop a l) else None.
Definition get_to l (b : Z) : option (list A) :=
  if (0 <=? b) && (b <=? len l) then Some (ztake b l) else None.
Definition get_range l (a b : Z) : option (list A) :=
  if (0 <=? a) && (a <=? b) && (b <=? len l) then Some (ztake (b - a) (zdrop a l)) else None.
(** [l[a..b].copy_from_slice(k)]: the range must be in bounds and as long as [k]. *)
Definition copy_from_slice l (a b : Z) k : option (list A) :=
  if (0 <=? a) && (a <=? b) && (b <=? len l) && (b - a =? len k)
  then Some (ztake a l ++ k ++ zdrop b l) else None.
(** [Vec::resize(n, x)]. *)
Definition vec_resize l (n : Z) x : list A := ztake n l ++ zrep (n - len l) x.

Lemma len_nonneg l : 0 ≤ len l.
Proof. unfold len. lia. Qed.
Lemma len_app l k : len (l ++ k) = len l + len k.
Proof. unfold len. rewrite length_app. lia. Qed.
Lemma len_cons x l : len (x :: l) = 1 + len l.
Proof. unfold len. cbn [length]. lia. Qed.
Lemma len_nil : len (@nil A) = 0.
Proof. done. Qed.
Lemma len_reverse l : len (reverse l) = len l.
Proof. unfold len. by rewrite length_reverse. Qed.
Lemma len_zrep n x : 0 ≤ n → len (zrep n x) = n.
Proof. intros. unfold len, zrep. rewrite length_replicate. lia. Qed.
Lemma len_zrep_max n x : len (zrep n x) = Z.max 0 n.
Proof. unfold len, zrep. rewrite length_replicate. lia. Qed.
Lemma len_ztake n l : 0 ≤ n ≤ len l → len (ztake n l) = n.
Proof. unfold len, ztake. intros. rewrite length_take. lia. Qed.
Lemma len_ztake_min n l : 0 ≤ n → len (ztake n l) = Z.min n (len l).
Proof. unfold len, ztake. intros. rewrite length_take. lia. Qed.
Lemma len_zdrop n l : 0 ≤ n ≤ len l → len (zdrop n l) = len l - n.
Proof. unfold len, zdrop. intros. rewrite length_drop. lia. Qed.
Lemma len_zdrop_max n l : 0 ≤ n → len (zdrop n l) = Z.max 0 (len l - n).
Proof. unfold len, zdrop. intros. rewrite length_drop. lia. Qed.

Lemma ztake_app_eq n l k : n = len l → ztake n (l ++ k) = l.
Proof. intros ->. unfold ztake, len. rewrite Nat2Z.id. by rewrite take_app_length. Qed.
Lemma zdrop_app_eq n l k : n = len l → zdrop n (l ++ k) = k.
Proof. intros ->. unfold zdrop, len. rewrite Nat2Z.id. by rewrite drop_app_length. Qed.
Lemma ztake_all n l : len l ≤ n → ztake n l = l.
Proof. unfold ztake, len. intros. rewrite take_ge; [done|lia]. Qed.
Lemma zdrop_all n l : len l ≤ n → zdrop n l = [].
Proof. unfold zdrop, len. intros. apply drop_ge. lia. Qed.
Lemma ztake_0 l : ztake 0 l = [].
Proof. done. Qed.
Lemma zdrop_0 l : zdrop 0 l = l.
Proof. done. Qed.
Lemma ztake_zdrop n l : ztake n l ++ zdrop n l = l.
Proof. apply take_drop. Qed.
Lemma zdrop_zdrop a b l : 0 ≤ a → 0 ≤ b → zdrop a (zdrop b l) = zdrop (b + a) l.
Proof. intros. unfold zdrop. rewrite drop_drop. f_equal. lia. Qed.
Lemma zdrop_app_ge n l k : len l ≤ n → zdrop n (l ++ k) = zdrop (n - len l) k.
Proof. unfold zdrop, len. intros. rewrite drop_app_ge by lia. f_equal. lia. Qed.
Lemma ztake_app_le n l k : n ≤ len l → ztake n (l ++ k) = ztake n l.
Proof. unfold ztake, len. intros. by rewrite take_app_le by lia. Qed.
Lemma ztake_app_ge n l k : len l ≤ n → ztake n (l ++ k) = l ++ ztake (n - len l) k.
Proof. unfold ztake, len. intros. rewrite take_app_ge by lia. do 2 f_equal. lia. Qed.
Lemma zrep_add m n x : 0 ≤ m → 0 ≤ n → zrep (m + n) x = zrep m x ++ zrep n x.
Proof. intros. unfold zrep. rewrite Z2Nat.inj_add by lia. apply replicate_add. Qed.
Lemma zrep_0 x : zrep 0 x = [].
Proof. done. Qed.
Lemma zrep_nonpos n x : n ≤ 0 → zrep n x = [].
Proof. intros. unfold zrep. by replace (Z.to_nat n) with O by lia. Qed.

Lemma index_app_eq n l x k : n = len l → index (l ++ x :: k) n = Some x.
Proof.
  intros ->. unfold index, len. rewrite (proj2 (Z.leb_le _ _)) by lia.
  rewrite Nat2Z.id. by rewrite list_lookup_middle.
Qed.
Lemma set_index_app_eq n l x y k : n = len l → set_index (l ++ x :: k) n y = Some (l ++ y :: k).
Proof.
  intros ->. unfold set_index. rewrite len_app, len_cons.
  pose proof (len_nonneg l). pose proof (len_nonneg k). settle.
  f_equal. unfold len. rewrite Nat2Z.id. by rewrite insert_app_r_alt, Nat.sub_diag by lia.
Qed.
Lemma index_is_Some l i : 0 ≤ i < len l → is_Some (index l i).
Proof.
  unfold index, len. intros. rewrite (proj2 (Z.leb_le _ _)) by lia.
  apply lookup_lt_is_Some. lia.
Qed.
Lemma index_Some_inv l i x : index l i = Some x → 0 ≤ i < len l.
Proof.
  unfold index, len. destruct (Z.leb_spec 0 i); [|done].
  intros Hl%lookup_lt_Some. lia.
Qed.
Lemma index_None_inv l i : 0 ≤ i → index l i = None → len l ≤ i.
Proof.
  unfold index, len. intros. rewrite (proj2 (Z.leb_le _ _)) in H0 by lia.
  apply lookup_ge_None in H0. lia.
Qed.
Lemma index_lookup l (i : nat) : index l (Z.of_nat i) = l !! i.
Proof. unfold index. rewrite (proj2 (Z.leb_le _ _)) by lia. by rewrite Nat2Z.id. Qed.

Lemma set_index_ok l i x : 0 ≤ i < len l → set_index l i x = Some (<[Z.to_nat i := x]> l).
Proof. intros. unfold set_index. by settle. Qed.
Lemma set_index_inv l k i x : set_index l i x = Some k → 0 ≤ i < len l ∧ len k = len l.
Proof.
  unfold set_index. case_match; [|done]. zify_bool. intros [= <-].
  split; [lia|]. unfold len. by rewrite length_insert.
Qed.
Lemma index_set_index l k i j x :
  set_index l i x = Some k → index k j = if j =? i then Some x else index l j.
Proof.
  unfold set_index. case_match; [|done]. zify_bool. intros [= <-]. unfold index, len in *.
  destruct (Z.leb_spec 0 j); [|by settle].
  destruct (Z.eqb_spec j i) as [->|].
  - by apply list_lookup_insert_eq; lia.
  - by rewrite list_lookup_insert_ne by lia.
Qed.
Lemma index_zrep n x i : 0 ≤ i < n → index (zrep n x) i = Some x.
Proof.
  intros. unfold index, zrep. rewrite (proj2 (Z.leb_le _ _)) by lia.
  by apply lookup_replicate_2; lia.
Qed.
Lemma index_in_range l i : 0 ≤ i < len l → ∃ x, index l i = Some x.
Proof. apply index_is_Some. Qed.

Lemma index_ztake l n i : 0 ≤ i < n → index (ztake n l) i = index l i.
Proof. intros. unfold index, ztake. settle. by rewrite lookup_take_lt by lia. Qed.
Lemma ztake_S l n x : index l n = Some x → ztake (n + 1) l = ztake n l ++ [x].
Proof.
  unfold index, ztake. destruct (Z.leb_spec 0 n); [|done]. intros Hx.
  replace (Z.to_nat (n + 1)) with (S (Z.to_nat n)) by lia. by apply take_S_r.
Qed.

Lemma index_app_r l k i : len l ≤ i → index (l ++ k) i = index k (i - len l).
Proof.
  unfold index, len. intros. settle. rewrite lookup_app_r by lia. f_equal. lia.
Qed.
Lemma index_app_l l k i : i < len l → index (l ++ k) i = index l i.
Proof.
  unfold index, len. intros. destruct (Z.leb_spec 0 i); [|done]. by rewrite lookup_app_l by lia.
Qed.
Lemma index_reverse l i : 0 ≤ i < len l → index (reverse l) i = index l (len l - 1 - i).
Proof.
  unfold index, len. intros. settle. rewrite reverse_lookup by lia. f_equal. lia.
Qed.
Lemma snoc_at l : 0 < len l → ∃ k x, l = k ++ [x] ∧ len k = len l - 1.
Proof.
  intros Hl. destruct l as [|x k _] using rev_ind; [done|]. exists k, x. split; [done|].
  rewrite len_app. cbn. unfold len. cbn. lia.
Qed.

Lemma get_from_ok l a : 0 ≤ a ≤ len l → get_from l a = Some (zdrop a l).
Proof. intros. unfold get_from. by settle. Qed.
Lemma get_to_ok l b : 0 ≤ b ≤ len l → get_to l b = Some (ztake b l).
Proof. intros. unfold get_to. by settle. Qed.
Lemma get_range_ok l a b :
  0 ≤ a → a ≤ b → b ≤ len l → get_range l a b = Some (ztake (b - a) (zdrop a l)).
Proof. intros. unfold get_range. by settle. Qed.
Lemma get_from_inv l a k : get_from l a = Some k → 0 ≤ a ≤ len l ∧ k = zdrop a l.
Proof. unfold get_from. intros. case_match; [|done]. simplify_eq. zify_bool. repeat split; lia. Qed.
Lemma get_to_inv l b k : get_to l b = Some k → 0 ≤ b ≤ len l ∧ k = ztake b l.
Proof. unfold get_to. intros. case_match; [|done]. simplify_eq. zify_bool. repeat split; lia. Qed.
Lemma get_range_inv l a b k :
  get_range l a b = Some k → 0 ≤ a ≤ b ∧ b ≤ len l ∧ k = ztake (b - a) (zdrop a l).
Proof. unfold get_range. intros. case_match; [|done]. simplify_eq. zify_bool. repeat split; lia. Qed.

Lemma zdrop_app_le n l k : 0 ≤ n ≤ len l → zdrop n (l ++ k) = zdrop n l ++ k.
Proof. intros. unfold zdrop. apply drop_app_le. unfold len in *. lia. Qed.

(** A slice does not depend on what follows it. *)
Lemma get_range_app l k a b m : get_range l a b = Some m → get_range (l ++ k) a b = Some m.
Proof.
  intros (? & ? & ->)%get_range_inv. pose proof (len_nonneg k). rewrite get_range_ok by (rewrite ?len_app; lia). f_equal.
  rewrite zdrop_app_le by lia. apply ztake_app_le. rewrite len_zdrop; lia.
Qed.

(** The three-part view of a buffer: reading and overwriting its middle part. *)
Lemma get_range_mid l k m a b :
  a = len l → b = len l + len k → get_range (l ++ k ++ m) a b = Some k.
Proof.
  intros -> ->. pose proof (len_nonneg l). pose proof (len_nonneg k). pose proof (len_nonneg m).
  rewrite get_range_ok by (rewrite ?len_app; lia).
  rewrite zdrop_app_eq by done. f_equal. apply ztake_app_eq. lia.
Qed.
Lemma copy_from_slice_mid l k k' m a b :
  a = len l → b = len l + len k → len k = len k' →
  copy_from_slice (l ++ k ++ m) a b k' = Some (l ++ k' ++ m).
Proof.
  intros -> -> Hk. pose proof (len_nonneg l). pose proof (len_nonneg k). pose proof (len_nonneg m).
  unfold copy_from_slice. rewrite !len_app. settle. f_equal.
  rewrite ztake_app_eq by done. do 2 f_equal.
  rewrite app_assoc, zdrop_app_eq; [done|]. by rewrite len_app.
Qed.

(** Overwriting the unwritten end of a buffer. *)
Lemma copy_from_slice_end l m k a b :
  a = len l → b = len l + len k → len k ≤ len m →
  copy_from_slice (l ++ m) a b k = Some (l ++ k ++ zdrop (len k) m).
Proof.
  intros -> -> Hk. pose proof (len_nonneg l). pose proof (len_nonneg k).
  unfold copy_from_slice. rewrite len_app. settle. rewrite ztake_app_eq by done.
  rewrite zdrop_app_ge by lia. do 4 f_equal. lia.
Qed.
Lemma copy_from_slice_start k k' m b :
  b = len k → len k = len k' → copy_from_slice (k ++ m) 0 b k' = Some (k' ++ m).
Proof. intros -> Hk. by apply (copy_from_slice_mid [] k k' m). Qed.
Lemma set_index_split l i x :
  0 ≤ i < len l → set_index l i x = Some (ztake i l ++ x :: zdrop (i + 1) l).
Proof.
  intros Hi. rewrite set_index_ok by done. f_equal. unfold ztake, zdrop, len in *.
  rewrite insert_take_drop by lia. do 3 f_equal. lia.
Qed.
Lemma ztake_ztake a b l : a ≤ b → ztake a (ztake b l) = ztake a l.
Proof. intros. unfold ztake. rewrite take_take. f_equal. lia. Qed.
Lemma zdrop_S l n x : index l n = Some x → zdrop n l = x :: zdrop (n + 1) l.
Proof.
  unfold index, zdrop. destruct (Z.leb_spec 0 n); [|done]. intros Hx.
  replace (Z.to_nat (n + 1)) with (S (Z.to_nat n)) by lia. by apply drop_S.
Qed.
Lemma ztake_cons n x l : 0 < n → ztake n (x :: l) = x :: ztake (n - 1) l.
Proof.
  intros. unfold ztake. replace (Z.to_nat n) with (S (Z.to_nat (n - 1))) by lia. done.
Qed.
End lists.

Lemma len_map {A B} (f : A → B) l : len (map f l) = len l.
Proof. unfold len. by rewrite length_map. Qed.

Lemma len_le_bytes n z : len (le_bytes n z) = Z.of_nat n.
Proof. unfold len. by rewrite length_le_bytes. Qed.

Create Rewrite HintDb len.
#[export] Hint Rewrite @len_app @len_cons @len_nil @len_reverse @len_map len_le_bytes : len.
(** Lengths of concatenations as sums. *)
Ltac len_simpl := autorewrite with len in *.
Ltac len_pos :=
  repeat match goal with
  | |- context [len ?l] => match goal with
    | _ : 0 ≤ len l |- _ => fail 1 | _ => pose proof (len_nonneg l) end
  | _ : context [len ?l] |- _ => match goal with
    | _ : 0 ≤ len l |- _ => fail 1 | _ => pose proof (len_nonneg l) end
  end.
Ltac len_lia := len_simpl; len_pos; mlia.

Definition zeros (n : Z) : list byte := zrep n x00.

Lemma len_zeros n : 0 ≤ n → len (zeros n) = n.
Proof. apply len_zrep. Qed.
Lemma zeros_add m n : 0 ≤ m → 0 ≤ n → zeros (m + n) = zeros m ++ zeros n.
Proof. apply zrep_add. Qed.

(** [vec![0u8; n]]: a capacity above [isize::MAX] panics. *)
Definition vec_zeroed (n : Z) : option (list byte) :=
  if n <=? ISIZE_MAX then Some (zeros n) else None.

Lemma vec_zeroed_ok n : n ≤ ISIZE_MAX → vec_zeroed n = Some (zeros n).
Proof. intros. unfold vec_zeroed. by rewrite (proj2 (Z.leb_le _ _)). Qed.

(** [Vec::with_capacity(n)]: the same limit. *)
Definition with_capacity (n : Z) : option unit := if n <=? ISIZE_MAX then Some tt else None.

Lemma with_capacity_ok n : n ≤ ISIZE_MAX → with_capacity n = Some tt.
Proof. intros. unfold with_capacity. by rewrite (proj2 (Z.leb_le _ _)). Qed.

(** Writing at the front of a zeroed region of a buffer. *)
Lemma copy_into_zeros l n m k a b :
  a = len l → b = len l + len k → len k ≤ n →
  copy_from_slice (l ++ zeros n ++ m) a b k = Some ((l ++ k) ++ zeros (n - len k) ++ m).
Proof.
  intros -> -> Hn. pose proof (len_nonneg k).
  replace n with (len k + (n - len k)) at 1 by lia.
  rewrite zeros_add, <-(app_assoc (zeros (len k))), <-app_assoc by lia.
  apply copy_from_slice_mid; rewrite ?len_zeros; lia.
Qed.

(** ** Writing pieces at increasing offsets of a zeroed buffer *)

(** The writes [buf[off..off + piece.len()].copy_from_slice(piece)], in order. *)
Fixpoint write_all (buf : list byte) (pieces : list (Z * list byte)) : option (list byte) :=
  match pieces with
  | [] => Some buf
  | (off, piece) :: pieces =>
    buf ← copy_from_slice buf off (off + len piece) piece;
    write_all buf pieces
  end.

(** What they leave: each piece at its offset, zeros between. *)
Definition place (l : list byte) (p : Z * list byte) : list byte := l ++ zeros (p.1 - len l) ++ p.2.
Definition places (l : list byte) (pieces : list (Z * list byte)) : list byte := foldl place l pieces.

Fixpoint ascending (from : Z) (pieces : list (Z * list byte)) : Prop :=
  match pieces with
  | [] => True
  | (off, piece) :: pieces => from ≤ off ∧ ascending (off + len piece) pieces
  end.
Fixpoint pieces_end (from : Z) (pieces : list (Z * list byte)) : Z :=
  match pieces with [] => from | (off, piece) :: pieces => pieces_end (off + len piece) pieces end.

Lemma len_place l off k : len l ≤ off → len (place l (off, k)) = off + len k.
Proof. intros. unfold place. cbn [fst snd]. rewrite !len_app, len_zeros by lia. lia. Qed.

Lemma ascending_end from pieces : ascending from pieces → from ≤ pieces_end from pieces.
Proof.
  revert from. induction pieces as [|[off k] ps IH]; intros from; cbn; [lia|].
  intros [H1 H2]. specialize (IH _ H2). pose proof (len_nonneg k). lia.
Qed.

Lemma len_places l pieces : ascending (len l) pieces → len (places l pieces) = pieces_end (len l) pieces.
Proof.
  revert l. induction pieces as [|[off k] ps IH]; intros l; [done|]. intros [H1 H2].
  cbn [places foldl pieces_end]. rewrite <-(len_place l off k) in * by done. by apply IH.
Qed.

Lemma places_prefix l pieces : ∃ r, places l pieces = l ++ r.
Proof.
  revert l. induction pieces as [|[off k] ps IH]; intros l; [exists []; by rewrite app_nil_r|].
  cbn [places foldl]. destruct (IH (place l (off, k))) as [r Hr]. unfold places in Hr. rewrite Hr.
  unfold place. rewrite <-!app_assoc. eauto.
Qed.

(** Each piece is found at its offset. *)
Lemma places_split l pre off k post :
  ascending (len l) (pre ++ (off, k) :: post) →
  ∃ p r, places l (pre ++ (off, k) :: post) = p ++ k ++ r ∧ len p = off.
Proof.
  revert l. induction pre as [|[o k'] pre IH]; intros l; cbn [app ascending].
  - intros [H1 H2]. cbn [places foldl]. destruct (places_prefix (place l (off, k)) post) as [r Hr].
    unfold places in Hr. rewrite Hr. unfold place. cbn [fst snd].
    exists (l ++ zeros (off - len l)), r. rewrite <-!app_assoc. split; [done|].
    rewrite len_app, len_zeros by lia. lia.
  - intros [H1 H2]. cbn [places foldl]. rewrite <-(len_place l o k') in H2 by done. by apply IH.
Qed.

Lemma write_all_spec l n pieces :
  ascending (len l) pieces → pieces_end (len l) pieces ≤ len l + n →
  write_all (l ++ zeros n) pieces
    = Some (places l pieces ++ zeros (len l + n - pieces_end (len l) pieces)).
Proof.
  revert l n. induction pieces as [|[off k] ps IH]; intros l n; cbn [ascending pieces_end write_all places foldl].
  { intros _ _. do 3 f_equal. lia. }
  intros [H1 H2] Hend. pose proof (ascending_end _ _ H2). pose proof (len_nonneg k).
  assert (zeros n = zeros (off - len l) ++ zeros (n - (off - len l))) as ->.
  { rewrite <-zeros_add by lia. f_equal. lia. }
  rewrite app_assoc, <-(app_nil_r (zeros (n - _))).
  rewrite copy_into_zeros by (rewrite ?len_app, ?len_zeros; lia).
  cbn [mbind option_bind]. rewrite app_nil_r, <-(app_assoc l). change (l ++ zeros (off - len l) ++ k) with (place l (off, k)).
  pose proof (len_place l off k H1) as Hp. rewrite IH.
  - unfold places. rewrite Hp. do 3 f_equal. lia.
  - by rewrite Hp.
  - rewrite Hp. lia.
Qed.
