(* ===== verification/Strs.v ===== *)
(** * Strings and sorting

    What the crate uses of Rust's [str] and of slice sorting: UTF-8 validation, NUL-terminated
    fields, the bytewise ordering of strings, and the stable [sort_by]. A [String] or a valid
    [&str] is the list of its UTF-8 bytes. *)

From stdpp Require Export sorting.
From S2P Require Import Prelude Bytes.
#[local] Open Scope Z_scope.

(** ** [core::str::from_utf8] *)

Definition in_range (lo hi : Z) (b : byte) : bool := (lo <=? b2z b) && (b2z b <=? hi).
Definition is_cont : byte → bool := in_range 0x80 0xBF.

(** The well-formed byte sequences of the Unicode standard (table 3-7), longest lead first. *)
Fixpoint utf8_valid (l : list byte) : bool :=
  match l with
  | [] => true
  | b0 :: l1 =>
    if in_range 0x00 0x7F b0 then utf8_valid l1 else
    match l1 with
    | [] => false
    | b1 :: l2 =>
      if in_range 0xC2 0xDF b0 then is_cont b1 && utf8_valid l2 else
      match l2 with
      | [] => false
      | b2 :: l3 =>
        if in_range 0xE0 0xEF b0 then
          (if in_range 0xE0 0xE0 b0 then in_range 0xA0 0xBF b1
           else if in_range 0xED 0xED b0 then in_range 0x80 0x9F b1
           else is_cont b1) && is_cont b2 && utf8_valid l3
        else
        match l3 with
        | [] => false
        | b3 :: l4 =>
          in_range 0xF0 0xF4 b0 &&
          (if in_range 0xF0 0xF0 b0 then in_range 0x90 0xBF b1
           else if in_range 0xF4 0xF4 b0 then in_range 0x80 0x8F b1
           else is_cont b1) && is_cont b2 && is_cont b3 && utf8_valid l4
        end
      end
    end
  end.

Lemma utf8_valid_ascii l : forallb (in_range 0x00 0x7F) l = true → utf8_valid l = true.
Proof. induction l as [|b l IH]; [done|]. cbn [forallb utf8_valid]. by intros [-> Hl%IH]%andb_true_iff. Qed.

(** [core::str::from_utf8(l).unwrap_or("")]. *)
Definition utf8_or_empty (l : list byte) : list byte := if utf8_valid l then l else [].

Lemma utf8_or_empty_valid l : utf8_valid l = true → utf8_or_empty l = l.
Proof. unfold utf8_or_empty. by intros ->. Qed.

Lemma in_range_ne lo hi b c : in_range lo hi b = true → in_range lo hi c = false → b ≠ c.
Proof. congruence. Qed.

(** Valid text is a character and valid text; a character of several bytes has no ASCII byte. *)
Lemma utf8_first_char l :
  utf8_valid l = true → l ≠ [] →
  ∃ c r, l = c ++ r ∧ c ≠ [] ∧ utf8_valid r = true ∧
    ((∃ x, c = [x]) ∨ Forall (λ b, in_range 0x00 0x7F b = false) c) ∧
    ∀ r', utf8_valid r' = true → utf8_valid (c ++ r') = true.
Proof.
  intros H Hne. assert (∀ lo hi b, 0x7F < lo → in_range lo hi b = true → in_range 0 0x7F b = false) as Hascii.
  { intros lo hi b Hlo. unfold in_range. intros Hb. zify_bool. rewrite (proj2 (Z.leb_gt (b2z b) 0x7F)) by lia. apply andb_false_r. }
  assert (∀ b, is_cont b = true → in_range 0 0x7F b = false) as Hcont by (intros b; by apply Hascii).
  destruct l as [|b0 l1]; [done|]. cbn [utf8_valid] in H. destruct (in_range 0 0x7F b0) eqn:E0.
  { exists [b0], l1. split_and!; [done|done|done|by left; exists b0|]. intros r' Hr. cbn [app utf8_valid]. by rewrite E0. }
  destruct l1 as [|b1 l2]; [done|]. destruct (in_range 0xC2 0xDF b0) eqn:E1.
  { apply andb_true_iff in H as [H1 H]. exists [b0; b1], l2.
    split_and!; [done|done|done|right; repeat constructor; auto|].
    intros r' Hr. cbn [app utf8_valid]. by rewrite E0, E1, H1, Hr. }
  destruct l2 as [|b2 l3]; [done|]. destruct (in_range 0xE0 0xEF b0) eqn:E2.
  { apply andb_true_iff in H as [[H1 H2]%andb_true_iff H]. exists [b0; b1; b2], l3.
    split_and!; [done|done|done| |].
    - right. repeat constructor; auto. repeat case_match; (eapply Hascii; [|eassumption]; done).
    - intros r' Hr. cbn [app utf8_valid]. by rewrite E0, E1, E2, H1, H2, Hr. }
  destruct l3 as [|b3 l4]; [done|].
  apply andb_true_iff in H as [[[[E3 H1]%andb_true_iff H2]%andb_true_iff H3]%andb_true_iff H].
  exists [b0; b1; b2; b3], l4. split_and!; [done|done|done| |].
  - right. repeat constructor; auto. repeat case_match; (eapply Hascii; [|eassumption]; done).
  - intros r' Hr. cbn [app utf8_valid]. by rewrite E0, E1, E2, E3, H1, H2, H3, Hr.
Qed.

(** Valid text splits at an ASCII byte into valid text. *)
Lemma utf8_valid_split a x b :
  in_range 0x00 0x7F x = true → utf8_valid (a ++ x :: b) = true → utf8_valid a = true ∧ utf8_valid b = true.
Proof.
  intros Hx. remember (length a) as n eqn:Hn. revert a Hn.
  induction n as [n IH] using lt_wf_ind. intros a -> H.
  destruct (utf8_first_char _ H) as (c & r & He & Hc & Hr & Hone & Hext); [by destruct a|].
  destruct a as [|y a].
  { split; [done|]. cbn [utf8_valid app] in H. by rewrite Hx in H. }
  destruct c as [|y' c]; [done|]. injection He as <- He.
  assert (∃ k, a = c ++ k ∧ r = k ++ x :: b) as (k & -> & ->).
  { destruct Hone as [[z [= <- ->]]|Hone]; [by exists a|].
    apply app_eq_app in He as (k & [[-> ->]|[-> He]]); [by exists k|].
    destruct k as [|z k]; [exists []; by rewrite !app_nil_r|].
    injection He as -> He. apply Forall_cons in Hone as [_ Hone]. apply Forall_app in Hone as [_ Hone].
    apply Forall_cons in Hone as [Hz _]. congruence. }
  destruct (IH (length k)) with (a := k) as [Hk Hb]; [cbn; rewrite length_app; lia|done|done|].
  split; [by apply (Hext k)|done].
Qed.

(** ** NUL-terminated fields *)

(** [iter().position(|b| *b == 0).unwrap_or(len())]. *)
Fixpoint nul_position (l : list byte) : Z :=
  match l with [] => 0 | b :: l => if b2z b =? 0 then 0 else 1 + nul_position l end.

(** [contains(&x)] for a byte. *)
Definition contains_byte (l : list byte) (x : Z) : bool := existsb (λ b, b2z b =? x) l.

Lemma nul_position_range l : 0 ≤ nul_position l ≤ len l.
Proof. induction l as [|b l IH]; [done|]. cbn [nul_position]. case_match; len_lia. Qed.

Lemma nul_position_app l k :
  contains_byte l 0 = false → nul_position (l ++ x00 :: k) = len l.
Proof.
  unfold contains_byte. induction l as [|b l IH]; [done|]. cbn [existsb app nul_position].
  intros [Hb Hl]%orb_false_iff. rewrite Hb, IH by done. by rewrite len_cons.
Qed.

Lemma contains_byte_before_nul l : contains_byte (ztake (nul_position l) l) 0 = false.
Proof.
  unfold contains_byte. induction l as [|b l IH]; [done|]. cbn [nul_position].
  destruct (b2z b =? 0) eqn:Hb; [done|]. pose proof (nul_position_range l).
  rewrite ztake_cons by lia. cbn [existsb]. rewrite Hb. cbn.
  by replace (1 + nul_position l - 1) with (nul_position l) by lia.
Qed.

Lemma contains_byte_app l k x : contains_byte (l ++ k) x = contains_byte l x || contains_byte k x.
Proof. apply existsb_app. Qed.

(** ** String comparison *)

Fixpoint str_le (a b : list byte) : bool :=
  match a, b with
  | [], _ => true
  | _ :: _, [] => false
  | x :: a, y :: b =>
    if b2z x <? b2z y then true else if b2z x =? b2z y then str_le a b else false
  end.

Lemma str_le_refl a : str_le a a = true.
Proof. induction a as [|x a IH]; [done|]. cbn. by rewrite Z.ltb_irrefl, Z.eqb_refl. Qed.

Lemma str_le_total a b : str_le a b = true ∨ str_le b a = true.
Proof.
  revert b. induction a as [|x a IH]; intros [|y b]; cbn; auto.
  destruct (Z.ltb_spec (b2z x) (b2z y)), (Z.ltb_spec (b2z y) (b2z x)); auto.
  rewrite (proj2 (Z.eqb_eq _ _)) by lia. rewrite (proj2 (Z.eqb_eq _ _)) by lia. auto.
Qed.

Lemma str_le_trans a b c : str_le a b = true → str_le b c = true → str_le a c = true.
Proof.
  revert b c. induction a as [|x a IH]; intros [|y b] [|z c]; cbn; auto; try discriminate.
  repeat case_match; zify_bool; try lia; try discriminate; eauto.
Qed.

Lemma str_le_antisymm a b : str_le a b = true → str_le b a = true → a = b.
Proof.
  revert b. induction a as [|x a IH]; intros [|y b]; cbn; auto; try discriminate.
  repeat case_match; zify_bool; try lia; try discriminate.
  intros. f_equal; [by apply b2z_inj|]. eauto.
Qed.

(** ** The stable [sort_by] *)

Section sort.
Context {A : Type} (le : A → A → bool).

Fixpoint insert_by (x : A) (l : list A) : list A :=
  match l with
  | [] => [x]
  | y :: k => if le x y then x :: l else y :: insert_by x k
  end.
Definition sort_by (l : list A) : list A := foldr insert_by [] l.

Lemma insert_by_perm x l : insert_by x l ≡ₚ x :: l.
Proof. induction l as [|y l IH]; [done|]. cbn. case_match; [done|]. rewrite IH. constructor. Qed.

Lemma sort_by_perm l : sort_by l ≡ₚ l.
Proof. induction l as [|x l IH]; [done|]. cbn. fold (sort_by l). by rewrite insert_by_perm, IH. Qed.

Lemma len_sort_by l : len (sort_by l) = len l.
Proof. unfold len. by rewrite (Permutation_length (sort_by_perm l)). Qed.

Context (le_total : ∀ x y, le x y = true ∨ le y x = true).
Context (le_trans : ∀ x y z, le x y = true → le y z = true → le x z = true).
Let sorted (l : list A) := StronglySorted (λ x y, le x y = true) l.

Lemma insert_by_sorted x l : sorted l → sorted (insert_by x l).
Proof using le_total le_trans.
  unfold sorted. induction 1 as [|y l Hl IH Hy]; cbn; [repeat constructor|].
  destruct (le x y) eqn:E.
  - constructor; [by constructor|]. constructor; [done|].
    eapply Forall_impl; [exact Hy|]. cbn. intros z Hz. by apply le_trans with y.
  - constructor; [done|]. rewrite insert_by_perm. constructor; [|done].
    destruct (le_total x y); congruence.
Qed.

Lemma sort_by_sorted l : sorted (sort_by l).
Proof using le_total le_trans. induction l; cbn; [constructor|]. by apply insert_by_sorted. Qed.

(** An already sorted input keeps its order, ties included. *)
Lemma sort_by_id l : sorted l → sort_by l = l.
Proof.
  unfold sorted. induction 1 as [|y l Hl IH Hy]; [done|]. cbn. fold (sort_by l). rewrite IH.
  destruct l as [|z l]; [done|]. cbn. inversion Hy as [|? ? Hz]; subst. by rewrite Hz.
Qed.

(** Two sorted permutations whose elements the order separates are the same list. *)
Lemma sorted_perm_eq l k :
  (∀ x y, x ∈ l → y ∈ l → le x y = true → le y x = true → x = y) →
  sorted l → sorted k → l ≡ₚ k → l = k.
Proof.
  unfold sorted. intros Hanti Hl. revert k Hanti.
  induction Hl as [|x l Hl IH Hx]; intros k Hanti Hk Hp.
  { by apply Permutation_nil_l in Hp. }
  destruct Hk as [|y k Hk Hy]; [by apply Permutation_nil_r in Hp|].
  assert (x = y) as ->.
  { assert (y ∈ x :: l) as Hyl by (rewrite Hp; left).
    assert (x ∈ y :: k) as Hxk by (rewrite <-Hp; left).
    apply elem_of_cons in Hyl as [|Hyl]; [done|].
    apply elem_of_cons in Hxk as [|Hxk]; [done|].
    rewrite Forall_forall in Hx, Hy.
    apply Hanti; [left|by right|by apply Hx|by apply Hy]. }
  f_equal. apply IH; [|done|by apply Permutation_cons_inv in Hp].
  intros a b Ha Hb. apply Hanti; by right.
Qed.
End sort.
