(* ===== verification/Fs.v ===== *)
(** * The file system as the [from_directory] builders see it

    What the two builders call of [std::fs]: listing a directory and reading a file, with the entries
    the listing yields. The file system is an argument of the definitions, [FileSystem]; it answers the
    same to the same question throughout a call. [node] is a directory tree as a value, and [on_disk]
    says that a path of the file system holds one. *)

From S2P Require Import Prelude Bytes Strs.
#[local] Open Scope Z_scope.

(** ** Definitions *)

(** [std::fs::FileType]: [is_dir], [is_file] and [is_symlink] are exclusive and may all be false. *)
Inductive FileType := IsDir | IsFile | IsSymlink | IsOther.

(** [std::fs::DirEntry]: [path], [file_name], and [file_type] and [metadata], which may fail. Neither
    follows a symbolic link. *)
Record OsEntry {path error : Type} := {
  os_path : path;
  os_file_name : list byte;
  os_file_type : error + FileType;
  os_metadata : error + FileType;
}.
Arguments OsEntry : clear implicits.

(** Listing fails as a whole, or yields entries each of which may be an error. *)
Class FileSystem := {
  fs_path : Type;
  io_error : Type;
  fs_read_dir : fs_path → io_error + list (io_error + OsEntry fs_path io_error);
  fs_read : fs_path → io_error + list byte;
}.

(** [map_err(..)?] on the result of a call. *)
Definition try_io {error E A : Type} (err : error → E) (r : error + A) : outcome E A :=
  match r with inl source => Err (err source) | inr a => Ok a end.

(** A name of a file or a directory: non-empty UTF-8 text without a slash. *)
Definition name_ok (n : list byte) : Prop := n ≠ [] ∧ (x2f ∉ n) ∧ utf8_valid n = true.

(** [OsStr::to_str], and [OsString::into_string] with its error dropped. *)
Definition to_str (name : list byte) : option (list byte) := if utf8_valid name then Some name else None.

(** A file, a directory with its entries in the order they are listed, a link, or anything else. *)
Inductive node :=
| NFile (data : list byte)
| NDir (entries : list (list byte * node))
| NSymlink
| NOther.

Definition node_type (n : node) : FileType :=
  match n with NFile _ => IsFile | NDir _ => IsDir | NSymlink => IsSymlink | NOther => IsOther end.

Fixpoint child (entries : list (list byte * node)) (name : list byte) : option node :=
  match entries with
  | [] => None
  | (n, c) :: entries => if bool_decide (n = name) then Some c else child entries name
  end.

(** What is at a path of names below a node. *)
Fixpoint node_at (n : node) (names : list (list byte)) : option node :=
  match names with
  | [] => Some n
  | name :: names => match n with NDir es => c ← child es name; node_at c names | _ => None end
  end.

(** The directories of a tree, itself included. *)
Fixpoint ndirs (n : node) : nat :=
  match n with
  | NDir es => S (list_sum (map (λ e, ndirs e.2) es))
  | _ => 0%nat
  end.

(** The names of a directory are distinct text. *)
Inductive node_ok : node → Prop :=
| ok_file x : node_ok (NFile x)
| ok_dir es : NoDup es.*1 → Forall (λ e, name_ok e.1 ∧ node_ok e.2) es → node_ok (NDir es)
| ok_symlink : node_ok NSymlink
| ok_other : node_ok NOther.

(** A path of the file system holds a tree. *)
Inductive on_disk `{FileSystem} : fs_path → node → Prop :=
| disk_file p x : fs_read p = inr x → on_disk p (NFile x)
| disk_dir p es entries :
    fs_read_dir p = inr (inr <$> entries) →
    Forall2 (λ (e : OsEntry fs_path io_error) (c : list byte * node),
      os_file_name e = c.1 ∧ os_file_type e = inr (node_type c.2) ∧
      os_metadata e = inr (node_type c.2) ∧ on_disk (os_path e) c.2) entries es →
    on_disk p (NDir es)
| disk_symlink p : on_disk p NSymlink
| disk_other p : on_disk p NOther.

(** An entry of a listing stands for a named node. *)
Definition entry_on_disk `{FileSystem} (e : OsEntry fs_path io_error) (c : list byte * node) : Prop :=
  os_file_name e = c.1 ∧ os_file_type e = inr (node_type c.2) ∧
  os_metadata e = inr (node_type c.2) ∧ on_disk (os_path e) c.2.

(** ** Lemmas *)

Section node_ind.
Context (P : node → Prop) (Hfile : ∀ x, P (NFile x)) (Hlink : P NSymlink) (Hother : P NOther).
Context (Hdir : ∀ es, Forall (λ e, P e.2) es → P (NDir es)).

(** Induction over a tree: a directory's entries are smaller. *)
Fixpoint node_ind' (n : node) : P n :=
  match n with
  | NFile x => Hfile x
  | NSymlink => Hlink
  | NOther => Hother
  | NDir es => Hdir es ((fix entries_ind (es : list (list byte * node)) : Forall (λ e, P e.2) es :=
      match es with
      | [] => Forall_nil_2 _
      | e :: es => Forall_cons_2 _ e es (node_ind' e.2) (entries_ind es)
      end) es)
  end.
End node_ind.

Lemma child_elem es name c : child es name = Some c → (name, c) ∈ es.
Proof.
  induction es as [|[n d] es IH]; [done|]. cbn. case_bool_decide as Hn; [intros [= ->]; subst; by left|].
  intros H. right. by apply IH.
Qed.

Lemma child_unique es name c : NoDup es.*1 → (name, c) ∈ es → child es name = Some c.
Proof.
  induction es as [|[n d] es IH]; [by intros _ ?%elem_of_nil|]. intros [Hn Hnd]%NoDup_cons Hin. cbn.
  apply elem_of_cons in Hin as [[= -> ->]|Hin]; [by rewrite bool_decide_true|].
  rewrite bool_decide_false; [by apply IH|]. intros ->. apply Hn. by apply (list_elem_of_fmap_2 fst) in Hin.
Qed.

Lemma node_at_app n names names' : node_at n (names ++ names') = (c ← node_at n names; node_at c names').
Proof.
  revert n. induction names as [|name names IH]; intros n; [done|]. cbn. destruct n; try done.
  destruct (child _ _); [|done]. cbn. apply IH.
Qed.

(** What is at a path with a last name is an entry of the directory at the rest. *)
Lemma node_at_snoc n names name c :
  node_at n (names ++ [name]) = Some c → ∃ es, node_at n names = Some (NDir es) ∧ (name, c) ∈ es.
Proof.
  rewrite node_at_app. destruct (node_at n names) as [[]|]; try done. cbn. intros H.
  destruct (child entries name) as [d|] eqn:Hc; [|done]. injection H as ->. exists entries. split; [done|].
  by apply child_elem.
Qed.

Lemma node_at_entry n names es name c :
  node_at n names = Some (NDir es) → NoDup es.*1 → (name, c) ∈ es → node_at n (names ++ [name]) = Some c.
Proof. intros Hn Hnd Hin. rewrite node_at_app, Hn. cbn. by rewrite (child_unique _ _ _ Hnd Hin). Qed.

Lemma node_ok_at n names c : node_ok n → node_at n names = Some c → node_ok c.
Proof.
  revert n. induction names as [|name names IH]; intros n Hn Hc; [by injection Hc as <-|].
  destruct n as [|es| |]; try done. cbn in Hc. destruct (child es name) as [d|] eqn:Hd; [|done].
  apply child_elem in Hd. inversion_clear Hn as [|? _ Hf| |]. rewrite Forall_forall in Hf.
  destruct (Hf _ Hd) as [_ ?]. by eapply IH.
Qed.

Lemma node_at_names n names c : node_ok n → node_at n names = Some c → Forall name_ok names.
Proof.
  revert n. induction names as [|name names IH]; intros n Hn Hc; [constructor|].
  destruct n as [|es| |]; try done. cbn in Hc. destruct (child es name) as [d|] eqn:Hd; [|done].
  apply child_elem in Hd. inversion_clear Hn as [|? _ Hf| |]. rewrite Forall_forall in Hf.
  destruct (Hf _ Hd). constructor; [done|by eapply IH].
Qed.

(** ** A file system that holds a given tree *)

(** Paths are lists of names from the tree's root; the only error is that there is nothing of the kind. *)
Definition fs_reference (root : node) : FileSystem := {|
  fs_path := list (list byte);
  io_error := unit;
  fs_read_dir p := match node_at root p with
    | Some (NDir es) => inr (map (λ e, inr {| os_path := p ++ [e.1]; os_file_name := e.1;
        os_file_type := inr (node_type e.2); os_metadata := inr (node_type e.2) |}) es)
    | _ => inl tt
    end;
  fs_read p := match node_at root p with Some (NFile x) => inr x | _ => inl tt end;
|}.

Lemma reference_on_disk root : node_ok root → @on_disk (fs_reference root) [] root.
Proof.
  intros Hroot. pose (FS := fs_reference root).
  enough (∀ n p, node_at root p = Some n → @on_disk FS p n) as H by by apply H.
  intros n. induction n as [x| | |es IH] using node_ind'; intros p Hp.
  - apply disk_file. cbn. by rewrite Hp.
  - apply disk_symlink.
  - apply disk_other.
  - pose proof (node_ok_at _ _ _ Hroot Hp) as Hok. inversion_clear Hok as [|? Hnd _| |].
    apply (@disk_dir FS p es (map (λ e, {| os_path := p ++ [e.1]; os_file_name := e.1;
      os_file_type := inr (node_type e.2); os_metadata := inr (node_type e.2) |}) es)).
    { cbn. rewrite Hp. f_equal. by rewrite <-list_fmap_compose. }
    assert (∀ e, e ∈ es → node_at root (p ++ [e.1]) = Some e.2) as Hat.
    { intros [nm c] Hin. by eapply node_at_entry. }
    clear Hp Hnd. induction IH as [|e es He _ IHes]; [constructor|]. cbn [map]. constructor.
    + cbn. split_and!; [done|done|done|]. apply He. apply Hat. by left.
    + apply IHes. intros e' He'. apply Hat. by right.
Qed.
