(* ===== verification/Layout.v ===== *)
(** * Structure layouts and the zerocopy interface

    The on-disk structures of [src/src/raw/] are [#[repr(C)]] records of byte-aligned fields, so a
    value occupies its fields' bytes in declaration order. [Layout] is that correspondence between
    a structure and its bytes, with the two round trips as laws, and the combinators below build
    the layout of each structure from its field list.

    The zerocopy crate, through which the code views bytes as such structures, is third-party: the
    class [Zerocopy] takes its operations as a parameter of the model, with what its documentation
    says of them as laws. [zerocopy_reference] shows the laws can hold. *)

From S2P Require Import Prelude Bytes.
#[local] Open Scope Z_scope.

Class Layout (T : Type) := {
  size_of : Z;
  to_bytes : T → list byte;
  of_bytes : list byte → T;
  (** The values the structure can hold: each field within its width. *)
  wf : T → Prop;
  size_of_nonneg : 0 ≤ size_of;
  len_to_bytes x : wf x → len (to_bytes x) = size_of;
  of_to_bytes x : wf x → of_bytes (to_bytes x) = x;
  to_of_bytes l : len l = size_of → to_bytes (of_bytes l) = l;
  wf_of_bytes l : len l = size_of → wf (of_bytes l);
}.
Arguments size_of T {_} : assert.
#[export] Hint Mode Layout ! : typeclass_instances.

(** An unsigned little-endian integer of [n] bytes ([u8], [U16], [U32], [U64]). *)
Program Definition L_uint (n : nat) : Layout Z := {|
  size_of := Z.of_nat n;
  to_bytes z := le_bytes n z;
  of_bytes l := le_val l;
  wf z := 0 ≤ z < 256 ^ Z.of_nat n;
|}.
Next Obligation. intros. lia. Qed.
Next Obligation. intros. apply len_le_bytes. Qed.
Next Obligation. intros. by apply le_val_le_bytes_small. Qed.
Next Obligation.
  intros n l Hl. unfold len in Hl. assert (n = length l) as -> by lia. apply le_bytes_le_val.
Qed.
Next Obligation.
  intros n l Hl. unfold len in Hl. assert (n = length l) as -> by lia. apply le_val_range.
Qed.

(** A two's-complement little-endian integer of [n] bytes ([i8], [I32]). *)
Definition sint_of (n : nat) (u : Z) : Z :=
  if 2 * u <? 256 ^ Z.of_nat n then u else u - 256 ^ Z.of_nat n.
Program Definition L_sint (n : nat) : Layout Z := {|
  size_of := Z.of_nat n;
  to_bytes z := le_bytes n (z mod 256 ^ Z.of_nat n);
  of_bytes l := sint_of n (le_val l);
  wf z := - 256 ^ Z.of_nat n ≤ 2 * z < 256 ^ Z.of_nat n;
|}.
Next Obligation. intros. lia. Qed.
Next Obligation. intros. apply len_le_bytes. Qed.
Next Obligation.
  intros n z Hz. cbn in *. assert (0 < 256 ^ Z.of_nat n) by (apply Z.pow_pos_nonneg; lia).
  rewrite le_val_le_bytes, Z.mod_mod by lia. unfold sint_of.
  destruct (Z.le_gt_cases 0 z).
  - rewrite Z.mod_small by lia. by settle.
  - replace (z mod 256 ^ Z.of_nat n) with (z + 256 ^ Z.of_nat n); [settle; lia|].
    apply Z.mod_unique with (-1); lia.
Qed.
Next Obligation.
  intros n l Hl. unfold len in Hl. assert (n = length l) as -> by lia.
  pose proof (le_val_range l) as Hr. unfold sint_of.
  transitivity (le_bytes (length l) (le_val l)); [f_equal|apply le_bytes_le_val].
  destruct (Z.ltb_spec (2 * le_val l) (256 ^ Z.of_nat (length l))); [by apply Z.mod_small|].
  symmetry. apply Z.mod_unique with (-1); lia.
Qed.
Next Obligation.
  intros n l Hl. unfold len in Hl. assert (n = length l) as -> by lia.
  pose proof (le_val_range l) as Hr. unfold sint_of.
  destruct (Z.ltb_spec (2 * le_val l) (256 ^ Z.of_nat (length l))); lia.
Qed.

(** A byte array [[u8; n]]. *)
Program Definition L_bytes (n : Z) (Hn : 0 ≤ n) : Layout (list byte) := {|
  size_of := n;
  to_bytes l := l;
  of_bytes l := l;
  wf l := len l = n;
|}.
Next Obligation. auto. Qed.
Next Obligation. auto. Qed.
Next Obligation. auto. Qed.
Next Obligation. auto. Qed.
Next Obligation. auto. Qed.

(** Two consecutive fields. *)
Program Definition L_pair {A B} (LA : Layout A) (LB : Layout B) : Layout (A * B) := {|
  size_of := size_of A + size_of B;
  to_bytes x := to_bytes x.1 ++ to_bytes x.2;
  of_bytes l := (of_bytes (ztake (size_of A) l), of_bytes (zdrop (size_of A) l));
  wf x := wf x.1 ∧ wf x.2;
|}.
Next Obligation. intros A B LA LB. pose proof (@size_of_nonneg A _); pose proof (@size_of_nonneg B _). lia. Qed.
Next Obligation. intros A B LA LB [a b] [Ha Hb]. rewrite len_app. by rewrite !len_to_bytes. Qed.
Next Obligation.
  intros A B LA LB [a b] [Ha Hb]. cbn in *.
  rewrite ztake_app_eq, zdrop_app_eq by (by rewrite len_to_bytes). by rewrite !of_to_bytes.
Qed.
Next Obligation.
  intros A B LA LB l Hl. cbn in *.
  pose proof (@size_of_nonneg A _); pose proof (@size_of_nonneg B _).
  rewrite !to_of_bytes; [apply ztake_zdrop|rewrite len_zdrop|rewrite len_ztake]; lia.
Qed.
Next Obligation.
  intros A B LA LB l Hl. cbn in *.
  pose proof (@size_of_nonneg A _); pose proof (@size_of_nonneg B _).
  split; apply wf_of_bytes; [rewrite len_ztake|rewrite len_zdrop]; lia.
Qed.

(** An array [[T; n]] of consecutive elements. *)
Fixpoint array_of_bytes {A} `{Layout A} (n : nat) (l : list byte) : list A :=
  match n with
  | O => []
  | S n => of_bytes (ztake (size_of A) l) :: array_of_bytes n (zdrop (size_of A) l)
  end.
Definition array_to_bytes {A} `{Layout A} (xs : list A) : list byte := concat (map to_bytes xs).

Lemma length_array_of_bytes {A} `{Layout A} n l : length (array_of_bytes (A:=A) n l) = n.
Proof. revert l. induction n; intros; simpl; auto. Qed.
Lemma len_array_to_bytes {A} `{Layout A} (xs : list A) :
  Forall wf xs → len (array_to_bytes xs) = size_of A * len xs.
Proof.
  unfold array_to_bytes. induction 1 as [|x xs Hx Hxs IH]; [cbn; unfold len; cbn; lia|].
  cbn [map concat]. rewrite len_app, len_cons, IH, len_to_bytes by done. lia.
Qed.
Lemma array_of_to_bytes {A} `{Layout A} (xs : list A) rest :
  Forall wf xs → array_of_bytes (length xs) (array_to_bytes xs ++ rest) = xs.
Proof.
  unfold array_to_bytes. induction 1 as [|x xs Hx Hxs IH]; [done|].
  cbn [map concat length array_of_bytes]. rewrite <-app_assoc.
  rewrite ztake_app_eq, zdrop_app_eq by (by rewrite len_to_bytes). by rewrite of_to_bytes, IH.
Qed.
Lemma array_to_of_bytes {A} `{Layout A} n l :
  len l = size_of A * Z.of_nat n → array_to_bytes (array_of_bytes (A:=A) n l) = l.
Proof.
  unfold array_to_bytes. pose proof (@size_of_nonneg A _) as Hs.
  revert l. induction n as [|n IH]; intros l Hl; cbn [array_of_bytes map concat].
  - destruct l; [done|]. len_lia.
  - rewrite to_of_bytes, IH; [apply ztake_zdrop|rewrite len_zdrop; nia|rewrite len_ztake; nia].
Qed.
Lemma wf_array_of_bytes {A} `{Layout A} n l :
  len l = size_of A * Z.of_nat n → Forall wf (array_of_bytes (A:=A) n l).
Proof.
  pose proof (@size_of_nonneg A _) as Hs.
  revert l. induction n as [|n IH]; intros l Hl; cbn [array_of_bytes]; constructor.
  - apply wf_of_bytes. rewrite len_ztake; nia.
  - apply IH. rewrite len_zdrop; nia.
Qed.

Program Definition L_array {A} (n : nat) (LA : Layout A) : Layout (list A) := {|
  size_of := size_of A * Z.of_nat n;
  to_bytes xs := array_to_bytes xs;
  of_bytes l := array_of_bytes n l;
  wf xs := length xs = n ∧ Forall wf xs;
|}.
Next Obligation. intros A n LA. pose proof (@size_of_nonneg A _). nia. Qed.
Next Obligation. intros A n LA xs [<- Hxs]. by rewrite len_array_to_bytes. Qed.
Next Obligation.
  intros A n LA xs [<- Hxs]. rewrite <-(app_nil_r (array_to_bytes xs)). by apply array_of_to_bytes.
Qed.
Next Obligation. intros A n LA l Hl. by apply array_to_of_bytes. Qed.
Next Obligation.
  intros A n LA l Hl. split; [apply length_array_of_bytes|by apply wf_array_of_bytes].
Qed.

(** A structure is laid out as the tuple of its fields. *)
Program Definition L_struct {A B} (LA : Layout A) (f : A → B) (g : B → A)
    (fg : ∀ b, f (g b) = b) (gf : ∀ a, g (f a) = a) : Layout B := {|
  size_of := size_of A;
  to_bytes b := to_bytes (g b);
  of_bytes l := f (of_bytes l);
  wf b := wf (g b);
|}.
Next Obligation. intros. apply size_of_nonneg. Qed.
Next Obligation. intros. by apply len_to_bytes. Qed.
Next Obligation. intros. cbn. by rewrite of_to_bytes. Qed.
Next Obligation. intros. cbn. rewrite gf. by apply to_of_bytes. Qed.
Next Obligation. intros. cbn. rewrite gf. by apply wf_of_bytes. Qed.

Declare Scope layout_scope.
Delimit Scope layout_scope with layout.
Abbreviation u8 := (L_uint 1).
Abbreviation u16 := (L_uint 2).
Abbreviation u32 := (L_uint 4).
Abbreviation u64 := (L_uint 8).
Abbreviation i8 := (L_sint 1).
Abbreviation i32 := (L_sint 4).
Abbreviation byte_array n := (L_bytes n%Z ltac:(lia)) (only parsing).
Notation "L × n" := (L_array n%nat L) (at level 20, only parsing) : layout_scope.
Infix "⊗" := L_pair (at level 40, left associativity) : layout_scope.
Arguments L_pair {A B} (LA LB)%_layout.
Arguments L_struct {A B} (LA)%_layout f g fg gf.
Arguments L_array {A} n%_nat LA%_layout.
(** The two inverse laws of a record and the tuple of its fields. *)
Ltac solve_struct :=
  let b := fresh in intros b; repeat match goal with x : prod _ _ |- _ => destruct x end;
  first [reflexivity | destruct b; reflexivity].

(** ** The zerocopy crate *)

(** [FromBytes::ref_from_prefix], [ref_from_prefix_with_elems] and [ref_from_bytes], whose errors
    the code never looks into, [IntoBytes::as_bytes] and [FromZeros::new_zeroed]. *)
Class Zerocopy := {
  ref_from_prefix : ∀ T `{Layout T}, list byte → option (T * list byte);
  ref_from_prefix_with_elems : ∀ T `{Layout T}, list byte → Z → option (list T * list byte);
  ref_from_bytes : ∀ T `{Layout T}, list byte → option T;
  as_bytes : ∀ {T} `{Layout T}, T → list byte;
  new_zeroed : ∀ T `{Layout T}, T;
  ref_from_prefix_spec T `{Layout T} l :
    ref_from_prefix T l =
      if len l <? size_of T then None
      else Some (of_bytes (ztake (size_of T) l), zdrop (size_of T) l);
  ref_from_prefix_with_elems_spec T `{Layout T} l n : 0 ≤ n →
    ref_from_prefix_with_elems T l n =
      if len l <? size_of T * n then None
      else Some (array_of_bytes (Z.to_nat n) (ztake (size_of T * n) l), zdrop (size_of T * n) l);
  ref_from_bytes_spec T `{Layout T} l :
    ref_from_bytes T l = if len l =? size_of T then Some (of_bytes l) else None;
  as_bytes_spec T `{Layout T} (x : T) : as_bytes x = to_bytes x;
  new_zeroed_spec T `{Layout T} : new_zeroed T = of_bytes (zeros (size_of T));
}.
Arguments ref_from_prefix {_} T {_} l : assert.
Arguments ref_from_prefix_with_elems {_} T {_} l n : assert.
Arguments ref_from_bytes {_} T {_} l : assert.
Arguments new_zeroed {_} T {_} : assert.

Program Definition zerocopy_reference : Zerocopy := {|
  ref_from_prefix T _ l :=
    if len l <? size_of T then None
    else Some (of_bytes (ztake (size_of T) l), zdrop (size_of T) l);
  ref_from_prefix_with_elems T _ l n :=
    if len l <? size_of T * n then None
    else Some (array_of_bytes (Z.to_nat n) (ztake (size_of T * n) l), zdrop (size_of T * n) l);
  ref_from_bytes T _ l := if len l =? size_of T then Some (of_bytes l) else None;
  as_bytes T _ x := to_bytes x;
  new_zeroed T _ := of_bytes (zeros (size_of T));
|}.
Next Obligation. done. Qed.
Next Obligation. done. Qed.
Next Obligation. done. Qed.
Next Obligation. done. Qed.
Next Obligation. done. Qed.

Section zerocopy.
Context `{Zerocopy} {T : Type} `{Layout T}.

Lemma len_as_bytes (x : T) : wf x → len (as_bytes x) = size_of T.
Proof. rewrite as_bytes_spec. apply len_to_bytes. Qed.

(** What was serialized at the front of a buffer is read back. *)
Lemma ref_from_prefix_as_bytes (x : T) rest :
  wf x → ref_from_prefix T (as_bytes x ++ rest) = Some (x, rest).
Proof.
  intros Hx. pose proof (len_as_bytes x Hx) as Hl. pose proof (len_nonneg rest).
  rewrite ref_from_prefix_spec, len_app, Hl. settle.
  rewrite ztake_app_eq, zdrop_app_eq by done. by rewrite as_bytes_spec, of_to_bytes.
Qed.

Lemma ref_from_prefix_inv l (x : T) rest :
  ref_from_prefix T l = Some (x, rest) →
  size_of T ≤ len l ∧ wf x ∧ l = as_bytes x ++ rest ∧ rest = zdrop (size_of T) l
  ∧ x = of_bytes (ztake (size_of T) l).
Proof.
  rewrite ref_from_prefix_spec. pose proof (@size_of_nonneg T _).
  case_match; [done|]. zify_bool. intros [= <- <-].
  assert (len (ztake (size_of T) l) = size_of T) by (rewrite len_ztake; lia).
  split_and!; [lia|by apply wf_of_bytes| |done|done].
  by rewrite as_bytes_spec, to_of_bytes, ztake_zdrop.
Qed.

Lemma ref_from_prefix_None l : ref_from_prefix T l = None ↔ len l < size_of T.
Proof. rewrite ref_from_prefix_spec. case_match; zify_bool; naive_solver lia. Qed.

Lemma ref_from_prefix_ok l :
  size_of T ≤ len l →
  ref_from_prefix T l = Some (of_bytes (ztake (size_of T) l), zdrop (size_of T) l).
Proof. intros. rewrite ref_from_prefix_spec. by settle. Qed.

(** What a buffer starts with does not depend on what follows. *)
Lemma ref_from_prefix_app l k (x : T) rest :
  ref_from_prefix T l = Some (x, rest) → ref_from_prefix T (l ++ k) = Some (x, rest ++ k).
Proof. intros (_ & Hwf & -> & _)%ref_from_prefix_inv. rewrite <-app_assoc. by apply ref_from_prefix_as_bytes. Qed.

Lemma ref_from_bytes_ok l : len l = size_of T → ref_from_bytes T l = Some (of_bytes l).
Proof. intros Hl. rewrite ref_from_bytes_spec. by settle. Qed.

Lemma ref_from_prefix_with_elems_app (xs : list T) rest :
  Forall wf xs →
  ref_from_prefix_with_elems T (array_to_bytes xs ++ rest) (len xs) = Some (xs, rest).
Proof.
  intros Hxs. pose proof (len_array_to_bytes xs Hxs) as Hl. pose proof (len_nonneg rest).
  rewrite ref_from_prefix_with_elems_spec by apply len_nonneg. rewrite len_app, Hl. settle.
  rewrite ztake_app_eq, zdrop_app_eq by done. do 2 f_equal.
  unfold len. rewrite Nat2Z.id, <-(app_nil_r (array_to_bytes xs)). by apply array_of_to_bytes.
Qed.

Lemma ref_from_prefix_with_elems_inv l n (xs : list T) rest :
  0 ≤ n → ref_from_prefix_with_elems T l n = Some (xs, rest) →
  len xs = n ∧ Forall wf xs ∧ l = array_to_bytes xs ++ rest ∧ len l = size_of T * n + len rest.
Proof.
  intros Hn. rewrite ref_from_prefix_with_elems_spec by done. pose proof (@size_of_nonneg T _).
  case_match; [done|]. zify_bool. intros [= <- <-].
  assert (len (ztake (size_of T * n) l) = size_of T * Z.of_nat (Z.to_nat n))
    by (rewrite len_ztake; nia).
  split_and!.
  - unfold len. rewrite length_array_of_bytes. lia.
  - by apply wf_array_of_bytes.
  - by rewrite array_to_of_bytes, ztake_zdrop.
  - rewrite len_zdrop; nia.
Qed.
End zerocopy.
