(* ===== verification/Ptr.v ===== *)
(** * Images already in memory

    The [try_from_ptr] readers borrow a slice at an address. [memory] gives the byte at every address;
    which addresses a caller may let them read is in their safety sections, and what the readers do
    with the slice depends only on the bytes it holds. *)

From S2P Require Import Prelude Bytes.
#[local] Open Scope Z_scope.

Definition memory := Z → byte.

(** [core::slice::from_raw_parts(ptr, n)]. *)
Definition from_raw_parts (mem : memory) (ptr n : Z) : list byte := (λ i, mem (ptr + i)) <$> seqZ 0 n.

(** The bytes of a list stand at an address. *)
Definition mem_holds (mem : memory) (ptr : Z) (l : list byte) : Prop := from_raw_parts mem ptr (len l) = l.

(** A memory with a list at an address and zeros elsewhere. *)
Definition memory_with (ptr : Z) (l : list byte) : memory :=
  λ a, if a <? ptr then x00 else default x00 (l !! Z.to_nat (a - ptr)).

Lemma len_from_raw_parts mem ptr n : 0 ≤ n → len (from_raw_parts mem ptr n) = n.
Proof. intros Hn. unfold len, from_raw_parts. rewrite length_fmap, length_seqZ. lia. Qed.

Lemma from_raw_parts_app mem ptr n n' :
  0 ≤ n → 0 ≤ n' → from_raw_parts mem ptr (n + n') = from_raw_parts mem ptr n ++ from_raw_parts mem (ptr + n) n'.
Proof.
  intros Hn Hn'. unfold from_raw_parts. rewrite seqZ_app by done. rewrite fmap_app. f_equal.
  rewrite Z.add_0_l, <-(Z.add_0_r n), <-fmap_add_seqZ, <-list_fmap_compose. apply list_fmap_ext. intros i x _. cbn. f_equal. lia.
Qed.

(** A slice longer than what is known to be there starts with it. *)
Lemma from_raw_parts_holds mem ptr l n :
  mem_holds mem ptr l → len l ≤ n → ∃ rest, from_raw_parts mem ptr n = l ++ rest ∧ len rest = n - len l.
Proof.
  intros Hl Hn. pose proof (len_nonneg l). exists (from_raw_parts mem (ptr + len l) (n - len l)).
  split; [|by rewrite len_from_raw_parts by lia]. replace n with (len l + (n - len l)) at 1 by lia.
  rewrite from_raw_parts_app by lia. by rewrite Hl.
Qed.

Lemma from_raw_parts_take mem ptr l n :
  mem_holds mem ptr l → 0 ≤ n ≤ len l → from_raw_parts mem ptr n = ztake n l.
Proof.
  intros Hl Hn. rewrite <-Hl at 1. replace (len l) with (n + (len l - n)) by lia.
  rewrite from_raw_parts_app by lia. by rewrite ztake_app_eq by (by rewrite len_from_raw_parts by lia).
Qed.

Lemma memory_with_holds ptr l : mem_holds (memory_with ptr l) ptr l.
Proof.
  unfold mem_holds, from_raw_parts, memory_with. apply list_eq. intros i. rewrite list_lookup_fmap.
  destruct (decide (i < length l)%nat) as [Hi|Hi].
  - rewrite lookup_seqZ_lt by (unfold len; lia). cbn. rewrite (proj2 (Z.ltb_ge _ _)) by lia.
    replace (Z.to_nat (ptr + (0 + Z.of_nat i) - ptr)) with i by lia.
    destruct (lookup_lt_is_Some_2 l i Hi) as [x ->]. done.
  - rewrite lookup_seqZ_ge by (unfold len; lia). cbn. symmetry. apply lookup_ge_None. lia.
Qed.
