(* ===== verification/Loops.v ===== *)
(** * Loops without a structural bound

    A Rust [loop] or [while] whose end no argument bounds is the iteration of a step function that
    either goes on from a new state or finishes with a result. [run k] makes up to [2 ^ k] steps,
    stopping as soon as one finishes, so the bound costs nothing when the loop is short; a loop over
    at most [2 ^ k] states that has not finished by then never does ([run_diverges]). *)

From S2P Require Import Prelude Bytes.
#[local] Open Scope Z_scope.

Section loop.
Context {St R : Type} (step : St → St + R).

Fixpoint run (k : nat) (s : St) : St + R :=
  match k with
  | O => step s
  | S k => match run k s with inl s' => run k s' | inr r => inr r end
  end.

(** [n] steps, or as many as the loop takes. *)
Fixpoint steps (n : nat) (s : St) : St + R :=
  match n with
  | O => inl s
  | S n => match step s with inl s' => steps n s' | inr r => inr r end
  end.

Definition returns (s : St) (r : R) : Prop := ∃ n, steps n s = inr r.
Definition diverges (s : St) : Prop := ∀ n, ∃ s', steps n s = inl s'.

Lemma steps_add m n s :
  steps (m + n) s = match steps m s with inl s' => steps n s' | inr r => inr r end.
Proof. revert s. induction m as [|m IH]; intros s; [done|]. cbn. destruct (step s); [apply IH|done]. Qed.

Lemma run_steps k s : run k s = steps (2 ^ k) s.
Proof.
  revert s. induction k as [|k IH]; intros s; [cbn; by destruct (step s)|].
  cbn [run]. change (2 ^ S k)%nat with (2 * 2 ^ k)%nat.
  replace (2 * 2 ^ k)%nat with (2 ^ k + 2 ^ k)%nat by lia. rewrite steps_add, IH.
  by destruct (steps _ _).
Qed.

Lemma steps_mono m n s r : (m ≤ n)%nat → steps m s = inr r → steps n s = inr r.
Proof. intros Hle Hm. replace n with (m + (n - m))%nat by lia. by rewrite steps_add, Hm. Qed.

Lemma run_returns k s r : run k s = inr r → returns s r.
Proof. rewrite run_steps. by exists (2 ^ k)%nat. Qed.

Lemma returns_unique s r r' : returns s r → returns s r' → r = r'.
Proof.
  intros [m Hm] [n Hn]. apply (steps_mono _ (m `max` n)) in Hm; [|lia].
  apply (steps_mono _ (m `max` n)) in Hn; [|lia]. congruence.
Qed.

Lemma returns_not_diverges s r : returns s r → ¬ diverges s.
Proof. intros [n Hn] Hd. destruct (Hd n) as [s' Hs]. congruence. Qed.

(** What every step preserves holds where [run] stops. *)
Lemma run_inv (P : St → Prop) (Q : R → Prop) k :
  (∀ s, P s → match step s with inl s' => P s' | inr r => Q r end) →
  ∀ s, P s → match run k s with inl s' => P s' | inr r => Q r end.
Proof.
  intros Hstep. induction k as [|k IH]; intros s Hs; cbn [run]; [by apply Hstep|].
  specialize (IH s Hs) as H1. destruct (run k s) as [s'|r]; [by apply IH|done].
Qed.

(** A measure that every step decreases bounds the loop. *)
Lemma steps_measure (m : St → nat) (P : St → Prop) :
  (∀ s s', P s → step s = inl s' → P s' ∧ (m s' < m s)%nat) →
  ∀ s, P s → ∃ r, steps (S (m s)) s = inr r.
Proof.
  intros Hstep s. remember (m s) as n eqn:Hn. revert s Hn.
  induction n as [n IH] using lt_wf_ind. intros s -> Hs. cbn [steps].
  destruct (step s) as [s'|r] eqn:E; [|by exists r].
  destruct (Hstep s s' Hs E) as [Hs' Hlt]. destruct (IH (m s') Hlt s' eq_refl Hs') as [r Hr].
  exists r. eapply steps_mono; [|exact Hr]. lia.
Qed.

(** ** Loops over finitely many states *)

(** The states visited in [n] steps, as long as the loop goes on. *)
Fixpoint visited (n : nat) (s : St) : list St :=
  match n with
  | O => [s]
  | S n => s :: match step s with inl s' => visited n s' | inr _ => [] end
  end.

Lemma visited_lookup n s s' i :
  steps n s = inl s' → (i ≤ n)%nat → ∃ t, visited n s !! i = Some t ∧ steps i s = inl t.
Proof.
  revert n s. induction i as [|i IH]; intros n s Hn Hi.
  { exists s. by destruct n. }
  destruct n as [|n]; [lia|]. cbn in Hn |- *. destruct (step s) as [s1|]; [|done].
  apply IH; [done|lia].
Qed.

Lemma length_visited n s s' : steps n s = inl s' → length (visited n s) = S n.
Proof.
  revert s. induction n as [|n IH]; intros s; [done|]. cbn. destruct (step s) as [s1|]; [|done].
  intros H. by rewrite IH.
Qed.

Lemma nodup_or (l : list Z) :
  NoDup l ∨ ∃ i j z, (i < j)%nat ∧ l !! i = Some z ∧ l !! j = Some z.
Proof.
  induction l as [|x l IH]; [left; constructor|]. destruct (decide (x ∈ l)) as [Hx|Hx].
  - apply list_elem_of_lookup in Hx as [j Hj]. right. exists O, (S j), x. split_and!; [lia|done|done].
  - destruct IH as [|(i & j & z & Hij & Hi & Hj)]; [left; by constructor|].
    right. exists (S i), (S j), z. split_and!; [lia|done|done].
Qed.

(** Once a state comes back, the loop never ends. *)
Lemma cycle_diverges s t m n :
  (0 < n)%nat → steps m s = inl t → steps n t = inl t → diverges s.
Proof.
  intros Hn Hm Hc.
  assert (∀ j, steps (j * n) t = inl t) as Hloop.
  { induction j as [|j IH]; [done|]. cbn [Nat.mul]. by rewrite steps_add, Hc. }
  intros j. destruct (steps j s) as [s'|r] eqn:E; [by eexists|].
  apply (steps_mono _ (m + j * n)%nat) in E; [|nia]. rewrite steps_add, Hm, Hloop in E. done.
Qed.

(** A loop over states numbered below [N] that makes [N] steps never ends. *)
Lemma finite_diverges (num : St → Z) (P : St → Prop) (N : nat) s s' :
  (∀ a b, P a → P b → num a = num b → a = b) →
  (∀ a, P a → 0 ≤ num a < Z.of_nat N) → (∀ a b, P a → step a = inl b → P b) →
  P s → steps N s = inl s' → diverges s.
Proof.
  intros Hinj Hnum Hstep Hs Hrun.
  assert (∀ i t, steps i s = inl t → P t) as Hall.
  { clear Hrun. intros i. revert s Hs. induction i as [|i IH]; intros s Hs t; [by intros [= <-]|].
    cbn. destruct (step s) as [s1|] eqn:E; [|done]. apply IH. by eapply Hstep. }
  assert (Forall P (visited N s)) as HP.
  { apply Forall_lookup. intros i t Hi. pose proof (lookup_lt_Some _ _ _ Hi) as Hlt.
    rewrite (length_visited _ _ _ Hrun) in Hlt. destruct (visited_lookup N s s' i Hrun) as (t' & Ht' & Hst); [lia|].
    rewrite Hi in Ht'. injection Ht' as <-. by eapply Hall. }
  destruct (nodup_or (num <$> visited N s)) as [Hnd|(i & j & z & Hij & Hi & Hj)].
  - exfalso. assert (num <$> visited N s ⊆ seqZ 0 (Z.of_nat N)) as Hsub.
    { intros z (t & -> & Ht)%list_elem_of_fmap. rewrite Forall_forall in HP.
      apply elem_of_seqZ. specialize (Hnum t (HP t Ht)). lia. }
    pose proof (submseteq_length _ _ (NoDup_submseteq _ _ Hnd Hsub)) as Hlen.
    rewrite length_fmap, (length_visited _ _ _ Hrun), length_seqZ in Hlen. lia.
  - rewrite list_lookup_fmap in Hi, Hj.
    pose proof (length_visited _ _ _ Hrun) as Hlen.
    destruct (visited N s !! i) as [a|] eqn:Ea; [|done]. destruct (visited N s !! j) as [b|] eqn:Eb; [|done].
    pose proof (lookup_lt_Some _ _ _ Eb). injection Hi as Hi. injection Hj as Hj.
    destruct (visited_lookup N s s' i Hrun) as (a' & Ha' & Hsa); [lia|].
    destruct (visited_lookup N s s' j Hrun) as (b' & Hb' & Hsb); [lia|].
    assert (a' = a) as -> by congruence. assert (b' = b) as -> by congruence.
    assert (a = b) as -> by (apply Hinj; [by eapply Hall|by eapply Hall|congruence]).
    apply (cycle_diverges s b i (j - i)); [lia|done|].
    replace j with (i + (j - i))%nat in Hsb by lia. by rewrite steps_add, Hsa in Hsb.
Qed.

(** [run] decides such a loop. *)
Lemma run_diverges (num : St → Z) (P : St → Prop) k s :
  (∀ a b, P a → P b → num a = num b → a = b) →
  (∀ a, P a → 0 ≤ num a < Z.of_nat (2 ^ k)) → (∀ a b, P a → step a = inl b → P b) → P s →
  match run k s with inl _ => diverges s | inr r => returns s r end.
Proof.
  intros Hinj Hnum Hstep Hs. destruct (run k s) as [s'|r] eqn:E; [|by eapply run_returns].
  rewrite run_steps in E. by eapply finite_diverges.
Qed.
End loop.

(** The same for a loop over the integers below [N]. *)
Lemma run_decides {R} (step : Z → Z + R) (N : Z) k s :
  N ≤ 2 ^ Z.of_nat k → (∀ a b, 0 ≤ a < N → step a = inl b → 0 ≤ b < N) → 0 ≤ s < N →
  match run step k s with inl _ => diverges step s | inr r => returns step s r end.
Proof.
  intros HN Hstep Hs. apply (run_diverges step (λ a, a) (λ a, 0 ≤ a < N)); [auto| |exact Hstep|exact Hs].
  intros a Ha. rewrite Nat2Z.inj_pow. change (Z.of_nat 2) with 2. lia.
Qed.
