(* ===== verification/Blz.v ===== *)
(** * BLZ compression: the codec of [src/src/blz.rs]

    [compress] and [decompress], function by function. A function that cannot fail returns an
    [option] whose [None] is a panic (an index out of bounds, an arithmetic overflow, a failed
    assertion); [decompress] returns an [outcome]. Mutable buffers are passed and returned. A
    [while] loop is a [Fixpoint] whose fuel is an upper bound on its iterations, and running out
    of fuel is a panic: [BlzRoundTrip] and [BlzDecode] prove that it is never reached.

    Positions are below [NONE] wherever they are added ([MatchFinder_new] asserts it), so their
    sums are not checked for overflow; every subtraction is. *)

From S2P Require Import Prelude Bytes Layout.
#[local] Open Scope Z_scope.

Definition FLAG_SHIFT : Z := 1.
Definition FLAG_MASK_INIT : Z := 0x80.
Definition MATCH_THRESHOLD : Z := 2.
Definition MAX_OFFSET : Z := 0x1002.
Definition MAX_MATCH : Z := Z.shiftl 1 4 + MATCH_THRESHOLD.
Definition MIN_MATCH : Z := MATCH_THRESHOLD + 1.
Definition HASH_BITS : Z := 16.
Definition HASH_SIZE : Z := Z.shiftl 1 HASH_BITS.
Definition HASH_MULTIPLIER : Z := 0x9E3779B1.
Definition NONE : Z := U32_MAX.

Record Footer := {
  enc_len : Z;
  header_size : Z;
  extra_len : Z;
}.
#[export] Instance Footer_layout : Layout Footer.
Proof.
  refine (L_struct (u32 ⊗ u32 ⊗ u32)%layout (λ '(a, b, c), Build_Footer a b c)
            (λ f, (enc_len f, header_size f, extra_len f)) _ _); solve_struct.
Defined.

(** [l[i] = f(l[i])]. *)
Definition update_index {A} (l : list A) (i : Z) (f : A → A) : option (list A) :=
  x ← index l i; set_index l i (f x).

(** [out[i] <<= 1] and [out[i] |= 1] on a byte. *)
Definition shl_byte (b : byte) : byte := z2b (as_u8 (Z.shiftl (b2z b) 1)).
Definition set_low_bit (b : byte) : byte := z2b (Z.lor (b2z b) 1).

(** ** The match finder *)

Record MatchFinder := {
  mf_data : list byte;
  mf_prev : list Z;
}.

Definition hash (data : list byte) (pos : Z) : option Z :=
  b0 ← index data pos;
  b1 ← index data (pos + 1);
  b2 ← index data (pos + 2);
  let key := Z.lor (Z.lor (b2z b0) (Z.shiftl (b2z b1) 8)) (Z.shiftl (b2z b2) 16) in
  Some (Z.shiftr (as_u32 (key * HASH_MULTIPLIER)) (32 - HASH_BITS)).

(** The [for] loop of [MatchFinder::new]: [n] positions from [pos]. *)
Fixpoint link_chain (n : nat) (data : list byte) (head prev : list Z) (pos : Z)
    : option (list Z) :=
  match n with
  | O => Some prev
  | S n =>
    bucket ← hash data pos;
    slot ← index head bucket;
    prev ← set_index prev pos slot;
    head ← set_index head bucket (as_u32 pos);
    link_chain n data head prev (pos + 1)
  end.

Definition MatchFinder_new (data : list byte) : option MatchFinder :=
  if len data <? NONE then
    let head := zrep HASH_SIZE NONE in
    let prev := zrep (len data) NONE in
    prev ←
      match checked_sub (len data) (MIN_MATCH - 1) with
      | Some hashable => link_chain (Z.to_nat hashable) data head prev 0
      | None => Some prev
      end;
    Some {| mf_data := data; mf_prev := prev |}
  else None.

(** The inner [while] of [longest_match]: the length of the match [offset] bytes back. *)
Fixpoint match_length (fuel : nat) (data : list byte) (pos offset remaining l : Z) : option Z :=
  match fuel with
  | O => None
  | S fuel =>
    if (l <? MAX_MATCH) && negb (l =? remaining) && (l <? offset) then
      a ← index data (pos + l);
      from ← checked_sub (pos + l) offset;
      b ← index data from;
      if decide (a = b) then match_length fuel data pos offset remaining (l + 1) else Some l
    else Some l
  end.

(** The outer [while]: the walk along the chain from [candidate]. *)
Fixpoint walk_chain (fuel : nat) (f : MatchFinder) (pos remaining best_len best_offset candidate : Z)
    : option (Z * Z) :=
  match fuel with
  | O => None
  | S fuel =>
    if candidate =? NONE then Some (best_len, best_offset) else
    offset ← checked_sub pos candidate;
    if MAX_OFFSET <? offset then Some (best_len, best_offset) else
    l ← (if MIN_MATCH <=? offset
         then match_length 32 (mf_data f) pos offset remaining 0 else Some best_len);
    if best_len <? l then
      if l =? MAX_MATCH then Some (l, offset)
      else candidate ← index (mf_prev f) candidate; walk_chain fuel f pos remaining l offset candidate
    else
      candidate ← index (mf_prev f) candidate;
      walk_chain fuel f pos remaining best_len best_offset candidate
  end.

Definition longest_match (f : MatchFinder) (pos : Z) : option (Z * Z) :=
  if len (mf_data f) <? pos + MIN_MATCH then Some (MATCH_THRESHOLD, 0) else
  let remaining := len (mf_data f) - pos in
  candidate ← index (mf_prev f) pos;
  walk_chain (S (length (mf_data f))) f pos remaining MATCH_THRESHOLD 0 candidate.

(** The oracle of the crate's tests: every offset, nearest first. *)
Fixpoint scan_offsets (n : nat) (data : list byte) (pos offset best_len best_offset : Z)
    : option (Z * Z) :=
  match n with
  | O => Some (best_len, best_offset)
  | S n =>
    l ← match_length 32 data pos offset (len data - pos) 0;
    if best_len <? l then
      if l =? MAX_MATCH then Some (l, offset)
      else scan_offsets n data pos (offset + 1) l offset
    else scan_offsets n data pos (offset + 1) best_len best_offset
  end.

Definition longest_match_brute_force (data : list byte) (pos : Z) : option (Z * Z) :=
  let max_offset := Z.min pos MAX_OFFSET in
  scan_offsets (Z.to_nat (max_offset - 2)) data pos 3 MATCH_THRESHOLD 0.

(** ** The encoder *)

(** The locals of [compress_into]'s loop. *)
Record Encoder := {
  output : list byte;
  mask : Z;
  read_pos : Z;
  write_pos : Z;
  flag_pos : Z;
  best_packed : Z;
  best_remaining : Z;
}.

(** Lazy matching: the length kept for a match of [match_len] at [pos]. *)
Definition lazy_match (f : MatchFinder) (n pos match_len : Z) : option Z :=
  if (MATCH_THRESHOLD <? match_len) && (pos + match_len <? n) then
    '(next_len, _) ← longest_match f (pos + match_len);
    '(post_len, _) ← longest_match f (pos + match_len - (match_len - 1));
    let next_len := if next_len <=? MATCH_THRESHOLD then 1 else next_len in
    let post_len := if post_len <=? MATCH_THRESHOLD then 1 else post_len in
    Some (if match_len + next_len <=? 1 + post_len then 1 else match_len)
  else Some match_len.

(** The flag bookkeeping at the head of an iteration. *)
Definition next_flag (st : Encoder) : option Encoder :=
  let mask := Z.shiftr (mask st) FLAG_SHIFT in
  if mask =? 0 then
    out ← set_index (output st) (write_pos st) (z2b 0);
    Some {| output := out; mask := FLAG_MASK_INIT; read_pos := read_pos st;
            write_pos := write_pos st + 1; flag_pos := write_pos st;
            best_packed := best_packed st; best_remaining := best_remaining st |}
  else
    Some {| output := output st; mask := mask; read_pos := read_pos st;
            write_pos := write_pos st; flag_pos := flag_pos st;
            best_packed := best_packed st; best_remaining := best_remaining st |}.

(** Emission of one code: the bytes written, and the cursors past them. *)
Definition emit_code (input : list byte) (st : Encoder) (match_len match_offset : Z)
    : option Encoder :=
  out ← update_index (output st) (flag_pos st) shl_byte;
  '(out, r, w) ←
    (if MATCH_THRESHOLD <? match_len then
       out ← update_index out (flag_pos st) set_low_bit;
       l ← checked_sub match_len (MATCH_THRESHOLD + 1);
       o ← checked_sub match_offset 3;
       out ← set_index out (write_pos st) (z2b (as_u8 (Z.lor (Z.shiftl l 4) (Z.shiftr o 8))));
       out ← set_index out (write_pos st + 1) (z2b (as_u8 (Z.land o 0xFF)));
       Some (out, read_pos st + match_len, write_pos st + 2)
     else
       b ← index input (read_pos st);
       out ← set_index out (write_pos st) b;
       Some (out, read_pos st + 1, write_pos st + 1));
  Some {| output := out; mask := mask st; read_pos := r; write_pos := w; flag_pos := flag_pos st;
          best_packed := best_packed st; best_remaining := best_remaining st |}.

(** The best split point so far. *)
Definition update_best (n : Z) (st : Encoder) : option Encoder :=
  left ← checked_sub (write_pos st + n) (read_pos st);
  if left <? best_packed st + best_remaining st then
    rest ← checked_sub n (read_pos st);
    Some {| output := output st; mask := mask st; read_pos := read_pos st;
            write_pos := write_pos st; flag_pos := flag_pos st;
            best_packed := write_pos st; best_remaining := rest |}
  else Some st.

(** One iteration of the encoding loop. *)
Definition encode_step (f : MatchFinder) (input : list byte) (st : Encoder) : option Encoder :=
  st ← next_flag st;
  '(match_len, match_offset) ← longest_match f (read_pos st);
  match_len ← lazy_match f (len input) (read_pos st) match_len;
  st ← emit_code input st match_len match_offset;
  update_best (len input) st.

Fixpoint encode_loop (fuel : nat) (f : MatchFinder) (input : list byte) (st : Encoder)
    : option Encoder :=
  if read_pos st <? len input then
    match fuel with
    | O => None
    | S fuel => st ← encode_step f input st; encode_loop fuel f input st
    end
  else Some st.

(** The flush of the last flag byte. *)
Fixpoint flush_flag (fuel : nat) (out : list byte) (flag_pos mask : Z) : option (list byte) :=
  if negb (mask =? 0) && negb (mask =? 1) then
    match fuel with
    | O => None
    | S fuel =>
      out ← update_index out flag_pos shl_byte;
      flush_flag fuel out flag_pos (Z.shiftr mask FLAG_SHIFT)
    end
  else Some out.

(** ** The stream writers *)

(** [packed_end.wrapping_neg() & 3] on a [usize]. *)
Definition packed_header_size (packed_end : Z) : Z :=
  size_of Footer + Z.land (as_u64 (- packed_end)) 3.

(** The alignment loops: [b] written at [pos] until it is a multiple of 4. *)
Fixpoint pad_loop (fuel : nat) (out : list byte) (pos : Z) (b : byte) : option (list byte * Z) :=
  if negb (Z.land pos 3 =? 0) then
    match fuel with
    | O => None
    | S fuel => out ← set_index out pos b; pad_loop fuel out (pos + 1) b
    end
  else Some (out, pos).

(** The relocation loop of [store_packed], for [n] more bytes from [i]. *)
Fixpoint relocate (n : nat) (out : list byte) (remaining packed_start i : Z) : option (list byte) :=
  match n with
  | O => Some out
  | S n =>
    b ← index out (packed_start + i);
    out ← set_index out (remaining + i) b;
    relocate n out remaining packed_start (i + 1)
  end.

Section writers.
Context {ZC : Zerocopy}.

Definition store_uncompressed (input output : list byte) : option (list byte * Z) :=
  out ← copy_from_slice output 0 (len input) input;
  '(out, pos) ← pad_loop 4 out (len input) (z2b 0);
  out ← copy_from_slice out pos (pos + 4) (as_bytes (H := L_uint 4) 0);
  Some (out, pos + 4).

Definition store_packed (input output : list byte) (packed_len best_packed remaining : Z)
    : option (list byte * Z) :=
  packed_start ← checked_sub packed_len best_packed;
  out ← relocate (Z.to_nat best_packed) output remaining packed_start 0;
  prefix ← get_to input remaining;
  out ← copy_from_slice out 0 remaining prefix;
  let pos := remaining + best_packed in
  let header_size := packed_header_size pos in
  inc_len ← checked_sub (len input) best_packed;
  inc_len ← checked_sub inc_len remaining;
  '(out, pos) ← pad_loop 4 out pos (z2b 0xFF);
  extra ← checked_sub inc_len header_size;
  let footer := {| enc_len := as_u32 (best_packed + header_size);
                   header_size := as_u32 header_size;
                   extra_len := as_u32 extra |} in
  out ← copy_from_slice out pos (pos + size_of Footer) (as_bytes footer);
  Some (out, pos + size_of Footer).

(** The choice between the two layouts, once the input is encoded and un-reversed. *)
Definition choose_layout (input output : list byte) (packed_len best_packed best_remaining : Z)
    : option (list byte * Z) :=
  saved ← checked_sub (len input) best_packed;
  saved ← checked_sub saved best_remaining;
  let trailer_fits := packed_header_size (best_remaining + best_packed) <? saved in
  if (best_packed =? 0) || negb trailer_fits
     || (len input + 4 <? Z.land (best_packed + best_remaining + 3) 0xFFFFFFFC + 8)
  then store_uncompressed input output
  else store_packed input output packed_len best_packed best_remaining.

Definition compress_into (input output : list byte) : option (list byte * Z) :=
  let rev_input := reverse input in
  f ← MatchFinder_new rev_input;
  st ← encode_loop (length rev_input) f rev_input
    {| output := output; mask := 0; read_pos := 0; write_pos := 0; flag_pos := 0;
       best_packed := 0; best_remaining := len rev_input |};
  out ← flush_flag 8 (Blz.output st) (flag_pos st) (mask st);
  let packed_len := write_pos st in
  let input := reverse rev_input in
  packed ← get_to out packed_len;
  out ← copy_from_slice out 0 packed_len (reverse packed);
  choose_layout input out packed_len (best_packed st) (best_remaining st).

Definition worst_case_len (raw_len : Z) : Z := raw_len + div_ceil raw_len 8 + 15.

Definition compress (data : list byte) : option (list byte) :=
  let output := zeros (worst_case_len (len data)) in
  '(output, n) ← compress_into data output;
  Some (ztake n output).
End writers.

(** ** The decoder *)

Inductive DecompressError :=
| BufferTooSmall (required available : Z)
| MalformedTrailer (enc_len header_size available : Z)
| TruncatedCode (at_ : Z)
| OutputUnderflow
| UnexpectedLength (expected produced : Z)
| MatchOutOfBounds (dst distance : Z).

Definition trailing_u32 (data : list byte) (back : Z) : option Z :=
  start ← checked_sub (len data) back;
  bytes ← get_range data start (start + 4);
  Some (le_val bytes).

Definition copy_literal (out : list byte) (cmp dst : Z)
    : outcome DecompressError (list byte * Z) :=
  dst ← ok_or (checked_sub dst 1) OutputUnderflow;
  b ← or_panic (index out cmp);
  out ← or_panic (set_index out dst b);
  Ok (out, dst).

Fixpoint copy_match (length_ : nat) (out : list byte) (dst distance : Z)
    : outcome DecompressError (list byte * Z) :=
  match length_ with
  | O => Ok (out, dst)
  | S length_ =>
    dst ← ok_or (checked_sub dst 1) OutputUnderflow;
    from ← ok_or
      (from ← checked_add dst distance; if from <? len out then Some from else None)
      (MatchOutOfBounds dst distance);
    b ← or_panic (index out from);
    out ← or_panic (set_index out dst b);
    copy_match length_ out dst distance
  end.

(** One code of the inner loop; [cmp > packed_start]. *)
Definition decode_code (packed_start flags : Z) (out : list byte) (cmp dst : Z)
    : outcome DecompressError (list byte * Z * Z) :=
  if Z.land flags FLAG_MASK_INIT =? 0 then
    cmp ← or_panic (checked_sub cmp 1);
    '(out, dst) ← copy_literal out cmp dst;
    Ok (out, cmp, dst)
  else
    _ ← guard_err (cmp - packed_start <? 2) (TruncatedCode cmp);
    first ← or_panic (index out (cmp - 1));
    second ← or_panic (index out (cmp - 2));
    let cmp := cmp - 2 in
    let length_ := Z.shiftr (b2z first) 4 + MIN_MATCH in
    let distance := Z.lor (Z.shiftl (Z.land (b2z first) 0x0F) 8) (b2z second) + MIN_MATCH in
    '(out, dst) ← copy_match (Z.to_nat length_) out dst distance;
    Ok (out, cmp, dst).

(** The inner loop: up to [n] codes under one flag byte. *)
Fixpoint decode_group (n : nat) (packed_start flags : Z) (out : list byte) (cmp dst : Z)
    : outcome DecompressError (list byte * Z * Z) :=
  match n with
  | O => Ok (out, cmp, dst)
  | S n =>
    if cmp <=? packed_start then Ok (out, cmp, dst) else
    '(out, cmp, dst) ← decode_code packed_start flags out cmp dst;
    decode_group n packed_start (as_u8 (Z.shiftl flags FLAG_SHIFT)) out cmp dst
  end.

Fixpoint decode_loop (fuel : nat) (packed_start : Z) (out : list byte) (cmp dst : Z)
    : outcome DecompressError (list byte * Z * Z) :=
  if packed_start <? cmp then
    match fuel with
    | O => Panic
    | S fuel =>
      let cmp := cmp - 1 in
      flags ← or_panic (index out cmp);
      '(out, cmp, dst) ← decode_group 8 packed_start (b2z flags) out cmp dst;
      decode_loop fuel packed_start out cmp dst
    end
  else Ok (out, cmp, dst).

(** The packed form, once the trailer is known to describe a layout that fits. *)
Definition decompress_packed (data : list byte) (enc_len header_size extra_len : Z)
    : outcome DecompressError (list byte) :=
  let total := len data in
  final_len ← ok_or (checked_add total extra_len) (MalformedTrailer enc_len header_size total);
  out ← or_panic (vec_zeroed final_len);
  out ← or_panic (copy_from_slice out 0 total data);
  let packed_start := total - enc_len in
  '(out, _, _) ← decode_loop (length data) packed_start out (total - header_size) final_len;
  Ok out.

Definition decompress (data : list byte) (decompressed_size : Z)
    : outcome DecompressError (list byte) :=
  extra_len ← ok_or (trailing_u32 data 4) (BufferTooSmall 4 (len data));
  if extra_len =? 0 then
    stored ← or_panic (get_to data (len data - 4));
    ok_or (get_to stored decompressed_size) (UnexpectedLength decompressed_size (len stored))
  else
    let footer_size := size_of Footer in
    header_size ← ok_or (trailing_u32 data 8) (BufferTooSmall footer_size (len data));
    enc_len ← ok_or (trailing_u32 data footer_size) (BufferTooSmall footer_size (len data));
    let total := len data in
    _ ← guard_err ((header_size <? footer_size) || (enc_len <? header_size) || (total <? enc_len))
          (MalformedTrailer enc_len header_size total);
    out ← decompress_packed data enc_len header_size extra_len;
    _ ← guard_err (negb (len out =? decompressed_size))
          (UnexpectedLength decompressed_size (len out));
    Ok out.
