(* ===== verification/BlzFinder.v ===== *)
(** * The hash-chain match finder against its brute-force oracle

    [MatchFinder_new] links every hashable position to the latest earlier position of its bucket,
    so a walk along the chain meets every candidate that could start a match, nearest first, and
    [longest_match] agrees with the scan of every offset that the crate's tests keep as the
    oracle. Both are compared with [scan], the walk over all earlier positions. *)

From S2P Require Import Prelude Bytes Blz.
#[local] Open Scope Z_scope.

(** The latest position below [n] whose three-byte prefix falls into bucket [b]. *)
Fixpoint latest (data : list byte) (b : Z) (n : nat) : Z :=
  match n with
  | O => NONE
  | S n => if decide (hash data (Z.of_nat n) = Some b) then Z.of_nat n else latest data b n
  end.

(** A chain that links every hashable position to its predecessor. *)
Definition finder_ok (f : MatchFinder) : Prop :=
  len (mf_data f) < NONE ∧ len (mf_prev f) = len (mf_data f) ∧
  ∀ (q : nat) b, hash (mf_data f) (Z.of_nat q) = Some b →
    index (mf_prev f) (Z.of_nat q) = Some (latest (mf_data f) b q).

Definition match_len (data : list byte) (pos offset : Z) : Z :=
  default 0 (match_length 32 data pos offset (len data - pos) 0).
Arguments match_len : simpl never.

(** Candidate [q] against the best match so far. *)
Definition better (data : list byte) (pos : Z) (q : nat) (best : Z * Z) : Z * Z :=
  let offset := pos - Z.of_nat q in
  if (MIN_MATCH <=? offset) && (best.1 <? match_len data pos offset)
  then (match_len data pos offset, offset) else best.

(** Every candidate below [n], nearest first, up to the largest offset. *)
Fixpoint scan (data : list byte) (pos : Z) (n : nat) (best : Z * Z) : Z * Z :=
  match n with
  | O => best
  | S q => if MAX_OFFSET <? pos - Z.of_nat q then best else scan data pos q (better data pos q best)
  end.

(** What an encoded back-reference promises the decoder. *)
Definition valid_match (data : list byte) (pos l offset : Z) : Prop :=
  MIN_MATCH ≤ l ≤ MAX_MATCH ∧ MIN_MATCH ≤ offset ≤ MAX_OFFSET ∧ offset ≤ pos ∧ l ≤ offset ∧
  pos + l ≤ len data ∧ ∀ i, 0 ≤ i < l → index data (pos + i) = index data (pos + i - offset).

Ltac unfold_blz := unfold MIN_MATCH, MAX_MATCH, MAX_OFFSET, MATCH_THRESHOLD, NONE in *;
  change (Z.shiftl 1 4) with 16 in *.
Ltac blz_lia := unfold_blz; mlia.

(** ** Hashing *)

Lemma hash_range data pos b : hash data pos = Some b → 0 ≤ b < HASH_SIZE.
Proof.
  unfold hash, HASH_SIZE, HASH_BITS, as_u32. intros H. simplify_option_eq.
  rewrite Z.shiftr_div_pow2 by lia. change (Z.shiftl 1 16) with (2 ^ 16). change (32 - 16) with 16.
  pose proof (Z.mod_pos_bound (Z.lor (Z.lor (b2z H0) (Z.shiftl (b2z H1) 8)) (Z.shiftl (b2z H2) 16)
    * HASH_MULTIPLIER) (2 ^ 32) eq_refl).
  split; [apply Z.div_pos; lia|apply Z.div_lt_upper_bound; lia].
Qed.

Lemma hash_Some data pos :
  0 ≤ pos → pos + MIN_MATCH ≤ len data → ∃ b, hash data pos = Some b.
Proof.
  unfold_blz. intros. unfold hash.
  destruct (index_in_range data pos) as [a ->]; [lia|].
  destruct (index_in_range data (pos + 1)) as [b ->]; [lia|].
  destruct (index_in_range data (pos + 2)) as [c ->]; [lia|]. cbn. eauto.
Qed.

(** A three-byte match has the same hash at both ends. *)
Lemma hash_match data p q :
  (∀ i, 0 ≤ i < 3 → index data (p + i) = index data (q + i)) → hash data p = hash data q.
Proof.
  intros H. unfold hash. rewrite <-(Z.add_0_r p), <-(Z.add_0_r q), <-!Z.add_assoc.
  rewrite !(H _) by lia. done.
Qed.

(** ** Building the chain *)

Lemma latest_le data b n : latest data b n = NONE ∨ 0 ≤ latest data b n < Z.of_nat n.
Proof. induction n as [|n IH]; [by left|]. cbn [latest]. case_decide; lia. Qed.

Lemma link_chain_spec n data head prev (pos : nat) :
  len data < NONE → len head = HASH_SIZE → len prev = len data →
  (∀ b, 0 ≤ b < HASH_SIZE → index head b = Some (latest data b pos)) →
  (∀ (q : nat) b, (q < pos)%nat → hash data (Z.of_nat q) = Some b →
     index prev (Z.of_nat q) = Some (latest data b q)) →
  Z.of_nat pos + Z.of_nat n + 2 ≤ len data →
  ∃ prev', link_chain n data head prev (Z.of_nat pos) = Some prev' ∧ len prev' = len data ∧
    ∀ (q : nat) b, (q < pos + n)%nat → hash data (Z.of_nat q) = Some b →
      index prev' (Z.of_nat q) = Some (latest data b q).
Proof.
  intros Hd. revert head prev pos. induction n as [|n IH]; intros head prev pos Hh Hp Hhead Hprev Hn.
  { exists prev. rewrite Nat.add_0_r. by split_and!. }
  cbn [link_chain].
  destruct (hash_Some data (Z.of_nat pos)) as [b Hb]; [lia|blz_lia|]. rewrite Hb.
  pose proof (hash_range _ _ _ Hb) as Hbr. cbn. rewrite Hhead by done. cbn.
  destruct (set_index prev (Z.of_nat pos) (latest data b pos)) as [prev1|] eqn:E1;
    [|by rewrite set_index_ok in E1 by lia]. cbn.
  destruct (set_index head b (as_u32 (Z.of_nat pos))) as [head1|] eqn:E2;
    [|by rewrite set_index_ok in E2 by lia]. cbn.
  rewrite as_u32_small in E2 by blz_lia.
  replace (Z.of_nat pos + 1) with (Z.of_nat (S pos)) by lia.
  destruct (IH head1 prev1 (S pos)) as (prev' & -> & Hl & Hq).
  - apply set_index_inv in E2. lia.
  - apply set_index_inv in E1. lia.
  - intros c Hc. rewrite (index_set_index _ _ _ _ _ E2). cbn [latest].
    destruct (Z.eqb_spec c b) as [->|Hne]; [by rewrite decide_True|].
    rewrite decide_False by congruence. by apply Hhead.
  - intros q c Hlt Hc. rewrite (index_set_index _ _ _ _ _ E1).
    destruct (Z.eqb_spec (Z.of_nat q) (Z.of_nat pos)) as [Hqp|]; [|apply Hprev; [lia|done]].
    apply Nat2Z.inj in Hqp as ->. congruence.
  - lia.
  - exists prev'. split_and!; [done|done|]. intros q c Hlt. apply Hq. lia.
Qed.

Lemma hash_bound data pos b : hash data pos = Some b → 0 ≤ pos ∧ pos + 2 < len data.
Proof.
  unfold hash. intros H. simplify_option_eq.
  repeat match goal with H : index _ _ = Some _ |- _ => apply index_Some_inv in H end. lia.
Qed.

Lemma MatchFinder_new_spec data :
  len data < NONE → ∃ f, MatchFinder_new data = Some f ∧ mf_data f = data ∧ finder_ok f.
Proof.
  intros Hd. unfold MatchFinder_new. settle. pose proof (len_nonneg data).
  destruct (Z.leb_spec (MIN_MATCH - 1) (len data)) as [Hm|Hm].
  - rewrite checked_sub_ok by done.
    edestruct (link_chain_spec (Z.to_nat (len data - (MIN_MATCH - 1))) data
      (zrep HASH_SIZE NONE) (zrep (len data) NONE) 0%nat) as (prev & Hlc & Hl & Hq).
    + done.
    + by apply len_zrep.
    + apply len_zrep. lia.
    + intros b Hb. by rewrite index_zrep.
    + lia.
    + blz_lia.
    + change (Z.of_nat 0) with 0 in Hlc. rewrite Hlc.
      cbn. eexists. split_and!; [done|done|]. split_and!; [done|done|].
      cbn. intros q b Hb. pose proof (hash_bound _ _ _ Hb). apply Hq; [blz_lia|done].
  - unfold checked_sub. rewrite (proj2 (Z.leb_gt _ _)) by done. cbn.
    eexists. split_and!; [done|done|]. split_and!; [done|apply len_zrep; cbn; lia|].
    cbn. intros q b Hb. pose proof (hash_bound _ _ _ Hb). blz_lia.
Qed.

(** ** Match lengths *)

Lemma match_length_spec fuel data pos offset l :
  0 ≤ offset ≤ pos → pos ≤ len data → 0 ≤ l → l ≤ len data - pos → l ≤ MAX_MATCH →
  MAX_MATCH - l < Z.of_nat fuel →
  ∃ m, match_length fuel data pos offset (len data - pos) l = Some m ∧
    l ≤ m ≤ MAX_MATCH ∧ m ≤ len data - pos ∧ (l ≤ offset → m ≤ offset) ∧
    ∀ i, l ≤ i < m → index data (pos + i) = index data (pos + i - offset).
Proof.
  intros Hoff Hpos. revert l. induction fuel as [|fuel IH]; intros l H0 Hr HM Hf; [lia|].
  cbn [match_length].
  destruct (Z.ltb_spec l MAX_MATCH); [|exists l; split_and!; [done|lia..]].
  destruct (Z.eqb_spec l (len data - pos)); [exists l; split_and!; [done|lia..]|].
  destruct (Z.ltb_spec l offset); [|exists l; split_and!; [done|lia..]]. cbn [andb negb].
  destruct (index_in_range data (pos + l)) as [a Ha]; [lia|].
  destruct (index_in_range data (pos + l - offset)) as [b Hb]; [lia|].
  rewrite Ha. cbn. rewrite checked_sub_ok by lia. cbn. rewrite Hb. cbn.
  case_decide as Hab; [|exists l; split_and!; [done|lia..]].
  destruct (IH (l + 1)) as (m & -> & ? & ? & ? & Hi); [lia..|].
  exists m. split_and!; [done|lia..|]. intros i Hi'.
  destruct (decide (i = l)) as [->|]; [congruence|apply Hi; lia].
Qed.

Lemma match_len_spec data pos offset :
  0 ≤ offset ≤ pos → pos ≤ len data →
  match_length 32 data pos offset (len data - pos) 0 = Some (match_len data pos offset) ∧
  0 ≤ match_len data pos offset ≤ MAX_MATCH ∧ match_len data pos offset ≤ len data - pos ∧
  match_len data pos offset ≤ offset ∧
  ∀ i, 0 ≤ i < match_len data pos offset → index data (pos + i) = index data (pos + i - offset).
Proof.
  intros Hoff Hpos. unfold match_len.
  destruct (match_length_spec 32 data pos offset 0) as (m & -> & ? & ? & ? & ?); try blz_lia.
  cbn. split_and!; [done|lia..|done].
Qed.

(** A candidate in another bucket cannot start an encodable match. *)
Lemma match_len_bucket data pos (q : nat) b :
  hash data pos = Some b → hash data (Z.of_nat q) ≠ Some b → Z.of_nat q ≤ pos → pos ≤ len data →
  match_len data pos (pos - Z.of_nat q) ≤ MATCH_THRESHOLD.
Proof.
  intros Hb Hq Hle Hpos.
  destruct (match_len_spec data pos (pos - Z.of_nat q)) as (_ & _ & _ & _ & Hi); [lia..|].
  destruct (Z.le_gt_cases (match_len data pos (pos - Z.of_nat q)) MATCH_THRESHOLD); [done|].
  destruct Hq. rewrite <-Hb. symmetry. apply hash_match. intros i Hr.
  rewrite Hi by blz_lia. f_equal. lia.
Qed.

(** ** The three scans agree *)

Lemma better_bounds data pos q best :
  0 ≤ pos ≤ len data → MATCH_THRESHOLD ≤ best.1 ≤ MAX_MATCH →
  MATCH_THRESHOLD ≤ (better data pos q best).1 ≤ MAX_MATCH.
Proof.
  intros Hpos Hb. unfold better. case_match; [|done]. zify_bool. cbn.
  destruct (match_len_spec data pos (pos - Z.of_nat q)) as (_ & ? & _); blz_lia.
Qed.

Lemma better_same data pos (q : nat) best :
  (MIN_MATCH ≤ pos - Z.of_nat q → match_len data pos (pos - Z.of_nat q) ≤ best.1) →
  better data pos q best = best.
Proof. intros H. unfold better. case_match; [|done]. zify_bool. exfalso. lia. Qed.

Lemma scan_unimproved data pos n best :
  (∀ q : nat, (q < n)%nat → MIN_MATCH ≤ pos - Z.of_nat q →
     match_len data pos (pos - Z.of_nat q) ≤ best.1) → scan data pos n best = best.
Proof.
  induction n as [|n IH]; intros H; [done|]. cbn [scan]. case_match; [done|].
  rewrite better_same; [|apply H; lia]. apply IH. auto with lia.
Qed.

Lemma scan_saturated data pos n best :
  0 ≤ pos ≤ len data → best.1 = MAX_MATCH → scan data pos n best = best.
Proof.
  intros Hpos Hb. apply scan_unimproved. intros q _ Hq.
  destruct (match_len_spec data pos (pos - Z.of_nat q)) as (_ & ? & _); blz_lia.
Qed.

Lemma scan_far data pos (n : nat) best :
  MAX_OFFSET < pos - Z.of_nat n + 1 → scan data pos n best = best.
Proof. destruct n; [done|]. cbn [scan]. intros. by settle. Qed.

Lemma walk_chain_scan f pos b bl bo (n fuel : nat) :
  finder_ok f → hash (mf_data f) pos = Some b → Z.of_nat n ≤ pos → (n < fuel)%nat →
  MATCH_THRESHOLD ≤ bl ≤ MAX_MATCH →
  walk_chain fuel f pos (len (mf_data f) - pos) bl bo (latest (mf_data f) b n)
    = Some (scan (mf_data f) pos n (bl, bo)).
Proof.
  intros (Hlen & Hplen & Hprev) Hb. pose proof (hash_bound _ _ _ Hb) as Hpos.
  revert bl bo fuel. induction n as [|n IH]; intros bl bo fuel Hn Hfuel Hbl.
  { destruct fuel; [lia|]. done. }
  cbn [latest scan]. case_decide as Hq.
  - destruct fuel as [|fuel]; [lia|]. cbn [walk_chain].
    rewrite (proj2 (Z.eqb_neq _ _)) by blz_lia.
    rewrite checked_sub_ok by lia. cbn [mbind option_bind].
    destruct (Z.ltb_spec MAX_OFFSET (pos - Z.of_nat n)) as [|Hoff]; [done|].
    rewrite (Hprev n b Hq). unfold better. cbn [fst snd].
    destruct (match_len_spec (mf_data f) pos (pos - Z.of_nat n)) as (Hm & ? & _); [lia..|].
    destruct (Z.leb_spec MIN_MATCH (pos - Z.of_nat n)) as [Hmin|Hmin]; cbn [andb].
    + rewrite Hm. cbn [mbind option_bind].
      destruct (Z.ltb_spec bl (match_len (mf_data f) pos (pos - Z.of_nat n))).
      * destruct (Z.eqb_spec (match_len (mf_data f) pos (pos - Z.of_nat n)) MAX_MATCH).
        -- rewrite scan_saturated; [done|lia|done].
        -- apply IH; lia.
      * apply IH; lia.
    + cbn [mbind option_bind]. rewrite Z.ltb_irrefl. apply IH; lia.
  - destruct (Z.ltb_spec MAX_OFFSET (pos - Z.of_nat n)) as [|Hoff].
    + rewrite IH by lia. rewrite scan_far by lia. done.
    + rewrite better_same; [apply IH; lia|]. intros _. cbn.
      pose proof (match_len_bucket _ _ _ _ Hb Hq ltac:(lia) ltac:(lia)). lia.
Qed.

Lemma scan_offsets_scan data pos offset bl bo (n : nat) :
  MIN_MATCH ≤ offset → pos ≤ len data → Z.of_nat n = Z.min pos MAX_OFFSET - (offset - 1) →
  MATCH_THRESHOLD ≤ bl ≤ MAX_MATCH →
  scan_offsets n data pos offset bl bo
    = Some (scan data pos (Z.to_nat (pos - (offset - 1))) (bl, bo)).
Proof.
  intros Hoff Hpos. revert offset bl bo Hoff. induction n as [|n IH]; intros offset bl bo Hoff Hn Hbl.
  { cbn [scan_offsets]. destruct (Z.le_gt_cases pos MAX_OFFSET).
    - by replace (Z.to_nat (pos - (offset - 1))) with O by lia.
    - rewrite scan_far; [done|lia]. }
  cbn [scan_offsets].
  replace (Z.to_nat (pos - (offset - 1))) with (S (Z.to_nat (pos - (offset + 1 - 1)))) by lia.
  set (q := Z.to_nat (pos - (offset + 1 - 1))). assert (pos - Z.of_nat q = offset) as Hq by lia.
  cbn [scan]. rewrite Hq. settle. unfold better. rewrite Hq. settle. cbn [fst].
  destruct (match_len_spec data pos offset) as (-> & ? & _); [blz_lia..|]. cbn [mbind option_bind].
  destruct (Z.ltb_spec bl (match_len data pos offset)).
  - destruct (Z.eqb_spec (match_len data pos offset) MAX_MATCH).
    + rewrite scan_saturated; [done|blz_lia|done].
    + apply IH; lia.
  - apply IH; lia.
Qed.

Lemma scan_skip data pos :
  scan data (Z.of_nat pos) pos (MATCH_THRESHOLD, 0)
    = scan data (Z.of_nat pos) (pos - 2) (MATCH_THRESHOLD, 0).
Proof.
  destruct pos as [|[|pos]]; [done|done|]. replace (S (S pos) - 2)%nat with pos by lia.
  cbn [scan]. replace (MAX_OFFSET <? Z.of_nat (S (S pos)) - Z.of_nat (S pos)) with false
    by (symmetry; apply Z.ltb_ge; blz_lia).
  rewrite (better_same _ _ (S pos)) by blz_lia.
  replace (MAX_OFFSET <? Z.of_nat (S (S pos)) - Z.of_nat pos) with false
    by (symmetry; apply Z.ltb_ge; blz_lia).
  by rewrite better_same by blz_lia.
Qed.

Lemma brute_force_scan data (pos : nat) :
  Z.of_nat pos ≤ len data →
  longest_match_brute_force data (Z.of_nat pos)
    = Some (scan data (Z.of_nat pos) pos (MATCH_THRESHOLD, 0)).
Proof.
  intros Hpos. unfold longest_match_brute_force. rewrite scan_skip.
  destruct (Z.le_gt_cases (Z.of_nat pos) 2).
  { rewrite (proj2 (Nat.sub_0_le pos 2)) by lia.
    by replace (Z.to_nat (Z.min (Z.of_nat pos) MAX_OFFSET - 2)) with O by lia. }
  rewrite scan_offsets_scan by blz_lia. do 2 f_equal. lia.
Qed.

Lemma longest_match_scan f (pos : nat) :
  finder_ok f → Z.of_nat pos < len (mf_data f) →
  longest_match f (Z.of_nat pos)
    = Some (scan (mf_data f) (Z.of_nat pos) pos (MATCH_THRESHOLD, 0)).
Proof.
  intros Hok Hpos. unfold longest_match.
  destruct (Z.ltb_spec (len (mf_data f)) (Z.of_nat pos + MIN_MATCH)).
  - rewrite scan_unimproved; [done|]. intros q Hq _. cbn [fst].
    destruct (match_len_spec (mf_data f) (Z.of_nat pos) (Z.of_nat pos - Z.of_nat q))
      as (_ & _ & ? & _); blz_lia.
  - destruct (hash_Some (mf_data f) (Z.of_nat pos)) as [b Hb]; [lia..|].
    pose proof Hok as (_ & _ & Hprev). rewrite (Hprev _ _ Hb). cbn [mbind option_bind].
    apply walk_chain_scan; [done|done|lia|unfold len in *; lia|blz_lia].
Qed.

(** ** What the encoder relies on *)

Lemma scan_valid data pos n best :
  0 ≤ pos ≤ len data → Z.of_nat n ≤ pos →
  best.1 = MATCH_THRESHOLD ∨ valid_match data pos best.1 best.2 →
  let r := scan data pos n best in r.1 = MATCH_THRESHOLD ∨ valid_match data pos r.1 r.2.
Proof.
  intros Hpos. revert best. induction n as [|n IH]; intros best Hn Hb; [done|].
  cbn [scan]. case_match; [done|]. zify_bool. apply IH; [lia|].
  unfold better. case_match; [|done]. zify_bool. right.
  destruct (match_len_spec data pos (pos - Z.of_nat n)) as (_ & ? & ? & ? & ?); [blz_lia..|].
  cbn. unfold valid_match. destruct Hb as [Hb|Hb]; [|unfold valid_match in Hb]; split_and!; auto; blz_lia.
Qed.

(** [longest_match] returns, and what it returns above the threshold is a valid back-reference. *)
Lemma longest_match_valid f pos :
  finder_ok f → 0 ≤ pos < len (mf_data f) →
  ∃ l o, longest_match f pos = Some (l, o) ∧
    (l = MATCH_THRESHOLD ∨ valid_match (mf_data f) pos l o).
Proof.
  intros Hok Hpos. rewrite <-(Z2Nat.id pos) by lia.
  rewrite longest_match_scan by (rewrite ?Z2Nat.id; done || lia).
  destruct (scan _ _ _ _) as [l o] eqn:E. exists l, o. split; [done|].
  pose proof (scan_valid (mf_data f) (Z.of_nat (Z.to_nat pos)) (Z.to_nat pos) (MATCH_THRESHOLD, 0)) as H.
  rewrite E in H. apply H; [lia|lia|by left].
Qed.

Lemma longest_match_oracle f pos :
  finder_ok f → 0 ≤ pos < len (mf_data f) →
  ∃ m, longest_match f pos = Some m ∧ longest_match_brute_force (mf_data f) pos = Some m.
Proof.
  intros Hok Hpos. rewrite <-(Z2Nat.id pos) by lia. eexists. split; [apply longest_match_scan; [done|lia]|].
  apply brute_force_scan. lia.
Qed.

(** C8. The match finder finds exactly what the exhaustive search finds: for every input short
    enough to index and every position of it, building the finder succeeds, and its
    [longest_match] returns the same length and offset as [longest_match_brute_force]. *)
Theorem longest_match_brute_force_eq data pos :
  len data < NONE → 0 ≤ pos < len data →
  ∃ f m, MatchFinder_new data = Some f ∧ longest_match f pos = Some m ∧
    longest_match_brute_force data pos = Some m.
Proof.
  intros Hd Hpos. destruct (MatchFinder_new_spec data Hd) as (f & -> & <- & Hok).
  destruct (longest_match_oracle f pos Hok Hpos) as (m & Hm & Hb). by exists f, m.
Qed.

Lemma longest_match_brute_force_eq_witness :
  ∃ f m, MatchFinder_new [x01; x02; x03; x04; x01; x02; x03; x05] = Some f ∧
    longest_match f 4 = Some m ∧
    longest_match_brute_force [x01; x02; x03; x04; x01; x02; x03; x05] 4 = Some m.
Proof.
  apply longest_match_brute_force_eq; [reflexivity|split; [discriminate|reflexivity]].
Defined.
