(* ===== verification/BlzStream.v ===== *)
(** * The BLZ code stream, abstractly

    What the encoder and the decoder of [src/src/blz.rs] agree on: a sequence of codes, what it
    decodes to, and the byte streams that carry it under flag bytes. [BlzEncode] proves that
    [encode_loop] produces such a stream for its input, [BlzDecode] that [decode_loop] decodes
    one. Everything here is in decode order, over the reversed data. *)

From S2P Require Import Prelude Bytes Blz.
#[local] Open Scope Z_scope.

Inductive code :=
| Lit (b : byte)
| Ref (l offset : Z).

(** [l] bytes copied from [offset] behind the end of the decoded bytes, one at a time. *)
Fixpoint dec_match (l : nat) (offset : Z) (acc : list byte) : option (list byte) :=
  match l with
  | O => Some acc
  | S l => b ← index acc (len acc - offset); dec_match l offset (acc ++ [b])
  end.

Definition dec_code (c : code) (acc : list byte) : option (list byte) :=
  match c with
  | Lit b => Some (acc ++ [b])
  | Ref l offset => dec_match (Z.to_nat l) offset acc
  end.

Fixpoint dec_codes (cs : list code) (acc : list byte) : option (list byte) :=
  match cs with
  | [] => Some acc
  | c :: cs => acc ← dec_code c acc; dec_codes cs acc
  end.

Definition is_ref (c : code) : bool := match c with Lit _ => false | Ref _ _ => true end.

(** A code's bytes, and how many bytes it decodes to. *)
Definition ref_bytes (l o : Z) : list byte :=
  [z2b (as_u8 (Z.lor (Z.shiftl l 4) (Z.shiftr o 8))); z2b (as_u8 (Z.land o 0xFF))].
Definition code_bytes (c : code) : list byte :=
  match c with Lit b => [b] | Ref l offset => ref_bytes (l - 3) (offset - 3) end.
Definition dlen (c : code) : Z := match c with Lit _ => 1 | Ref l _ => l end.

Fixpoint dlens (cs : list code) : Z := match cs with [] => 0 | c :: cs => dlen c + dlens cs end.

(** The fields of a back-reference fit their bits. *)
Definition code_ok (c : code) : Prop :=
  match c with
  | Lit _ => True
  | Ref l offset => MIN_MATCH ≤ l ≤ MAX_MATCH ∧ MIN_MATCH ≤ offset ≤ MAX_OFFSET
  end.

(** [Stream n flags cs bs]: [bs] carries the codes [cs] when [n] more codes belong to the
    current flag byte, whose remaining bits are the top bits of [flags]. *)
Inductive Stream : nat → Z → list code → list byte → Prop :=
| Stream_nil n flags : Stream n flags [] []
| Stream_flag flags cs bs :
    0 ≤ flags < 256 → Stream 8 flags cs bs → Stream 0 0 cs (z2b flags :: bs)
| Stream_code n flags c cs bs :
    code_ok c → Z.testbit flags 7 = is_ref c → Stream n (as_u8 (Z.shiftl flags 1)) cs bs →
    Stream (S n) flags (c :: cs) (code_bytes c ++ bs).

(** The bytes that [cs] occupy, flag bytes included. *)
Fixpoint wsize (n : nat) (cs : list code) : Z :=
  match cs with
  | [] => 0
  | c :: cs =>
    match n with
    | O => 1 + len (code_bytes c) + wsize 7 cs
    | S n => len (code_bytes c) + wsize n cs
    end
  end.

(** Room left in the flag byte after [k] more codes. *)
Fixpoint advance (n : nat) (k : nat) : nat :=
  match k with O => n | S k => advance (match n with O => 7%nat | S n => n end) k end.

(** ** Decoding codes *)

Lemma dec_match_len l offset acc r : dec_match l offset acc = Some r → len r = len acc + Z.of_nat l.
Proof.
  revert acc. induction l as [|l IH]; intros acc; cbn [dec_match]; [intros [= <-]; lia|].
  intros (b & _ & H)%bind_Some. apply IH in H. len_lia.
Qed.

Lemma dec_match_prefix l offset acc r : dec_match l offset acc = Some r → ∃ k, r = acc ++ k.
Proof.
  revert acc. induction l as [|l IH]; intros acc; cbn [dec_match].
  { intros [= <-]. exists []. by rewrite app_nil_r. }
  intros (b & _ & [k ->]%IH)%bind_Some. rewrite <-app_assoc. eauto.
Qed.

Lemma dec_code_len c acc r : code_ok c → dec_code c acc = Some r → len r = len acc + dlen c.
Proof.
  destruct c as [b|l o]; cbn [dec_code dlen code_ok].
  - intros _ [= <-]. len_lia.
  - unfold MIN_MATCH, MATCH_THRESHOLD. intros [? _] ->%dec_match_len. lia.
Qed.

Lemma dec_code_prefix c acc r : dec_code c acc = Some r → ∃ k, r = acc ++ k.
Proof. destruct c; cbn [dec_code]; [intros [= <-]; eauto|apply dec_match_prefix]. Qed.

Lemma dec_codes_prefix cs acc r : dec_codes cs acc = Some r → ∃ k, r = acc ++ k.
Proof.
  revert acc. induction cs as [|c cs IH]; intros acc; cbn [dec_codes].
  { intros [= <-]. exists []. by rewrite app_nil_r. }
  intros (acc' & [k ->]%dec_code_prefix & [k' ->]%IH)%bind_Some. rewrite <-app_assoc. eauto.
Qed.

Lemma dec_codes_app cs1 cs2 acc :
  dec_codes (cs1 ++ cs2) acc = acc' ← dec_codes cs1 acc; dec_codes cs2 acc'.
Proof.
  revert acc. induction cs1 as [|c cs1 IH]; intros acc; [done|]. cbn [dec_codes app].
  destruct (dec_code c acc); cbn [mbind option_bind]; [apply IH|done].
Qed.

Lemma dec_codes_len cs acc r :
  Forall code_ok cs → dec_codes cs acc = Some r → len r = len acc + dlens cs.
Proof.
  intros Hok. revert acc. induction Hok as [|c cs Hc Hcs IH]; intros acc; cbn [dec_codes dlens].
  { intros [= <-]. lia. }
  intros (acc' & Ha%dec_code_len & Hr%IH)%bind_Some; [lia|done].
Qed.

Lemma dlens_app cs1 cs2 : dlens (cs1 ++ cs2) = dlens cs1 + dlens cs2.
Proof. induction cs1; cbn [dlens app]; lia. Qed.

Lemma dlens_nonneg cs : Forall code_ok cs → 0 ≤ dlens cs.
Proof.
  induction 1 as [|c cs Hc _ IH]; cbn [dlens]; [done|].
  destruct c; cbn in *; unfold MIN_MATCH, MATCH_THRESHOLD in *; lia.
Qed.

(** A match at [acc]'s end that agrees with the data copies the data. *)
Lemma dec_match_copy (data : list byte) pos l offset :
  0 < offset ≤ pos → pos + Z.of_nat l ≤ len data →
  (∀ i, 0 ≤ i < Z.of_nat l → index data (pos + i) = index data (pos + i - offset)) →
  dec_match l offset (ztake pos data) = Some (ztake (pos + Z.of_nat l) data).
Proof.
  revert pos. induction l as [|l IH]; intros pos Hoff Hlen Hi; cbn [dec_match].
  { by rewrite Z.add_0_r. }
  pose proof (len_nonneg data).
  destruct (index_in_range data pos) as [b Hb]; [lia|].
  rewrite len_ztake by lia. rewrite index_ztake by lia.
  specialize (Hi 0) as H0. rewrite !Z.add_0_r in H0. rewrite <-H0, Hb by lia.
  cbn [mbind option_bind]. rewrite <-(ztake_S data pos b) by done.
  rewrite IH; [f_equal; f_equal; lia|lia..|].
  intros i Hr. replace (pos + 1 + i) with (pos + (1 + i)) by lia. apply Hi. lia.
Qed.

(** ** Sizes *)

Lemma wsize_app n cs1 cs2 : wsize n (cs1 ++ cs2) = wsize n cs1 + wsize (advance n (length cs1)) cs2.
Proof.
  revert n. induction cs1 as [|c cs1 IH]; intros n; [done|].
  cbn [app wsize length advance]. destruct n; rewrite IH; lia.
Qed.

Lemma wsize_nonneg n cs : 0 ≤ wsize n cs.
Proof.
  revert n. induction cs as [|c cs IH]; intros n; [done|]. cbn [wsize].
  pose proof (len_nonneg (code_bytes c)). destruct n; [pose proof (IH 7%nat)|pose proof (IH n)]; lia.
Qed.

(** Every prefix of the codes has a stream, which is a prefix of the bytes. *)
Lemma Stream_split n flags cs1 cs2 bs :
  Stream n flags (cs1 ++ cs2) bs →
  ∃ bs1 bs2, bs = bs1 ++ bs2 ∧ Stream n flags cs1 bs1 ∧ len bs1 = wsize n cs1.
Proof.
  destruct cs1 as [|c cs1]; [intros _; exists [], bs; split_and!; [done|constructor|done]|].
  remember ((c :: cs1) ++ cs2) as cs eqn:Hcs. intros H. revert c cs1 Hcs.
  induction H as [n flags|flags cs bs Hf H IH|n flags c cs bs Hc Hb H IH]; intros c' cs1 Hcs; [done| |].
  - destruct (IH c' cs1 Hcs) as (bs1 & bs2 & -> & Hs & Hl).
    exists (z2b flags :: bs1), bs2. split_and!; [done|by constructor|].
    rewrite len_cons, Hl. cbn [wsize]. lia.
  - simplify_eq/=. destruct cs1 as [|c1 cs1].
    + exists (code_bytes c'), bs. split_and!; [done| |cbn [wsize]; lia].
      rewrite <-(app_nil_r (code_bytes c')). constructor; [done|done|constructor].
    + destruct (IH c1 cs1 eq_refl) as (bs1 & bs2 & -> & Hs & Hl).
      exists (code_bytes c' ++ bs1), bs2. split_and!; [by rewrite app_assoc|by constructor|].
      rewrite len_app, Hl. done.
Qed.

Lemma Stream_code_ok n flags cs bs : Stream n flags cs bs → Forall code_ok cs.
Proof. induction 1; eauto. Qed.

Lemma Stream_S_inv n flags cs bs :
  Stream (S n) flags cs bs →
  (cs = [] ∧ bs = []) ∨
  ∃ c cs' bs', cs = c :: cs' ∧ bs = code_bytes c ++ bs' ∧ code_ok c ∧
    Z.testbit flags 7 = is_ref c ∧ Stream n (as_u8 (Z.shiftl flags 1)) cs' bs'.
Proof. inversion 1; subst; [by left|right; eauto 10]. Qed.

Lemma Stream_0_inv flags cs bs :
  Stream 0 flags cs bs →
  (cs = [] ∧ bs = []) ∨
  ∃ f bs', flags = 0 ∧ bs = z2b f :: bs' ∧ 0 ≤ f < 256 ∧ Stream 8 f cs bs'.
Proof. inversion 1; subst; [by left|right; eauto 10]. Qed.

(** ** Growing a stream

    [Open k a pre pay cs]: after the codes [cs] the encoder has written the finished groups
    [pre], a flag byte whose first [8 - k] bits are [a], and the payload [pay] of its codes.
    Whatever flag byte [F] completes it, and whatever stream follows, together they carry the
    codes. *)
Definition Closed (pre : list byte) (cs : list code) : Prop :=
  ∀ cs' bs', Stream 0 0 cs' bs' → Stream 0 0 (cs ++ cs') (pre ++ bs').

Definition Open (k : nat) (a : Z) (pre pay : list byte) (cs : list code) : Prop :=
  ∀ F cs' bs', 0 ≤ F < 256 → F / 2 ^ Z.of_nat k = a →
    Stream k (as_u8 (F * 2 ^ (8 - Z.of_nat k))) cs' bs' →
    Stream 0 0 (cs ++ cs') (pre ++ z2b F :: pay ++ bs').

Lemma Closed_nil : Closed [] [].
Proof. by intros cs' bs' H. Qed.

Lemma Open_start pre cs : Closed pre cs → Open 8 0 pre [] cs.
Proof.
  intros H F cs' bs' HF _ HS. apply H. constructor; [done|].
  change (8 - Z.of_nat 8) with 0 in HS. rewrite Z.mul_1_r, as_u8_small in HS by mlia. done.
Qed.

Lemma Open_step k a pre pay cs c :
  Open (S k) a pre pay cs → code_ok c → (k < 8)%nat →
  Open k (2 * a + Z.b2z (is_ref c)) pre (pay ++ code_bytes c) (cs ++ [c]).
Proof.
  intros H Hc Hk F cs' bs' HF Ha HS. rewrite <-!app_assoc. apply H; [done| |].
  - rewrite Nat2Z.inj_succ, Z.pow_succ_r, Z.mul_comm, <-Z.div_div, Ha by lia.
    symmetry. apply Z.div_unique with (Z.b2z (is_ref c)); destruct (is_ref c); cbn; lia.
  - assert (F * 2 ^ (8 - Z.of_nat (S k)) * 2 = F * 2 ^ (8 - Z.of_nat k)) as Hs.
    { replace (8 - Z.of_nat k) with (Z.succ (8 - Z.of_nat (S k))) by lia.
      rewrite Z.pow_succ_r by lia. lia. }
    constructor; [done| |].
    + unfold as_u8. rewrite Z.mod_pow2_bits_low by lia.
      rewrite Z.mul_pow2_bits by lia. replace (7 - (8 - Z.of_nat (S k))) with (Z.of_nat k) by lia.
      rewrite Z.testbit_odd, Z.shiftr_div_pow2 by lia. rewrite Ha.
      rewrite Z.add_comm, Z.odd_add_mul_2. by destruct (is_ref c).
    + rewrite Z.shiftl_mul_pow2 by lia. unfold as_u8 in *.
      rewrite Z.mul_mod_idemp_l, Z.pow_1_r, Hs by lia. done.
Qed.

Lemma Open_close a pre pay cs : Open 0 a pre pay cs → 0 ≤ a < 256 → Closed (pre ++ z2b a :: pay) cs.
Proof.
  intros H Ha cs' bs' HS. rewrite <-app_assoc. apply H; [done|apply Z.div_1_r|].
  replace (as_u8 _) with 0; [done|]. unfold as_u8. change (8 - Z.of_nat 0) with 8.
  symmetry. by apply Z.mod_mul.
Qed.

(** The final shift of the flag byte completes the stream. *)
Lemma Open_flush k a pre pay cs :
  Open k a pre pay cs → (k ≤ 8)%nat → 0 ≤ a < 2 ^ (8 - Z.of_nat k) →
  Stream 0 0 cs (pre ++ z2b (a * 2 ^ Z.of_nat k) :: pay).
Proof.
  intros H Hk Ha. rewrite <-(app_nil_r cs), <-(app_nil_r pay).
  pose proof (Z.pow_pos_nonneg 2 (Z.of_nat k) eq_refl ltac:(lia)).
  apply H; [|by apply Z.div_mul; lia|constructor].
  split; [lia|]. replace 256 with (2 ^ (8 - Z.of_nat k) * 2 ^ Z.of_nat k); [nia|].
  rewrite <-Z.pow_add_r by lia. by replace (8 - Z.of_nat k + Z.of_nat k) with 8 by lia.
Qed.
