(* ===== verification/BlzEncode.v ===== *)
(** * The BLZ encoder produces a stream of its input

    The loop of [compress_into] as an invariant over the codes emitted so far: the output buffer
    carries them ([Open]), they decode to the input read so far, the buffer never overflows, and
    [best_packed] and [best_remaining] describe the code boundary where the packed and raw bytes
    together are fewest. *)

From S2P Require Import Prelude Bytes Blz BlzFinder BlzStream.
#[local] Open Scope Z_scope.

(** The room left in the current flag byte after [cs], and after one more code. *)
Definition room (cs : list code) : nat := advance 0 (length cs).
Definition take_bit (n : nat) : nat := match n with O => 7%nat | S n => n end.

(** The output buffer: finished groups, the open flag byte, its payload, unwritten bytes. *)
Definition buffer (st : Encoder) (a : Z) (pre pay rest : list byte) : Prop :=
  output st = pre ++ z2b a :: pay ++ rest ∧ flag_pos st = len pre ∧
  write_pos st = len pre + 1 + len pay.

(** The buffer at the head of an iteration, and once the next code has a flag bit. *)
Definition head (st : Encoder) (cs : list code) (k : nat) : Prop :=
  (cs = [] ∧ k = 0%nat ∧ mask st = 0 ∧ write_pos st = 0) ∨
  (∃ a pre pay rest, Open k a pre pay cs ∧ (k ≤ 7)%nat ∧ 0 ≤ a < 2 ^ (8 - Z.of_nat k) ∧
     mask st = 2 ^ Z.of_nat k ∧ buffer st a pre pay rest).
Definition ready (st : Encoder) (cs : list code) (k : nat) : Prop :=
  ∃ a pre pay rest, Open (S k) a pre pay cs ∧ (k ≤ 7)%nat ∧ 0 ≤ a < 2 ^ (7 - Z.of_nat k) ∧
    mask st = 2 ^ Z.of_nat k ∧ buffer st a pre pay rest.

(** [best] is the smallest value of packed plus raw bytes over all code boundaries of [cs]. *)
Definition best_split (n : Z) (cs : list code) (packed remaining : Z) : Prop :=
  (∃ cs1 cs2, cs = cs1 ++ cs2 ∧ packed = wsize 0 cs1 ∧ remaining = n - dlens cs1) ∧
  (∀ cs1 cs2, cs = cs1 ++ cs2 → packed + remaining ≤ wsize 0 cs1 + n - dlens cs1).

Record encoded (data : list byte) (size : Z) (st : Encoder) (cs : list code) : Prop := {
  en_head : head st cs (room cs);
  en_write : write_pos st = wsize 0 cs;
  en_read : read_pos st = dlens cs;
  en_size : len (output st) = size;
  en_dec : dec_codes cs [] = Some (ztake (read_pos st) data);
  en_le : read_pos st ≤ len data;
  en_ok : Forall code_ok cs;
  en_best : best_split (len data) cs (best_packed st) (best_remaining st);
}.

(** ** Sizes *)

Lemma code_bytes_len c : code_ok c → 1 ≤ len (code_bytes c) ≤ dlen c.
Proof. destruct c; cbn; unfold MIN_MATCH, MATCH_THRESHOLD, ref_bytes; len_lia. Qed.

Lemma wsize_bound n cs :
  Forall code_ok cs → (n ≤ 7)%nat → wsize n cs ≤ dlens cs + (dlens cs + 7 - Z.of_nat n) / 8.
Proof.
  intros Hok. revert n. induction Hok as [|c cs Hc Hcs IH]; intros n Hn; cbn [wsize dlens].
  { apply Z.div_pos; lia. }
  pose proof (code_bytes_len c Hc). destruct n as [|n].
  - specialize (IH 7%nat ltac:(lia)). div_lia.
  - specialize (IH n ltac:(lia)). div_lia.
Qed.

Lemma wsize_worst_case n cs :
  Forall code_ok cs → dlens cs ≤ n → wsize 0 cs + 15 ≤ worst_case_len n.
Proof.
  intros Hok Hn. pose proof (wsize_bound 0 cs Hok ltac:(lia)).
  unfold worst_case_len, div_ceil. div_lia.
Qed.

Lemma advance_S n k : advance n (S k) = take_bit (advance n k).
Proof.
  revert n. induction k as [|k IH]; intros n; [done|].
  change (advance n (S (S k))) with (advance (take_bit n) (S k)). by rewrite IH.
Qed.

Lemma room_snoc cs c : room (cs ++ [c]) = take_bit (room cs).
Proof. unfold room. rewrite length_app, Nat.add_1_r. apply advance_S. Qed.

Lemma wsize_snoc cs c :
  wsize 0 (cs ++ [c]) = wsize 0 cs + (if room cs is O then 1 else 0) + len (code_bytes c).
Proof. rewrite wsize_app. fold (room cs). destruct (room cs); cbn [wsize]; lia. Qed.

Lemma dlens_snoc cs c : dlens (cs ++ [c]) = dlens cs + dlen c.
Proof. rewrite dlens_app. cbn [dlens]. lia. Qed.

(** ** The flag byte *)

Lemma split_at {A} (l : list A) i : 0 ≤ i < len l → ∃ l1 x l2, l = l1 ++ x :: l2 ∧ len l1 = i.
Proof.
  intros Hi. destruct (index_in_range l i Hi) as [x Hx]. unfold index in Hx.
  destruct (0 <=? i); [|done]. apply list_elem_of_split_length in Hx as (l1 & l2 & -> & Hl).
  exists l1, x, l2. split; [done|]. unfold len in *. lia.
Qed.

Lemma update_index_mid {A} (l1 l2 : list A) x f i :
  i = len l1 → update_index (l1 ++ x :: l2) i f = Some (l1 ++ f x :: l2).
Proof. intros ->. unfold update_index. rewrite index_app_eq by done. by apply set_index_app_eq. Qed.

Lemma shl_byte_z2b a : 0 ≤ a < 128 → shl_byte (z2b a) = z2b (2 * a).
Proof.
  intros. unfold shl_byte. rewrite b2z_z2b_u8 by mlia.
  rewrite Z.shiftl_mul_pow2, Z.mul_comm by lia. by rewrite as_u8_small by mlia.
Qed.

Lemma set_low_bit_z2b a : 0 ≤ a < 128 → set_low_bit (z2b (2 * a)) = z2b (2 * a + 1).
Proof.
  intros. unfold set_low_bit. rewrite b2z_z2b_u8 by mlia. f_equal.
  rewrite Z.lor_comm. destruct a; try done. lia.
Qed.

Lemma pow2_7 k : (k ≤ 7)%nat → 2 ^ (7 - Z.of_nat k) ≤ 128.
Proof. intros. change 128 with (2 ^ 7). apply Z.pow_le_mono_r; lia. Qed.

Lemma pow2_8 k : (k ≤ 7)%nat → 2 ^ (8 - Z.of_nat k) = 2 * 2 ^ (7 - Z.of_nat k).
Proof.
  intros. replace (8 - Z.of_nat k) with (Z.succ (7 - Z.of_nat k)) by lia.
  by rewrite Z.pow_succ_r by lia.
Qed.

Lemma shiftr_mask k : Z.shiftr (2 ^ Z.of_nat (S k)) FLAG_SHIFT = 2 ^ Z.of_nat k.
Proof.
  unfold FLAG_SHIFT. rewrite Z.shiftr_div_pow2, Nat2Z.inj_succ, Z.pow_succ_r, Z.pow_1_r by lia.
  rewrite Z.mul_comm. by apply Z.div_mul.
Qed.

(** Opening a new flag byte at the end of the written bytes. *)
Lemma open_flag st cs pre :
  Closed pre cs → len pre = write_pos st → write_pos st < len (output st) →
  (∃ rest, output st = pre ++ rest) →
  ∃ out, set_index (output st) (write_pos st) (z2b 0) = Some out ∧
    len out = len (output st) ∧ Open 8 0 pre [] cs ∧ ∃ rest, out = pre ++ z2b 0 :: rest.
Proof.
  intros HC Hl Hw [rest Hrest]. rewrite Hrest in *. destruct rest as [|x rest]; [len_lia|].
  rewrite set_index_app_eq by done. eexists. split_and!; [done|by len_lia|by apply Open_start|eauto].
Qed.

Lemma next_flag_spec st cs :
  head st cs (room cs) → write_pos st < len (output st) →
  ∃ st', next_flag st = Some st' ∧ ready st' cs (take_bit (room cs)) ∧
    read_pos st' = read_pos st ∧ len (output st') = len (output st) ∧
    write_pos st' = write_pos st + (if room cs is O then 1 else 0) ∧
    best_packed st' = best_packed st ∧ best_remaining st' = best_remaining st.
Proof.
  intros Hh Hw. unfold next_flag.
  assert (∀ pre, Closed pre cs → len pre = write_pos st → (∃ rest, output st = pre ++ rest) →
    Z.shiftr (mask st) FLAG_SHIFT = 0 → room cs = 0%nat → ∃ st', next_flag st = Some st' ∧
    ready st' cs (take_bit (room cs)) ∧ read_pos st' = read_pos st ∧
    len (output st') = len (output st) ∧ write_pos st' = write_pos st + (if room cs is O then 1 else 0) ∧
    best_packed st' = best_packed st ∧ best_remaining st' = best_remaining st) as Hnew.
  { intros pre HC Hl Hr Hm Hroom. unfold next_flag. rewrite Hm, Hroom. cbn [Z.eqb].
    destruct (open_flag st cs pre HC Hl Hw Hr) as (out & -> & Hlen & HO & rest & ->).
    cbn [mbind option_bind]. eexists. split; [done|]. cbn [read_pos output write_pos best_packed best_remaining].
    split_and!; [|done..]. exists 0, pre, [], rest.
    unfold buffer. cbn [output flag_pos write_pos mask]. split_and!; try done; try len_lia. }
  destruct Hh as [(Hcs & Hk & Hm & Hw0)|(a & pre & pay & rest & HO & Hk & Ha & Hm & Hout & Hf & Hwp)].
  - apply (Hnew []); [rewrite Hcs; apply Closed_nil|by rewrite Hw0|by exists (output st)|by rewrite Hm|done].
  - destruct (room cs) as [|k] eqn:Hroom.
    + apply (Hnew (pre ++ z2b a :: pay)); [by eapply Open_close|len_lia| |by rewrite Hm|done].
      exists rest. by rewrite Hout, <-app_assoc.
    + rewrite Hm, shiftr_mask.
      rewrite (proj2 (Z.eqb_neq _ _)) by (apply Z.pow_nonzero; lia).
      eexists. split; [done|]. cbn [read_pos output write_pos best_packed best_remaining].
      split_and!; [|done|done|lia|done|done]. exists a, pre, pay, rest.
      cbn [take_bit]. replace (7 - Z.of_nat k) with (8 - Z.of_nat (S k)) by lia.
      split_and!; done || lia.
Qed.

(** ** Emitting a code *)

(** The code that a match length and offset stand for at the read cursor. *)
Definition code_at (data : list byte) (pos m o : Z) (c : code) : Prop :=
  (m ≤ MATCH_THRESHOLD ∧ ∃ b, c = Lit b ∧ index data pos = Some b) ∨
  (c = Ref m o ∧ valid_match data pos m o).

Lemma code_at_ok data pos m o c : code_at data pos m o c → code_ok c.
Proof. intros [(_ & b & -> & _)|[-> (? & ? & _)]]; done. Qed.

Lemma code_at_dec data pos m o c :
  0 ≤ pos → code_at data pos m o c →
  dec_code c (ztake pos data) = Some (ztake (pos + dlen c) data) ∧ pos + dlen c ≤ len data.
Proof.
  intros H0 [(_ & b & -> & Hb)|[-> (? & ? & ? & ? & ? & Hi)]]; cbn [dec_code dlen].
  - apply index_Some_inv in Hb as Hr. split; [|lia]. by rewrite (ztake_S _ _ _ Hb).
  - split; [|done]. rewrite dec_match_copy; [f_equal; f_equal; blz_lia|blz_lia..|].
    intros i Hr. apply Hi. blz_lia.
Qed.

Lemma emit_code_spec st data cs k m o c :
  ready st cs k → code_at data (read_pos st) m o c →
  write_pos st + len (code_bytes c) ≤ len (output st) →
  ∃ st', emit_code data st m o = Some st' ∧ head st' (cs ++ [c]) k ∧
    read_pos st' = read_pos st + dlen c ∧ write_pos st' = write_pos st + len (code_bytes c) ∧
    len (output st') = len (output st) ∧
    best_packed st' = best_packed st ∧ best_remaining st' = best_remaining st.
Proof.
  intros (a & pre & pay & rest & HO & Hk & Ha & Hm & Hout & Hf & Hw) Hc Hcap.
  apply (Open_step _ _ _ _ _ c) in HO; [|by eapply code_at_ok|lia].
  pose proof (pow2_7 k Hk). unfold emit_code. rewrite Hout in *.
  rewrite update_index_mid by done. cbn [mbind option_bind]. rewrite shl_byte_z2b by lia.
  destruct Hc as [(Hm2 & b & -> & Hb)|[-> Hv]]; cbn [is_ref Z.b2z code_bytes] in *.
  - rewrite (proj2 (Z.ltb_ge _ _)) by done. rewrite Hb. cbn [mbind option_bind].
    destruct rest as [|x rest]; [len_lia|].
    rewrite app_comm_cons, app_assoc, set_index_app_eq by len_lia. cbn [mbind option_bind].
    eexists. split; [done|]. cbn [read_pos output write_pos best_packed best_remaining].
    split_and!; [|done|done|len_lia|done|done]. right.
    exists (2 * a), pre, (pay ++ [b]), rest.
    rewrite Z.add_0_r in HO. pose proof (pow2_8 k Hk).
    split_and!; [done|done|lia|lia|done|..]. unfold buffer. cbn [output flag_pos write_pos].
    split_and!; [|done|len_lia]. by rewrite <-!app_assoc.
  - destruct Hv as (? & ? & ? & ? & ? & _).
    rewrite (proj2 (Z.ltb_lt _ _)) by blz_lia. rewrite update_index_mid by done.
    cbn [mbind option_bind]. rewrite set_low_bit_z2b by lia.
    rewrite !checked_sub_ok by blz_lia. cbn [mbind option_bind].
    unfold ref_bytes in *. destruct rest as [|x [|y rest]]; [len_lia..|].
    rewrite app_comm_cons, app_assoc, set_index_app_eq by len_lia. cbn [mbind option_bind].
    rewrite (cons_middle _ (pre ++ _)), app_assoc, set_index_app_eq by len_lia. cbn [mbind option_bind].
    eexists. split; [done|]. cbn [read_pos output write_pos best_packed best_remaining].
    split_and!; [|done|done|len_lia|done|done]. right.
    exists (2 * a + 1), pre, (pay ++ ref_bytes (m - 3) (o - 3)), rest.
    pose proof (pow2_8 k Hk).
    split_and!; [done|done|lia|lia|done|..]. unfold buffer, ref_bytes. cbn [output flag_pos write_pos].
    split_and!; [|done|len_lia]. by rewrite <-!app_assoc.
Qed.

(** ** One iteration *)

Lemma lazy_match_spec f pos l o :
  finder_ok f → 0 ≤ pos < len (mf_data f) →
  l = MATCH_THRESHOLD ∨ valid_match (mf_data f) pos l o →
  ∃ m c, lazy_match f (len (mf_data f)) pos l = Some m ∧ code_at (mf_data f) pos m o c.
Proof.
  intros Hok Hpos Hl. unfold lazy_match.
  destruct (index_in_range (mf_data f) pos Hpos) as [b Hb].
  assert (∀ m, m ≤ MATCH_THRESHOLD → code_at (mf_data f) pos m o (Lit b)) as Hlit.
  { intros. left. eauto. }
  destruct ((MATCH_THRESHOLD <? l) && (pos + l <? len (mf_data f))) eqn:Hc; zify_bool.
  - destruct Hl as [->|Hv]; [blz_lia|].
    destruct (longest_match_valid f (pos + l)) as (n1 & o1 & -> & _); [done|blz_lia|].
    destruct (longest_match_valid f (pos + l - (l - 1))) as (n2 & o2 & -> & _); [done|blz_lia|].
    cbn [mbind option_bind]. destruct (_ <=? 1 + _).
    + exists 1, (Lit b). split; [done|]. apply Hlit. blz_lia.
    + exists l, (Ref l o). split; [done|]. by right.
  - destruct Hl as [->|Hv].
    + exists MATCH_THRESHOLD, (Lit b). split; [done|by apply Hlit].
    + exists l, (Ref l o). split; [done|by right].
Qed.

Lemma update_best_spec n st cs c :
  best_split n cs (best_packed st) (best_remaining st) →
  write_pos st = wsize 0 (cs ++ [c]) → read_pos st = dlens (cs ++ [c]) → read_pos st ≤ n →
  0 ≤ write_pos st →
  ∃ st', update_best n st = Some st' ∧ output st' = output st ∧ mask st' = mask st ∧
    read_pos st' = read_pos st ∧ write_pos st' = write_pos st ∧ flag_pos st' = flag_pos st ∧
    best_split n (cs ++ [c]) (best_packed st') (best_remaining st').
Proof.
  intros [(cs1 & cs2 & Hcs & Hp & Hr) Hmin] Hw Hrd Hle H0. unfold update_best.
  rewrite (checked_sub_ok (_ + _)), (checked_sub_ok n) by lia. cbn [mbind option_bind].
  (** A boundary of [cs ++ [c]] is one of [cs], or its end. *)
  assert (∀ k1 k2, cs ++ [c] = k1 ++ k2 → k1 = cs ++ [c] ∨ ∃ k2', cs = k1 ++ k2') as Hsplit.
  { intros k1 k2 Hk. destruct k2 as [|k k2] using rev_ind; [left; by rewrite app_nil_r in Hk|].
    right. rewrite app_assoc in Hk. apply app_inj_tail in Hk as [Hk _]. eauto. }
  destruct (Z.ltb_spec (write_pos st + n - read_pos st) (best_packed st + best_remaining st)).
  - eexists. split; [done|].
    cbn [output mask read_pos write_pos flag_pos best_packed best_remaining].
    split_and!; [done..|]. split.
    + exists (cs ++ [c]), []. rewrite app_nil_r. split_and!; [done|done|lia].
    + intros k1 k2 Hk. destruct (Hsplit _ _ Hk) as [->|[k2' Hk']]; [lia|].
      specialize (Hmin _ _ Hk'). lia.
  - eexists. split; [done|]. split_and!; [done..|]. split.
    + exists cs1, (cs2 ++ [c]). rewrite Hcs, app_assoc. done.
    + intros k1 k2 Hk. destruct (Hsplit _ _ Hk) as [->|[k2' Hk']]; [lia|].
      by eapply Hmin.
Qed.

Lemma encode_step_spec f size st cs :
  finder_ok f → encoded (mf_data f) size st cs → read_pos st < len (mf_data f) →
  worst_case_len (len (mf_data f)) ≤ size →
  ∃ st' cs', encode_step f (mf_data f) st = Some st' ∧ encoded (mf_data f) size st' cs' ∧
    read_pos st < read_pos st'.
Proof.
  intros Hok [Hh Hw Hr Hs Hd Hle Hco Hb] Hlt Hsize. unfold encode_step.
  assert (0 ≤ read_pos st) as H0 by (rewrite Hr; by apply dlens_nonneg).
  pose proof (wsize_worst_case (len (mf_data f)) cs Hco ltac:(lia)).
  destruct (next_flag_spec st cs Hh) as (st1 & -> & Hready & Hr1 & Ho1 & Hw1 & Hp1 & Hm1); [lia|].
  cbn [mbind option_bind].
  destruct (longest_match_valid f (read_pos st1)) as (l & o & -> & Hv); [done|lia|].
  cbn [mbind option_bind].
  destruct (lazy_match_spec f (read_pos st1) l o) as (m & c & -> & Hc); [done|lia|done|].
  cbn [mbind option_bind].
  pose proof (code_at_ok _ _ _ _ _ Hc) as Hcok.
  destruct (code_at_dec _ (read_pos st1) _ _ _ ltac:(lia) Hc) as [Hdec Hfit].
  assert (Forall code_ok (cs ++ [c])) as Hco' by (apply Forall_app; eauto).
  pose proof (wsize_snoc cs c) as Hws. pose proof (dlens_snoc cs c) as Hds.
  pose proof (wsize_worst_case (len (mf_data f)) _ Hco' ltac:(lia)).
  destruct (emit_code_spec st1 (mf_data f) cs _ m o c Hready Hc)
    as (st2 & -> & Hh2 & Hr2 & Hw2 & Ho2 & Hp2 & Hm2); [lia|].
  cbn [mbind option_bind].
  pose proof (wsize_nonneg 0 (cs ++ [c])). pose proof (code_bytes_len c Hcok).
  destruct (update_best_spec (len (mf_data f)) st2 cs c)
    as (st3 & -> & Ho3 & Hk3 & Hr3 & Hw3 & Hf3 & Hb3); [by rewrite Hp2, Hm2, Hp1, Hm1|lia..|].
  exists st3, (cs ++ [c]). split; [done|]. split; [|lia]. split; [|lia|lia|congruence| |lia|done|done].
  - rewrite room_snoc. destruct Hh2 as [Hh2|Hh2]; [left|right].
    + destruct Hh2 as (Hnil & _). by destruct cs.
    + destruct Hh2 as (a & pre & pay & rest & ? & ? & ? & ? & Hbuf). exists a, pre, pay, rest.
      unfold buffer in *. rewrite Ho3, Hk3, Hw3, Hf3. eauto 10.
  - rewrite dec_codes_app, Hd. cbn [mbind option_bind dec_codes].
    rewrite <-Hr1, Hdec. cbn [mbind option_bind]. do 2 f_equal. lia.
Qed.

(** ** The loop *)

Lemma encode_loop_spec f size fuel st cs :
  finder_ok f → encoded (mf_data f) size st cs → worst_case_len (len (mf_data f)) ≤ size →
  len (mf_data f) - read_pos st ≤ Z.of_nat fuel →
  ∃ st' cs', encode_loop fuel f (mf_data f) st = Some st' ∧ encoded (mf_data f) size st' cs' ∧
    read_pos st' = len (mf_data f).
Proof.
  intros Hok Hen Hsize. revert st cs Hen. induction fuel as [|fuel IH]; intros st cs Hen Hfuel;
    cbn [encode_loop]; destruct (Z.ltb_spec (read_pos st) (len (mf_data f))) as [Hlt|Hge];
    [lia| | |].
  - exists st, cs. split_and!; [done|done|]. destruct Hen. lia.
  - destruct (encode_step_spec f size st cs Hok Hen Hlt Hsize) as (st' & cs' & -> & Hen' & Hr).
    cbn [mbind option_bind]. apply (IH st' cs' Hen'). lia.
  - exists st, cs. split_and!; [done|done|]. destruct Hen. lia.
Qed.

Lemma encoded_init data out :
  encoded data (len out) {| output := out; mask := 0; read_pos := 0; write_pos := 0; flag_pos := 0;
                            best_packed := 0; best_remaining := len data |} [].
Proof.
  split; cbn; [by left|done|done|done|by rewrite ztake_0|apply len_nonneg|constructor|].
  split.
  - exists [], []. cbn. split_and!; [done|done|lia].
  - intros cs1 cs2 H. symmetry in H. apply app_eq_nil in H as [-> ->]. cbn. lia.
Qed.

(** The flush shifts the last flag byte into place. *)
Lemma flush_flag_spec fuel out pre a tail (k : nat) :
  out = pre ++ z2b a :: tail → (k ≤ 7)%nat → 0 ≤ a < 2 ^ (8 - Z.of_nat k) → (k ≤ fuel)%nat →
  flush_flag fuel out (len pre) (2 ^ Z.of_nat k)
    = Some (pre ++ z2b (a * 2 ^ Z.of_nat k) :: tail).
Proof.
  revert out a k. induction fuel as [|fuel IH]; intros out a k -> Hk Ha Hf.
  { assert (k = 0%nat) as -> by lia. cbn. by rewrite Z.mul_1_r. }
  cbn [flush_flag]. destruct k as [|k].
  { change (2 ^ Z.of_nat 0) with 1. cbn. by rewrite Z.mul_1_r. }
  rewrite (proj2 (Z.eqb_neq _ _)) by (apply Z.pow_nonzero; lia).
  rewrite (proj2 (Z.eqb_neq _ _)).
  2:{ rewrite Nat2Z.inj_succ, Z.pow_succ_r by lia. lia. }
  cbn [negb andb]. rewrite update_index_mid by done. cbn [mbind option_bind].
  replace (8 - Z.of_nat (S k)) with (7 - Z.of_nat k) in Ha by lia.
  pose proof (pow2_7 k ltac:(lia)). pose proof (pow2_8 k ltac:(lia)).
  rewrite shl_byte_z2b, shiftr_mask by lia. rewrite (IH _ (2 * a) k eq_refl) by lia.
  do 4 f_equal. rewrite Nat2Z.inj_succ, Z.pow_succ_r by lia. lia.
Qed.

Lemma flush_spec data size st cs :
  encoded data size st cs →
  ∃ bs rest, flush_flag 8 (output st) (flag_pos st) (mask st) = Some (bs ++ rest) ∧
    len bs = write_pos st ∧ len (bs ++ rest) = size ∧ Stream 0 0 cs bs.
Proof.
  intros [Hh _ _ Hs _ _ _ _].
  destruct Hh as [(-> & _ & -> & Hw)|(a & pre & pay & rest & HO & Hk & Ha & -> & Ho & -> & Hw)].
  - exists [], (output st). split_and!; [done|by rewrite Hw|done|constructor].
  - exists (pre ++ z2b (a * 2 ^ Z.of_nat (room cs)) :: pay), rest.
    rewrite Ho in Hs. rewrite (flush_flag_spec _ _ pre a (pay ++ rest)) by (done || lia).
    split_and!; [by rewrite <-app_assoc|len_lia|len_lia|]. apply Open_flush; [done|lia|done].
Qed.

(** The whole encoding of an input, read backwards. *)
Lemma encode_all data out :
  len data < NONE → worst_case_len (len data) ≤ len out →
  ∃ f st cs bs rest, MatchFinder_new data = Some f ∧
    encode_loop (length data) f data
      {| output := out; mask := 0; read_pos := 0; write_pos := 0; flag_pos := 0;
         best_packed := 0; best_remaining := len data |} = Some st ∧
    encoded data (len out) st cs ∧ read_pos st = len data ∧
    flush_flag 8 (output st) (flag_pos st) (mask st) = Some (bs ++ rest) ∧
    len bs = write_pos st ∧ len (bs ++ rest) = len out ∧ Stream 0 0 cs bs.
Proof.
  intros Hd Hout. destruct (MatchFinder_new_spec data Hd) as (f & Hf & Hfd & Hok).
  pose proof (encoded_init data out) as Hinit. subst data.
  destruct (encode_loop_spec f (len out) (length (mf_data f)) _ _ Hok Hinit Hout)
    as (st & cs & Hrun & Hen & Hread); [cbn [read_pos]; unfold len; lia|].
  destruct (flush_spec _ _ _ _ Hen) as (bs & rest & Hfl & Hlbs & Hsize & HS).
  exists f, st, cs, bs, rest. by split_and!.
Qed.
