(* ===== verification/BlzDecode.v ===== *)
(** * The BLZ decoder

    [decode_loop] decodes, in place, any stream whose output cursor never falls below the bytes
    it still has to read ([fits]); and on an arbitrary buffer [decompress] returns a value or an
    error, never out of bounds and never out of fuel. *)

From S2P Require Import Prelude Bytes Layout Blz BlzFinder BlzStream.
#[local] Open Scope Z_scope.

(** The buffer while decoding in place: the raw prefix, the unread stream (reversed), the gap
    between the cursors and the decoded bytes (reversed). *)
Definition in_place (P U G acc : list byte) : list byte := P ++ reverse U ++ G ++ reverse acc.

(** With [g] bytes between the cursors, no prefix of the codes decodes to more than it frees. *)
Definition fits (n : nat) (cs : list code) (g : Z) : Prop :=
  ∀ cs1 cs2, cs = cs1 ++ cs2 → dlens cs1 ≤ wsize n cs1 + g.

(** ** Copying *)

Lemma copy_match_dec l Q acc d r :
  dec_match l d acc = Some r → Z.of_nat l ≤ len Q → 1 ≤ d → len Q + len acc ≤ ISIZE_MAX →
  d ≤ ISIZE_MAX →
  copy_match l (Q ++ reverse acc) (len Q) d
    = Ok (ztake (len Q - Z.of_nat l) Q ++ reverse r, len Q - Z.of_nat l).
Proof.
  revert Q acc. induction l as [|l IH]; intros Q acc; cbn [dec_match copy_match].
  { intros [= ->] _ _ _ _. rewrite Z.sub_0_r, ztake_all; done. }
  intros (b & Hb & Hr)%bind_Some Hl Hd Hlen Hd2.
  apply index_Some_inv in Hb as Hbr.
  destruct (snoc_at Q) as (Q' & x & -> & _); [lia|]. rewrite len_app in Hl, Hlen.
  assert (len (Q' ++ [x]) = len Q' + 1) as HQ by (by rewrite len_app). rewrite HQ.
  change (len [x]) with 1 in *. rewrite checked_sub_ok by (pose proof (len_nonneg Q'); lia). cbn [ok_or mbind outcome_bind].
  rewrite checked_add_ok by mlia. cbn [mbind option_bind].
  replace (len Q' + 1 - 1 + d) with (len Q' + d) by lia.
  rewrite len_app, HQ, len_reverse.
  rewrite (proj2 (Z.ltb_lt _ _)) by lia. cbn [ok_or mbind outcome_bind].
  rewrite index_app_r, index_reverse by (rewrite ?HQ; lia). rewrite HQ.
  replace (len acc - 1 - (len Q' + d - (len Q' + 1))) with (len acc - d) by lia.
  rewrite Hb. cbn [or_panic mbind outcome_bind].
  rewrite <-app_assoc. cbn [app]. rewrite set_index_app_eq by lia. cbn [or_panic mbind outcome_bind].
  replace (Q' ++ b :: reverse acc) with (Q' ++ reverse (acc ++ [b]))
    by (by rewrite reverse_app).
  replace (len Q' + 1 - 1) with (len Q') by lia.
  rewrite IH; [|done|lia|done|rewrite len_app; change (len [b]) with 1; lia|done].
  do 2 f_equal; [|lia]. f_equal. rewrite ztake_app_le by lia. f_equal. lia.
Qed.

(** ** Codes *)

Lemma ref_bytes_fields l o :
  0 ≤ l ≤ 15 → 0 ≤ o ≤ 0xFFF →
  ∃ b0 b1, ref_bytes l o = [b0; b1] ∧ Z.shiftr (b2z b0) 4 = l ∧
    Z.lor (Z.shiftl (Z.land (b2z b0) 0x0F) 8) (b2z b1) = o.
Proof.
  intros Hl Ho. unfold ref_bytes. eexists _, _. split; [done|].
  assert (0 ≤ o / 256 < 16) as Hq by div_lia.
  rewrite (Z.shiftr_div_pow2 o 8) by lia. change (2 ^ 8) with 256.
  rewrite lor_shiftl by lia.
  rewrite (as_u8_small (l * 2 ^ 4 + _)), b2z_z2b_u8 by mlia.
  change 0xFF with (Z.ones 8). change 0x0F with (Z.ones 4).
  rewrite !Z.land_ones by lia. change (2 ^ 8) with 256. change (2 ^ 4) with 16.
  assert (0 ≤ o mod 256 < 256) as Hm by div_lia.
  rewrite as_u8_small, b2z_z2b_u8 by mlia.
  rewrite Z.shiftr_div_pow2 by lia. change (2 ^ 4) with 16.
  split; [div_lia|]. rewrite lor_shiftl by lia. change (2 ^ 8) with 256. div_lia.
Qed.

Lemma testbit_flag flags :
  (Z.land flags FLAG_MASK_INIT =? 0) = negb (Z.testbit flags 7).
Proof. unfold FLAG_MASK_INIT. change 0x80 with (Z.shiftl 1 7). by apply land_flag_eqb. Qed.

(** One code: its bytes leave the unread stream, its output lands on the gap. *)
Definition decodes_code (flags : Z) (c : code) (P U G acc acc' : list byte) : Prop :=
  ∃ G', len G' = len G + len (code_bytes c) - dlen c ∧
    decode_code (len P) flags (in_place P (code_bytes c ++ U) G acc)
      (len P + len (code_bytes c) + len U) (len P + len (code_bytes c) + len U + len G)
    = Ok (in_place P U G' acc', len P + len U, len P + len U + len G').

(** The buffer, as what is in front of the output and the output. *)
Lemma in_place_code c P U G acc :
  in_place P (code_bytes c ++ U) G acc = (P ++ reverse U ++ reverse (code_bytes c) ++ G) ++ reverse acc.
Proof. unfold in_place. by rewrite reverse_app, <-!app_assoc. Qed.

(** What stays in front of the output when [n] bytes of the gap are left. *)
Lemma in_place_front n (P U R : list byte) :
  0 ≤ n ≤ len R → ztake (len P + len U + n) (P ++ reverse U ++ R) = P ++ reverse U ++ ztake n R ∧ len (ztake n R) = n.
Proof.
  intros Hn. pose proof (len_nonneg P). pose proof (len_nonneg U). split; [|by apply len_ztake].
  rewrite ztake_app_ge by lia. f_equal. rewrite ztake_app_ge by len_lia. do 2 f_equal. len_lia.
Qed.

Lemma decode_literal flags b P U G acc :
  Z.testbit flags 7 = false → decodes_code flags (Lit b) P U G acc (acc ++ [b]).
Proof.
  intros Hbit. unfold decodes_code, decode_code. rewrite testbit_flag, Hbit, in_place_code.
  cbn [code_bytes dlen negb]. change (len [b]) with 1. change (reverse [b]) with [b]. cbn [app].
  pose proof (len_nonneg P). pose proof (len_nonneg U). pose proof (len_nonneg G).
  destruct (in_place_front (len G) P U (b :: G)) as [Htake Hlt]; [len_lia|].
  exists (ztake (len G) (b :: G)). split; [lia|]. set (Q := P ++ reverse U ++ b :: G) in *.
  assert (len Q = len P + 1 + len U + len G) as HlQ by (unfold Q; len_lia).
  rewrite checked_sub_ok by lia. cbn [or_panic mbind outcome_bind].
  unfold copy_literal. rewrite checked_sub_ok by lia. cbn [ok_or mbind outcome_bind].
  destruct (snoc_at Q) as (Q' & x & HQ' & HlQ'); [lia|].
  replace (index (Q ++ reverse acc) (len P + 1 + len U - 1)) with (Some b).
  2:{ unfold Q. rewrite <-!app_assoc, (app_assoc P). cbn [app]. symmetry. apply index_app_eq. len_lia. }
  cbn [or_panic mbind outcome_bind]. rewrite HQ', <-app_assoc. cbn [app].
  rewrite set_index_app_eq by lia. cbn [or_panic mbind outcome_bind].
  assert (Q' = ztake (len P + len U + len G) Q) as -> by (rewrite HQ', ztake_app_eq; [done|lia]).
  rewrite Htake, Hlt. unfold in_place. rewrite reverse_app, <-!app_assoc. do 2 f_equal; [f_equal|]; lia.
Qed.

Lemma decode_reference flags l o P U G acc acc' :
  code_ok (Ref l o) → Z.testbit flags 7 = true → dec_match (Z.to_nat l) o acc = Some acc' →
  0 ≤ len G + 2 - l → len (in_place P (code_bytes (Ref l o) ++ U) G acc) ≤ ISIZE_MAX →
  decodes_code flags (Ref l o) P U G acc acc'.
Proof.
  intros [Hl Ho] Hbit Hdec Hg Hmax. unfold decodes_code, decode_code.
  rewrite testbit_flag, Hbit, in_place_code. rewrite in_place_code in Hmax. cbn [code_bytes dlen negb] in *.
  destruct (ref_bytes_fields (l - 3) (o - 3)) as (b0 & b1 & Hrb & Hf1 & Hf2); [blz_lia..|]. rewrite Hrb in *.
  apply dec_match_len in Hdec as Hacc'.
  change (len [b0; b1]) with 2. change (reverse [b0; b1]) with [b1; b0] in *. cbn [app] in *.
  pose proof (len_nonneg P). pose proof (len_nonneg U). pose proof (len_nonneg G).
  destruct (in_place_front (len G + 2 - l) P U (b1 :: b0 :: G)) as [Htake Hlt]; [rewrite !len_cons; blz_lia|].
  exists (ztake (len G + 2 - l) (b1 :: b0 :: G)). split; [blz_lia|].
  set (Q := P ++ reverse U ++ b1 :: b0 :: G) in *.
  assert (len Q = len P + 2 + len U + len G) as HlQ by (unfold Q; len_lia).
  assert (Q = (P ++ reverse U) ++ b1 :: b0 :: G) as HQ by (unfold Q; by rewrite <-app_assoc).
  rewrite (proj2 (Z.ltb_ge _ _)) by lia. cbn [guard_err mbind outcome_bind].
  replace (index (Q ++ reverse acc) (len P + 2 + len U - 1)) with (Some b0).
  2:{ rewrite HQ, cons_middle, app_assoc, <-app_assoc. cbn [app]. symmetry. apply index_app_eq. len_lia. }
  replace (index (Q ++ reverse acc) (len P + 2 + len U - 2)) with (Some b1).
  2:{ rewrite HQ, <-app_assoc. cbn [app]. symmetry. apply index_app_eq. len_lia. }
  cbn [or_panic mbind outcome_bind]. rewrite Hf1, Hf2. unfold_blz.
  replace (l - 3 + (2 + 1)) with l by lia. replace (o - 3 + (2 + 1)) with o by lia.
  rewrite <-HlQ. rewrite (copy_match_dec _ Q acc o acc' Hdec); [|lia|lia|len_lia|mlia].
  cbn [mbind outcome_bind]. rewrite Z2Nat.id by lia. replace (len Q - l) with (len P + len U + (len G + 2 - l)) by lia.
  rewrite Htake, Hlt. unfold in_place. rewrite <-!app_assoc. do 3 f_equal. lia.
Qed.

Lemma decode_code_spec flags c P U G acc acc' :
  code_ok c → Z.testbit flags 7 = is_ref c → dec_code c acc = Some acc' →
  0 ≤ len G + len (code_bytes c) - dlen c →
  len (in_place P (code_bytes c ++ U) G acc) ≤ ISIZE_MAX → decodes_code flags c P U G acc acc'.
Proof.
  intros Hok Hbit Hdec Hg Hmax. destruct c as [b|l o]; cbn [is_ref dec_code] in *.
  - injection Hdec as <-. by apply decode_literal.
  - by apply decode_reference.
Qed.

(** ** Groups and the loop *)

Lemma fits_code n c cs g :
  fits (S n) (c :: cs) g → 0 ≤ g + len (code_bytes c) - dlen c ∧ fits n cs (g + len (code_bytes c) - dlen c).
Proof.
  intros H. split.
  - specialize (H [c] cs eq_refl). cbn [dlens wsize] in H. destruct n; cbn [wsize] in H; lia.
  - intros cs1 cs2 ->. specialize (H (c :: cs1) cs2 eq_refl). cbn [dlens wsize] in H. lia.
Qed.

Lemma fits_flag cs g : fits 0 cs g → 0 ≤ g → fits 8 cs (g + 1).
Proof.
  intros H Hg cs1 cs2 Hcs. specialize (H _ _ Hcs).
  destruct cs1 as [|c cs1]; cbn [dlens wsize] in *; lia.
Qed.

(** What is left to decode, from the codes [cs] in the unread bytes [U]. *)
Definition pending (P : list byte) (size : Z) (full : list byte) (n : nat) (flags : Z)
    (cs : list code) (U G acc : list byte) : Prop :=
  Stream n flags cs U ∧ dec_codes cs acc = Some full ∧ fits n cs (len G) ∧
  len (in_place P U G acc) = size.

Lemma decode_group_spec n P size full flags cs U G acc :
  size ≤ ISIZE_MAX → n ≠ 0%nat → pending P size full n flags cs U G acc →
  ∃ cs' U' G' acc', decode_group n (len P) flags (in_place P U G acc) (len P + len U)
      (len P + len U + len G) = Ok (in_place P U' G' acc', len P + len U', len P + len U' + len G') ∧
    pending P size full 0 0 cs' U' G' acc' ∧ len U' ≤ len U.
Proof.
  intros Hmax. revert flags cs U G acc.
  induction n as [|n IH]; [done|]. intros flags cs U G acc _ (HS & Hdec & Hfit & Hsize).
  cbn [decode_group]. apply Stream_S_inv in HS as [[-> ->]|(c & cs' & U' & -> & -> & Hok & Hbit & HS')].
  - rewrite (proj2 (Z.leb_le _ _)) by len_lia. exists [], [], G, acc. split; [done|].
    split; [|lia]. split_and!; [constructor|done| |done].
    intros cs1 cs2 Hc. symmetry in Hc. apply app_eq_nil in Hc as [-> ->]. cbn. apply len_nonneg.
  - cbn [dec_codes] in Hdec. apply bind_Some in Hdec as (acc' & Hc & Hdec).
    apply fits_code in Hfit as [Hg Hfit].
    assert (1 ≤ len (code_bytes c)) by (destruct c; cbn; unfold ref_bytes; len_lia).
    rewrite (proj2 (Z.leb_gt _ _)) by len_lia.
    destruct (decode_code_spec flags c P U' G acc acc') as (G' & HG' & Hrun);
      [done|done|done|done|by rewrite Hsize|].
    rewrite len_app, !Z.add_assoc, Hrun. cbn [mbind outcome_bind]. rewrite <-HG' in Hfit.
    assert (len (in_place P U' G' acc') = size) as Hsz.
    { rewrite <-Hsize. apply dec_code_len in Hc; [|done]. unfold in_place. len_lia. }
    destruct n as [|n].
    + exists cs', U', G', acc'. split; [done|]. split; [|lia]. split; [|by split_and!].
      apply Stream_0_inv in HS' as [[-> ->]|(f & U2 & _ & -> & ? & ?)]; by constructor.
    + destruct (IH (as_u8 (Z.shiftl flags 1)) cs' U' G' acc') as (cs2 & U2 & G2 & acc2 & Hr & Hp & Hl);
        [done|by split_and!|].
      exists cs2, U2, G2, acc2. split; [exact Hr|]. split; [done|lia].
Qed.

Lemma decode_loop_spec fuel P size full cs U G acc :
  size ≤ ISIZE_MAX → pending P size full 0 0 cs U G acc → len U ≤ Z.of_nat fuel →
  ∃ G', decode_loop fuel (len P) (in_place P U G acc) (len P + len U) (len P + len U + len G)
    = Ok (in_place P [] G' full, len P, len P + len G').
Proof.
  intros Hmax. revert cs U G acc. induction fuel as [|fuel IH];
    intros cs U G acc Hp Hfuel; pose proof Hp as (HS & Hdec & Hfit & Hsize); cbn [decode_loop].
  - destruct U; [|len_lia]. apply Stream_0_inv in HS as [[-> _]|(? & ? & _ & ? & _)]; [|done].
    cbn [dec_codes] in Hdec. injection Hdec as <-.
    rewrite (proj2 (Z.ltb_ge _ _)) by len_lia. exists G. do 2 f_equal; [f_equal|]; len_lia.
  - apply Stream_0_inv in HS as [[-> ->]|(f & U' & _ & -> & Hf & HS')].
    + cbn [dec_codes] in Hdec. injection Hdec as <-.
      rewrite (proj2 (Z.ltb_ge _ _)) by len_lia. exists G. do 2 f_equal; [f_equal|]; len_lia.
    + rewrite (proj2 (Z.ltb_lt _ _)) by len_lia.
      replace (index (in_place P (z2b f :: U') G acc) (len P + len (z2b f :: U') - 1)) with (Some (z2b f)).
      2:{ unfold in_place. rewrite reverse_cons, <-app_assoc. cbn [app]. rewrite app_assoc.
          symmetry. apply index_app_eq. len_lia. }
      cbn [or_panic mbind outcome_bind]. rewrite b2z_z2b_u8 by mlia.
      assert (in_place P (z2b f :: U') G acc = in_place P U' (z2b f :: G) acc) as Hin.
      { unfold in_place. by rewrite reverse_cons, <-app_assoc. }
      rewrite Hin in *.
      replace (len P + len (z2b f :: U') - 1) with (len P + len U') by len_lia.
      replace (len P + len (z2b f :: U') + len G) with (len P + len U' + len (z2b f :: G)) by len_lia.
      destruct (decode_group_spec 8 P size full f cs U' (z2b f :: G) acc)
        as (cs2 & U2 & G2 & acc2 & -> & Hp2 & Hl); [done|done| |].
      { split_and!; [done|done| |done]. rewrite len_cons, Z.add_comm.
        apply fits_flag; [done|apply len_nonneg]. }
      cbn [mbind outcome_bind]. apply (IH cs2 U2 G2 acc2); [done|len_lia].
Qed.

(** ** Arbitrary input *)

Lemma copy_literal_safe out cmp dst :
  0 ≤ cmp < len out → 0 ≤ dst ≤ len out →
  safe (λ r, 0 ≤ r.2 ≤ len out ∧ len r.1 = len out) (copy_literal out cmp dst).
Proof.
  intros Hc Hd. unfold copy_literal. apply safe_bind with (λ dst', 0 ≤ dst' < dst).
  { apply safe_ok_or. intros dst' ?%checked_sub_inv. lia. }
  intros dst' Hd'. destruct (index_in_range out cmp Hc) as [b ->]. cbn [or_panic mbind outcome_bind].
  destruct (set_index out dst' b) as [out'|] eqn:E; [|by rewrite set_index_ok in E by lia].
  apply set_index_inv in E as [_ ?]. cbn. lia.
Qed.

Lemma copy_match_safe l out dst d :
  0 ≤ dst ≤ len out → 0 ≤ d →
  safe (λ r, 0 ≤ r.2 ≤ len out ∧ len r.1 = len out) (copy_match l out dst d).
Proof.
  revert out dst. induction l as [|l IH]; intros out dst Hdst Hd; cbn [copy_match]; [done|].
  apply safe_bind with (λ dst', 0 ≤ dst' < dst).
  { apply safe_ok_or. intros dst' ?%checked_sub_inv. lia. }
  intros dst' Hd'. apply safe_bind with (λ from, 0 ≤ from < len out).
  { apply safe_ok_or. intros from (from' & ?%checked_add_inv & Hf)%bind_Some.
    case_match; [|done]. simplify_eq. zify_bool. lia. }
  intros from Hf. destruct (index_in_range out from Hf) as [b ->]. cbn [or_panic mbind outcome_bind].
  destruct (set_index out dst' b) as [out'|] eqn:E; [|by rewrite set_index_ok in E by lia].
  apply set_index_inv in E as [_ Hl]. cbn [or_panic mbind outcome_bind].
  rewrite <-Hl. apply IH; lia.
Qed.

Lemma decode_code_safe start flags out cmp dst :
  0 ≤ start < cmp → cmp ≤ len out → 0 ≤ dst ≤ len out →
  safe (λ '(out', cmp', dst'), len out' = len out ∧ start ≤ cmp' < cmp ∧ 0 ≤ dst' ≤ len out)
    (decode_code start flags out cmp dst).
Proof.
  intros Hs Hc Hd. unfold decode_code. case_match.
  - rewrite checked_sub_ok by lia. cbn [or_panic mbind outcome_bind].
    eapply safe_bind; [apply (copy_literal_safe out (cmp - 1) dst); lia|].
    intros [out' dst'] [? ?]. cbn in *. lia.
  - eapply safe_bind; [apply safe_guard|]. intros ? Hg. cbn beta in Hg. zify_bool.
    destruct (index_in_range out (cmp - 1)) as [b0 ->]; [lia|].
    destruct (index_in_range out (cmp - 2)) as [b1 ->]; [lia|]. cbn [or_panic mbind outcome_bind].
    eapply safe_bind.
    + apply copy_match_safe; [done|]. unfold_blz.
      pose proof (Z.lor_nonneg (Z.shiftl (Z.land (b2z b0) 15) 8) (b2z b1)) as [_ Hn].
      pose proof (b2z_range b1). rewrite Z.shiftl_nonneg, Z.land_nonneg in Hn. lia.
    + intros [out' dst'] [? ?]. cbn in *. lia.
Qed.

Lemma decode_group_safe n start flags out cmp dst :
  0 ≤ start ≤ cmp → cmp ≤ len out → 0 ≤ dst ≤ len out →
  safe (λ '(out', cmp', dst'), len out' = len out ∧ start ≤ cmp' ≤ cmp ∧ 0 ≤ dst' ≤ len out)
    (decode_group n start flags out cmp dst).
Proof.
  revert flags out cmp dst. induction n as [|n IH]; intros flags out cmp dst Hs Hc Hd;
    cbn [decode_group]; [cbn; lia|]. case_match; zify_bool; [cbn; lia|].
  eapply safe_bind; [apply decode_code_safe; lia|]. intros [[out' cmp'] dst'] (Hl & ? & ?).
  eapply safe_mono; [apply IH; lia|]. intros [[? ?] ?] (? & ? & ?). lia.
Qed.

Lemma decode_loop_safe fuel start out cmp dst :
  0 ≤ start → cmp ≤ len out → 0 ≤ dst ≤ len out → cmp - start ≤ Z.of_nat fuel →
  safe (λ '(out', _, _), len out' = len out) (decode_loop fuel start out cmp dst).
Proof.
  revert out cmp dst. induction fuel as [|fuel IH]; intros out cmp dst Hs Hc Hd Hf;
    cbn [decode_loop]; case_match; zify_bool; [lia|done| |done].
  destruct (index_in_range out (cmp - 1)) as [b ->]; [lia|]. cbn [or_panic mbind outcome_bind].
  eapply safe_bind; [apply decode_group_safe; lia|]. intros [[out' cmp'] dst'] (Hl & ? & ?).
  rewrite <-Hl. apply IH; lia.
Qed.

Lemma trailing_u32_inv data back v :
  trailing_u32 data back = Some v → back ≤ len data ∧ is_u32 v.
Proof.
  unfold trailing_u32. intros (start & ?%checked_sub_inv & (bs & Hb%get_range_inv & [= <-])%bind_Some)%bind_Some.
  split; [lia|]. destruct Hb as (? & ? & ->).
  pose proof (le_val_range (ztake (start + 4 - start) (zdrop start data))) as Hr.
  fold (len (ztake (start + 4 - start) (zdrop start data))) in Hr.
  rewrite len_ztake in Hr by (rewrite len_zdrop; lia).
  replace (start + 4 - start) with 4 in * by lia. change (256 ^ 4) with 4294967296 in Hr. mlia.
Qed.

Lemma trailing_u32_ok data back :
  4 ≤ back ≤ len data → ∃ v, trailing_u32 data back = Some v.
Proof.
  intros Hb. unfold trailing_u32. rewrite checked_sub_ok by lia. cbn [mbind option_bind].
  rewrite get_range_ok by lia. cbn. eauto.
Qed.

Lemma decompress_packed_safe data el hs xl :
  len data + U32_MAX ≤ ISIZE_MAX → is_u32 xl → 0 ≤ hs ≤ el → el ≤ len data →
  safe (λ out, len out = len data + xl) (decompress_packed data el hs xl).
Proof.
  intros Hmax Hx Hh He. unfold decompress_packed. pose proof (len_nonneg data).
  rewrite checked_add_ok by mlia. cbn [ok_or mbind outcome_bind].
  unfold vec_zeroed. rewrite (proj2 (Z.leb_le _ _)) by mlia. cbn [or_panic mbind outcome_bind].
  unfold copy_from_slice. rewrite len_zeros by mlia. settle. cbn [or_panic mbind outcome_bind].
  assert (len (ztake 0 (zeros (len data + xl)) ++ data ++ zdrop (len data) (zeros (len data + xl)))
    = len data + xl) as Hlen.
  { rewrite !len_app, ztake_0, len_zdrop by (rewrite ?len_zeros; mlia).
    rewrite len_zeros by mlia. change (len []) with 0. lia. }
  set (out := ztake 0 _ ++ _) in *. clearbody out.
  eapply safe_bind; [apply decode_loop_safe; [lia|mlia|mlia|unfold len in *; lia]|].
  intros [[out' ?] ?] Hl. cbn. lia.
Qed.

Lemma decompress_safe data size :
  len data + U32_MAX ≤ ISIZE_MAX → 0 ≤ size → safe (λ out, len out = size) (decompress data size).
Proof.
  intros Hmax Hsize. unfold decompress.
  eapply safe_bind; [apply safe_ok_or, trailing_u32_inv|]. intros xl (Hl & Hx).
  destruct (Z.eqb_spec xl 0) as [->|Hne].
  - rewrite get_to_ok by lia. cbn [or_panic mbind outcome_bind]. apply safe_ok_or.
    intros r (? & ->)%get_to_inv. by apply len_ztake.
  - eapply safe_bind; [apply safe_ok_or, trailing_u32_inv|]. intros hs (_ & Hh).
    eapply safe_bind; [apply safe_ok_or, trailing_u32_inv|]. intros el (Hl2 & He).
    eapply safe_bind; [apply safe_guard|]. intros ? Hg. cbn beta in Hg. zify_bool.
    eapply safe_bind; [apply decompress_packed_safe; unfold_max; lia|]. intros out Hout.
    eapply safe_bind; [apply safe_guard|]. intros ? Hg2. cbn beta in Hg2. zify_bool. cbn. done.
Qed.
