(* ===== verification/BlzCodec.v ===== *)
(** * What BLZ promises its clients

    The KIP1 builder compresses segments and the reader decompresses them; all either relies on
    is stated here. [BlzRoundTrip.blz_codec] shows that the codec of [src/src/blz.rs] keeps it. *)

From S2P Require Import Prelude Bytes Blz.
#[local] Open Scope Z_scope.

Class BlzCodec := {
  blz_compress : list byte → option (list byte);
  blz_decompress : list byte → Z → outcome DecompressError (list byte);
  (** An indexable input is compressed, and the result decompresses to it... *)
  blz_round_trip data : len data < NONE →
    ∃ c, blz_compress data = Some c ∧ blz_decompress c (len data) = Ok data;
  (** ... in at most seven bytes more than the input. *)
  blz_compress_len data c : blz_compress data = Some c → len c ≤ len data + 7;
  (** Any stream decompresses to the length asked for, or is rejected. *)
  blz_decompress_safe data size : len data + U32_MAX ≤ ISIZE_MAX → 0 ≤ size →
    safe (λ out, len out = size) (blz_decompress data size);
}.
