(* ===== verification/BlzRoundTrip.v ===== *)
(** * BLZ compression: layouts, bounds and the round trip

    [compress] never panics, its output is one of the two documented stream layouts and is never
    longer than the stored one, and [decompress] recovers the input from it. The class [BlzCodec]
    is what the KIP1 reader and builder rely on; [blz_codec] discharges it. *)

From S2P Require Import Prelude Bytes Layout Blz BlzFinder BlzStream BlzEncode BlzDecode BlzCodec.
#[local] Open Scope Z_scope.

(** Bytes from [pos] to the next multiple of four. *)
Definition padding (pos : Z) : Z := (- pos) mod 4.

Definition stored_stream (data : list byte) : list byte :=
  data ++ zrep (padding (len data)) x00 ++ le_bytes 4 0.

(** [ raw prefix ][ packed region ][ 0xFF padding ][ enc_len ][ header_size ][ extra_len ] *)
Definition packed_stream (n : Z) (prefix packed : list byte) : list byte :=
  let pos := len prefix + len packed in
  let header := 12 + padding pos in
  prefix ++ packed ++ zrep (padding pos) xff ++
  le_bytes 4 (len packed + header) ++ le_bytes 4 header ++ le_bytes 4 (n - pos - header).

(** The packed layout carries [data]: the codes of the packed region, read backwards, decode to
    all of the reversed data but the prefix, and can be decoded in place. *)
Definition packs (data prefix packed : list byte) : Prop :=
  let pos := len prefix + len packed in
  12 + padding pos < len data - pos ∧
  ∃ cs full, Stream 0 0 cs (reverse packed) ∧ dec_codes cs [] = Some full ∧
    fits 0 cs (len data - pos) ∧ data = prefix ++ reverse full.

(** ** The writers *)

Lemma padding_range p : 0 ≤ padding p < 4.
Proof. unfold padding. div_lia. Qed.

Lemma padding_aligned p : (p + padding p) mod 4 = 0.
Proof. unfold padding. div_lia. Qed.

Lemma packed_header_size_eq p : packed_header_size p = 12 + padding p.
Proof.
  unfold packed_header_size, as_u64, padding. rewrite land_3, mod_2_64_4. done.
Qed.

Lemma pad_loop_spec fuel (l rest : list byte) b pos :
  pos = len l → padding pos ≤ Z.of_nat fuel → padding pos ≤ len rest →
  pad_loop fuel (l ++ rest) pos b
    = Some (l ++ zrep (padding pos) b ++ zdrop (padding pos) rest, pos + padding pos).
Proof.
  intros ->. revert l rest. induction fuel as [|fuel IH]; intros l rest Hf Hr; cbn [pad_loop];
    rewrite land_3; destruct (Z.eqb_spec (len l mod 4) 0) as [H0|H0]; cbn [negb];
    pose proof (padding_range (len l)) as Hp;
    try (assert (padding (len l) = 0) as -> by (unfold padding in *; div_lia);
         rewrite zrep_0, zdrop_0, Z.add_0_r; done).
  - exfalso. unfold padding in *. div_lia.
  - assert (padding (len l) = 1 + padding (len l + 1)) as Hpad by (unfold padding in *; div_lia).
    pose proof (padding_range (len l + 1)).
    destruct rest as [|x rest]; [len_lia|]. rewrite set_index_app_eq by done.
    cbn [mbind option_bind].
    assert (len (l ++ [b]) = len l + 1) as Hl by (by rewrite len_app).
    replace (l ++ b :: rest) with ((l ++ [b]) ++ rest) by (by rewrite <-app_assoc).
    rewrite <-Hl, IH; rewrite ?Hl; [|lia|len_lia].
    rewrite Hpad, zrep_add, <-app_assoc by lia. cbn [app].
    replace (zdrop (1 + padding (len l + 1)) (x :: rest)) with (zdrop (padding (len l + 1)) rest).
    2:{ unfold zdrop. by replace (Z.to_nat (1 + _)) with (S (Z.to_nat (padding (len l + 1)))) by lia. }
    f_equal. f_equal; lia.
Qed.

Lemma relocate_spec n (out : list byte) rem ps i :
  0 ≤ rem ≤ ps → 0 ≤ i → ps + i + Z.of_nat n ≤ len out →
  relocate n out rem ps i
    = Some (ztake (rem + i) out ++ ztake (Z.of_nat n) (zdrop (ps + i) out)
              ++ zdrop (rem + i + Z.of_nat n) out).
Proof.
  intros Hrem. revert out i. induction n as [|n IH]; intros out i Hi Hn; cbn [relocate].
  { change (Z.of_nat 0) with 0. rewrite Z.add_0_r, ztake_0. cbn [app]. by rewrite ztake_zdrop. }
  destruct (index_in_range out (ps + i)) as [b Hb]; [lia|]. rewrite Hb. cbn [mbind option_bind].
  rewrite set_index_split by lia. cbn [mbind option_bind].
  assert (len (ztake (rem + i) out) = rem + i) as Ht by (apply len_ztake; lia).
  rewrite IH; [|lia|rewrite len_app, len_cons, len_zdrop, Ht; lia].
  rewrite (zdrop_S _ _ _ Hb), (ztake_cons (Z.of_nat (S n))) by lia.
  replace (Z.of_nat (S n) - 1) with (Z.of_nat n) by lia.
  replace (ztake (rem + i) out ++ b :: zdrop (rem + i + 1) out)
    with ((ztake (rem + i) out ++ [b]) ++ zdrop (rem + i + 1) out) by (by rewrite <-app_assoc).
  assert (len (ztake (rem + i) out ++ [b]) = rem + i + 1) as Ht1 by (rewrite len_app, Ht; done).
  rewrite ztake_app_eq by lia. rewrite !(zdrop_app_ge _ (ztake (rem + i) out ++ [b])) by lia.
  rewrite Ht1, !zdrop_zdrop by lia. rewrite <-app_assoc. cbn [app].
  do 4 f_equal; [do 2 f_equal; lia|f_equal; lia].
Qed.

Section layouts.
Context {ZC : Zerocopy}.

Lemma store_uncompressed_spec input output :
  len input + 7 ≤ len output →
  ∃ rest, store_uncompressed input output
    = Some (stored_stream input ++ rest, len (stored_stream input)).
Proof.
  intros Hcap. unfold store_uncompressed. pose proof (padding_range (len input)).
  assert (copy_from_slice output 0 (len input) input = Some (input ++ zdrop (len input) output)) as ->
    by (apply (copy_from_slice_end []); len_lia).
  cbn [mbind option_bind]. pose proof (len_nonneg input).
  rewrite (pad_loop_spec 4 input) by (rewrite ?len_zdrop; lia). cbn [mbind option_bind].
  change (z2b 0) with x00. rewrite as_bytes_spec. change (to_bytes 0) with (le_bytes 4 0).
  rewrite app_assoc. rewrite copy_from_slice_end.
  2:{ rewrite len_app, len_zrep; lia. }
  2:{ rewrite len_app, len_zrep, len_le_bytes; lia. }
  2:{ rewrite len_le_bytes, !len_zdrop by (rewrite ?len_zdrop; lia). lia. }
  cbn [mbind option_bind]. eexists. unfold stored_stream.
  f_equal. f_equal; [by rewrite <-!app_assoc|].
  rewrite !len_app, len_zrep, len_le_bytes by lia. lia.
Qed.

Lemma footer_bytes a b c :
  as_bytes {| enc_len := a; header_size := b; extra_len := c |}
    = le_bytes 4 a ++ le_bytes 4 b ++ le_bytes 4 c.
Proof. rewrite as_bytes_spec, app_assoc. reflexivity. Qed.

Lemma len_packed_stream n prefix packed :
  len (packed_stream n prefix packed)
    = len prefix + len packed + 12 + padding (len prefix + len packed).
Proof.
  unfold packed_stream. pose proof (padding_range (len prefix + len packed)).
  rewrite !len_app, !len_le_bytes, len_zrep by lia. lia.
Qed.

Lemma store_packed_spec input front packed rest rem :
  let pos := rem + len packed in
  0 ≤ rem ≤ len input → len input ≤ U32_MAX → rem ≤ len front →
  12 + padding pos < len input - pos → len input ≤ len (front ++ packed ++ rest) →
  ∃ rest', store_packed input (front ++ packed ++ rest) (len front + len packed) (len packed) rem
    = Some (packed_stream (len input) (ztake rem input) packed ++ rest',
            len (packed_stream (len input) (ztake rem input) packed)).
Proof.
  intros pos Hrem Hn Hfront Hfit Hcap. unfold store_packed.
  pose proof (len_nonneg packed). pose proof (padding_range pos). pose proof (len_nonneg rest).
  rewrite (checked_sub_ok (len front + _)) by lia. cbn [mbind option_bind].
  replace (len front + len packed - len packed) with (len front) by lia.
  rewrite relocate_spec by len_lia. cbn [mbind option_bind].
  rewrite !Z.add_0_r, Z2Nat.id by done.
  rewrite (zdrop_app_eq (len front)), (ztake_app_eq (len packed)) by done.
  rewrite get_to_ok by lia. cbn [mbind option_bind].
  set (tail := zdrop (rem + len packed) (front ++ packed ++ rest)).
  assert (len tail = len front + len rest - rem) as Htail.
  { unfold tail. rewrite len_zdrop by len_lia. len_lia. }
  rewrite copy_from_slice_start by (rewrite !len_ztake by len_lia; done).
  cbn [mbind option_bind]. fold pos.
  assert (len (ztake rem input) = rem) as Hpre by (by apply len_ztake).
  rewrite (checked_sub_ok (len input) (len packed)) by lia. cbn [mbind option_bind].
  rewrite (checked_sub_ok (len input - _) rem) by lia. cbn [mbind option_bind].
  rewrite app_assoc, pad_loop_spec by (rewrite ?len_app, ?Hpre; len_lia).
  cbn [mbind option_bind]. rewrite packed_header_size_eq.
  rewrite checked_sub_ok by lia. cbn [mbind option_bind].
  rewrite !as_u32_small by (unfold is_u32; lia).
  rewrite footer_bytes, app_assoc. change (z2b 255) with xff. change (size_of Footer) with 12.
  rewrite copy_from_slice_end.
  2:{ rewrite !len_app, len_zrep, Hpre; lia. }
  2:{ rewrite !len_app, len_zrep, !len_le_bytes, Hpre; lia. }
  2:{ rewrite !len_app, !len_le_bytes, len_zdrop by (rewrite Htail; len_lia). len_lia. }
  cbn [mbind option_bind]. eexists. rewrite len_packed_stream, Hpre. fold pos.
  f_equal. f_equal; [|lia]. unfold packed_stream. rewrite Hpre. fold pos.
  replace (len input - len packed - rem) with (len input - pos) by lia.
  by rewrite <-!app_assoc.
Qed.

(** ** What [compress] produces *)

(** Cut at the best split, the encoded stream is the packed region of a layout of the data. *)
Lemma best_split_packs data cs bs bp br :
  Stream 0 0 cs bs → Forall code_ok cs → dec_codes cs [] = Some (reverse data) →
  len bs = wsize 0 cs → dlens cs = len data → best_split (len data) cs bp br →
  ∃ bs1 bs2, bs = bs1 ++ bs2 ∧ len (reverse bs1) = bp ∧ 0 ≤ br ≤ len (reverse bs2) ∧
    bp + br ≤ len data ∧ len (ztake br data) = br ∧
    (12 + padding (br + bp) < len data - (br + bp) → packs data (ztake br data) (reverse bs1)).
Proof.
  intros HS Hco Hdec Hlbs Hlcs [(cs1 & cs2 & Hcs & Hbp & Hbr) Hmin].
  pose proof (Hmin [] cs eq_refl) as Hm0. cbn [wsize dlens] in Hm0.
  pose proof (Hmin cs [] (eq_sym (app_nil_r cs))) as Hm1.
  destruct (Stream_split 0 0 cs1 cs2 bs) as (bs1 & bs2 & -> & HS1 & Hl1); [by rewrite <-Hcs|].
  rewrite Hcs in Hco. apply Forall_app in Hco as [Hco _]. pose proof (dlens_nonneg cs1 Hco).
  pose proof (wsize_nonneg 0 cs1).
  rewrite Hcs, dec_codes_app in Hdec. apply bind_Some in Hdec as (full & Hfull & Hdec).
  pose proof (dec_codes_len _ _ _ Hco Hfull) as Hlf. change (len []) with 0 in Hlf.
  apply dec_codes_prefix in Hdec as [k Hk].
  assert (data = reverse k ++ reverse full) as Hdata
    by (by rewrite <-reverse_app, <-Hk, reverse_involutive).
  assert (len (reverse k) = br) as Hlk by (rewrite Hbr, Hdata; len_lia).
  assert (ztake br data = reverse k) as Htake by (rewrite Hdata; by apply ztake_app_eq).
  pose proof (len_nonneg (reverse k)).
  exists bs1, bs2. rewrite Htake. split_and!; [done|len_lia|lia|len_lia|lia|done|].
  intros Hfit. unfold packs. rewrite Hlk. replace (len (reverse bs1)) with bp by len_lia.
  split; [done|]. exists cs1, full. rewrite reverse_involutive. split_and!; [done|done| |done].
  intros c1 c2 ->. specialize (Hmin c1 (c2 ++ cs2)). rewrite app_assoc in Hmin.
  specialize (Hmin Hcs). lia.
Qed.

Lemma compress_layout data :
  len data < NONE →
  ∃ c, compress data = Some c ∧
    (c = stored_stream data ∨
     ∃ prefix packed, c = packed_stream (len data) prefix packed ∧ packs data prefix packed).
Proof.
  intros Hd. unfold compress, compress_into. pose proof (len_nonneg data) as H0.
  assert (len data + 15 ≤ worst_case_len (len data)) as Hwc
    by (unfold worst_case_len, div_ceil; div_lia).
  set (out0 := zeros (worst_case_len (len data))).
  assert (len out0 = worst_case_len (len data)) as Hout0 by (apply len_zeros; lia).
  destruct (encode_all (reverse data) out0) as (f & st & cs & bs & rest & -> & Hrun & Hen & Hread
    & Hflush & Hlbs & Hsize & HS); [by rewrite len_reverse..|by rewrite len_reverse, Hout0|].
  cbn [mbind option_bind]. rewrite Hrun. cbn [mbind option_bind]. rewrite Hflush. cbn [mbind option_bind].
  rewrite get_to_ok by (pose proof (len_nonneg bs); len_lia). cbn [mbind option_bind].
  rewrite ztake_app_eq, copy_from_slice_start by (rewrite ?len_reverse; lia).
  cbn [mbind option_bind]. rewrite reverse_involutive. clear Hrun Hflush.
  destruct Hen as [_ Hw Hr _ Hdec _ Hco Hbest].
  rewrite Hread, ztake_all in Hdec by done. rewrite len_reverse in *.
  destruct (best_split_packs data cs bs _ _ HS Hco Hdec ltac:(lia) ltac:(lia) Hbest)
    as (bs1 & bs2 & -> & Hl1 & Hbr & Hsum & Htake & Hpacks).
  pose proof (len_nonneg (reverse bs1)).
  unfold choose_layout. rewrite (checked_sub_ok (len data)) by lia. cbn [mbind option_bind].
  rewrite (checked_sub_ok (len data - _)) by lia. cbn [mbind option_bind].
  rewrite packed_header_size_eq. destruct (_ || _) eqn:Hlayout.
  - destruct (store_uncompressed_spec data (reverse (bs1 ++ bs2) ++ rest)) as (rest' & ->).
    { rewrite len_app, len_reverse, <-len_app. lia. }
    cbn [mbind option_bind]. eexists. split; [done|]. left. by apply ztake_app_eq.
  - apply orb_false_iff in Hlayout as [Hlayout _]. apply orb_false_iff in Hlayout as [_ Hlayout].
    apply negb_false_iff, Z.ltb_lt in Hlayout.
    rewrite reverse_app, <-app_assoc, <-Hl1.
    replace (write_pos st) with (len (reverse bs2) + len (reverse bs1)) by len_lia.
    destruct (store_packed_spec data (reverse bs2) (reverse bs1) rest (best_remaining st))
      as (rest' & ->); [lia|unfold_blz; lia|lia|rewrite Hl1; lia|len_lia|].
    cbn [mbind option_bind]. eexists. split; [done|]. right.
    exists (ztake (best_remaining st) data), (reverse bs1).
    split; [by apply ztake_app_eq|]. apply Hpacks. lia.
Qed.
End layouts.

(** ** Decoding the two layouts *)

Lemma trailing_u32_app l v r back :
  back = 4 + len r → is_u32 v → trailing_u32 (l ++ le_bytes 4 v ++ r) back = Some v.
Proof.
  intros -> Hv. unfold trailing_u32. pose proof (len_nonneg l). pose proof (len_nonneg r).
  rewrite checked_sub_ok by len_lia. cbn [mbind option_bind].
  rewrite get_range_mid by len_lia. cbn [mbind option_bind].
  rewrite le_val_le_bytes_small by mlia. done.
Qed.

Lemma decompress_stored data : decompress (stored_stream data) (len data) = Ok data.
Proof.
  unfold decompress, stored_stream. pose proof (padding_range (len data)). pose proof (len_nonneg data).
  assert (len (zrep (padding (len data)) x00) = padding (len data)) by (apply len_zrep; lia).
  pose proof (trailing_u32_app (data ++ zrep (padding (len data)) x00) 0 [] 4) as Ht.
  rewrite app_nil_r, <-app_assoc in Ht. rewrite Ht by (done || mlia).
  cbn [ok_or mbind outcome_bind]. cbn [Z.eqb].
  rewrite get_to_ok by len_lia. cbn [or_panic mbind outcome_bind].
  rewrite app_assoc, ztake_app_eq by len_lia.
  rewrite get_to_ok by len_lia. by rewrite ztake_app_eq.
Qed.

(** The trailer of a packed stream, as [decompress] reads it. *)
Lemma packed_stream_trailer n prefix packed :
  let pos := len prefix + len packed in
  n ≤ U32_MAX → 12 + padding pos < n - pos →
  let s := packed_stream n prefix packed in
  trailing_u32 s 4 = Some (n - pos - (12 + padding pos)) ∧
  trailing_u32 s 8 = Some (12 + padding pos) ∧
  trailing_u32 s 12 = Some (len packed + (12 + padding pos)).
Proof.
  intros pos Hn Hfit s. pose proof (padding_range pos). unfold s, packed_stream. fold pos.
  pose proof (len_nonneg prefix). pose proof (len_nonneg packed).
  split_and!.
  - rewrite !app_assoc, <-(app_nil_r (le_bytes 4 (n - pos - _))).
    apply trailing_u32_app; [done|mlia].
  - rewrite !app_assoc, <-(app_assoc _ (le_bytes 4 (12 + _))).
    apply trailing_u32_app; [len_lia|mlia].
  - rewrite !app_assoc, <-(app_assoc _ _ (le_bytes 4 (n - pos - _))), <-(app_assoc _ (le_bytes 4 (len packed + _))).
    apply trailing_u32_app; [len_lia|mlia].
Qed.

Lemma decompress_packed_stream data prefix packed :
  let pos := len prefix + len packed in
  len data < NONE → packs data prefix packed →
  decompress_packed (packed_stream (len data) prefix packed)
    (len packed + (12 + padding pos)) (12 + padding pos) (len data - pos - (12 + padding pos)) = Ok data.
Proof.
  intros pos Hd (Hfit & cs & full & HS & Hdec & Hf & Hdata). fold pos in Hfit, Hf.
  pose proof (padding_range pos). pose proof (len_nonneg prefix). pose proof (len_nonneg packed).
  set (xl := len data - pos - (12 + padding pos)) in *.
  unfold decompress_packed. set (s := packed_stream (len data) prefix packed).
  assert (len s = pos + 12 + padding pos) as Hs by apply len_packed_stream. rewrite Hs.
  rewrite checked_add_ok by (unfold_blz; mlia). cbn [ok_or mbind outcome_bind].
  replace (pos + 12 + padding pos + xl) with (len data) by lia.
  unfold vec_zeroed. rewrite (proj2 (Z.leb_le _ _)) by (unfold_blz; mlia). cbn [or_panic mbind outcome_bind].
  replace (len data) with (len s + xl) by lia.
  rewrite zeros_add, copy_from_slice_start by (rewrite ?len_zeros; lia). cbn [or_panic mbind outcome_bind].
  set (U := reverse packed). assert (len U = len packed) as HU by apply len_reverse.
  assert (∃ G, s ++ zeros xl = in_place prefix U G [] ∧ len G = len data - pos) as (G & Hin & HG).
  { assert (s = prefix ++ reverse U ++ zdrop pos s) as Hsplit.
    { unfold U. rewrite reverse_involutive. unfold s, packed_stream at 1. do 2 f_equal.
      unfold packed_stream. rewrite (app_assoc prefix), zdrop_app_eq by len_lia. done. }
    exists (zdrop pos s ++ zeros xl). split.
    - unfold in_place. rewrite Hsplit at 1. by rewrite app_nil_r, <-!app_assoc.
    - rewrite len_app, len_zdrop, len_zeros by lia. lia. }
  rewrite Hin. assert (len (in_place prefix U G []) = len data) as Hsize.
  { rewrite <-Hin, len_app, len_zeros by lia. lia. }
  destruct (decode_loop_spec (length s) prefix (len data) full cs U G []) as (G' & Hrun).
  { unfold_blz. mlia. } { split_and!; [done|done|by rewrite HG|done]. }
  { unfold len in *. lia. }
  replace (pos + 12 + padding pos - (len packed + (12 + padding pos))) with (len prefix) by lia.
  replace (pos + 12 + padding pos - (12 + padding pos)) with (len prefix + len U) by lia.
  replace (len s + xl) with (len prefix + len U + len G) by lia.
  assert (len (in_place prefix [] G' full) = len data) as Hsize'.
  { rewrite <-Hsize. refine (safe_ok _ _ _ (decode_loop_safe _ _ _ _ _ _ _ _ _) Hrun);
      [lia|rewrite Hsize; lia|rewrite Hsize; pose proof (len_nonneg G); lia|unfold len in *; lia]. }
  rewrite Hrun. cbn [mbind outcome_bind]. f_equal. rewrite Hdata. unfold in_place. cbn [reverse].
  assert (len G' = 0) as HG' by (rewrite Hdata in Hsize'; unfold in_place in Hsize'; len_lia).
  destruct G'; [done|len_lia].
Qed.

Lemma decompress_packs data prefix packed :
  len data < NONE → packs data prefix packed →
  decompress (packed_stream (len data) prefix packed) (len data) = Ok data.
Proof.
  intros Hd Hp. pose proof Hp as (Hfit & _). set (pos := len prefix + len packed) in *.
  pose proof (padding_range pos). pose proof (len_nonneg prefix). pose proof (len_nonneg packed).
  destruct (packed_stream_trailer (len data) prefix packed) as (H4 & H8 & H12);
    [unfold_blz; lia|done|]. fold pos in H4, H8, H12.
  unfold decompress. change (size_of Footer) with 12. rewrite H4, H8, H12, len_packed_stream. fold pos.
  cbn [ok_or mbind outcome_bind]. rewrite (proj2 (Z.eqb_neq _ _)) by lia. settle.
  cbn [mbind outcome_bind]. pose proof (decompress_packed_stream data prefix packed Hd Hp) as Hrun.
  fold pos in Hrun. rewrite Hrun. cbn [mbind outcome_bind]. by rewrite Z.eqb_refl.
Qed.

(** ** The codec *)

Section codec.
Context {ZC : Zerocopy}.

Lemma compress_round_trip data :
  len data < NONE → ∃ c, compress data = Some c ∧ decompress c (len data) = Ok data.
Proof.
  intros Hd. destruct (compress_layout data Hd) as (c & Hc & [->|(prefix & packed & -> & Hp)]).
  - eexists. split; [done|apply decompress_stored].
  - eexists. split; [done|by apply decompress_packs].
Qed.

Lemma compress_Some_inv data c : compress data = Some c → len data < NONE.
Proof.
  unfold compress, compress_into. intros H.
  apply bind_Some in H as (? & (f & Hf & _)%bind_Some & _).
  unfold MatchFinder_new in Hf. case_match; [|done]. zify_bool. by rewrite len_reverse in *.
Qed.

Lemma len_stored_stream data : len (stored_stream data) = len data + padding (len data) + 4.
Proof.
  unfold stored_stream. pose proof (padding_range (len data)).
  rewrite !len_app, len_zrep, len_le_bytes by lia. lia.
Qed.

Lemma compress_size data c :
  compress data = Some c → len c mod 4 = 0 ∧ len c ≤ len data + padding (len data) + 4.
Proof.
  intros Hc. pose proof (compress_Some_inv _ _ Hc) as Hd. pose proof (padding_range (len data)).
  destruct (compress_layout data Hd) as (c' & Hc' & Hl). assert (c' = c) as -> by congruence.
  destruct Hl as [->|(prefix & packed & -> & Hfit & _)].
  - rewrite len_stored_stream. split; [|lia].
    pose proof (padding_aligned (len data)). div_lia.
  - rewrite len_packed_stream. split; [|lia].
    pose proof (padding_aligned (len prefix + len packed)). div_lia.
Qed.

Lemma compress_cases data :
  len data < NONE →
  ∃ c, compress data = Some c ∧
    ((c = stored_stream data ∧ trailing_u32 c 4 = Some 0) ∨
     (∃ prefix packed xl, c = packed_stream (len data) prefix packed ∧ packs data prefix packed ∧
        trailing_u32 c 4 = Some xl ∧ 0 < xl)).
Proof.
  intros Hd. destruct (compress_layout data Hd) as (c & Hc & Hl). exists c. split; [done|].
  destruct Hl as [->|(prefix & packed & -> & Hp)]; [left|right].
  - split; [done|]. unfold stored_stream. rewrite app_assoc, <-(app_nil_r (le_bytes 4 0)).
    by apply trailing_u32_app.
  - pose proof Hp as [Hfit _].
    destruct (packed_stream_trailer (len data) prefix packed) as (H4 & _);
      [unfold_blz; lia|done|]. eexists prefix, packed, _. split_and!; [done|done|exact H4|lia].
Qed.

#[export] Program Instance blz_codec : BlzCodec := {|
  blz_compress := compress;
  blz_decompress := decompress;
|}.
Next Obligation. apply compress_round_trip. Qed.
Next Obligation.
  intros data c [_ Hc]%compress_size. pose proof (padding_range (len data)). lia.
Qed.
Next Obligation. apply decompress_safe. Qed.

(** ** Properties *)

(** C1. BLZ is lossless: for every input shorter than [u32::MAX] bytes, [compress] returns a
    stream without panicking, and [decompress], told the original length, returns the input. *)
Theorem decompress_compress data :
  len data < NONE → ∃ c, compress data = Some c ∧ decompress c (len data) = Ok data.
Proof. apply compress_round_trip. Qed.

(** C30. What [compress] returns is 4-byte aligned, is no longer than the stored form of the
    input (so compression never expands by more than seven bytes), and is one of the two
    documented layouts: the stored one, ending in a zero [u32], or a packed one whose trailer
    describes a region that decodes to the data and whose [extra_len] is not the stored
    marker 0. *)
Theorem compress_output data :
  len data < NONE →
  ∃ c, compress data = Some c ∧ len c mod 4 = 0 ∧ len c ≤ len (stored_stream data) ∧
    ((c = stored_stream data ∧ trailing_u32 c 4 = Some 0) ∨
     (∃ prefix packed xl, c = packed_stream (len data) prefix packed ∧ packs data prefix packed ∧
        trailing_u32 c 4 = Some xl ∧ 0 < xl)).
Proof.
  intros Hd. destruct (compress_cases data Hd) as (c & Hc & Hcases). exists c.
  pose proof (compress_size _ _ Hc) as [Hmod Hle]. rewrite len_stored_stream. by split_and!.
Qed.
End codec.

(** C28. [decompress] is total on untrusted input: on every buffer that, with a maximal
    [extra_len] on top, stays within [isize::MAX], it returns a value or an error and never panics
    (no index is out of bounds, no subtraction underflows, both loops end), and a value it returns
    has exactly the length asked for. *)
Theorem decompress_total data size :
  len data + U32_MAX ≤ ISIZE_MAX → 0 ≤ size →
  decompress data size ≠ Panic ∧ ∀ out, decompress data size = Ok out → len out = size.
Proof.
  intros Hd Hs. pose proof (decompress_safe data size Hd Hs) as Hsafe. split.
  - by eapply safe_no_panic.
  - intros out Hout. exact (safe_ok _ _ _ Hsafe Hout).
Qed.

(** ** Witnesses *)

Definition sample_run : list byte := zrep 40 x22.

Lemma decompress_compress_witness :
  ∃ c, @compress zerocopy_reference sample_run = Some c ∧ decompress c 40 = Ok sample_run.
Proof. apply (@decompress_compress zerocopy_reference sample_run). reflexivity. Defined.

Lemma compress_output_witness :
  ∃ c, @compress zerocopy_reference sample_run = Some c ∧ len c mod 4 = 0 ∧
    len c ≤ len (stored_stream sample_run) ∧
    ((c = stored_stream sample_run ∧ trailing_u32 c 4 = Some 0) ∨
     (∃ prefix packed xl, c = packed_stream (len sample_run) prefix packed ∧
        packs sample_run prefix packed ∧ trailing_u32 c 4 = Some xl ∧ 0 < xl)).
Proof. apply (@compress_output zerocopy_reference sample_run). reflexivity. Defined.

Lemma decompress_total_witness :
  decompress [x01; x02] 8 ≠ Panic ∧ ∀ out, decompress [x01; x02] 8 = Ok out → len out = 8.
Proof. apply (decompress_total [x01; x02] 8); [vm_compute; discriminate|discriminate]. Defined.

(** A run is packed, and the packed form is shorter. *)
Example compress_sample_run :
  (c ← @compress zerocopy_reference sample_run; Some (len c)) = Some 24.
Proof. vm_compute. reflexivity. Qed.
