(* ===== verification/Pfs0.v ===== *)
(** * PFS0 archives: [raw/pfs0.rs], [read/pfs0.rs] and [write/pfs0.rs]

    The on-disk structures, the builder ([add_file], [build]) and the validated reader
    ([try_from_bytes] and its accessors). [build] writes into a zeroed buffer at computed offsets;
    [build_bytes] is what it writes as a concatenation of regions, from which the round trip
    follows. An [option] whose [None] is a panic is the result of an infallible function. *)

From S2P Require Import Prelude Bytes Strs Layout.
#[local] Open Scope Z_scope.

(** ** The structures *)

Definition PFS0_MAGIC : Z := 0x30534650.

Record Pfs0Header := {
  pfs0_magic : Z;
  pfs0_file_count : Z;
  pfs0_string_table_size : Z;
  pfs0_reserved : Z;
}.
#[export] Instance Pfs0Header_layout : Layout Pfs0Header.
Proof.
  refine (L_struct (u32 ⊗ u32 ⊗ u32 ⊗ u32)%layout (λ '(a, b, c, d), Build_Pfs0Header a b c d)
    (λ h, (pfs0_magic h, pfs0_file_count h, pfs0_string_table_size h, pfs0_reserved h)) _ _);
    solve_struct.
Defined.

Record Pfs0FileEntry := {
  entry_offset : Z;
  entry_size : Z;
  entry_string_table_offset : Z;
  entry_reserved : Z;
}.
#[export] Instance Pfs0FileEntry_layout : Layout Pfs0FileEntry.
Proof.
  refine (L_struct (u64 ⊗ u64 ⊗ u32 ⊗ u32)%layout (λ '(a, b, c, d), Build_Pfs0FileEntry a b c d)
    (λ e, (entry_offset e, entry_size e, entry_string_table_offset e, entry_reserved e)) _ _);
    solve_struct.
Defined.

(** ** The builder *)

Record FileEntry := {
  fe_name : list byte;
  fe_data : list byte;
}.
Definition Pfs0Builder := list FileEntry.

Inductive AddFileError :=
| EmptyFileName
| InvalidFileNameNul (name : list byte)
| InvalidFileNameSeparator (name : list byte)
| DuplicateFile (name : list byte).

Definition Pfs0Builder_new : Pfs0Builder := [].

Definition add_file (files : Pfs0Builder) (name data : list byte)
    : outcome AddFileError Pfs0Builder :=
  _ ← guard_err (len name =? 0) EmptyFileName;
  _ ← guard_err (contains_byte name 0) (InvalidFileNameNul name);
  _ ← guard_err (contains_byte name 0x2F || contains_byte name 0x5C) (InvalidFileNameSeparator name);
  _ ← guard_err (existsb (λ f, bool_decide (fe_name f = name)) files) (DuplicateFile name);
  Ok (files ++ [{| fe_name := name; fe_data := data |}]).

(** [a.name.cmp(&b.name)] as the order of [sort_by]. *)
Definition by_name (a b : FileEntry) : bool := str_le (fe_name a) (fe_name b).

Section write.
Context {ZC : Zerocopy}.

(** The [for] loop of [build]. *)
Fixpoint write_files (files : list FileEntry) (i file_table_end data_start : Z) (buf : list byte)
    (string_offset data_offset : Z) : option (list byte) :=
  match files with
  | [] => Some buf
  | file :: files =>
    let file_entry_offset := 0x10 + i * 0x18 in
    let entry := {| entry_offset := data_offset; entry_size := as_u64 (len (fe_data file));
                    entry_string_table_offset := string_offset; entry_reserved := 0 |} in
    buf ← copy_from_slice buf file_entry_offset (file_entry_offset + 0x18) (as_bytes entry);
    let name_bytes := fe_name file in
    string_table_offset_abs ← checked_add file_table_end string_offset;
    buf ← copy_from_slice buf string_table_offset_abs (string_table_offset_abs + len name_bytes)
            name_bytes;
    data_offset_abs ← checked_add data_start data_offset;
    buf ← copy_from_slice buf data_offset_abs (data_offset_abs + len (fe_data file)) (fe_data file);
    string_offset ← checked_add_u32 string_offset (as_u32 (len name_bytes + 1));
    data_offset ← checked_add data_offset (len (fe_data file));
    write_files files (i + 1) file_table_end data_start buf string_offset data_offset
  end.

Definition build (files : Pfs0Builder) : option (list byte) :=
  let files := sort_by by_name files in
  let file_count := as_u32 (len files) in
  let file_table_size := file_count * 0x18 in
  string_table_size_raw ← checked_sum (map (λ f, len (fe_name f) + 1) files);
  _ ← checked_add string_table_size_raw 0x1f;
  let string_table_size := align_up string_table_size_raw 0x20 in
  let file_table_end := 0x10 + file_table_size in
  data_start ← checked_add file_table_end string_table_size;
  total_data_size ← checked_sum (map (λ f, len (fe_data f)) files);
  total_size ← checked_add data_start total_data_size;
  buf ← vec_zeroed total_size;
  let header := {| pfs0_magic := PFS0_MAGIC; pfs0_file_count := file_count;
                   pfs0_string_table_size := as_u32 string_table_size; pfs0_reserved := 0 |} in
  buf ← copy_from_slice buf 0 0x10 (as_bytes header);
  write_files files 0 file_table_end data_start buf 0 0.
End write.

(** ** The reader *)

Record Pfs0 := {
  p_header : Pfs0Header;
  p_entries : list Pfs0FileEntry;
  p_string_table : list byte;
  p_data : list byte;
}.

Record Pfs0File := {
  name : list byte;
  data : list byte;
}.

Inductive FromBytesError :=
| BufferTooSmall (required available : Z)
| InvalidMagic (found : Z)
| EntryTableOutOfBounds (file_count available : Z)
| StringTableOutOfBounds (string_table_size available : Z)
| FileBoundsOverflow (file_index offset size : Z)
| FileOutOfBounds (file_index offset size available : Z)
| NameOutOfBounds (file_index offset string_table_size : Z)
| NameUnterminated (file_index offset : Z).

Definition check_file_bounds (index : Z) (entry : Pfs0FileEntry) (available : Z)
    : outcome FromBytesError unit :=
  let offset := entry_offset entry in
  let size := entry_size entry in
  end_ ← ok_or (checked_add offset size) (FileBoundsOverflow index offset size);
  guard_err (available <? end_) (FileOutOfBounds index offset size available).

Definition check_name_bounds (index : Z) (entry : Pfs0FileEntry) (string_table : list byte)
    : outcome FromBytesError unit :=
  let offset := entry_string_table_offset entry in
  name_bytes ← ok_or (get_from string_table offset)
    (NameOutOfBounds index offset (len string_table));
  guard_err (negb (contains_byte name_bytes 0)) (NameUnterminated index offset).

(** The [for] loop of [try_from_bytes]. *)
Fixpoint check_entries (index : Z) (entries : list Pfs0FileEntry) (string_table data : list byte)
    : outcome FromBytesError unit :=
  match entries with
  | [] => Ok tt
  | entry :: entries =>
    _ ← check_file_bounds index entry (len data);
    _ ← check_name_bounds index entry string_table;
    check_entries (index + 1) entries string_table data
  end.

Definition try_from_bytes `{Zerocopy} (bytes : list byte) : outcome FromBytesError Pfs0 :=
  '(header, rest) ← ok_or (ref_from_prefix Pfs0Header bytes)
    (BufferTooSmall (size_of Pfs0Header) (len bytes));
  _ ← guard_err (negb (pfs0_magic header =? PFS0_MAGIC)) (InvalidMagic (pfs0_magic header));
  let file_count := pfs0_file_count header in
  let string_table_size := pfs0_string_table_size header in
  '(entries, rest) ← ok_or (ref_from_prefix_with_elems Pfs0FileEntry rest file_count)
    (EntryTableOutOfBounds file_count (len bytes));
  string_table ← ok_or (get_to rest string_table_size)
    (StringTableOutOfBounds string_table_size (len rest));
  data ← or_panic (get_from rest string_table_size);
  _ ← check_entries 0 entries string_table data;
  Ok {| p_header := header; p_entries := entries; p_string_table := string_table; p_data := data |}.

Definition file_count (p : Pfs0) : Z := len (p_entries p).

(** [None] is a panic: a slice out of bounds. *)
Definition resolve (p : Pfs0) (entry : Pfs0FileEntry) : option Pfs0File :=
  let offset := entry_offset entry in
  let size := entry_size entry in
  name_bytes ← get_from (p_string_table p) (entry_string_table_offset entry);
  let name_end := nul_position name_bytes in
  name ← get_to name_bytes name_end;
  end_ ← checked_add offset size;
  data ← get_range (p_data p) offset end_;
  Some {| name := utf8_or_empty name; data := data |}.

(** The inner [option] is the function's own; so in [file_by_name]. *)
Definition file (p : Pfs0) (i : Z) : option (option Pfs0File) :=
  match index (p_entries p) i with
  | None => Some None
  | Some entry => f ← resolve p entry; Some (Some f)
  end.

Definition files (p : Pfs0) : option (list Pfs0File) := mapM (resolve p) (p_entries p).

Fixpoint find_by_name (p : Pfs0) (entries : list Pfs0FileEntry) (n : list byte)
    : option (option Pfs0File) :=
  match entries with
  | [] => Some None
  | entry :: entries =>
    f ← resolve p entry;
    if decide (name f = n) then Some (Some f) else find_by_name p entries n
  end.
Definition file_by_name (p : Pfs0) (n : list byte) : option (option Pfs0File) :=
  find_by_name p (p_entries p) n.

(** ** What the archive holds, abstractly *)

(** The name rules of [add_file], for a Rust [String]. *)
Definition file_ok (f : FileEntry) : Prop :=
  fe_name f ≠ [] ∧ utf8_valid (fe_name f) = true ∧ contains_byte (fe_name f) 0 = false ∧
  contains_byte (fe_name f) 0x2F = false ∧ contains_byte (fe_name f) 0x5C = false.

(** A builder reached by successful [add_file]s of strings. *)
Definition builder_ok (fs : Pfs0Builder) : Prop := Forall file_ok fs ∧ NoDup (map fe_name fs).

Definition strings_len (fs : list FileEntry) : Z := zsum (map (λ f, len (fe_name f) + 1) fs).
Definition data_len (fs : list FileEntry) : Z := zsum (map (λ f, len (fe_data f)) fs).
Definition string_table_len (fs : list FileEntry) : Z := align_up (strings_len fs) 0x20.

(** The format can express the archive: its counts are [u32]s and it is addressable. *)
Definition fits_format (fs : list FileEntry) : Prop :=
  len fs ≤ U32_MAX ∧ string_table_len fs ≤ U32_MAX ∧
  0x10 + len fs * 0x18 + string_table_len fs + data_len fs ≤ ISIZE_MAX.

Definition stored_file (f : FileEntry) : Pfs0File := {| name := fe_name f; data := fe_data f |}.

(** The regions [build] writes. *)
Definition strings_of (fs : list FileEntry) : list byte := concat (map (λ f, fe_name f ++ [x00]) fs).
Definition data_of (fs : list FileEntry) : list byte := concat (map fe_data fs).
Fixpoint entries_of (fs : list FileEntry) (soff doff : Z) : list Pfs0FileEntry :=
  match fs with
  | [] => []
  | f :: fs =>
    {| entry_offset := doff; entry_size := len (fe_data f);
       entry_string_table_offset := soff; entry_reserved := 0 |}
      :: entries_of fs (soff + (len (fe_name f) + 1)) (doff + len (fe_data f))
  end.
Definition header_of (fs : list FileEntry) : Pfs0Header :=
  {| pfs0_magic := PFS0_MAGIC; pfs0_file_count := len fs;
     pfs0_string_table_size := string_table_len fs; pfs0_reserved := 0 |}.
Definition build_bytes `{Zerocopy} (fs : list FileEntry) : list byte :=
  as_bytes (header_of fs) ++ array_to_bytes (entries_of fs 0 0) ++
  strings_of fs ++ zeros (string_table_len fs - strings_len fs) ++ data_of fs.

(** ** Lemmas: the builder *)

Lemma strings_len_cons f fs : strings_len (f :: fs) = (len (fe_name f) + 1) + strings_len fs.
Proof. done. Qed.
Lemma data_len_cons f fs : data_len (f :: fs) = len (fe_data f) + data_len fs.
Proof. done. Qed.

Lemma len_strings_of fs : len (strings_of fs) = strings_len fs.
Proof.
  unfold strings_of. induction fs as [|f fs IH]; [done|]. cbn [map concat].
  rewrite strings_len_cons. len_lia.
Qed.
Lemma len_data_of fs : len (data_of fs) = data_len fs.
Proof.
  unfold data_of. induction fs as [|f fs IH]; [done|]. cbn [map concat].
  rewrite data_len_cons. len_lia.
Qed.
Lemma strings_len_nonneg fs : 0 ≤ strings_len fs.
Proof. rewrite <-len_strings_of. apply len_nonneg. Qed.
Lemma data_len_nonneg fs : 0 ≤ data_len fs.
Proof. rewrite <-len_data_of. apply len_nonneg. Qed.
Lemma len_entries_of fs soff doff : len (entries_of fs soff doff) = len fs.
Proof. revert soff doff. induction fs; intros; [done|]. cbn [entries_of]. rewrite !len_cons. by f_equal. Qed.

Lemma string_table_len_range fs :
  string_table_len fs mod 0x20 = 0 ∧ strings_len fs ≤ string_table_len fs < strings_len fs + 0x20.
Proof. by apply (align_up_spec _ _ 5). Qed.

Lemma wf_entries fs soff doff :
  0 ≤ soff → 0 ≤ doff → soff + strings_len fs ≤ U32_MAX → doff + data_len fs ≤ USIZE_MAX →
  Forall wf (entries_of fs soff doff).
Proof.
  revert soff doff. induction fs as [|f fs IH]; intros soff doff Hs Hd Hsm Hdm; cbn [entries_of];
    constructor; rewrite strings_len_cons in Hsm; rewrite data_len_cons in Hdm;
    pose proof (strings_len_nonneg fs); pose proof (data_len_nonneg fs);
    pose proof (len_nonneg (fe_name f)); pose proof (len_nonneg (fe_data f)).
  - cbn. change (256 ^ 4) with 0x100000000. unfold_max. lia.
  - apply IH; lia.
Qed.

Lemma wf_header fs : len fs ≤ U32_MAX → string_table_len fs ≤ U32_MAX → wf (header_of fs).
Proof.
  intros Hc Hs. pose proof (len_nonneg fs). pose proof (strings_len_nonneg fs).
  pose proof (string_table_len_range fs) as [_ ?].
  cbn. change (256 ^ 4) with 0x100000000. unfold PFS0_MAGIC. unfold_max. lia.
Qed.

Section write_lemmas.
Context {ZC : Zerocopy}.

Lemma len_entry_bytes (e : Pfs0FileEntry) : wf e → len (as_bytes e) = 0x18.
Proof. intros He. by rewrite (len_as_bytes e He). Qed.

(** The loop fills the three regions in step. *)
Lemma write_files_spec fs i fte ds H S D ns soff doff :
  soff = len S → doff = len D → len H = 0x10 + i * 0x18 → 0 ≤ i →
  fte = len H + 0x18 * len fs → ds = fte + len S + ns → strings_len fs ≤ ns →
  len S + strings_len fs ≤ U32_MAX → ds + len D + data_len fs ≤ ISIZE_MAX →
  write_files fs i fte ds
    (H ++ zeros (0x18 * len fs) ++ S ++ zeros ns ++ D ++ zeros (data_len fs)) soff doff
    = Some (H ++ array_to_bytes (entries_of fs soff doff) ++ S ++ strings_of fs ++
            zeros (ns - strings_len fs) ++ D ++ data_of fs).
Proof.
  intros -> ->. revert i H S D ns. induction fs as [|f fs IH]; intros i H S D ns HH Hi Hfte Hds Hns Hsm Hdm.
  { cbn. by rewrite Z.sub_0_r, !app_nil_r. }
  rewrite strings_len_cons in *. rewrite data_len_cons in *. rewrite len_cons in *.
  pose proof (strings_len_nonneg fs). pose proof (data_len_nonneg fs). pose proof (len_nonneg fs).
  pose proof (len_nonneg (fe_name f)) as Hn0. pose proof (len_nonneg (fe_data f)).
  pose proof (len_nonneg S). pose proof (len_nonneg D). pose proof (len_nonneg H).
  cbn [write_files entries_of]. rewrite as_u64_small by mlia.
  set (e := {| entry_offset := _ |}).
  assert (len (as_bytes e) = 0x18) as He.
  { apply len_entry_bytes. cbn. change (256 ^ 4) with 0x100000000. unfold_max. lia. }
  rewrite copy_into_zeros by lia. bind_cbn.
  bind_step.
  rewrite He. replace (24 * (1 + len fs) - 24) with (24 * len fs) by lia.
  set (Z1 := zeros (24 * len fs)). assert (len Z1 = 24 * len fs) as HZ1 by (apply len_zeros; lia).
  rewrite (app_assoc _ Z1), (app_assoc _ S).
  rewrite copy_into_zeros by len_lia. bind_cbn.
  bind_step.
  set (Z2 := zeros (ns - len (fe_name f))).
  assert (len Z2 = ns - len (fe_name f)) as HZ2 by (apply len_zeros; lia).
  rewrite (app_assoc _ Z2), (app_assoc _ D), <-(app_nil_r (zeros (len (fe_data f) + data_len fs))).
  rewrite copy_into_zeros by len_lia. bind_cbn.
  rewrite as_u32_small by mlia. bind_step.
  bind_step.
  replace Z2 with (zeros 1 ++ zeros (ns - (len (fe_name f) + 1))).
  2:{ rewrite <-zeros_add by lia. unfold Z2. f_equal. lia. }
  specialize (IH (i + 1) (H ++ as_bytes e) (S ++ fe_name f ++ zeros 1) (D ++ fe_data f)
    (ns - (len (fe_name f) + 1))).
  rewrite !len_app, He in IH. change (len (zeros 1)) with 1 in IH.
  replace (len S + (len (fe_name f) + 1)) with (len S + len (fe_name f) + 1) in * by lia.
  replace (len (fe_data f) + data_len fs - len (fe_data f)) with (data_len fs) by lia.
  rewrite app_nil_r, <-!app_assoc in *. unfold Z1. rewrite IH by lia.
  f_equal. unfold strings_of, data_of, array_to_bytes. cbn [map concat]. rewrite as_bytes_spec.
  change (zeros 1) with [x00]. rewrite !Z.sub_add_distr, <-!app_assoc. done.
Qed.

Lemma pfs0_build_spec (fs : Pfs0Builder) :
  fits_format (sort_by by_name fs) → build fs = Some (build_bytes (sort_by by_name fs)).
Proof.
  intros (Hcount & Hst & Hsize). unfold build. set (l := sort_by by_name fs) in *.
  pose proof (string_table_len_range l) as (_ & Hr). pose proof (strings_len_nonneg l).
  pose proof (data_len_nonneg l). pose proof (len_nonneg l).
  assert (Forall (λ a, 0 ≤ a) (map (λ f, len (fe_name f) + 1) l)) as Hs
    by (apply Forall_map, Forall_true; intros f; cbn; pose proof (len_nonneg (fe_name f)); lia).
  assert (Forall (λ a, 0 ≤ a) (map (λ f, len (fe_data f)) l)) as Hd
    by (apply Forall_map, Forall_true; intros f; apply len_nonneg).
  rewrite (checked_sum_ok _ Hs) by (fold (strings_len l); mlia). fold (strings_len l). bind_cbn.
  rewrite as_u32_small by mlia. bind_step. fold (string_table_len l). bind_step.
  rewrite (checked_sum_ok _ Hd) by (fold (data_len l); mlia). fold (data_len l). bind_cbn.
  bind_step. rewrite vec_zeroed_ok by lia. bind_cbn.
  rewrite as_u32_small by mlia.
  replace (16 + len l * 24 + string_table_len l + data_len l)
    with (16 + (0x18 * len l + (string_table_len l + data_len l))) by lia.
  rewrite (zeros_add 16), (zeros_add (24 * len l)), (zeros_add (string_table_len l)) by lia.
  fold (header_of l). pose proof (len_as_bytes _ (wf_header l ltac:(done) ltac:(done))) as Hh.
  change (size_of Pfs0Header) with 16 in Hh.
  rewrite copy_from_slice_start by (rewrite ?Hh, ?len_zeros; done || lia). bind_cbn.
  pose proof (write_files_spec l 0 (16 + len l * 24) (16 + len l * 24 + string_table_len l)
    (as_bytes (header_of l)) [] [] (string_table_len l) 0 0) as Hw.
  cbn [app] in Hw. rewrite Hw by (rewrite ?Hh; change (@len byte []) with 0; unfold_max; lia).
  reflexivity.
Qed.
End write_lemmas.

(** ** Lemmas: the reader *)

Lemma check_file_bounds_ok i e n :
  entry_offset e + entry_size e ≤ n → n ≤ USIZE_MAX → check_file_bounds i e n = Ok tt.
Proof. intros. unfold check_file_bounds. bind_step. by settle. Qed.

Lemma check_name_bounds_ok i e st l n r :
  entry_string_table_offset e = len l → st = l ++ n ++ x00 :: r → check_name_bounds i e st = Ok tt.
Proof.
  intros He ->. unfold check_name_bounds. rewrite He, get_from_ok by len_lia. bind_cbn.
  rewrite zdrop_app_eq, contains_byte_app by done. cbn. by rewrite orb_true_r.
Qed.

(** A name stored at the end of [l] and terminated reads back. *)
Lemma resolve_stored p e f l r ld rd :
  file_ok f → p_string_table p = l ++ fe_name f ++ x00 :: r → p_data p = ld ++ fe_data f ++ rd →
  e = {| entry_offset := len ld; entry_size := len (fe_data f);
         entry_string_table_offset := len l; entry_reserved := 0 |} →
  len (p_data p) ≤ USIZE_MAX → resolve p e = Some (stored_file f).
Proof.
  intros (_ & Hutf & Hnul & _) Hst Hd -> Hmax. unfold resolve. cbn [entry_offset entry_size entry_string_table_offset].
  rewrite Hst, Hd. rewrite Hd in Hmax. rewrite get_from_ok by len_lia. bind_cbn.
  rewrite zdrop_app_eq, nul_position_app by done.
  rewrite get_to_ok by len_lia. bind_cbn. rewrite ztake_app_eq by done.
  rewrite checked_add_ok by len_lia. bind_cbn.
  rewrite get_range_mid by len_lia. bind_cbn. by rewrite utf8_or_empty_valid.
Qed.

Lemma strings_of_cons f fs : strings_of (f :: fs) = fe_name f ++ x00 :: strings_of fs.
Proof. unfold strings_of. cbn [map concat]. by rewrite <-app_assoc. Qed.
Lemma data_of_cons f fs : data_of (f :: fs) = fe_data f ++ data_of fs.
Proof. done. Qed.

Lemma check_entries_stored fs i l ld r rd :
  Forall file_ok fs → len (ld ++ data_of fs ++ rd) ≤ USIZE_MAX →
  check_entries i (entries_of fs (len l) (len ld)) (l ++ strings_of fs ++ r) (ld ++ data_of fs ++ rd) = Ok tt.
Proof.
  intros Hok. revert i l ld. induction Hok as [|f fs Hf Hfs IH]; intros i l ld Hmax; [done|].
  cbn [entries_of check_entries]. rewrite strings_of_cons, data_of_cons in *.
  rewrite check_file_bounds_ok by (cbn; len_lia). bind_cbn.
  rewrite (check_name_bounds_ok _ _ _ l (fe_name f) (strings_of fs ++ r))
    by (cbn; rewrite <-?app_assoc; done). bind_cbn.
  specialize (IH (i + 1) (l ++ fe_name f ++ [x00]) (ld ++ fe_data f)).
  replace (len l + (len (fe_name f) + 1)) with (len (l ++ fe_name f ++ [x00])) by len_lia.
  rewrite <-(len_app ld). rewrite <-!app_assoc in *. cbn [app] in *. apply IH. len_lia.
Qed.

Lemma resolve_all_stored p fs l ld r rd :
  Forall file_ok fs → p_string_table p = l ++ strings_of fs ++ r → p_data p = ld ++ data_of fs ++ rd →
  len (p_data p) ≤ USIZE_MAX →
  Forall2 (λ e f, resolve p e = Some (stored_file f)) (entries_of fs (len l) (len ld)) fs.
Proof.
  intros Hok. revert l ld. induction Hok as [|f fs Hf Hfs IH]; intros l ld Hst Hd Hmax; [constructor|].
  cbn [entries_of]. rewrite strings_of_cons in Hst. rewrite data_of_cons in Hd. constructor.
  - eapply (resolve_stored p _ f l _ ld); rewrite <-?app_assoc in *; done.
  - specialize (IH (l ++ fe_name f ++ [x00]) (ld ++ fe_data f)).
    replace (len l + (len (fe_name f) + 1)) with (len (l ++ fe_name f ++ [x00])) by len_lia.
    rewrite <-(len_app ld). apply IH; rewrite <-?app_assoc in *; done.
Qed.

Section round_trip.
Context {ZC : Zerocopy}.

Definition archive_of (fs : list FileEntry) : Pfs0 :=
  {| p_header := header_of fs; p_entries := entries_of fs 0 0;
     p_string_table := strings_of fs ++ zeros (string_table_len fs - strings_len fs);
     p_data := data_of fs |}.

Lemma read_build_bytes fs :
  Forall file_ok fs → fits_format fs → try_from_bytes (build_bytes fs) = Ok (archive_of fs).
Proof.
  intros Hok (Hc & Hst & Hsize). unfold try_from_bytes, build_bytes.
  pose proof (string_table_len_range fs) as (_ & Hr). pose proof (strings_len_nonneg fs).
  pose proof (data_len_nonneg fs). pose proof (len_nonneg fs).
  rewrite ref_from_prefix_as_bytes by (by apply wf_header). bind_cbn. cbn [pfs0_magic header_of].
  rewrite Z.eqb_refl. cbn [negb guard_err]. bind_cbn. cbn [pfs0_file_count pfs0_string_table_size].
  change (pfs0_string_table_size (header_of fs)) with (string_table_len fs).
  change (pfs0_file_count (header_of fs)) with (len fs). rewrite <-(len_entries_of fs 0 0).
  rewrite ref_from_prefix_with_elems_app by (apply wf_entries; mlia). bind_cbn.
  rewrite app_assoc. set (st := strings_of fs ++ _).
  assert (len st = string_table_len fs) as Hlst.
  { unfold st. rewrite len_app, len_strings_of, len_zeros; lia. }
  pose proof (len_nonneg (data_of fs)).
  rewrite get_to_ok, get_from_ok by (rewrite len_app; lia). bind_cbn.
  rewrite ztake_app_eq, zdrop_app_eq by done.
  pose proof (check_entries_stored fs 0 [] [] (zeros (string_table_len fs - strings_len fs)) [] Hok) as Hchk.
  cbn [app] in Hchk. rewrite app_nil_r in Hchk. change (len []) with 0 in Hchk. fold st in Hchk.
  rewrite Hchk by (rewrite len_data_of; mlia). done.
Qed.

Lemma len_build_bytes fs :
  fits_format fs → len (build_bytes fs) = 0x10 + 0x18 * len fs + string_table_len fs + data_len fs.
Proof.
  intros (Hc & Hst & Hsize). pose proof (string_table_len_range fs) as (_ & Hr). pose proof (strings_len_nonneg fs).
  pose proof (data_len_nonneg fs). pose proof (len_nonneg fs). unfold build_bytes.
  rewrite !len_app, len_zeros, len_strings_of, len_data_of, len_as_bytes, len_array_to_bytes, len_entries_of
    by first [by apply wf_header | apply wf_entries; mlia | lia].
  change (size_of Pfs0Header) with 0x10. change (size_of Pfs0FileEntry) with 0x18. lia.
Qed.

Lemma archive_resolves fs :
  Forall file_ok fs → fits_format fs →
  Forall2 (λ e f, resolve (archive_of fs) e = Some (stored_file f)) (p_entries (archive_of fs)) fs.
Proof.
  intros Hok (_ & _ & Hsize). pose proof (string_table_len_range fs) as (_ & Hr).
  pose proof (strings_len_nonneg fs). pose proof (len_nonneg fs).
  apply (resolve_all_stored _ fs [] [] (zeros (string_table_len fs - strings_len fs)) []); [done|done| |].
  - cbn. by rewrite app_nil_r.
  - cbn [archive_of p_data]. rewrite len_data_of. mlia.
Qed.
End round_trip.

Lemma files_resolved p fs :
  Forall2 (λ e f, resolve p e = Some (stored_file f)) (p_entries p) fs →
  files p = Some (map stored_file fs).
Proof.
  unfold files. induction 1 as [|e f es fs He _ IH]; [done|]. cbn. rewrite He. cbn. by rewrite IH.
Qed.

Lemma find_resolved p es fs n :
  Forall2 (λ e f, resolve p e = Some (stored_file f)) es fs →
  find_by_name p es n = Some (stored_file <$> find (λ f, bool_decide (fe_name f = n)) fs).
Proof.
  induction 1 as [|e f es fs He _ IH]; [done|]. cbn. rewrite He. cbn.
  destruct (decide (fe_name f = n)); [by rewrite bool_decide_true|by rewrite bool_decide_false].
Qed.

(** With distinct names, looking a stored file's name up finds that file. *)
Lemma find_unique fs f :
  NoDup (map fe_name fs) → f ∈ fs → find (λ g, bool_decide (fe_name g = fe_name f)) fs = Some f.
Proof.
  induction fs as [|g fs IH]; [by intros _ ?%elem_of_nil|]. cbn [map find].
  intros [Hg Hnd]%NoDup_cons [->|Hf]%elem_of_cons; [by rewrite bool_decide_true|].
  rewrite bool_decide_false; [by apply IH|]. intros Heq. apply Hg. rewrite Heq.
  by apply (list_elem_of_fmap_2 fe_name).
Qed.

(** ** Lemmas: sorting *)

Lemma by_name_total a b : by_name a b = true ∨ by_name b a = true.
Proof. apply str_le_total. Qed.
Lemma by_name_trans a b c : by_name a b = true → by_name b c = true → by_name a c = true.
Proof. apply str_le_trans. Qed.

Lemma sort_names_unique fs fs' :
  NoDup (map fe_name fs) → fs ≡ₚ fs' → sort_by by_name fs = sort_by by_name fs'.
Proof.
  intros Hnd Hp. apply (sorted_perm_eq by_name).
  - intros x y Hx Hy Hxy Hyx. rewrite sort_by_perm in Hx, Hy.
    assert (fe_name x = fe_name y) as Heq by (by apply str_le_antisymm).
    pose proof (find_unique fs x Hnd Hx) as Fx. pose proof (find_unique fs y Hnd Hy) as Fy.
    rewrite Heq in Fx. congruence.
  - apply sort_by_sorted; [apply by_name_total|apply by_name_trans].
  - apply sort_by_sorted; [apply by_name_total|apply by_name_trans].
  - by rewrite !sort_by_perm.
Qed.

(** ** Lemmas: arbitrary input *)

(** What [try_from_bytes] proves of an entry. *)
Definition entry_ok (st d : list byte) (e : Pfs0FileEntry) : Prop :=
  0 ≤ entry_offset e ∧ 0 ≤ entry_size e ∧ entry_offset e + entry_size e ≤ len d ∧
  entry_offset e + entry_size e ≤ USIZE_MAX ∧
  0 ≤ entry_string_table_offset e ≤ len st ∧
  contains_byte (zdrop (entry_string_table_offset e) st) 0 = true.
Definition pfs0_ok (p : Pfs0) : Prop := Forall (entry_ok (p_string_table p) (p_data p)) (p_entries p).

Lemma wf_entry_nonneg (e : Pfs0FileEntry) :
  wf e → 0 ≤ entry_offset e ∧ 0 ≤ entry_size e ∧ 0 ≤ entry_string_table_offset e.
Proof. cbn. lia. Qed.

Lemma check_entries_safe i es st d :
  Forall wf es → safe (λ _, Forall (entry_ok st d) es) (check_entries i es st d).
Proof.
  intros Hwf. revert i. induction Hwf as [|e es He Hes IH]; intros i; cbn [check_entries]; [constructor|].
  apply wf_entry_nonneg in He as (? & ? & ?).
  eapply (safe_bind (λ _, entry_offset e + entry_size e ≤ USIZE_MAX ∧ entry_offset e + entry_size e ≤ len d)).
  { unfold check_file_bounds. eapply safe_bind.
    - apply safe_ok_or. intros x Hx%checked_add_inv. exact Hx.
    - intros x [-> ?]. eapply safe_mono; [apply safe_guard|]. cbn. intros _ Hg. zify_bool. lia. }
  intros ? [? ?].
  eapply (safe_bind (λ _, entry_string_table_offset e ≤ len st ∧
    contains_byte (zdrop (entry_string_table_offset e) st) 0 = true)).
  { unfold check_name_bounds. eapply safe_bind.
    - apply safe_ok_or. intros x Hx%get_from_inv. exact Hx.
    - intros x [? ->]. eapply safe_mono; [apply safe_guard|]. cbn. intros _ Hg. zify_bool.
      split; [lia|done]. }
  intros ? [? ?]. eapply safe_mono; [apply IH|]. intros ? Hall. constructor; [|done].
  by split_and!.
Qed.

Lemma try_from_bytes_safe `{Zerocopy} bytes : safe pfs0_ok (try_from_bytes bytes).
Proof.
  unfold try_from_bytes. safe_step [h r] Hr. apply ref_from_prefix_inv in Hr as (_ & Hwf & _).
  safe_step ? Hm. assert (0 ≤ pfs0_file_count h ∧ 0 ≤ pfs0_string_table_size h) as [? ?] by (cbn in Hwf; lia).
  safe_step [es r'] Hes. apply ref_from_prefix_with_elems_inv in Hes as (_ & Hes & _); [|done].
  safe_step st Hst. apply get_to_inv in Hst as [Hle ->]. rewrite get_from_ok by lia. bind_cbn.
  eapply safe_bind; [by apply check_entries_safe|]. intros ? Hall. exact Hall.
Qed.

(** A checked entry resolves, to exactly the bytes it records. *)
Lemma resolve_ok p e :
  entry_ok (p_string_table p) (p_data p) e →
  ∃ f, resolve p e = Some f ∧ len (data f) = entry_size e ∧
    get_range (p_data p) (entry_offset e) (entry_offset e + entry_size e) = Some (data f) ∧
    utf8_valid (name f) = true ∧ contains_byte (name f) 0 = false.
Proof.
  intros (? & ? & ? & ? & ? & Hnul). unfold resolve. rewrite get_from_ok by lia. bind_cbn.
  pose proof (nul_position_range (zdrop (entry_string_table_offset e) (p_string_table p))).
  rewrite get_to_ok by lia. bind_cbn. rewrite checked_add_ok by lia. bind_cbn.
  rewrite get_range_ok by lia. bind_cbn. eexists. split; [done|]. cbn [data name].
  split_and!; [|done|..].
  - replace (entry_offset e + entry_size e - entry_offset e) with (entry_size e) by lia.
    apply len_ztake. rewrite len_zdrop by lia. lia.
  - unfold utf8_or_empty. by case_match.
  - unfold utf8_or_empty. case_match; [|done]. apply contains_byte_before_nul.
Qed.

(** ** Properties *)

Section properties.
Context {ZC : Zerocopy}.

(** C14. A PFS0 archive reads back as it was built: for every builder whose names [add_file]
    accepts and whose sizes the format can express, [build] returns an archive that
    [try_from_bytes] accepts, whose files are the added ones in name order, and in which
    [file_by_name] finds every added file's bytes. *)
Theorem pfs0_round_trip fs :
  builder_ok fs → fits_format (sort_by by_name fs) →
  ∃ bytes p, build fs = Some bytes ∧ try_from_bytes bytes = Ok p ∧
    files p = Some (map stored_file (sort_by by_name fs)) ∧
    ∀ f, f ∈ fs → file_by_name p (fe_name f) = Some (Some (stored_file f)).
Proof.
  intros [Hok Hnd] Hfit. pose proof (sort_by_perm by_name fs) as Hperm.
  assert (Forall file_ok (sort_by by_name fs)) as Hok' by (by rewrite Hperm).
  pose proof (archive_resolves _ Hok' Hfit) as Hres.
  eexists _, _. split_and!; [by apply pfs0_build_spec|by apply read_build_bytes|by apply files_resolved|].
  intros f Hf. unfold file_by_name. rewrite (find_resolved _ _ _ _ Hres), (find_unique _ f); [done| |].
  - by rewrite Hperm.
  - by rewrite Hperm.
Qed.

(** The archive depends only on the set of files: adding the same files in another order
    builds the same bytes. *)
Theorem pfs0_build_deterministic fs fs' :
  builder_ok fs → fs ≡ₚ fs' → build fs = build fs'.
Proof. intros [_ Hnd] Hp. unfold build. by rewrite (sort_names_unique fs fs' Hnd Hp). Qed.

(** C36. Reading an untrusted PFS0 is safe: [try_from_bytes] never panics, and once it accepts a
    buffer every accessor is total: each entry the archive counts resolves to a file, with exactly
    the bytes of the data region its entry records and a NUL-free UTF-8 name, and no lookup by
    index or by name is out of bounds. *)
Theorem pfs0_reader_safe bytes :
  try_from_bytes bytes ≠ Panic ∧
  ∀ p, try_from_bytes bytes = Ok p →
    (∀ i e, index (p_entries p) i = Some e → ∃ f, file p i = Some (Some f) ∧
       get_range (p_data p) (entry_offset e) (entry_offset e + entry_size e) = Some (data f) ∧
       utf8_valid (name f) = true ∧ contains_byte (name f) 0 = false) ∧
    (∀ i, file p i ≠ None) ∧ (∃ l, files p = Some l ∧ len l = file_count p) ∧
    (∀ n, file_by_name p n ≠ None).
Proof.
  pose proof (try_from_bytes_safe bytes) as Hsafe. split; [by eapply safe_no_panic|].
  intros p Hp. pose proof (safe_ok _ _ _ Hsafe Hp) as Hall. unfold pfs0_ok in Hall.
  assert (∀ i e, index (p_entries p) i = Some e → entry_ok (p_string_table p) (p_data p) e) as Hidx.
  { intros i e. unfold index. case_match; [|done]. by apply Forall_lookup_1. }
  split_and!.
  - intros i e He. destruct (resolve_ok p e (Hidx _ _ He)) as (f & Hf & _ & ? & ? & ?).
    exists f. unfold file. rewrite He, Hf. by split_and!.
  - intros i. unfold file. destruct (index (p_entries p) i) as [e|] eqn:He; [|done].
    destruct (resolve_ok p e (Hidx _ _ He)) as (f & -> & _). done.
  - unfold files, file_count. clear Hp Hsafe Hidx. induction Hall as [|e es He _ (l & Hl & Hlen)].
    + by exists [].
    + destruct (resolve_ok p e He) as (f & Hf & _). exists (f :: l). cbn. rewrite Hf. cbn. rewrite Hl.
      split; [done|]. by rewrite !len_cons, Hlen.
  - intros n. unfold file_by_name. clear Hp Hsafe Hidx. induction Hall as [|e es He _ IH]; [done|].
    destruct (resolve_ok p e He) as (f & Hf & _). cbn. rewrite Hf. cbn. by case_decide.
Qed.
End properties.

(** [add_file] accepts exactly the names the format can hold and the archive does not have
    yet, appends the file, and keeps the builder well formed; every rejection names the first rule
    the name breaks. *)
Theorem add_file_spec fs n d :
  builder_ok fs → utf8_valid n = true →
  match add_file fs n d with
  | Ok fs' => fs' = fs ++ [{| fe_name := n; fe_data := d |}] ∧ builder_ok fs'
  | Err EmptyFileName => n = []
  | Err (InvalidFileNameNul m) => m = n ∧ n ≠ [] ∧ contains_byte n 0 = true
  | Err (InvalidFileNameSeparator m) => m = n ∧ n ≠ [] ∧ contains_byte n 0 = false ∧
      (contains_byte n 0x2F = true ∨ contains_byte n 0x5C = true)
  | Err (DuplicateFile m) => m = n ∧ n ∈ map fe_name fs
  | Panic => False
  end.
Proof.
  intros [Hok Hnd] Hutf. unfold add_file.
  destruct (Z.eqb_spec (len n) 0) as [H0|H0]; bind_cbn.
  { destruct n; [done|len_lia]. }
  assert (n ≠ []) as Hne by (by intros ->).
  destruct (contains_byte n 0) eqn:Hnul; bind_cbn; [done|].
  destruct (contains_byte n 0x2F) eqn:Hs1; cbn [orb]; bind_cbn; [by auto|].
  destruct (contains_byte n 0x5C) eqn:Hs2; bind_cbn; [by auto|].
  destruct (existsb _ fs) eqn:Hdup; bind_cbn.
  - split; [done|]. apply existsb_exists in Hdup as (f & Hf & Heq%bool_decide_eq_true).
    rewrite <-Heq. apply list_elem_of_fmap_2. by apply list_elem_of_In.
  - split; [done|]. split.
    + apply Forall_app. split; [done|]. constructor; [by split_and!|constructor].
    + rewrite map_app. apply NoDup_app. split_and!; [done| |apply NoDup_singleton].
      intros m Hm Hmn%list_elem_of_singleton. cbn in Hmn. subst m.
      apply list_elem_of_fmap in Hm as (f & Hfn & Hf). subst n.
      assert (existsb (λ g, bool_decide (fe_name g = fe_name f)) fs = true); [|congruence].
      apply existsb_exists. exists f. split; [by apply list_elem_of_In|by apply bool_decide_true].
Qed.

(** ** Witnesses *)

Definition sample_files : Pfs0Builder :=
  [{| fe_name := [x62]; fe_data := [x01; x02] |}; {| fe_name := [x61]; fe_data := [x03] |}].

Lemma sample_files_ok : builder_ok sample_files.
Proof.
  split; [repeat constructor; discriminate|]. apply (bool_decide_unpack _). vm_compute. exact I.
Qed.

Lemma sample_files_fit : fits_format (sort_by by_name sample_files).
Proof. vm_compute. repeat split; discriminate. Qed.

Lemma pfs0_round_trip_witness :
  ∃ bytes p, @build zerocopy_reference sample_files = Some bytes ∧
    @try_from_bytes zerocopy_reference bytes = Ok p ∧
    files p = Some (map stored_file (sort_by by_name sample_files)) ∧
    ∀ f, f ∈ sample_files → file_by_name p (fe_name f) = Some (Some (stored_file f)).
Proof. apply (@pfs0_round_trip zerocopy_reference sample_files sample_files_ok sample_files_fit). Defined.

Lemma pfs0_build_deterministic_witness :
  @build zerocopy_reference sample_files = @build zerocopy_reference (reverse sample_files).
Proof.
  apply (@pfs0_build_deterministic zerocopy_reference sample_files); [exact sample_files_ok|].
  cbn. constructor.
Defined.

Lemma add_file_spec_witness :
  match add_file sample_files [x63] [x04] with
  | Ok fs' => fs' = sample_files ++ [{| fe_name := [x63]; fe_data := [x04] |}] ∧ builder_ok fs'
  | Err EmptyFileName => [x63] = []
  | Err (InvalidFileNameNul m) => m = [x63] ∧ [x63] ≠ [] ∧ contains_byte [x63] 0 = true
  | Err (InvalidFileNameSeparator m) => m = [x63] ∧ [x63] ≠ [] ∧ contains_byte [x63] 0 = false ∧
      (contains_byte [x63] 0x2F = true ∨ contains_byte [x63] 0x5C = true)
  | Err (DuplicateFile m) => m = [x63] ∧ [x63] ∈ map fe_name sample_files
  | Panic => False
  end.
Proof. apply (add_file_spec sample_files [x63] [x04] sample_files_ok). reflexivity. Defined.

(** An archive of two files, as bytes. *)
Example sample_archive :
  @build zerocopy_reference sample_files
  = Some ([x50; x46; x53; x30; x02; x00; x00; x00; x20; x00; x00; x00; x00; x00; x00; x00] ++
          [x00; x00; x00; x00; x00; x00; x00; x00; x01; x00; x00; x00; x00; x00; x00; x00;
           x00; x00; x00; x00; x00; x00; x00; x00] ++
          [x01; x00; x00; x00; x00; x00; x00; x00; x02; x00; x00; x00; x00; x00; x00; x00;
           x02; x00; x00; x00; x00; x00; x00; x00] ++
          [x61; x00; x62; x00] ++ zeros 28 ++ [x03; x01; x02]).
Proof. vm_compute. reflexivity. Qed.
