(* ===== verification/Pfs0Directory.v ===== *)
(** * Archiving a directory: [write/pfs0.rs], [from_directory]

    The regular files directly inside a directory, sorted by name and handed to [add_file]. On a
    directory the file system lists without error, the result depends only on the set of files. *)

From S2P Require Import Prelude Bytes Strs Fs Layout Pfs0.
#[local] Open Scope Z_scope.

(** ** Definitions *)

Section scan.
Context {FS : FileSystem}.

Inductive FromDirectoryError :=
| Io (path : fs_path) (source : io_error)
| InvalidFileName (path : fs_path)
| AddFile (source : AddFileError).

(** One round of the loop that collects the entries; [continue] leaves [file_entries] as it is. *)
Definition scan_entry (file_entries : list (list byte * list byte)) (path : fs_path)
    (entry_result : io_error + OsEntry fs_path io_error) : outcome FromDirectoryError (list (list byte * list byte)) :=
  entry ← try_io (Io path) entry_result;
  let entry_path := os_path entry in
  metadata ← try_io (Io entry_path) (os_metadata entry);
  match metadata with
  | IsFile =>
    name ← ok_or (to_str (os_file_name entry)) (InvalidFileName entry_path);
    data ← try_io (Io entry_path) (fs_read entry_path);
    Ok (file_entries ++ [(name, data)])
  | _ => Ok file_entries
  end.

Fixpoint scan_entries (file_entries : list (list byte * list byte)) (path : fs_path)
    (entries : list (io_error + OsEntry fs_path io_error)) : outcome FromDirectoryError (list (list byte * list byte)) :=
  match entries with
  | [] => Ok file_entries
  | entry :: entries => file_entries ← scan_entry file_entries path entry; scan_entries file_entries path entries
  end.

(** The loop over the sorted files. *)
Fixpoint add_entries (builder : Pfs0Builder) (file_entries : list (list byte * list byte))
    : outcome AddFileError Pfs0Builder :=
  match file_entries with
  | [] => Ok builder
  | (name, data) :: file_entries => builder ← add_file builder name data; add_entries builder file_entries
  end.

(** [a.0.cmp(&b.0)]. *)
Definition by_entry_name (a b : list byte * list byte) : bool := str_le a.1 b.1.

Definition from_directory (path : fs_path) : outcome FromDirectoryError Pfs0Builder :=
  entries ← try_io (Io path) (fs_read_dir path);
  file_entries ← scan_entries [] path entries;
  map_err AddFile (add_entries Pfs0Builder_new (sort_by by_entry_name file_entries)).
End scan.

(** The regular files of a directory, in the order they are listed. *)
Definition regular_files (es : list (list byte * node)) : list (list byte * list byte) :=
  omap (λ e, match e.2 with NFile x => Some (e.1, x) | _ => None end) es.

(** A name of the file system that [add_file] takes as well. *)
Definition storable (n : list byte) : bool := negb (contains_byte n 0) && negb (contains_byte n 0x5C).
Definition to_entry (e : list byte * list byte) : FileEntry := {| fe_name := e.1; fe_data := e.2 |}.

(** ** Lemmas *)

Lemma contains_byte_elem l b : contains_byte l (b2z b) = true ↔ b ∈ l.
Proof.
  unfold contains_byte. rewrite existsb_exists. setoid_rewrite <-list_elem_of_In. split.
  - intros (c & Hc & He%Z.eqb_eq). by apply b2z_inj in He as <-.
  - intros Hb. exists b. by rewrite Z.eqb_refl.
Qed.

Lemma add_file_named fs n d :
  name_ok n → n ∉ map fe_name fs →
  add_file fs n d =
    if contains_byte n 0 then Err (InvalidFileNameNul n)
    else if contains_byte n 0x5C then Err (InvalidFileNameSeparator n) else Ok (fs ++ [to_entry (n, d)]).
Proof.
  intros (Hne & Hslash & _) Hn. unfold add_file.
  rewrite (proj2 (Z.eqb_neq (len n) 0)) by (destruct n; [done|len_lia]). bind_cbn.
  destruct (contains_byte n 0); [done|]. bind_cbn.
  assert (contains_byte n 0x2F = false) as ->.
  { apply not_true_is_false. by intros H%(contains_byte_elem n x2f). }
  cbn [orb]. destruct (contains_byte n 0x5C); [done|]. bind_cbn.
  assert (existsb (λ f, bool_decide (fe_name f = n)) fs = false) as ->; [|done].
  apply not_true_is_false. intros (f & Hf & Heq%bool_decide_eq_true)%existsb_exists.
  apply Hn. rewrite <-Heq. apply list_elem_of_fmap_2. by apply list_elem_of_In.
Qed.

(** Adding files of distinct names stops at the first that is not storable. *)
Lemma add_entries_spec l : ∀ fs,
  Forall (λ e, name_ok e.1) l → NoDup (map fe_name fs ++ l.*1) → builder_ok fs →
  match add_entries fs l with
  | Ok fs' => fs' = fs ++ map to_entry l ∧ Forall (λ e, storable e.1 = true) l ∧ builder_ok fs'
  | Err e => ∃ l1 n d l2, l = l1 ++ (n, d) :: l2 ∧ Forall (λ e, storable e.1 = true) l1 ∧ storable n = false ∧
      e = if contains_byte n 0 then InvalidFileNameNul n else InvalidFileNameSeparator n
  | Panic => False
  end.
Proof.
  induction l as [|[n d] l IH]; intros fs Hok Hnd Hfs; cbn [add_entries]; [by rewrite app_nil_r|].
  apply Forall_cons in Hok as [Hn Hok]. cbn in Hn, Hnd.
  assert (n ∉ map fe_name fs) as Hfresh.
  { intros Hin. apply NoDup_app in Hnd as (_ & Hdis & _). apply (Hdis n Hin). by left. }
  rewrite (add_file_named fs n d Hn Hfresh).
  destruct (contains_byte n 0) eqn:H0; [|destruct (contains_byte n 0x5C) eqn:H1]; bind_cbn.
  1-2: exists [], n, d, l; unfold storable; rewrite H0, ?H1; by split_and!.
  assert (storable n = true) as Hst by (unfold storable; by rewrite H0, H1).
  assert (builder_ok (fs ++ [to_entry (n, d)])) as Hfs'.
  { destruct Hfs as [Hf Hu]. destruct Hn as (Hne & Hslash & Hutf). split.
    - apply Forall_app. split; [done|]. constructor; [|constructor]. split_and!; [done|done|done| |done].
      apply not_true_is_false. by intros H%(contains_byte_elem n x2f).
    - rewrite map_app. apply NoDup_app. split_and!; [done| |apply NoDup_singleton].
      by intros x Hx ->%list_elem_of_singleton. }
  specialize (IH (fs ++ [to_entry (n, d)]) Hok).
  rewrite map_app, <-app_assoc in IH. specialize (IH Hnd Hfs').
  destruct (add_entries (fs ++ [to_entry (n, d)]) l) as [fs'|e|]; [| |done].
  - destruct IH as (-> & Hall & Hb). rewrite <-app_assoc in *. by split_and!; [|constructor|].
  - destruct IH as (l1 & n' & d' & l2 & -> & Hall & Hbad & ->). exists ((n, d) :: l1), n', d', l2.
    by split_and!; [|constructor| |].
Qed.

Section scan_lemmas.
Context {FS : FileSystem}.

Lemma scan_entries_spec path entries es : ∀ acc,
  Forall2 entry_on_disk entries es → Forall (λ e, name_ok e.1) es →
  scan_entries acc path (inr <$> entries) = Ok (acc ++ regular_files es).
Proof.
  intros acc Hd. revert acc. induction Hd as [|e [n c] entries es (Hname & _ & Hmeta & Hdisk) _ IH]; intros acc Hok.
  { by rewrite app_nil_r. }
  apply Forall_cons in Hok as [(_ & _ & Hutf) Hok]. cbn in Hname, Hmeta, Hdisk, Hutf.
  rewrite fmap_cons. cbn [scan_entries]. unfold scan_entry at 1. cbn [try_io]. bind_cbn. rewrite Hmeta. cbn [try_io]. bind_cbn.
  destruct c as [x|es'| |]; cbn [node_type]; bind_cbn; [|by apply IH..].
  unfold to_str. rewrite Hname, Hutf. bind_cbn. inversion Hdisk as [? ? Hread| | |]; subst. rewrite Hread.
  cbn [try_io]. bind_cbn. rewrite IH by done. by rewrite <-app_assoc.
Qed.
End scan_lemmas.

(** Sorting the scanned files is sorting the builder's entries. *)
Lemma sort_entries l : map to_entry (sort_by by_entry_name l) = sort_by by_name (map to_entry l).
Proof.
  assert (∀ e k, map to_entry (insert_by by_entry_name e k) = insert_by by_name (to_entry e) (map to_entry k)) as Hins.
  { intros e k. induction k as [|y k IH]; [done|]. cbn.
    unfold by_entry_name at 1. destruct (str_le e.1 y.1); [done|]. cbn [map]. by rewrite IH. }
  induction l as [|e l IH]; [done|]. cbn. rewrite Hins. unfold sort_by in IH. by rewrite IH.
Qed.

Lemma by_entry_name_sorted l : StronglySorted (λ a b, by_entry_name a b = true) (sort_by by_entry_name l).
Proof. apply sort_by_sorted; intros; [apply str_le_total|by eapply str_le_trans]. Qed.

Lemma sort_entries_again l : sort_by by_name (sort_by by_name l) = sort_by by_name l.
Proof. apply sort_by_id, sort_by_sorted; [apply by_name_total|apply by_name_trans]. Qed.

(** In a sorted list, what comes after the first that is not storable is not smaller. *)
Lemma first_unstorable l1 n d l2 n' :
  StronglySorted (λ a b, by_entry_name a b = true) (l1 ++ (n, d) :: l2) →
  Forall (λ e, storable e.1 = true) l1 → n' ∈ (l1 ++ (n, d) :: l2).*1 → storable n' = false → str_le n n' = true.
Proof.
  intros Hs Hall Hin Hbad. rewrite fmap_app in Hin. apply elem_of_app in Hin as [Hin|[->|Hin]%elem_of_cons].
  - apply list_elem_of_fmap in Hin as (e & -> & He). rewrite Forall_forall in Hall. specialize (Hall e He). congruence.
  - apply str_le_refl.
  - apply StronglySorted_app_1_r in Hs. inversion_clear Hs as [|? ? _ Hf].
    apply list_elem_of_fmap in Hin as (e & -> & He). rewrite Forall_forall in Hf. by apply Hf.
Qed.

Lemma regular_files_sub es e : e ∈ regular_files es → ∃ c, (e.1, c) ∈ es.
Proof.
  intros ([n c] & Hin & H)%list_elem_of_omap. destruct c; try done. injection H as <-. by eexists.
Qed.

Lemma regular_files_distinct es : NoDup es.*1 → NoDup (regular_files es).*1.
Proof.
  induction es as [|[n c] es IH]; [done|]. cbn. intros [Hn Hnd]%NoDup_cons.
  destruct c; cbn; try by apply IH. constructor; [|by apply IH].
  intros (e & -> & He)%list_elem_of_fmap. apply Hn. destruct (regular_files_sub es e He) as [c Hc].
  by apply (list_elem_of_fmap_2 fst) in Hc.
Qed.

(** ** Theorem *)

(** C15. Archiving a directory: of a directory the file system lists without error, [from_directory] keeps
    the regular files and skips the rest. If [add_file] takes all their names, the builder holds them
    in name order whatever the order of the listing, and the archive it builds reads back as them;
    otherwise the error is that of the least name it does not take. *)
Theorem pfs0_from_directory {ZC : Zerocopy} {FS : FileSystem} path es :
  node_ok (NDir es) → on_disk path (NDir es) →
  match from_directory path with
  | Ok b => Forall (λ e, storable e.1 = true) (regular_files es) ∧
      b = sort_by by_name (map to_entry (regular_files es)) ∧
      (fits_format b → ∃ bytes p, build b = Some bytes ∧ try_from_bytes bytes = Ok p ∧
         files p = Some (map stored_file b))
  | Err (AddFile e) => ∃ n, n ∈ (regular_files es).*1 ∧ storable n = false ∧
      (∀ n', n' ∈ (regular_files es).*1 → storable n' = false → str_le n n' = true) ∧
      e = if contains_byte n 0 then InvalidFileNameNul n else InvalidFileNameSeparator n
  | _ => False
  end.
Proof.
  intros Hok Hdisk. inversion Hok as [|? Hnd Hall| |]; subst. inversion Hdisk as [|? ? entries Hread Hents| |]; subst.
  assert (Forall (λ e : list byte * node, name_ok e.1) es) as Hnames by (eapply Forall_impl; [exact Hall|]; by intros ? []).
  unfold from_directory. rewrite Hread. cbn [try_io]. bind_cbn. rewrite (scan_entries_spec _ _ _ _ Hents Hnames). bind_cbn.
  cbn [app]. set (l := sort_by by_entry_name (regular_files es)).
  pose proof (sort_by_perm by_entry_name (regular_files es)) as Hp. fold l in Hp.
  assert (Forall (λ e, name_ok e.1) l) as Hl.
  { rewrite Hp. apply Forall_forall. intros e He. destruct (regular_files_sub es e He) as [c Hc].
    rewrite Forall_forall in Hnames. exact (Hnames _ Hc). }
  pose proof (add_entries_spec l Pfs0Builder_new Hl) as H. cbn [map app Pfs0Builder_new] in H.
  destruct (add_entries Pfs0Builder_new l) as [b|e|]; cbn [map_err].
  3: { apply H; [rewrite Hp; by apply regular_files_distinct|split; constructor]. }
  - destruct H as (-> & Hst & Hb); [rewrite Hp; by apply regular_files_distinct|split; constructor|].
    split; [by rewrite <-Hp|]. unfold l in *. rewrite sort_entries in *. split; [done|]. intros Hfit.
    rewrite <-sort_entries_again in Hfit. destruct Hb as [Hfok _]. eexists _, _.
    split_and!; [by apply pfs0_build_spec|rewrite sort_entries_again in *; by apply read_build_bytes|].
    rewrite sort_entries_again in *. apply files_resolved, archive_resolves; done.
  - destruct H as (l1 & n & d & l2 & Heq & Hst & Hbad & ->);
      [rewrite Hp; by apply regular_files_distinct|split; constructor|].
    exists n. split_and!; [|done| |done].
    + rewrite <-Hp, Heq, fmap_app. apply elem_of_app. right. by left.
    + intros n' Hn' Hbad'. rewrite <-Hp, Heq in Hn'. eapply first_unstorable; [|done|done|done].
      rewrite <-Heq. apply by_entry_name_sorted.
Qed.

(** Files in and out of order, a directory and a link; then a name with a backslash. *)
Definition sample_directory (bad : byte) : list (list byte * node) :=
  [([x62], NFile [x01; x02]); ([x64], NDir [([x65], NFile [x04])]); ([x61; bad], NFile [x03]); ([x63], NSymlink)].

Lemma sample_directory_ok bad : bad = x62 ∨ bad = x5c → node_ok (NDir (sample_directory bad)).
Proof.
  assert (∀ n, bool_decide (n ≠ [] ∧ x2f ∉ n ∧ utf8_valid n = true) = true → name_ok n) as Hname
    by (intros n; apply bool_decide_eq_true_1).
  intros Hbad. apply ok_dir; [apply (bool_decide_unpack _); destruct Hbad as [->| ->]; vm_compute; exact I|].
  repeat (apply Forall_cons; split; [split|]); try constructor; try (apply Hname; destruct Hbad as [->| ->]; vm_compute; reflexivity).
  - apply NoDup_singleton.
  - repeat constructor; apply Hname; vm_compute; reflexivity.
Qed.

Lemma pfs0_from_directory_witness :
  (∃ b bytes p, @from_directory (fs_reference (NDir (sample_directory x62))) [] = Ok b ∧
     @build zerocopy_reference b = Some bytes ∧ @try_from_bytes zerocopy_reference bytes = Ok p ∧
     files p = Some [{| name := [x61; x62]; data := [x03] |}; {| name := [x62]; data := [x01; x02] |}]) ∧
  (@from_directory (fs_reference (NDir (sample_directory x5c))) [] =
     Err (@AddFile (fs_reference _) (InvalidFileNameSeparator [x61; x5c])) ∧
   ∃ n, n ∈ (regular_files (sample_directory x5c)).*1 ∧ storable n = false).
Proof.
  pose proof (sample_directory_ok x62 (or_introl eq_refl)) as H1.
  pose proof (sample_directory_ok x5c (or_intror eq_refl)) as H2.
  split.
  - pose proof (@pfs0_from_directory zerocopy_reference (fs_reference _) [] _ H1 (reference_on_disk _ H1)) as (_ & _ & H).
    destruct H as (bytes & p & Hb & Ht & Hf); [vm_compute; repeat split; discriminate|].
    eexists _, bytes, p. split; [vm_compute; reflexivity|]. split; [exact Hb|]. split; [exact Ht|exact Hf].
  - pose proof (@pfs0_from_directory zerocopy_reference (fs_reference _) [] _ H2 (reference_on_disk _ H2)) as H.
    destruct H as (n & Hn & Hbad & _). split; [vm_compute; reflexivity|]. exists n. split; [exact Hn|exact Hbad].
Defined.
