(* ===== verification/Kip.v ===== *)
(** * KIP1 images: [raw/kip.rs], [read/kip.rs] and [write/kip.rs]

    The header and segment descriptors, the builder with its setters, and the validated reader.
    The segments are compressed through [BlzCodec], the promise of the BLZ codec, so the round
    trip here holds of any codec that keeps it. An [option] whose [None] is a panic is the result
    of an infallible function. *)

From S2P Require Import Prelude Bytes Strs Layout Blz BlzCodec BlzRoundTrip.
#[local] Open Scope Z_scope.

(** ** The structures *)

Definition KIP1_MAGIC : Z := 0x3150494b.

(** [raw::kip::Kip1Segment]. *)
Record RawKip1Segment := {
  dst_addr : Z;
  decomp_size : Z;
  comp_size : Z;
  attributes : Z;
}.
#[export] Instance RawKip1Segment_layout : Layout RawKip1Segment.
Proof.
  refine (L_struct (u32 ⊗ u32 ⊗ u32 ⊗ u32)%layout (λ '(a, b, c, d), Build_RawKip1Segment a b c d)
    (λ s, (dst_addr s, decomp_size s, comp_size s, attributes s)) _ _); solve_struct.
Defined.

Record Kip1Header := {
  kh_magic : Z;
  kh_name : list byte;
  kh_title_id : Z;
  kh_process_category : Z;
  kh_main_thread_priority : Z;
  kh_default_cpu_id : Z;
  kh_reserved : Z;
  kh_flags : Z;
  kh_segments : list RawKip1Segment;
  kh_capabilities : list byte;
}.
#[export] Instance Kip1Header_layout : Layout Kip1Header.
Proof.
  refine (L_struct (u32 ⊗ byte_array 12 ⊗ u64 ⊗ u32 ⊗ u8 ⊗ u8 ⊗ u8 ⊗ u8
                    ⊗ (RawKip1Segment_layout × 6) ⊗ byte_array 0x80)%layout
    (λ '(a, b, c, d, e, f, g, h, i, j), Build_Kip1Header a b c d e f g h i j)
    (λ k, (kh_magic k, kh_name k, kh_title_id k, kh_process_category k, kh_main_thread_priority k,
           kh_default_cpu_id k, kh_reserved k, kh_flags k, kh_segments k, kh_capabilities k)) _ _);
    solve_struct.
Defined.
#[export] Instance eta_Kip1Header : Eta Kip1Header := λ k,
  Build_Kip1Header (kh_magic k) (kh_name k) (kh_title_id k) (kh_process_category k)
    (kh_main_thread_priority k) (kh_default_cpu_id k) (kh_reserved k) (kh_flags k) (kh_segments k)
    (kh_capabilities k).

(** ** The builder *)

Record Kip1Builder := {
  kb_name : option (list byte);
  kb_title_id : Z;
  kb_process_category : Z;
  kb_main_thread_priority : Z;
  kb_default_cpu_id : Z;
  kb_flags : option Z;
  kb_text : option (list byte);
  kb_text_vaddr : Z;
  kb_rodata : option (list byte);
  kb_rodata_vaddr : Z;
  kb_rodata_attributes : Z;
  kb_data : option (list byte);
  kb_data_vaddr : Z;
  kb_bss_vaddr : option Z;
  kb_bss_size : option Z;
  kb_kernel_capabilities : list Z;
}.
#[export] Instance eta_Kip1Builder : Eta Kip1Builder := λ b,
  Build_Kip1Builder (kb_name b) (kb_title_id b) (kb_process_category b) (kb_main_thread_priority b)
    (kb_default_cpu_id b) (kb_flags b) (kb_text b) (kb_text_vaddr b) (kb_rodata b)
    (kb_rodata_vaddr b) (kb_rodata_attributes b) (kb_data b) (kb_data_vaddr b) (kb_bss_vaddr b)
    (kb_bss_size b) (kb_kernel_capabilities b).

Definition Kip1Builder_new : Kip1Builder :=
  {| kb_name := None; kb_title_id := 0; kb_process_category := 0; kb_main_thread_priority := 0;
     kb_default_cpu_id := 0; kb_flags := None; kb_text := None; kb_text_vaddr := 0;
     kb_rodata := None; kb_rodata_vaddr := 0; kb_rodata_attributes := 0; kb_data := None;
     kb_data_vaddr := 0; kb_bss_vaddr := None; kb_bss_size := None; kb_kernel_capabilities := [] |}.

Definition kip_name (b : Kip1Builder) (name : list byte) := b <| kb_name := Some name |>.
Definition kip_title_id (b : Kip1Builder) (id : Z) := b <| kb_title_id := id |>.
Definition kip_process_category (b : Kip1Builder) (c : Z) := b <| kb_process_category := c |>.
Definition kip_main_thread_priority (b : Kip1Builder) (p : Z) := b <| kb_main_thread_priority := p |>.
Definition kip_default_cpu_id (b : Kip1Builder) (cpu : Z) := b <| kb_default_cpu_id := cpu |>.
Definition kip_flags (b : Kip1Builder) (flags : Z) := b <| kb_flags := Some flags |>.
Definition kip_text (b : Kip1Builder) (data : list byte) := b <| kb_text := Some data |>.
Definition kip_text_vaddr (b : Kip1Builder) (vaddr : Z) := b <| kb_text_vaddr := vaddr |>.
Definition kip_rodata (b : Kip1Builder) (data : list byte) := b <| kb_rodata := Some data |>.
Definition kip_rodata_vaddr (b : Kip1Builder) (vaddr : Z) := b <| kb_rodata_vaddr := vaddr |>.
Definition kip_rodata_attributes (b : Kip1Builder) (a : Z) := b <| kb_rodata_attributes := a |>.
Definition kip_data (b : Kip1Builder) (data : list byte) := b <| kb_data := Some data |>.
Definition kip_data_vaddr (b : Kip1Builder) (vaddr : Z) := b <| kb_data_vaddr := vaddr |>.
Definition kip_bss_vaddr (b : Kip1Builder) (vaddr : Z) := b <| kb_bss_vaddr := Some vaddr |>.
Definition kip_bss_size (b : Kip1Builder) (size : Z) := b <| kb_bss_size := Some size |>.
Definition kip_kernel_capabilities (b : Kip1Builder) (caps : list Z) :=
  b <| kb_kernel_capabilities := kb_kernel_capabilities b ++ caps |>.

Inductive BuildError :=
| MissingName
| MissingText
| MissingRodata
| MissingData
| IncompleteBssConfiguration (has_vaddr has_size : bool)
| TooManyKernelCapabilities (count : Z).

(** The loop over the capabilities, from index [i]. *)
Fixpoint write_capabilities (caps : list Z) (i : Z) (bytes : list byte) : option (list byte) :=
  match caps with
  | [] => Some bytes
  | cap :: caps =>
    let offset := i * 4 in
    bytes ← copy_from_slice bytes offset (offset + 4) (le_bytes 4 cap);
    write_capabilities caps (i + 1) bytes
  end.

(** [bss_vaddr] and [bss_size] are set together or not at all. *)
Definition check_bss (vaddr size : option Z) : outcome BuildError unit :=
  match vaddr, size with
  | Some _, None => Err (IncompleteBssConfiguration true false)
  | None, Some _ => Err (IncompleteBssConfiguration false true)
  | _, _ => Ok tt
  end.

Section build.
Context `{ZC : Zerocopy} `{BC : BlzCodec}.

(** The header for compressed segments of these lengths. [None] is a panic. *)
Definition build_header (b : Kip1Builder) (name : list byte) (flags : Z)
    (text_len text_comp rodata_len rodata_comp data_len data_comp : Z) : option Kip1Header :=
  let header := new_zeroed Kip1Header in
  let header := header <| kh_magic := KIP1_MAGIC |> in
  let name_bytes := vec_resize (ztake 11 name) 12 x00 in
  name_field ← copy_from_slice (kh_name header) 0 (len (kh_name header)) name_bytes;
  let header := header <| kh_name := name_field |> <| kh_title_id := kb_title_id b |>
    <| kh_process_category := kb_process_category b |>
    <| kh_main_thread_priority := kb_main_thread_priority b |>
    <| kh_default_cpu_id := kb_default_cpu_id b |> <| kh_flags := flags |> in
  segments ← set_index (kh_segments header) 0
    {| dst_addr := kb_text_vaddr b; decomp_size := as_u32 text_len; comp_size := as_u32 text_comp;
       attributes := 0 |};
  segments ← set_index segments 1
    {| dst_addr := kb_rodata_vaddr b; decomp_size := as_u32 rodata_len;
       comp_size := as_u32 rodata_comp; attributes := kb_rodata_attributes b |};
  segments ← set_index segments 2
    {| dst_addr := kb_data_vaddr b; decomp_size := as_u32 data_len; comp_size := as_u32 data_comp;
       attributes := 0 |};
  segments ←
    match kb_bss_vaddr b, kb_bss_size b with
    | Some bss_vaddr, Some bss_size =>
      set_index segments 3
        {| dst_addr := bss_vaddr; decomp_size := bss_size; comp_size := 0; attributes := 0 |}
    | _, _ => Some segments
    end;
  cap_bytes ← write_capabilities (kb_kernel_capabilities b) 0 (zrep 0x80 xff);
  caps ← copy_from_slice (kh_capabilities header) 0 (len (kh_capabilities header)) cap_bytes;
  Some (header <| kh_segments := segments |> <| kh_capabilities := caps |>).

Definition build (b : Kip1Builder) : outcome BuildError (list byte) :=
  name ← ok_or (kb_name b) MissingName;
  text ← ok_or (kb_text b) MissingText;
  rodata ← ok_or (kb_rodata b) MissingRodata;
  data ← ok_or (kb_data b) MissingData;
  _ ← check_bss (kb_bss_vaddr b) (kb_bss_size b);
  _ ← guard_err (0x20 <? len (kb_kernel_capabilities b))
        (TooManyKernelCapabilities (len (kb_kernel_capabilities b)));
  text_compressed ← or_panic (blz_compress text);
  rodata_compressed ← or_panic (blz_compress rodata);
  data_compressed ← or_panic (blz_compress data);
  let flags := default 0x3F (kb_flags b) in
  header ← or_panic (build_header b name flags (len text) (len text_compressed)
    (len rodata) (len rodata_compressed) (len data) (len data_compressed));
  let header_bytes := as_bytes header in
  _ ← or_panic (checked_sum [len header_bytes; len text_compressed; len rodata_compressed;
                             len data_compressed]);
  Ok (header_bytes ++ text_compressed ++ rodata_compressed ++ data_compressed).
End build.

(** ** The reader *)

Definition LOADED_SEGMENT_COUNT : Z := 4.
Definition BSS_INDEX : Z := 3.

Record Kip1 := {
  k_header : Kip1Header;
  k_bytes : list byte;
}.

(** [read::kip::Kip1Segment]. *)
Record Kip1Segment := {
  seg_index : Z;
  descriptor : RawKip1Segment;
  compressed : bool;
  stored : list byte;
}.

Inductive FromBytesError :=
| BufferTooSmall (required available : Z)
| InvalidMagic (found : Z)
| SegmentBoundsOverflow (segment_index offset size : Z)
| SegmentOutOfBounds (segment_index offset size available : Z).

Record SegmentDecompressError := {
  segment_index : Z;
  source : Blz.DecompressError;
}.

Definition stored_size (header : Kip1Header) (i : Z) : option Z :=
  if i =? BSS_INDEX then Some 0 else
  s ← index (kh_segments header) i; Some (comp_size s).

Definition is_compressed (header : Kip1Header) (i : Z) : bool :=
  if BSS_INDEX <=? i then false else negb (Z.land (kh_flags header) (Z.shiftl 1 i) =? 0).

(** The loop of [try_from_bytes]: [n] segments from [i]. *)
Fixpoint check_segments (n : nat) (i : Z) (header : Kip1Header) (available offset : Z)
    : outcome FromBytesError unit :=
  match n with
  | O => Ok tt
  | S n =>
    stored ← or_panic (stored_size header i);
    end_ ← ok_or (checked_add offset stored) (SegmentBoundsOverflow i offset stored);
    _ ← guard_err (available <? end_) (SegmentOutOfBounds i offset stored available);
    check_segments n (i + 1) header available end_
  end.

Definition try_from_bytes `{Zerocopy} (bytes : list byte) : outcome FromBytesError Kip1 :=
  '(header, _) ← ok_or (ref_from_prefix Kip1Header bytes)
    (BufferTooSmall (size_of Kip1Header) (len bytes));
  _ ← guard_err (negb (kh_magic header =? KIP1_MAGIC)) (InvalidMagic (kh_magic header));
  _ ← check_segments (Z.to_nat LOADED_SEGMENT_COUNT) 0 header (len bytes) (size_of Kip1Header);
  Ok {| k_header := header; k_bytes := bytes |}.

(** [None] is a panic. *)
Definition name (k : Kip1) : option (list byte) :=
  let name := kh_name (k_header k) in
  let end_ := nul_position name in
  n ← get_to name end_;
  Some (utf8_or_empty n).

Definition title_id (k : Kip1) : Z := kh_title_id (k_header k).

(** The offset of segment [before + n], summing the stored sizes before it. *)
Fixpoint segment_offset (n : nat) (before : Z) (header : Kip1Header) (offset : Z) : option Z :=
  match n with
  | O => Some offset
  | S n =>
    size ← stored_size header before;
    offset ← checked_add offset size;
    segment_offset n (before + 1) header offset
  end.

(** The outer [option] is a panic, the inner one the function's own. *)
Definition segment (k : Kip1) (i : Z) : option (option Kip1Segment) :=
  if LOADED_SEGMENT_COUNT <=? i then Some None else
  offset ← segment_offset (Z.to_nat i) 0 (k_header k) (size_of Kip1Header);
  stored ← stored_size (k_header k) i;
  d ← index (kh_segments (k_header k)) i;
  end_ ← checked_add offset stored;
  bytes ← get_range (k_bytes k) offset end_;
  Some (Some {| seg_index := i; descriptor := d; compressed := is_compressed (k_header k) i;
                stored := bytes |}).

Definition segments (k : Kip1) : option (list Kip1Segment) :=
  segs ← mapM (segment k) [0; 1; 2; 3];
  Some (omap id segs).

Definition decompressed_size (s : Kip1Segment) : Z := decomp_size (descriptor s).

Definition segment_decompress `{BlzCodec} (s : Kip1Segment) : outcome SegmentDecompressError (list byte) :=
  if negb (compressed s) then Ok (stored s) else
  map_err (λ err, {| segment_index := seg_index s; source := err |})
    (blz_decompress (stored s) (decompressed_size s)).

(** ** What the image holds, abstractly *)

(** The builder's fields are values of their Rust types. *)
Definition builder_wf (b : Kip1Builder) : Prop :=
  is_u64 (kb_title_id b) ∧ is_u32 (kb_process_category b) ∧ is_u8 (kb_main_thread_priority b) ∧
  is_u8 (kb_default_cpu_id b) ∧ is_u8 (default 0x3F (kb_flags b)) ∧ is_u32 (kb_text_vaddr b) ∧
  is_u32 (kb_rodata_vaddr b) ∧ is_u32 (kb_rodata_attributes b) ∧ is_u32 (kb_data_vaddr b) ∧
  is_u32 (default 0 (kb_bss_vaddr b)) ∧ is_u32 (default 0 (kb_bss_size b)).

(** What [build] requires. *)
Definition bss_consistent (b : Kip1Builder) : Prop := is_Some (kb_bss_vaddr b) ↔ is_Some (kb_bss_size b).
Definition complete (b : Kip1Builder) : Prop :=
  is_Some (kb_name b) ∧ is_Some (kb_text b) ∧ is_Some (kb_rodata b) ∧ is_Some (kb_data b) ∧
  bss_consistent b ∧ len (kb_kernel_capabilities b) ≤ 0x20.

(** A segment BLZ can index and whose packed length a [u32] holds. *)
Definition segment_fits (l : list byte) : Prop := len l + 7 < NONE.

Definition stored_name (name : list byte) : list byte := vec_resize (ztake 11 name) 12 x00.
Definition c_str (l : list byte) : list byte := ztake (nul_position l) l.

Definition header_of (b : Kip1Builder) (name : list byte) (flags tl tc rl rc dl dc : Z) : Kip1Header :=
  {| kh_magic := KIP1_MAGIC; kh_name := stored_name name; kh_title_id := kb_title_id b;
     kh_process_category := kb_process_category b;
     kh_main_thread_priority := kb_main_thread_priority b;
     kh_default_cpu_id := kb_default_cpu_id b; kh_reserved := 0; kh_flags := flags;
     kh_segments :=
       [Build_RawKip1Segment (kb_text_vaddr b) tl tc 0;
        Build_RawKip1Segment (kb_rodata_vaddr b) rl rc (kb_rodata_attributes b);
        Build_RawKip1Segment (kb_data_vaddr b) dl dc 0;
        Build_RawKip1Segment (default 0 (kb_bss_vaddr b)) (default 0 (kb_bss_size b)) 0 0;
        Build_RawKip1Segment 0 0 0 0; Build_RawKip1Segment 0 0 0 0];
     kh_capabilities :=
       concat (map (le_bytes 4) (kb_kernel_capabilities b))
         ++ zrep (0x80 - 4 * len (kb_kernel_capabilities b)) xff |}.

(** ** Lemmas: the builder *)

Lemma len_vec_resize {A} (l : list A) n x : 0 ≤ n → len (vec_resize l n x) = n.
Proof. intros. unfold vec_resize. rewrite len_app, len_ztake_min, len_zrep_max by done. lia. Qed.

Lemma len_caps (caps : list Z) : len (concat (map (le_bytes 4) caps)) = 4 * len caps.
Proof.
  induction caps as [|c caps IH]; [done|]. cbn [map concat]. rewrite len_app, IH, len_cons, len_le_bytes. lia.
Qed.

Lemma write_capabilities_spec caps i (C : list byte) n :
  len C = 4 * i → 4 * len caps ≤ n →
  write_capabilities caps i (C ++ zrep n xff)
    = Some (C ++ concat (map (le_bytes 4) caps) ++ zrep (n - 4 * len caps) xff).
Proof.
  revert i C n. induction caps as [|c caps IH]; intros i C n HC Hn; cbn [write_capabilities].
  { cbn. by rewrite Z.sub_0_r. }
  rewrite len_cons in *. pose proof (len_nonneg caps).
  replace n with (4 + (n - 4)) at 1 by lia. rewrite zrep_add by lia.
  rewrite (copy_from_slice_mid C _ (le_bytes 4 c)) by (rewrite ?len_le_bytes, ?len_zrep; lia).
  bind_cbn. rewrite app_assoc. rewrite IH by (rewrite ?len_app, ?len_le_bytes; lia).
  cbn [map concat]. rewrite <-!app_assoc. do 5 f_equal. lia.
Qed.

Section build_lemmas.
Context `{ZC : Zerocopy} `{BC : BlzCodec}.

Lemma new_zeroed_header :
  new_zeroed Kip1Header
  = {| kh_magic := 0; kh_name := zeros 12; kh_title_id := 0; kh_process_category := 0;
       kh_main_thread_priority := 0; kh_default_cpu_id := 0; kh_reserved := 0; kh_flags := 0;
       kh_segments := replicate 6 (Build_RawKip1Segment 0 0 0 0); kh_capabilities := zeros 0x80 |}.
Proof. rewrite new_zeroed_spec. vm_compute. reflexivity. Qed.

Lemma build_header_spec b name flags tl tc rl rc dl dc :
  len (kb_kernel_capabilities b) ≤ 0x20 → bss_consistent b →
  is_u32 tl → is_u32 tc → is_u32 rl → is_u32 rc → is_u32 dl → is_u32 dc →
  build_header b name flags tl tc rl rc dl dc = Some (header_of b name flags tl tc rl rc dl dc).
Proof.
  intros Hcaps Hbss Htl Htc Hrl Hrc Hdl Hdc. unfold build_header. rewrite new_zeroed_header.
  cbn [set_field kh_name kh_segments kh_capabilities].
  rewrite <-(app_nil_r (zeros 12)), copy_from_slice_start.
  2:{ done. }
  2:{ by rewrite len_vec_resize. }
  bind_cbn. rewrite !as_u32_small by done. cbn [replicate].
  do 3 (rewrite set_index_ok by (unfold len; rewrite ?length_insert; cbn; lia); bind_cbn).
  pose proof (write_capabilities_spec (kb_kernel_capabilities b) 0 [] 0x80) as Hw. cbn [app] in Hw.
  destruct Hbss as [Hb1 Hb2]. 
  destruct (kb_bss_vaddr b) as [va|] eqn:Hva, (kb_bss_size b) as [sz|] eqn:Hsz;
    [|by destruct Hb1|by destruct Hb2|].
  - rewrite set_index_ok by (unfold len; rewrite ?length_insert; cbn; lia). bind_cbn. rewrite Hw by (done || lia). bind_cbn.
    rewrite <-(app_nil_r (zeros 0x80)), copy_from_slice_start.
    2:{ done. }
    2:{ rewrite len_app, len_caps, len_zrep by lia. rewrite len_zeros; lia. }
    bind_cbn. unfold header_of. rewrite Hva, Hsz, !app_nil_r. done.
  - bind_cbn. rewrite Hw by (done || lia). bind_cbn.
    rewrite <-(app_nil_r (zeros 0x80)), copy_from_slice_start.
    2:{ done. }
    2:{ rewrite len_app, len_caps, len_zrep by lia. rewrite len_zeros; lia. }
    bind_cbn. unfold header_of. rewrite Hva, Hsz, !app_nil_r. done.
Qed.

Lemma wf_kip_header_of b name flags tl tc rl rc dl dc :
  builder_wf b → flags = default 0x3F (kb_flags b) → len (kb_kernel_capabilities b) ≤ 0x20 →
  is_u32 tl → is_u32 tc → is_u32 rl → is_u32 rc → is_u32 dl → is_u32 dc →
  wf (header_of b name flags tl tc rl rc dl dc).
Proof.
  intros (? & ? & ? & ? & ? & ? & ? & ? & ? & ? & ?) -> Hcaps ??????. cbn.
  change (256 ^ 4) with 0x100000000. change (256 ^ 8) with 0x10000000000000000.
  change (256 ^ 1) with 0x100. unfold KIP1_MAGIC.
  split_and!; try mlia; try done.
  - by apply len_vec_resize.
  - repeat constructor; cbn; mlia.
  - rewrite len_app, len_caps, len_zrep by lia. lia.
Qed.

(** The image: a header describing three compressed segments, and the segments. *)
Lemma kip_build_spec b name text rodata data :
  builder_wf b → complete b → kb_name b = Some name → kb_text b = Some text →
  kb_rodata b = Some rodata → kb_data b = Some data →
  segment_fits text → segment_fits rodata → segment_fits data →
  ∃ tc rc dc,
    blz_compress text = Some tc ∧ blz_compress rodata = Some rc ∧ blz_compress data = Some dc ∧
    let h := header_of b name (default 0x3F (kb_flags b)) (len text) (len tc) (len rodata) (len rc)
               (len data) (len dc) in
    wf h ∧ len tc ≤ U32_MAX ∧ len rc ≤ U32_MAX ∧ len dc ≤ U32_MAX ∧
    build b = Ok (as_bytes h ++ tc ++ rc ++ dc).
Proof.
  intros Hwf (_ & _ & _ & _ & Hbss & Hcaps) Hn Ht Hr Hd Hft Hfr Hfd. unfold segment_fits, NONE in *.
  destruct (blz_round_trip text) as (tc & Htc & _); [unfold NONE; lia|].
  destruct (blz_round_trip rodata) as (rc & Hrc & _); [unfold NONE; lia|].
  destruct (blz_round_trip data) as (dc & Hdc & _); [unfold NONE; lia|].
  exists tc, rc, dc. do 3 (split; [done|]). set (h := header_of _ _ _ _ _ _ _ _ _). cbv zeta.
  pose proof (blz_compress_len _ _ Htc). pose proof (blz_compress_len _ _ Hrc).
  pose proof (blz_compress_len _ _ Hdc).
  pose proof (len_nonneg tc). pose proof (len_nonneg rc). pose proof (len_nonneg dc).
  pose proof (len_nonneg text). pose proof (len_nonneg rodata). pose proof (len_nonneg data).
  assert (wf h) as Hh by (apply wf_kip_header_of; unfold is_u32; done || lia).
  split_and!; [done|lia..|]. unfold build. rewrite Hn, Ht, Hr, Hd. bind_cbn.
  replace (check_bss _ _) with (Ok (E:=BuildError) tt).
  2:{ destruct Hbss as [Hb1 Hb2]. destruct (kb_bss_vaddr b), (kb_bss_size b); try done.
      - by destruct Hb1.
      - by destruct Hb2. }
  bind_cbn. rewrite (proj2 (Z.ltb_ge _ _)) by done. bind_cbn. rewrite Htc, Hrc, Hdc. bind_cbn.
  rewrite build_header_spec by (unfold is_u32; done || lia). bind_cbn. fold h.
  pose proof (len_as_bytes h Hh) as Hlh. change (size_of Kip1Header) with 0x100 in Hlh.
  rewrite checked_sum_ok; [done|repeat constructor; apply len_nonneg|].
  cbn [zsum foldr]. unfold_max. lia.
Qed.
End build_lemmas.

(** ** Lemmas: the reader *)

(** The bytes before segment [n], and the segments' bounds, for stored sizes [sz]. *)
Definition stored_sizes (h : Kip1Header) (sz : list Z) : Prop :=
  ∀ i, 0 ≤ i < 4 → ∃ n, stored_size h i = Some n ∧ index sz i = Some n ∧ 0 ≤ n.

Lemma stored_sizes_of b name flags tl tc rl rc dl dc :
  0 ≤ tc → 0 ≤ rc → 0 ≤ dc →
  stored_sizes (header_of b name flags tl tc rl rc dl dc) [tc; rc; dc; 0].
Proof.
  intros ??? i Hi. assert (i = 0 ∨ i = 1 ∨ i = 2 ∨ i = 3) as [-> | [-> | [-> | ->]]] by lia;
    eexists; split_and!; try reflexivity; done.
Qed.

Lemma kip_check_segments_safe n i h avail offset :
  length (kh_segments h) = 6%nat → Forall wf (kh_segments h) → 0 ≤ i → i + Z.of_nat n ≤ 4 → 0 ≤ offset →
  safe (λ _, ∃ e, segment_offset n i h offset = Some e ∧ offset ≤ e ∧ (n ≠ 0%nat → e ≤ avail ∧ e ≤ USIZE_MAX) ∧
    ∀ m, (m ≤ n)%nat → ∃ o, segment_offset m i h offset = Some o ∧ offset ≤ o ≤ e)
    (check_segments n i h avail offset).
Proof.
  intros Hlen Hwf. revert i offset. induction n as [|n IH]; intros i offset Hi Hn Ho; cbn [check_segments].
  { exists offset. split_and!; [done|lia|done|]. intros [|m] ?; [|lia]. exists offset. split; [done|lia]. }
  assert (∃ sz, stored_size h i = Some sz ∧ 0 ≤ sz) as (sz & Hsz & Hsz0).
  { unfold stored_size. case_match; [by eexists|].
    destruct (index_in_range (kh_segments h) i) as [s Hs]; [unfold len; lia|]. rewrite Hs. cbn.
    eexists. split; [done|]. unfold index in Hs. rewrite (proj2 (Z.leb_le _ _)) in Hs by lia.
    eapply Forall_lookup_1 in Hs; [|exact Hwf]. cbn in Hs. lia. }
  rewrite Hsz. bind_cbn. safe_step e He. apply checked_add_inv in He as [-> Hmax].
  safe_step ? Hav. eapply safe_mono; [apply (IH (i + 1) (offset + sz)); lia|].
  intros _ (e & He & Hle & Hend & Hall). exists e.
  assert (∀ m, segment_offset (S m) i h offset = segment_offset m (i + 1) h (offset + sz)) as Hstep.
  { intros m. cbn [segment_offset]. rewrite Hsz. bind_cbn. by rewrite checked_add_ok. }
  rewrite Hstep. split_and!; [done|lia| |].
  - intros _. destruct n; [|by apply Hend]. cbn in He. injection He as <-. lia.
  - intros [|m] Hm; [exists offset; split; [done|lia]|]. rewrite Hstep.
    destruct (Hall m ltac:(lia)) as (o & -> & ?). exists o. split; [done|lia].
Qed.

Lemma segment_offset_S m i h o :
  segment_offset (S m) i h o
    = o' ← segment_offset m i h o; sz ← stored_size h (i + Z.of_nat m); checked_add o' sz.
Proof.
  revert i o. induction m as [|m IH]; intros i o.
  { cbn [segment_offset]. rewrite Z.add_0_r. cbn.
    destruct (stored_size h i) as [sz|]; [|done]. cbn. by destruct (checked_add o sz). }
  change (segment_offset (S (S m)) i h o)
    with (size ← stored_size h i; o ← checked_add o size; segment_offset (S m) (i + 1) h o).
  change (segment_offset (S m) i h o)
    with (size ← stored_size h i; o ← checked_add o size; segment_offset m (i + 1) h o).
  destruct (stored_size h i) as [sz|]; [|done]. bind_cbn.
  destruct (checked_add o sz) as [o'|]; [|done]. bind_cbn. rewrite IH.
  by replace (i + 1 + Z.of_nat m) with (i + Z.of_nat (S m)) by lia.
Qed.

(** What [try_from_bytes] proves of an image. *)
Definition kip_ok (k : Kip1) : Prop :=
  length (kh_segments (k_header k)) = 6%nat ∧ length (kh_name (k_header k)) = 12%nat ∧
  Forall wf (kh_segments (k_header k)) ∧
  ∃ e, e ≤ len (k_bytes k) ∧ ∀ m, (m ≤ 4)%nat →
    ∃ o, segment_offset m 0 (k_header k) (size_of Kip1Header) = Some o ∧ 0 ≤ o ≤ e.

Lemma wf_kip_header h :
  wf h → length (kh_segments h) = 6%nat ∧ length (kh_name h) = 12%nat ∧ Forall wf (kh_segments h).
Proof.
  cbn. change (len ?l = 12) with (Z.of_nat (length l) = 12). intros H. destruct_and? H.
  split_and!; [done|lia|done].
Qed.

Lemma try_from_bytes_kip_safe `{Zerocopy} bytes : safe kip_ok (try_from_bytes bytes).
Proof.
  unfold try_from_bytes. safe_step [h r] Hr.
  apply ref_from_prefix_inv in Hr as (_ & Hwf & _). apply wf_kip_header in Hwf as (Hlen & Hname & Hsegs).
  safe_step ? Hm. eapply safe_bind.
  { apply (kip_check_segments_safe 4); [done|done|lia|done|done]. }
  intros ? (e & He & Hle & Hend & Hall). cbn. split_and!; [done|done|done|].
  exists e. split; [by apply Hend|]. intros m Hm4. destruct (Hall m Hm4) as (o & Ho & ?).
  exists o. split; [exact Ho|]. change (size_of Kip1Header) with 256 in *. lia.
Qed.

(** Where a segment lies: behind the header and the stored bytes of the segments before it. *)
Definition segment_start (h : Kip1Header) (i : Z) : Z :=
  0x100 + zsum (map comp_size (take (Z.to_nat i) (kh_segments h))).
Definition segment_length (h : Kip1Header) (d : RawKip1Segment) (i : Z) : Z :=
  if i =? BSS_INDEX then 0 else comp_size d.

Lemma segment_offset_start m h o :
  (m ≤ 3)%nat → segment_offset m 0 h (size_of Kip1Header) = Some o → o = segment_start h (Z.of_nat m).
Proof.
  unfold segment_start. rewrite Nat2Z.id. change (size_of Kip1Header) with 0x100.
  revert o. induction m as [|m IH]; intros o Hm Ho; [by injection Ho as <-|].
  rewrite segment_offset_S, Z.add_0_l in Ho. apply bind_Some in Ho as (o' & Ho' & Ho).
  apply bind_Some in Ho as (n & Hn & Ho). apply checked_add_inv in Ho as [-> _].
  apply IH in Ho'; [|lia]. subst o'. unfold stored_size in Hn.
  rewrite (proj2 (Z.eqb_neq _ _)) in Hn by (unfold BSS_INDEX; lia).
  apply bind_Some in Hn as (d & Hd & [= <-]). unfold index in Hd.
  rewrite (proj2 (Z.leb_le _ _)), Nat2Z.id in Hd by lia.
  rewrite (take_S_r _ _ _ Hd), map_app, zsum_app. cbn. lia.
Qed.

Lemma kip_segment_ok k i :
  kip_ok k → 0 ≤ i < 4 → ∃ s, segment k i = Some (Some s) ∧ seg_index s = i ∧
    index (kh_segments (k_header k)) i = Some (descriptor s) ∧ compressed s = is_compressed (k_header k) i ∧
    let start := segment_start (k_header k) i in
    get_range (k_bytes k) start (start + segment_length (k_header k) (descriptor s) i) = Some (stored s).
Proof.
  intros (Hlen & _ & Hwf & e & He & Hall) Hi. unfold segment.
  rewrite (proj2 (Z.leb_gt _ _)) by (unfold LOADED_SEGMENT_COUNT; lia).
  destruct (Hall (Z.to_nat i)) as (o & Ho & Hor); [lia|].
  destruct (Hall (S (Z.to_nat i))) as (o' & Ho' & Hor'); [lia|].
  rewrite segment_offset_S, Ho in Ho'. apply bind_Some in Ho' as (? & [= <-] & Ho').
  apply bind_Some in Ho' as (n & Hn & Hadd).
  rewrite Z2Nat.id, Z.add_0_l in Hn by lia. apply checked_add_inv in Hadd as [-> Hmax].
  rewrite Ho, Hn. bind_cbn. apply segment_offset_start in Ho; [|lia]. rewrite Z2Nat.id in Ho by lia. subst o.
  destruct (index_in_range (kh_segments (k_header k)) i) as [d Hd]; [unfold len; lia|].
  rewrite Hd. bind_cbn. rewrite checked_add_ok by done. bind_cbn.
  assert (n = segment_length (k_header k) d i ∧ 0 ≤ n) as [-> Hn0].
  { unfold stored_size in Hn. unfold segment_length. destruct (i =? BSS_INDEX); [by injection Hn as <-|].
    rewrite Hd in Hn. injection Hn as <-. split; [done|]. unfold index in Hd.
    rewrite (proj2 (Z.leb_le _ _)) in Hd by lia. eapply Forall_lookup_1 in Hd; [|exact Hwf].
    cbn in Hd. lia. }
  pose proof (get_range_ok (k_bytes k) (segment_start (k_header k) i)
    (segment_start (k_header k) i + segment_length (k_header k) d i)) as Hg.
  rewrite Hg by lia. bind_cbn. eexists. cbv zeta. split_and!; done || (cbn [descriptor stored]; apply Hg; lia).
Qed.

Lemma segments_ok k :
  kip_ok k → ∃ s0 s1 s2 s3, segments k = Some [s0; s1; s2; s3] ∧
    segment k 0 = Some (Some s0) ∧ segment k 1 = Some (Some s1) ∧
    segment k 2 = Some (Some s2) ∧ segment k 3 = Some (Some s3).
Proof.
  intros Hk. destruct (kip_segment_ok k 0 Hk) as (s0 & H0 & _); [lia|].
  destruct (kip_segment_ok k 1 Hk) as (s1 & H1 & _); [lia|].
  destruct (kip_segment_ok k 2 Hk) as (s2 & H2 & _); [lia|].
  destruct (kip_segment_ok k 3 Hk) as (s3 & H3 & _); [lia|].
  exists s0, s1, s2, s3. split_and!; [|done..]. unfold segments. cbn [mapM].
  by rewrite H0, H1, H2, H3.
Qed.

Lemma name_ok k : kip_ok k → name k = Some (utf8_or_empty (c_str (kh_name (k_header k)))).
Proof.
  intros _. unfold name, c_str. pose proof (nul_position_range (kh_name (k_header k))).
  by rewrite get_to_ok.
Qed.

(** The stored bytes of a segment that sits between two others. *)
Lemma segment_at h l m r i d :
  0 ≤ i < 4 → segment_offset (Z.to_nat i) 0 h (size_of Kip1Header) = Some (len l) →
  stored_size h i = Some (len m) → index (kh_segments h) i = Some d → len (l ++ m ++ r) ≤ USIZE_MAX →
  segment {| k_header := h; k_bytes := l ++ m ++ r |} i
    = Some (Some {| seg_index := i; descriptor := d; compressed := is_compressed h i; stored := m |}).
Proof.
  intros Hi Ho Hn Hd Hmax. unfold segment. cbn [k_header k_bytes].
  rewrite (proj2 (Z.leb_gt _ _)) by (unfold LOADED_SEGMENT_COUNT; lia).
  rewrite Ho, Hn, Hd. bind_cbn. rewrite checked_add_ok by len_lia. bind_cbn.
  by rewrite get_range_mid.
Qed.

Lemma is_compressed_flag h i :
  0 ≤ i < 3 → is_compressed h i = Z.testbit (kh_flags h) i.
Proof.
  intros Hi. unfold is_compressed, BSS_INDEX. rewrite (proj2 (Z.leb_gt _ _)) by lia.
  rewrite land_flag_eqb by lia. by destruct (Z.testbit _ _).
Qed.

Lemma flag_bits flags i : Z.land flags 7 = 7 → 0 ≤ i < 3 → Z.testbit flags i = true.
Proof.
  intros H Hi. assert (Z.testbit (Z.land flags 7) i = true) as Hb.
  { rewrite H. assert (i = 0 ∨ i = 1 ∨ i = 2) as [-> | [-> | ->]] by lia; done. }
  rewrite Z.land_spec in Hb. by apply andb_true_iff in Hb as [? _].
Qed.


(** ** Lemmas: the image of a header and three stored segments *)

Section image.
Context `{ZC : Zerocopy}.
Variables (h : Kip1Header) (tc rc dc : list byte) (d0 d1 d2 d3 : RawKip1Segment) (ds : list RawKip1Segment).
Hypothesis h_wf : wf h.
Hypothesis h_segments : kh_segments h = d0 :: d1 :: d2 :: d3 :: ds.
Hypothesis h_sizes : comp_size d0 = len tc ∧ comp_size d1 = len rc ∧ comp_size d2 = len dc.
Hypothesis h_fits : 256 + len tc + len rc + len dc ≤ USIZE_MAX.

Definition image : list byte := as_bytes h ++ tc ++ rc ++ dc.

Lemma image_sizes :
  stored_size h 0 = Some (len tc) ∧ stored_size h 1 = Some (len rc) ∧
  stored_size h 2 = Some (len dc) ∧ stored_size h 3 = Some 0.
Proof using h_segments h_sizes.
  destruct h_sizes as (H0 & H1 & H2). unfold stored_size, BSS_INDEX. rewrite h_segments.
  rewrite <-H0, <-H1, <-H2. done.
Qed.

Lemma image_offsets :
  segment_offset 0 0 h 256 = Some 256 ∧ segment_offset 1 0 h 256 = Some (256 + len tc) ∧
  segment_offset 2 0 h 256 = Some (256 + len tc + len rc) ∧
  segment_offset 3 0 h 256 = Some (256 + len tc + len rc + len dc).
Proof using h_fits h_segments h_sizes.
  destruct image_sizes as (S0 & S1 & S2 & _). pose proof (len_nonneg rc). pose proof (len_nonneg dc).
  cbn [segment_offset]. change (0 + 1 + 1) with 2. change (0 + 1) with 1.
  rewrite S0, S1, S2. bind_cbn. repeat (bind_step || rewrite checked_add_ok by mlia). done.
Qed.

Lemma len_image : len image = 256 + len tc + len rc + len dc.
Proof using h_wf.
  pose proof (len_as_bytes h h_wf) as Hlh. change (size_of Kip1Header) with 256 in Hlh.
  unfold image. len_lia.
Qed.

Lemma read_image :
  kh_magic h = KIP1_MAGIC → try_from_bytes image = Ok {| k_header := h; k_bytes := image |}.
Proof using h_fits h_segments h_sizes h_wf.
  intros Hm. destruct image_sizes as (S0 & S1 & S2 & S3). pose proof len_image as Hl.
  pose proof (len_nonneg tc). pose proof (len_nonneg rc). pose proof (len_nonneg dc).
  unfold try_from_bytes.
  replace (ref_from_prefix Kip1Header image) with (Some (h, tc ++ rc ++ dc))
    by (symmetry; by apply ref_from_prefix_as_bytes).
  bind_cbn. rewrite Hm, Z.eqb_refl. cbn [negb]. bind_cbn.
  change (size_of Kip1Header) with 256. change (Z.to_nat LOADED_SEGMENT_COUNT) with 4%nat.
  cbn [check_segments]. change (0 + 1 + 1 + 1) with 3. change (0 + 1 + 1) with 2. change (0 + 1) with 1.
  rewrite S0, S1, S2, S3. bind_cbn.
  do 4 (bind_step; rewrite (proj2 (Z.ltb_ge _ _)) by lia; bind_cbn). done.
Qed.

Lemma image_segment i l m r d :
  0 ≤ i < 4 → image = l ++ m ++ r → segment_offset (Z.to_nat i) 0 h 256 = Some (len l) →
  stored_size h i = Some (len m) → index (kh_segments h) i = Some d →
  segment {| k_header := h; k_bytes := image |} i
    = Some (Some {| seg_index := i; descriptor := d; compressed := is_compressed h i; stored := m |}).
Proof using h_fits h_wf.
  intros Hi Him Ho Hn Hd. pose proof len_image as Hl. rewrite Him in *.
  apply segment_at; [done|done|done|done|lia].
Qed.

Lemma read_image_segments :
  segments {| k_header := h; k_bytes := image |}
    = Some [ {| seg_index := 0; descriptor := d0; compressed := is_compressed h 0; stored := tc |};
             {| seg_index := 1; descriptor := d1; compressed := is_compressed h 1; stored := rc |};
             {| seg_index := 2; descriptor := d2; compressed := is_compressed h 2; stored := dc |};
             {| seg_index := 3; descriptor := d3; compressed := is_compressed h 3; stored := [] |} ].
Proof using h_fits h_segments h_sizes h_wf.
  destruct image_sizes as (S0 & S1 & S2 & S3). destruct image_offsets as (O0 & O1 & O2 & O3).
  pose proof (len_as_bytes h h_wf) as Hlh. change (size_of Kip1Header) with 256 in Hlh.
  unfold segments. cbn [mapM].
  rewrite (image_segment 0 (as_bytes h) tc (rc ++ dc) d0); [|lia|done|by rewrite Hlh|done|by rewrite h_segments].
  rewrite (image_segment 1 (as_bytes h ++ tc) rc dc d1);
    [|lia|by unfold image; rewrite <-app_assoc|by rewrite len_app, Hlh|done|by rewrite h_segments].
  rewrite (image_segment 2 (as_bytes h ++ tc ++ rc) dc [] d2);
    [|lia|by unfold image; rewrite app_nil_r, <-!app_assoc|by rewrite !len_app, Hlh, Z.add_assoc|done|by rewrite h_segments].
  rewrite (image_segment 3 (as_bytes h ++ tc ++ rc ++ dc) [] [] d3);
    [|lia|by unfold image; rewrite !app_nil_r|by rewrite !len_app, Hlh, !Z.add_assoc|done|by rewrite h_segments].
  done.
Qed.
End image.

Section properties.
Context `{ZC : Zerocopy} `{BC : BlzCodec}.

(** A segment whose bytes lie in the image expands to the size of its descriptor, or is refused. *)
Lemma segment_expands bytes s i a e ds :
  len bytes + U32_MAX ≤ ISIZE_MAX → 0 ≤ i → get_range bytes a e = Some (stored s) →
  index ds i = Some (descriptor s) → Forall wf ds →
  if compressed s then safe (λ out, len out = decomp_size (descriptor s)) (segment_decompress s)
  else segment_decompress s = Ok (stored s).
Proof.
  intros Hmax Hi (? & ? & Hst)%get_range_inv Hd Hwf. unfold segment_decompress.
  destruct (compressed s); [|done]. cbn [negb].
  assert (len (stored s) ≤ len bytes) by (rewrite Hst, len_ztake; rewrite ?len_zdrop; lia).
  unfold index in Hd. rewrite (proj2 (Z.leb_le _ _)) in Hd by lia.
  eapply Forall_lookup_1 in Hd; [|exact Hwf]. unfold decompressed_size.
  assert (0 ≤ decomp_size (descriptor s)) by (cbn in Hd; lia).
  pose proof (blz_decompress_safe (stored s) (decomp_size (descriptor s)) ltac:(lia) ltac:(done)) as Hsafe.
  by destruct (blz_decompress _ _).
Qed.

(** C18. A KIP1 image reads back as it was built, every field of the builder included, through any
    codec that keeps the promise of BLZ: for a complete builder whose segments a [u32] can measure and
    whose flags keep the three compression bits (as the default does), [build] succeeds and
    [try_from_bytes] accepts the image. The name (cut to 11 bytes), the title, the process category, the
    thread settings, the flags and the capability words (padded with ones to 32 words) come back, and
    the four segments hold the compressed text, rodata and data and nothing for bss, with the builder's
    addresses, sizes and attributes, and decompress to what was given. *)
Theorem kip_round_trip b n text rodata data :
  builder_wf b → complete b → kb_name b = Some n → kb_text b = Some text →
  kb_rodata b = Some rodata → kb_data b = Some data →
  segment_fits text → segment_fits rodata → segment_fits data →
  Z.land (default 0x3F (kb_flags b)) 7 = 7 →
  ∃ image k segs, build b = Ok image ∧ try_from_bytes image = Ok k ∧
    name k = Some (utf8_or_empty (c_str (stored_name n))) ∧ title_id k = kb_title_id b ∧
    kh_process_category (k_header k) = kb_process_category b ∧
    kh_main_thread_priority (k_header k) = kb_main_thread_priority b ∧
    kh_default_cpu_id (k_header k) = kb_default_cpu_id b ∧
    kh_flags (k_header k) = default 0x3F (kb_flags b) ∧
    kh_capabilities (k_header k)
      = concat (map (le_bytes 4) (kb_kernel_capabilities b))
        ++ zrep (0x80 - 4 * len (kb_kernel_capabilities b)) xff ∧
    segments k = Some segs ∧
    map (λ s, Some (stored s)) segs = [blz_compress text; blz_compress rodata; blz_compress data; Some []] ∧
    map segment_decompress segs = [Ok text; Ok rodata; Ok data; Ok []] ∧
    map (λ s, dst_addr (descriptor s)) segs
      = [kb_text_vaddr b; kb_rodata_vaddr b; kb_data_vaddr b; default 0 (kb_bss_vaddr b)] ∧
    map decompressed_size segs = [len text; len rodata; len data; default 0 (kb_bss_size b)] ∧
    map (λ s, attributes (descriptor s)) segs = [0; kb_rodata_attributes b; 0; 0].
Proof.
  intros Hwf Hc Hn Ht Hr Hd Hft Hfr Hfd Hflags.
  destruct (kip_build_spec b n text rodata data) as (tc & rc & dc & Htc & Hrc & Hdc & Hh & Hltc & Hlrc & Hldc & Hb);
    [done..|].
  set (h := header_of _ _ _ _ _ _ _ _ _) in *.
  assert (256 + len tc + len rc + len dc ≤ USIZE_MAX) as Hfit by mlia.
  assert (stored_ok : comp_size (Build_RawKip1Segment (kb_text_vaddr b) (len text) (len tc) 0) = len tc ∧
    comp_size (Build_RawKip1Segment (kb_rodata_vaddr b) (len rodata) (len rc) (kb_rodata_attributes b)) = len rc ∧
    comp_size (Build_RawKip1Segment (kb_data_vaddr b) (len data) (len dc) 0) = len dc) by done.
  pose proof (read_image h tc rc dc _ _ _ _ _ Hh eq_refl stored_ok Hfit eq_refl) as Hread.
  pose proof (read_image_segments h tc rc dc _ _ _ _ _ Hh eq_refl stored_ok Hfit) as Hsegs.
  eexists _, _, _. split_and!; [exact Hb|exact Hread| |done|done|done|done|done|done|exact Hsegs|..].
  - apply name_ok. pose proof (try_from_bytes_kip_safe (image h tc rc dc)) as Hs.
    exact (safe_ok _ _ _ Hs Hread).
  - cbn. by rewrite Htc, Hrc, Hdc.
  - cbn [map]. rewrite !is_compressed_flag, !flag_bits by (done || lia).
    unfold segment_decompress. cbn [compressed negb stored seg_index decompressed_size descriptor decomp_size].
    change (is_compressed h 3) with false. cbn [negb].
    destruct (blz_round_trip text) as (? & E1 & D1); [unfold segment_fits in *; lia|].
    destruct (blz_round_trip rodata) as (? & E2 & D2); [unfold segment_fits in *; lia|].
    destruct (blz_round_trip data) as (? & E3 & D3); [unfold segment_fits in *; lia|].
    simplify_eq. cbn. unfold decompressed_size. cbn. by rewrite D1, D2, D3.
  - done.
  - done.
  - done.
Qed.

(** C37. Reading an untrusted KIP1 is safe, in a buffer that leaves [u32::MAX] bytes of a slice's largest
    size free for an expansion: [try_from_bytes] never panics; once it accepts an image
    its header is the prefix of the image, the name reads, and [segments] yields the four loaded
    segments. Segment [i] has the descriptor at index [i], its flag's compression bit, and as its bytes
    exactly the slice of the image that starts behind the 256-byte header and the stored sizes of the
    segments before it and has the stored size its descriptor gives (none for bss). Expanding a segment
    never panics and gives the bytes themselves when it is not compressed, and as many as the
    descriptor says when it is; [segment] is [None] past the four. *)
Theorem kip_reader_safe bytes :
  len bytes + U32_MAX ≤ ISIZE_MAX →
  try_from_bytes bytes ≠ Panic ∧
  ∀ k, try_from_bytes bytes = Ok k →
    (∃ rest, bytes = as_bytes (k_header k) ++ rest) ∧
    name k = Some (utf8_or_empty (c_str (kh_name (k_header k)))) ∧
    (∀ i, 4 ≤ i → segment k i = Some None) ∧
    ∃ segs, segments k = Some segs ∧ len segs = 4 ∧
      ∀ i, 0 ≤ i < 4 → ∃ s, segment k i = Some (Some s) ∧ index segs i = Some s ∧ seg_index s = i ∧
        index (kh_segments (k_header k)) i = Some (descriptor s) ∧
        compressed s = (i <? 3) && Z.testbit (kh_flags (k_header k)) i ∧
        (let start := 0x100 + zsum (map comp_size (take (Z.to_nat i) (kh_segments (k_header k)))) in
         let size := if i =? 3 then 0 else comp_size (descriptor s) in
         get_range bytes start (start + size) = Some (stored s)) ∧
        (if compressed s
         then safe (λ out, len out = decomp_size (descriptor s)) (segment_decompress s)
         else segment_decompress s = Ok (stored s)).
Proof.
  intros Hmax. pose proof (try_from_bytes_kip_safe bytes) as Hsafe. split; [by eapply safe_no_panic|].
  intros k Hk. pose proof (safe_ok _ _ _ Hsafe Hk) as Hok. pose proof Hok as (_ & _ & Hwf & _).
  assert ((∃ rest, bytes = as_bytes (k_header k) ++ rest) ∧ k_bytes k = bytes) as [Hpre Hbytes].
  { unfold try_from_bytes in Hk. inv_bind Hk. destruct a as [h r]. inv_outcome.
    match goal with H : ref_from_prefix _ _ = _ |- _ => apply ref_from_prefix_inv in H as (_ & _ & ? & _) end. eauto. }
  split; [done|]. split; [by apply name_ok|].
  split; [intros i Hi; unfold segment; by rewrite (proj2 (Z.leb_le _ _))|].
  destruct (segments_ok k Hok) as (s0 & s1 & s2 & s3 & Hs & H0 & H1 & H2 & H3).
  eexists. split; [exact Hs|]. split; [done|]. intros i Hi.
  destruct (kip_segment_ok k i Hok Hi) as (s & Hseg & Hix & Hd & Hcomp & Hr). exists s.
  cbv zeta in Hr. rewrite Hbytes in Hr.
  split_and!; [done| |done|done| |exact Hr|by eapply (segment_expands bytes s i); eauto with lia].
  - assert (i = 0 ∨ i = 1 ∨ i = 2 ∨ i = 3) as [-> | [-> | [-> | ->]]] by lia; by simplify_eq.
  - rewrite Hcomp. destruct (Z.ltb_spec i 3); [apply is_compressed_flag; lia|].
    unfold is_compressed. by rewrite (proj2 (Z.leb_le _ _)) by done.
Qed.

(** [build] fails exactly when a required field is missing, bss is half configured or there
    are more than 32 capabilities, and it never panics on segments BLZ can index. *)
Theorem kip_build_complete b :
  builder_wf b →
  (∀ l, kb_text b = Some l ∨ kb_rodata b = Some l ∨ kb_data b = Some l → segment_fits l) →
  build b ≠ Panic ∧ ((∃ image, build b = Ok image) ↔ complete b).
Proof.
  intros Hwf Hfit.
  assert (complete b → ∃ image, build b = Ok image) as Hok.
  { intros Hc. pose proof Hc as ([n Hn] & [t Ht] & [r Hr] & [d Hd] & _).
    destruct (kip_build_spec b n t r d) as (? & ? & ? & _ & _ & _ & _ & _ & _ & _ & Hb); eauto. }
  assert (¬ complete b → ∃ e, build b = Err e) as Hbad.
  { intros Hc. unfold build. unfold complete, bss_consistent in Hc.
    destruct (kb_name b) as [n|]; bind_cbn; [|eauto].
    destruct (kb_text b) as [t|]; bind_cbn; [|eauto].
    destruct (kb_rodata b) as [r|]; bind_cbn; [|eauto].
    destruct (kb_data b) as [d|]; bind_cbn; [|eauto].
    destruct (Z.ltb_spec 0x20 (len (kb_kernel_capabilities b))) as [Hl|Hl].
    - destruct (kb_bss_vaddr b), (kb_bss_size b); cbn [check_bss]; bind_cbn; eauto.
    - destruct (kb_bss_vaddr b), (kb_bss_size b); cbn [check_bss]; bind_cbn; eauto;
        destruct Hc; split_and!; eauto; split; intros; eauto; by apply is_Some_None in H. }
  assert (complete b ∨ ¬ complete b) as [Hc|Hc].
  { unfold complete, bss_consistent.
    destruct (kb_name b), (kb_text b), (kb_rodata b), (kb_data b), (kb_bss_vaddr b), (kb_bss_size b),
      (Z.le_gt_cases (len (kb_kernel_capabilities b)) 0x20);
      try (left; split_and!; eauto; done); right; intros (H1 & H2 & H3 & H4 & [H5 H6] & H7);
      try (by apply is_Some_None in H1); try (by apply is_Some_None in H2);
      try (by apply is_Some_None in H3); try (by apply is_Some_None in H4); try lia;
      try (by eapply is_Some_None, H5; eauto); try (by eapply is_Some_None, H6; eauto). }
  - destruct (Hok Hc) as [im Him]. rewrite Him. split; [done|]. split; eauto.
  - destruct (Hbad Hc) as [e He]. rewrite He. split; [done|]. split; [by intros [? ?]|done].
Qed.
End properties.

(** ** Witnesses *)

Definition sample_kip : Kip1Builder :=
  {| kb_name := Some [x6b; x69; x70]; kb_title_id := 0x0100000000001000; kb_process_category := 1;
     kb_main_thread_priority := 49; kb_default_cpu_id := 3; kb_flags := None;
     kb_text := Some [x01; x02]; kb_text_vaddr := 0; kb_rodata := Some [x03]; kb_rodata_vaddr := 0x1000;
     kb_rodata_attributes := 0x10000; kb_data := Some (zrep 40 x22); kb_data_vaddr := 0x2000;
     kb_bss_vaddr := Some 0x3000; kb_bss_size := Some 0x800; kb_kernel_capabilities := [0x0003C0B7; 0x000060FF] |}.

Lemma sample_kip_wf : builder_wf sample_kip.
Proof. vm_compute. repeat split; discriminate. Qed.

Lemma sample_kip_complete : complete sample_kip.
Proof. unfold complete, bss_consistent. cbn. split_and!; try (by eexists); done. Qed.

Lemma kip_round_trip_witness :
  ∃ image k segs,
    @build zerocopy_reference (@blz_codec zerocopy_reference) sample_kip = Ok image ∧
    @try_from_bytes zerocopy_reference image = Ok k ∧
    name k = Some (utf8_or_empty (c_str (stored_name [x6b; x69; x70]))) ∧
    title_id k = 0x0100000000001000 ∧ kh_process_category (k_header k) = 1 ∧
    kh_main_thread_priority (k_header k) = 49 ∧ kh_default_cpu_id (k_header k) = 3 ∧
    kh_flags (k_header k) = 0x3F ∧
    kh_capabilities (k_header k) = [xb7; xc0; x03; x00; xff; x60; x00; x00] ++ zrep 120 xff ∧
    segments k = Some segs ∧
    map (λ s, Some (stored s)) segs
      = [@blz_compress (@blz_codec zerocopy_reference) [x01; x02]; @blz_compress (@blz_codec zerocopy_reference) [x03];
         @blz_compress (@blz_codec zerocopy_reference) (zrep 40 x22); Some []] ∧
    map (@segment_decompress (@blz_codec zerocopy_reference)) segs
      = [Ok [x01; x02]; Ok [x03]; Ok (zrep 40 x22); Ok []] ∧
    map (λ s, dst_addr (descriptor s)) segs = [0; 0x1000; 0x2000; 0x3000] ∧
    map decompressed_size segs = [2; 1; 40; 0x800] ∧
    map (λ s, attributes (descriptor s)) segs = [0; 0x10000; 0; 0].
Proof.
  apply (@kip_round_trip zerocopy_reference (@blz_codec zerocopy_reference) sample_kip
    [x6b; x69; x70] [x01; x02] [x03] (zrep 40 x22) sample_kip_wf sample_kip_complete); reflexivity.
Defined.

(** An image a reader may meet: the text is flagged as compressed, the rodata and data are stored. *)
Definition found_header : Kip1Header :=
  {| kh_magic := KIP1_MAGIC; kh_name := [x70; x6d] ++ zeros 10; kh_title_id := 0x0100000000000005;
     kh_process_category := 1; kh_main_thread_priority := 49; kh_default_cpu_id := 3; kh_reserved := 0;
     kh_flags := 0x39;
     kh_segments := [Build_RawKip1Segment 0 9 2 0; Build_RawKip1Segment 0x1000 3 3 0;
       Build_RawKip1Segment 0x2000 1 1 0; Build_RawKip1Segment 0x3000 0x100 0 0;
       Build_RawKip1Segment 0 0 0 0; Build_RawKip1Segment 0 0 0 0];
     kh_capabilities := zrep 0x80 xff |}.
Definition found_image : list byte :=
  @as_bytes zerocopy_reference Kip1Header _ found_header ++ [x01; x02; x03; x04; x05; x06; x07].

Lemma kip_reader_safe_witness :
  ∃ k segs s, @try_from_bytes zerocopy_reference found_image = Ok k ∧ segments k = Some segs ∧ len segs = 4 ∧
    segment k 1 = Some (Some s) ∧ index segs 1 = Some s ∧ compressed s = false ∧ stored s = [x03; x04; x05] ∧
    @segment_decompress (@blz_codec zerocopy_reference) s = Ok [x03; x04; x05].
Proof.
  destruct (@kip_reader_safe zerocopy_reference (@blz_codec zerocopy_reference) found_image ltac:(vm_compute; discriminate))
    as [_ H].
  destruct (H {| k_header := found_header; k_bytes := found_image |} ltac:(vm_compute; reflexivity))
    as (_ & _ & _ & segs & Hs & Hl & Hall).
  destruct (Hall 1 ltac:(lia)) as (s & Hs1 & Hi & _ & Hd & Hc & Hst & He).
  assert (stored s = [x03; x04; x05]) as Hst'.
  { injection Hd as Hd. rewrite <-Hd in Hst.
    assert (get_range found_image 258 261 = Some [x03; x04; x05]) as E by (vm_compute; reflexivity).
    change (get_range found_image 258 261 = Some (stored s)) in Hst. rewrite E in Hst. by injection Hst. }
  change (compressed s = false) in Hc. rewrite Hc, Hst' in He.
  eexists _, segs, s. split; [vm_compute; reflexivity|]. done.
Defined.

Lemma kip_build_complete_witness :
  @build zerocopy_reference (@blz_codec zerocopy_reference) Kip1Builder_new ≠ Panic ∧
  ((∃ image, @build zerocopy_reference (@blz_codec zerocopy_reference) Kip1Builder_new = Ok image)
     ↔ complete Kip1Builder_new).
Proof.
  apply (@kip_build_complete zerocopy_reference (@blz_codec zerocopy_reference) Kip1Builder_new).
  - vm_compute. repeat split; discriminate.
  - intros l [H|[H|H]]; discriminate H.
Defined.
