(* ===== verification/Nro.v ===== *)
(** * NRO images: [raw/nro.rs], [read/nro.rs] and [write/nro.rs]

    The entry stub, the header, the three segments and the optional asset section: the builder,
    which writes each segment at its linked address and the header over the text segment, and the
    validated reader, over a buffer and over memory. An [option] whose [None] is a panic is the result
    of an infallible function. *)

From S2P Require Import Prelude Bytes Layout Ptr.
#[local] Open Scope Z_scope.

(** ** The structures *)

Definition NRO_MAGIC : Z := 0x304f524e.
Definition ASSET_MAGIC : Z := 0x54455341.

Record NroSegment := {
  file_off : Z;
  seg_size : Z;
}.
#[export] Instance NroSegment_layout : Layout NroSegment.
Proof.
  refine (L_struct (u32 ⊗ u32)%layout (λ '(a, b), Build_NroSegment a b)
    (λ s, (file_off s, seg_size s)) _ _); solve_struct.
Defined.

Record NroStart := {
  ns_unused : Z;
  ns_mod_offset : Z;
  ns_padding : list byte;
}.
#[export] Instance NroStart_layout : Layout NroStart.
Proof.
  refine (L_struct (u32 ⊗ u32 ⊗ byte_array 8)%layout (λ '(a, b, c), Build_NroStart a b c)
    (λ s, (ns_unused s, ns_mod_offset s, ns_padding s)) _ _); solve_struct.
Defined.

Record NroHeader := {
  nh_magic : Z;
  nh_version : Z;
  nh_size : Z;
  nh_flags : Z;
  nh_segments : list NroSegment;
  nh_bss_size : Z;
  nh_reserved : Z;
  nh_build_id : list byte;
  nh_reserved2 : list byte;
}.
#[export] Instance NroHeader_layout : Layout NroHeader.
Proof.
  refine (L_struct (u32 ⊗ u32 ⊗ u32 ⊗ u32 ⊗ (NroSegment_layout × 3) ⊗ u32 ⊗ u32
                    ⊗ byte_array 0x20 ⊗ byte_array 0x20)%layout
    (λ '(a, b, c, d, e, f, g, h, i), Build_NroHeader a b c d e f g h i)
    (λ n, (nh_magic n, nh_version n, nh_size n, nh_flags n, nh_segments n, nh_bss_size n,
           nh_reserved n, nh_build_id n, nh_reserved2 n)) _ _); solve_struct.
Defined.
#[export] Instance eta_NroHeader : Eta NroHeader := λ n,
  Build_NroHeader (nh_magic n) (nh_version n) (nh_size n) (nh_flags n) (nh_segments n)
    (nh_bss_size n) (nh_reserved n) (nh_build_id n) (nh_reserved2 n).

Record NroAssetSection := {
  as_offset : Z;
  as_size : Z;
}.
#[export] Instance NroAssetSection_layout : Layout NroAssetSection.
Proof.
  refine (L_struct (u64 ⊗ u64)%layout (λ '(a, b), Build_NroAssetSection a b)
    (λ s, (as_offset s, as_size s)) _ _); solve_struct.
Defined.

Record NroAssetHeader := {
  ah_magic : Z;
  ah_version : Z;
  ah_icon : NroAssetSection;
  ah_nacp : NroAssetSection;
  ah_romfs : NroAssetSection;
}.
#[export] Instance NroAssetHeader_layout : Layout NroAssetHeader.
Proof.
  refine (L_struct (u32 ⊗ u32 ⊗ NroAssetSection_layout ⊗ NroAssetSection_layout ⊗ NroAssetSection_layout)%layout
    (λ '(a, b, c, d, e), Build_NroAssetHeader a b c d e)
    (λ h, (ah_magic h, ah_version h, ah_icon h, ah_nacp h, ah_romfs h)) _ _); solve_struct.
Defined.

(** ** The builder *)

Record NroBuilder := {
  nb_text : option (list byte);
  nb_text_vaddr : Z;
  nb_rodata : option (list byte);
  nb_rodata_vaddr : Z;
  nb_data : option (list byte);
  nb_data_vaddr : Z;
  nb_bss_size : Z;
  nb_build_id : option (list byte);
  nb_flags : Z;
  nb_icon : option (list byte);
  nb_nacp : option (list byte);
  nb_romfs : option (list byte);
}.
#[export] Instance eta_NroBuilder : Eta NroBuilder := λ b,
  Build_NroBuilder (nb_text b) (nb_text_vaddr b) (nb_rodata b) (nb_rodata_vaddr b) (nb_data b)
    (nb_data_vaddr b) (nb_bss_size b) (nb_build_id b) (nb_flags b) (nb_icon b) (nb_nacp b)
    (nb_romfs b).

Definition NroBuilder_new : NroBuilder :=
  {| nb_text := None; nb_text_vaddr := 0; nb_rodata := None; nb_rodata_vaddr := 0; nb_data := None;
     nb_data_vaddr := 0; nb_bss_size := 0; nb_build_id := None; nb_flags := 0; nb_icon := None;
     nb_nacp := None; nb_romfs := None |}.

Definition nro_text (b : NroBuilder) (data : list byte) := b <| nb_text := Some data |>.
Definition nro_text_vaddr (b : NroBuilder) (vaddr : Z) := b <| nb_text_vaddr := vaddr |>.
Definition nro_rodata (b : NroBuilder) (data : list byte) := b <| nb_rodata := Some data |>.
Definition nro_rodata_vaddr (b : NroBuilder) (vaddr : Z) := b <| nb_rodata_vaddr := vaddr |>.
Definition nro_data (b : NroBuilder) (data : list byte) := b <| nb_data := Some data |>.
Definition nro_data_vaddr (b : NroBuilder) (vaddr : Z) := b <| nb_data_vaddr := vaddr |>.
Definition nro_bss_size (b : NroBuilder) (size : Z) := b <| nb_bss_size := size |>.
Definition nro_build_id (b : NroBuilder) (id : list byte) := b <| nb_build_id := Some id |>.
Definition nro_flags (b : NroBuilder) (flags : Z) := b <| nb_flags := flags |>.
Definition nro_asset_icon (b : NroBuilder) (data : list byte) := b <| nb_icon := Some data |>.
Definition nro_asset_nacp (b : NroBuilder) (data : list byte) := b <| nb_nacp := Some data |>.
Definition nro_asset_romfs (b : NroBuilder) (data : list byte) := b <| nb_romfs := Some data |>.

Inductive BuildError := MissingText | MissingRodata | MissingData.

Definition pad_to_alignment (data : list byte) (alignment : Z) : list byte :=
  vec_resize data (div_ceil (len data) alignment * alignment) x00.

Section build.
Context `{ZC : Zerocopy}.

Definition is_some {A} (o : option A) : bool := if o is Some _ then true else false.

(** [map_or(0, |v| v.len())]. *)
Definition opt_len (o : option (list byte)) : Z := default 0 (len <$> o).

(** An asset's recorded place, and the offset past it. *)
Definition place_asset (asset : option (list byte)) (asset_offset : Z) : option (NroAssetSection * Z) :=
  match asset with
  | Some a =>
    next ← checked_add asset_offset (len a);
    Some ({| as_offset := asset_offset; as_size := len a |}, next)
  | None => Some ({| as_offset := 0; as_size := 0 |}, asset_offset)
  end.

Definition write_asset (asset : option (list byte)) (buf : list byte) (current_pos : Z)
    : option (list byte * Z) :=
  match asset with
  | Some a =>
    end_pos ← checked_add current_pos (len a);
    buf ← copy_from_slice buf current_pos end_pos a;
    Some (buf, end_pos)
  | None => Some (buf, current_pos)
  end.

(** The asset header and the assets, from [nro_size]. The offset past the last asset is not
    computed by the code; it is in range whenever the buffer is. *)
Definition write_assets (b : NroBuilder) (buf : list byte) (nro_size : Z) : option (list byte) :=
  '(icon, asset_offset) ← place_asset (nb_icon b) 0x38;
  '(nacp, asset_offset) ← place_asset (nb_nacp b) asset_offset;
  let romfs :=
    match nb_romfs b with
    | Some r => {| as_offset := asset_offset; as_size := len r |}
    | None => {| as_offset := 0; as_size := 0 |}
    end in
  let asset_header := {| ah_magic := ASSET_MAGIC; ah_version := 0; ah_icon := icon; ah_nacp := nacp;
                         ah_romfs := romfs |} in
  header_end ← checked_add nro_size 0x38;
  buf ← copy_from_slice buf nro_size header_end (as_bytes asset_header);
  '(buf, current_pos) ← write_asset (nb_icon b) buf header_end;
  '(buf, current_pos) ← write_asset (nb_nacp b) buf current_pos;
  '(buf, _) ← write_asset (nb_romfs b) buf current_pos;
  Some buf.

(** Everything past the three required segments. [None] is a panic. *)
Definition build_image (b : NroBuilder) (text rodata data : list byte) : option (list byte) :=
  let text_padded := pad_to_alignment text 0x1000 in
  let rodata_padded := pad_to_alignment rodata 0x1000 in
  let data_padded := pad_to_alignment data 0x1000 in
  let text_offset := nb_text_vaddr b in
  let rodata_offset := nb_rodata_vaddr b in
  let data_offset := nb_data_vaddr b in
  nro_size ← checked_add_u32 data_offset (as_u32 (len data_padded));
  let has_assets := is_some (nb_icon b) || is_some (nb_nacp b) || is_some (nb_romfs b) in
  total_size ←
    (if has_assets
     then checked_sum [nro_size; 0x38; opt_len (nb_icon b); opt_len (nb_nacp b); opt_len (nb_romfs b)]
     else Some nro_size);
  buf ← vec_zeroed total_size;
  buf ← copy_from_slice buf text_offset (text_offset + len text_padded) text_padded;
  buf ← copy_from_slice buf rodata_offset (rodata_offset + len rodata_padded) rodata_padded;
  buf ← copy_from_slice buf data_offset (data_offset + len data_padded) data_padded;
  let header := (new_zeroed NroHeader) <| nh_magic := NRO_MAGIC |> <| nh_version := 0 |>
    <| nh_size := nro_size |> <| nh_flags := nb_flags b |>
    <| nh_segments := [ {| file_off := text_offset; seg_size := as_u32 (len text_padded) |};
                        {| file_off := rodata_offset; seg_size := as_u32 (len rodata_padded) |};
                        {| file_off := data_offset; seg_size := as_u32 (len data_padded) |} ] |>
    <| nh_bss_size := nb_bss_size b |> <| nh_build_id := default (zeros 0x20) (nb_build_id b) |> in
  buf ← copy_from_slice buf 0x10 0x80 (as_bytes header);
  if has_assets then write_assets b buf nro_size else Some buf.

Definition build (b : NroBuilder) : outcome BuildError (list byte) :=
  text ← ok_or (nb_text b) MissingText;
  rodata ← ok_or (nb_rodata b) MissingRodata;
  data ← ok_or (nb_data b) MissingData;
  or_panic (build_image b text rodata data).
End build.

(** ** The reader *)

Record Nro := {
  n_bytes : list byte;
  n_start : NroStart;
  n_header : NroHeader;
  n_asset_header : option NroAssetHeader;
}.

Inductive asset_name := icon | nacp | romfs.

Inductive FromBytesError :=
| BufferTooSmall (required available : Z)
| InvalidMagic (found : Z)
| SegmentBoundsOverflow (segment_index offset size : Z)
| SegmentOutOfBounds (segment_index offset size available : Z)
| AssetSectionBoundsOverflow (section_name : asset_name) (base offset size : Z)
| AssetSectionOutOfBounds (section_name : asset_name) (offset size available : Z).

Fixpoint check_segments (idx : Z) (segs : list NroSegment) (available : Z) : outcome FromBytesError unit :=
  match segs with
  | [] => Ok tt
  | seg :: segs =>
    let off := file_off seg in
    let size := seg_size seg in
    end_ ← ok_or (checked_add off size) (SegmentBoundsOverflow idx off size);
    _ ← guard_err (available <? end_) (SegmentOutOfBounds idx off size available);
    check_segments (idx + 1) segs available
  end.

Definition check_asset (name : asset_name) (section : NroAssetSection) (base available : Z)
    : outcome FromBytesError unit :=
  let off := as_offset section in
  let size := as_size section in
  if size =? 0 then Ok tt else
  abs_off ← ok_or (checked_add base off) (AssetSectionBoundsOverflow name base off size);
  end_ ← ok_or (checked_add abs_off size) (AssetSectionBoundsOverflow name base off size);
  guard_err (available <? end_) (AssetSectionOutOfBounds name abs_off size available).

Definition check_assets (h : NroAssetHeader) (base available : Z) : outcome FromBytesError unit :=
  _ ← check_asset icon (ah_icon h) base available;
  _ ← check_asset nacp (ah_nacp h) base available;
  check_asset romfs (ah_romfs h) base available.

Section read.
Context `{ZC : Zerocopy}.

(** [None] is a panic, the inner [option] whether an asset section was found. *)
Definition find_asset_header (bytes : list byte) (nro_size : Z) : option (option NroAssetHeader) :=
  if nro_size + size_of NroAssetHeader <? len bytes then
    rest ← get_from bytes nro_size;
    Some ('(h, _) ← ref_from_prefix NroAssetHeader rest;
          if ah_magic h =? ASSET_MAGIC then Some h else None)
  else Some None.

Definition try_from_bytes (bytes : list byte) : outcome FromBytesError Nro :=
  let min_size := size_of NroStart + size_of NroHeader in
  _ ← guard_err (len bytes <? min_size) (BufferTooSmall min_size (len bytes));
  '(start, _) ← ok_or (ref_from_prefix NroStart bytes) (BufferTooSmall 0x10 (len bytes));
  rest ← or_panic (get_from bytes 0x10);
  '(header, _) ← ok_or (ref_from_prefix NroHeader rest) (BufferTooSmall 0x80 (len bytes));
  _ ← guard_err (negb (nh_magic header =? NRO_MAGIC)) (InvalidMagic (nh_magic header));
  _ ← check_segments 0 (nh_segments header) (len bytes);
  let nro_size := nh_size header in
  asset_header ← or_panic (find_asset_header bytes nro_size);
  _ ← match asset_header with
      | Some h => check_assets h nro_size (len bytes)
      | None => Ok tt
      end;
  Ok {| n_bytes := bytes; n_start := start; n_header := header; n_asset_header := asset_header |}.

Inductive FromPtrError := FromPtr (source : FromBytesError).

Definition try_from_ptr (mem : memory) (ptr : Z) : outcome FromPtrError Nro :=
  map_err FromPtr (try_from_bytes (from_raw_parts mem ptr (USIZE_MAX / 2))).
End read.

Definition segment (n : Nro) (idx : Z) : option (list byte) :=
  seg ← index (nh_segments (n_header n)) idx;
  end_ ← checked_add (file_off seg) (seg_size seg);
  get_range (n_bytes n) (file_off seg) end_.
Definition text_segment (n : Nro) : option (list byte) := segment n 0.
Definition rodata_segment (n : Nro) : option (list byte) := segment n 1.
Definition data_segment (n : Nro) : option (list byte) := segment n 2.
Definition build_id (n : Nro) : list byte := nh_build_id (n_header n).

(** [None] is a panic, the inner [option] the function's own. *)
Definition asset_section (n : Nro) (f : NroAssetHeader → NroAssetSection) : option (option (list byte)) :=
  match n_asset_header n with
  | None => Some None
  | Some header =>
    let section := f header in
    let base := nh_size (n_header n) in
    off ← checked_add base (as_offset section);
    let size := as_size section in
    if size =? 0 then Some None else
    end_ ← checked_add off size;
    bytes ← get_range (n_bytes n) off end_;
    Some (Some bytes)
  end.
Definition asset_icon (n : Nro) := asset_section n ah_icon.
Definition asset_nacp (n : Nro) := asset_section n ah_nacp.
Definition asset_romfs (n : Nro) := asset_section n ah_romfs.

(** ** What the image holds, abstractly *)

Definition padded (l : list byte) : list byte := pad_to_alignment l 0x1000.
Definition asset_bytes (o : option (list byte)) : list byte := match o with Some a => a | None => [] end.
(** A zero-length asset reads as absent. *)
Definition visible (o : option (list byte)) : option (list byte) :=
  match o with Some [] => None | _ => o end.

(** A builder whose segments are placed in order, without overlap, from address 0. *)
Record layout_ok (b : NroBuilder) (text rodata data : list byte) : Prop := {
  lo_text : nb_text b = Some text;
  lo_rodata : nb_rodata b = Some rodata;
  lo_data : nb_data b = Some data;
  lo_text_vaddr : nb_text_vaddr b = 0;
  lo_text_nonempty : text ≠ [];
  lo_order1 : len (padded text) ≤ nb_rodata_vaddr b;
  lo_order2 : nb_rodata_vaddr b + len (padded rodata) ≤ nb_data_vaddr b;
  lo_size : nb_data_vaddr b + len (padded data) ≤ U32_MAX;
  lo_total : nb_data_vaddr b + len (padded data) + 0x38 + len (asset_bytes (nb_icon b))
             + len (asset_bytes (nb_nacp b)) + len (asset_bytes (nb_romfs b)) ≤ ISIZE_MAX;
  lo_flags : is_u32 (nb_flags b);
  lo_bss : is_u32 (nb_bss_size b);
  lo_build_id : ∀ id, nb_build_id b = Some id → len id = 0x20;
}.

Definition nro_size_of (b : NroBuilder) (data : list byte) : Z := nb_data_vaddr b + len (padded data).

Definition header_of (b : NroBuilder) (text rodata data : list byte) : NroHeader :=
  {| nh_magic := NRO_MAGIC; nh_version := 0; nh_size := nro_size_of b data; nh_flags := nb_flags b;
     nh_segments := [ {| file_off := 0; seg_size := len (padded text) |};
                      {| file_off := nb_rodata_vaddr b; seg_size := len (padded rodata) |};
                      {| file_off := nb_data_vaddr b; seg_size := len (padded data) |} ];
     nh_bss_size := nb_bss_size b; nh_reserved := 0;
     nh_build_id := default (zeros 0x20) (nb_build_id b); nh_reserved2 := zeros 0x20 |}.

Definition asset_header_of (b : NroBuilder) : NroAssetHeader :=
  let i := len (asset_bytes (nb_icon b)) in
  let n := len (asset_bytes (nb_nacp b)) in
  {| ah_magic := ASSET_MAGIC; ah_version := 0;
     ah_icon := Build_NroAssetSection (if is_some (nb_icon b) then 0x38 else 0) i;
     ah_nacp := Build_NroAssetSection (if is_some (nb_nacp b) then 0x38 + i else 0) n;
     ah_romfs := Build_NroAssetSection (if is_some (nb_romfs b) then 0x38 + i + n else 0)
                   (len (asset_bytes (nb_romfs b))) |}.

Section image.
Context `{ZC : Zerocopy}.

(** The text segment in the file: the header replaces its bytes [0x10..0x80]. *)
Definition text_in_file (b : NroBuilder) (text rodata data : list byte) : list byte :=
  ztake 0x10 (padded text) ++ as_bytes (header_of b text rodata data) ++ zdrop 0x80 (padded text).

Definition front_of (b : NroBuilder) (text rodata data : list byte) : list byte :=
  text_in_file b text rodata data ++ zeros (nb_rodata_vaddr b - len (padded text)) ++
  padded rodata ++ zeros (nb_data_vaddr b - (nb_rodata_vaddr b + len (padded rodata))) ++
  padded data.

Definition has_assets (b : NroBuilder) : bool :=
  is_some (nb_icon b) || is_some (nb_nacp b) || is_some (nb_romfs b).

Definition assets_of (b : NroBuilder) : list byte :=
  as_bytes (asset_header_of b) ++ asset_bytes (nb_icon b) ++ asset_bytes (nb_nacp b) ++
  asset_bytes (nb_romfs b).

Definition image_of (b : NroBuilder) (text rodata data : list byte) : list byte :=
  front_of b text rodata data ++ (if has_assets b then assets_of b else []).
End image.

(** ** Lemmas: the builder *)

Lemma padded_spec l :
  ∃ n, padded l = l ++ zeros n ∧ 0 ≤ n ∧ len (padded l) = div_ceil (len l) 0x1000 * 0x1000 ∧
    len (padded l) mod 0x1000 = 0 ∧ (l ≠ [] → 0x1000 ≤ len (padded l)).
Proof.
  unfold padded, pad_to_alignment, vec_resize. pose proof (len_nonneg l).
  assert (len l ≤ div_ceil (len l) 0x1000 * 0x1000) as Hle by (unfold div_ceil; div_lia).
  set (m := div_ceil (len l) 0x1000 * 0x1000) in *. exists (m - len l).
  rewrite ztake_all by done. rewrite len_app, len_zrep by lia.
  split_and!; [done|lia|lia|replace (len l + (m - len l)) with m by lia; by apply Z.mod_mul|].
  intros Hne. assert (0 < len l) by (destruct l; [done|len_lia]).
  replace (len l + (m - len l)) with m by lia. unfold m, div_ceil. div_lia.
Qed.

Lemma len_padded_nonneg l : 0 ≤ len (padded l).
Proof. apply len_nonneg. Qed.

Lemma opt_len_bytes o : opt_len o = len (asset_bytes o).
Proof. by destruct o. Qed.

Section build_lemmas.
Context `{ZC : Zerocopy}.

Lemma new_zeroed_nro_header :
  new_zeroed NroHeader
  = {| nh_magic := 0; nh_version := 0; nh_size := 0; nh_flags := 0;
       nh_segments := replicate 3 (Build_NroSegment 0 0); nh_bss_size := 0; nh_reserved := 0;
       nh_build_id := zeros 0x20; nh_reserved2 := zeros 0x20 |}.
Proof. rewrite new_zeroed_spec. vm_compute. reflexivity. Qed.

Lemma wf_nro_header b text rodata data :
  layout_ok b text rodata data → wf (header_of b text rodata data).
Proof.
  intros L. destruct L. pose proof (len_padded_nonneg text). pose proof (len_padded_nonneg rodata).
  pose proof (len_padded_nonneg data).
  assert (len (default (zeros 32) (nb_build_id b)) = 32).
  { destruct (nb_build_id b) as [id|] eqn:E; [by apply lo_build_id0|done]. }
  cbn. change (256 ^ 4) with 0x100000000. unfold nro_size_of, NRO_MAGIC.
  split_and!; try done; try mlia.
  repeat constructor; cbn; mlia.
Qed.

Lemma wf_asset_header b text rodata data :
  layout_ok b text rodata data → wf (asset_header_of b).
Proof.
  intros []. pose proof (len_nonneg (asset_bytes (nb_icon b))).
  pose proof (len_nonneg (asset_bytes (nb_nacp b))). pose proof (len_nonneg (asset_bytes (nb_romfs b))).
  pose proof (len_padded_nonneg data). pose proof (len_padded_nonneg rodata).
  pose proof (len_padded_nonneg text).
  cbn. change (256 ^ 4) with 0x100000000. change (256 ^ 8) with 0x10000000000000000.
  unfold ASSET_MAGIC. split_and!; try done; repeat case_match; mlia.
Qed.

Lemma len_asset_header b text rodata data :
  layout_ok b text rodata data → len (as_bytes (asset_header_of b)) = 0x38.
Proof. intros L. by rewrite (len_as_bytes _ (wf_asset_header _ _ _ _ L)). Qed.

Lemma len_nro_header b text rodata data :
  layout_ok b text rodata data → len (as_bytes (header_of b text rodata data)) = 0x70.
Proof. intros L. by rewrite (len_as_bytes _ (wf_nro_header _ _ _ _ L)). Qed.

Lemma place_asset_spec o off :
  off + len (asset_bytes o) ≤ USIZE_MAX →
  place_asset o off
    = Some (Build_NroAssetSection (if is_some o then off else 0) (len (asset_bytes o)),
            off + len (asset_bytes o)).
Proof.
  intros H. destruct o as [a|]; cbn [place_asset asset_bytes is_some] in *.
  - bind_step. done.
  - change (@len byte []) with 0. by rewrite Z.add_0_r.
Qed.

Lemma write_asset_spec o l n m pos :
  pos = len l → m = len (asset_bytes o) + n → 0 ≤ n → pos + len (asset_bytes o) ≤ USIZE_MAX →
  write_asset o (l ++ zeros m) pos
    = Some ((l ++ asset_bytes o) ++ zeros n, pos + len (asset_bytes o)).
Proof.
  intros -> -> Hn H. destruct o as [a|]; cbn [write_asset asset_bytes] in *.
  - bind_step. rewrite <-(app_nil_r (zeros (len a + n))), copy_into_zeros by lia. bind_cbn.
    rewrite app_nil_r. do 3 f_equal. f_equal. lia.
  - change (@len byte []) with 0. by rewrite app_nil_r, Z.add_0_r.
Qed.

Lemma write_assets_spec b text rodata data front :
  layout_ok b text rodata data → len front = nro_size_of b data →
  write_assets b (front ++ zeros (0x38 + len (asset_bytes (nb_icon b))
      + len (asset_bytes (nb_nacp b)) + len (asset_bytes (nb_romfs b)))) (nro_size_of b data)
    = Some (front ++ assets_of b).
Proof.
  intros L Hf. pose proof (len_asset_header _ _ _ _ L) as Hah. pose proof L as [].
  unfold nro_size_of in *. pose proof (len_padded_nonneg data). pose proof (len_padded_nonneg rodata).
  pose proof (len_padded_nonneg text).
  set (i := asset_bytes (nb_icon b)) in *. set (n := asset_bytes (nb_nacp b)) in *.
  set (r := asset_bytes (nb_romfs b)) in *.
  pose proof (len_nonneg i). pose proof (len_nonneg n). pose proof (len_nonneg r).
  unfold write_assets.
  rewrite place_asset_spec by (fold i; mlia). bind_cbn. fold i.
  rewrite place_asset_spec by (fold n; mlia). bind_cbn. fold n. bind_step.
  replace (match nb_romfs b with Some _ => _ | None => _ end)
    with (Build_NroAssetSection (if is_some (nb_romfs b) then 0x38 + len i + len n else 0) (len r))
    by (unfold r; by destruct (nb_romfs b)).
  change {| ah_magic := ASSET_MAGIC; ah_version := 0; ah_icon := _; ah_nacp := _; ah_romfs := _ |}
    with (asset_header_of b).
  rewrite <-(app_nil_r (zeros (56 + len i + len n + len r))).
  rewrite copy_into_zeros by (rewrite ?Hah; lia). bind_cbn. rewrite Hah, app_nil_r.
  rewrite (write_asset_spec (nb_icon b) (front ++ as_bytes (asset_header_of b)) (len n + len r))
    by (fold i; rewrite ?len_app, ?Hah; mlia). fold i. bind_cbn.
  rewrite (write_asset_spec (nb_nacp b) ((front ++ as_bytes (asset_header_of b)) ++ i) (len r))
    by (fold n; rewrite ?len_app, ?Hah; mlia). fold n. bind_cbn.
  rewrite (write_asset_spec (nb_romfs b) (((front ++ as_bytes (asset_header_of b)) ++ i) ++ n) 0)
    by (fold r; rewrite ?len_app, ?Hah; mlia). fold r. bind_cbn.
  change (zeros 0) with (@nil byte). unfold assets_of. fold i n r. by rewrite app_nil_r, <-!app_assoc.
Qed.

Lemma len_text_in_file b text rodata data :
  layout_ok b text rodata data →
  len (text_in_file b text rodata data) = len (padded text) ∧ 0x1000 ≤ len (padded text).
Proof.
  intros L. pose proof (len_nro_header _ _ _ _ L) as Hh. destruct L.
  destruct (padded_spec text) as (_ & _ & _ & _ & _ & Hmin). specialize (Hmin lo_text_nonempty0).
  split; [|done]. unfold text_in_file. rewrite !len_app, Hh, len_ztake, len_zdrop; lia.
Qed.

Lemma len_front b text rodata data :
  layout_ok b text rodata data → len (front_of b text rodata data) = nro_size_of b data.
Proof.
  intros L. pose proof (len_text_in_file _ _ _ _ L) as [Ht _]. destruct L. unfold front_of.
  rewrite !len_app, Ht, !len_zeros by lia. unfold nro_size_of. lia.
Qed.

(** The room the assets take after the image, and the size of the whole. *)
Definition assets_size (b : NroBuilder) : Z :=
  if has_assets b then 0x38 + len (asset_bytes (nb_icon b)) + len (asset_bytes (nb_nacp b)) + len (asset_bytes (nb_romfs b))
  else 0.

Lemma total_size_ok b text rodata data :
  layout_ok b text rodata data →
  (if has_assets b
   then checked_sum [nro_size_of b data; 0x38; opt_len (nb_icon b); opt_len (nb_nacp b); opt_len (nb_romfs b)]
   else Some (nro_size_of b data)) = Some (nro_size_of b data + assets_size b) ∧
  0 ≤ assets_size b ∧ 0 ≤ nro_size_of b data + assets_size b ≤ ISIZE_MAX.
Proof.
  intros []. pose proof (len_padded_nonneg text). pose proof (len_padded_nonneg rodata).
  pose proof (len_padded_nonneg data). pose proof (len_nonneg (asset_bytes (nb_icon b))).
  pose proof (len_nonneg (asset_bytes (nb_nacp b))). pose proof (len_nonneg (asset_bytes (nb_romfs b))).
  unfold assets_size, nro_size_of in *. rewrite !opt_len_bytes. destruct (has_assets b).
  - rewrite checked_sum_ok; [split; [cbn; f_equal; lia|lia]|repeat constructor; lia|cbn; mlia].
  - split; [f_equal; lia|]. unfold_max. lia.
Qed.

(** The header goes over bytes [0x10..0x80] of the padded text. *)
Lemma overlay_header b text rodata data rest :
  layout_ok b text rodata data →
  copy_from_slice (padded text ++ rest) 0x10 0x80 (as_bytes (header_of b text rodata data))
    = Some (text_in_file b text rodata data ++ rest).
Proof.
  intros L. destruct (len_text_in_file _ _ _ _ L) as [_ Hmin]. pose proof (len_nro_header _ _ _ _ L) as Hh.
  assert (padded text = ztake 0x10 (padded text) ++ ztake 0x70 (zdrop 0x10 (padded text))
    ++ zdrop 0x80 (padded text)) as Hsplit.
  { rewrite <-(ztake_zdrop 0x10 (padded text)) at 1. f_equal.
    rewrite <-(ztake_zdrop 0x70 (zdrop 0x10 (padded text))) at 1. by rewrite zdrop_zdrop. }
  rewrite Hsplit at 1. rewrite <-!app_assoc.
  rewrite copy_from_slice_mid
    by (rewrite ?len_ztake, ?Hh by (rewrite ?len_zdrop; lia); rewrite ?len_ztake by lia; done).
  unfold text_in_file. by rewrite <-!app_assoc.
Qed.

Lemma nro_build_spec b text rodata data :
  layout_ok b text rodata data → build b = Ok (image_of b text rodata data).
Proof.
  intros L. pose proof L as []. unfold build. rewrite lo_text0, lo_rodata0, lo_data0. bind_cbn.
  unfold build_image. fold (padded text) (padded rodata) (padded data).
  pose proof (len_padded_nonneg text). pose proof (len_padded_nonneg rodata).
  pose proof (len_padded_nonneg data).
  rewrite !as_u32_small by mlia. bind_step. fold (nro_size_of b data) (has_assets b).
  destruct (total_size_ok b text rodata data L) as (-> & Hna & Htotal). bind_cbn.
  rewrite vec_zeroed_ok by lia. bind_cbn.
  set (g1 := nb_rodata_vaddr b - len (padded text)).
  set (g2 := nb_data_vaddr b - (nb_rodata_vaddr b + len (padded rodata))).
  replace (nro_size_of b data + assets_size b)
    with (len (padded text) + (g1 + (len (padded rodata) + (g2 + (len (padded data) + assets_size b)))))
    by (unfold g1, g2, nro_size_of; lia).
  assert (0 ≤ g1 ∧ 0 ≤ g2) as [? ?] by (unfold g1, g2; lia).
  rewrite !zeros_add by lia. rewrite lo_text_vaddr0.
  assert (len (zeros g1) = g1 ∧ len (zeros g2) = g2 ∧ len (zeros (len (padded rodata))) = len (padded rodata)
    ∧ len (zeros (len (padded data))) = len (padded data)) as (Hz1 & Hz2 & Hz3 & Hz4)
    by (split_and!; apply len_zeros; lia).
  rewrite copy_from_slice_start by (rewrite ?len_zeros; lia). bind_cbn.
  rewrite (app_assoc _ (zeros g1)).
  rewrite copy_from_slice_mid by (rewrite ?len_app, ?Hz1, ?Hz3; unfold g1; lia). bind_cbn.
  rewrite (app_assoc _ (padded rodata)), (app_assoc _ (zeros g2)).
  rewrite copy_from_slice_mid
    by (rewrite ?len_app, ?Hz1, ?Hz2, ?Hz4; unfold nro_size_of, g1, g2; lia). bind_cbn.
  rewrite new_zeroed_nro_header.
  change (_ <| nh_build_id := _ |>) with (header_of b text rodata data).
  rewrite <-!app_assoc, (overlay_header b text rodata data _ L). bind_cbn.
  replace (text_in_file b text rodata data ++ _) with (front_of b text rodata data ++ zeros (assets_size b))
    by (unfold front_of; by rewrite <-!app_assoc).
  unfold image_of, assets_size. destruct (has_assets b).
  - by rewrite (write_assets_spec b text rodata data) by (done || by apply len_front).
  - done.
Qed.
End build_lemmas.

(** ** Lemmas: the reader *)

Lemma nro_check_segments_safe idx segs avail :
  Forall wf segs →
  safe (λ _, Forall (λ s, 0 ≤ file_off s ∧ 0 ≤ seg_size s ∧ file_off s + seg_size s ≤ avail ∧
                          file_off s + seg_size s ≤ USIZE_MAX) segs) (check_segments idx segs avail).
Proof.
  intros Hwf. revert idx. induction Hwf as [|s segs Hs _ IH]; intros idx; cbn [check_segments]; [constructor|].
  safe_step e He. apply checked_add_inv in He as [-> Hmax]. safe_step ? Hav.
  eapply safe_mono; [apply IH|]. intros ? Hall. constructor; [|done]. cbn in Hs. lia.
Qed.

Definition asset_in_bounds (s : NroAssetSection) (base avail : Z) : Prop :=
  as_size s = 0 ∨ (base + as_offset s + as_size s ≤ avail ∧ base + as_offset s + as_size s ≤ USIZE_MAX).

Lemma check_asset_safe nm s base avail :
  safe (λ _, asset_in_bounds s base avail) (check_asset nm s base avail).
Proof.
  unfold check_asset, asset_in_bounds. destruct (Z.eqb_spec (as_size s) 0); [by left|].
  safe_step a Ha. apply checked_add_inv in Ha as [-> Hmax].
  safe_step e He. apply checked_add_inv in He as [-> Hmax2].
  eapply safe_mono; [apply safe_guard|]. cbn. intros _ Hg. zify_bool. right. lia.
Qed.

(** What [try_from_bytes] proves of an image. *)
Definition nro_ok (n : Nro) : Prop :=
  length (nh_segments (n_header n)) = 3%nat ∧ 0 ≤ nh_size (n_header n) ∧
  Forall (λ s, 0 ≤ file_off s ∧ 0 ≤ seg_size s ∧ file_off s + seg_size s ≤ len (n_bytes n) ∧
               file_off s + seg_size s ≤ USIZE_MAX) (nh_segments (n_header n)) ∧
  match n_asset_header n with
  | Some h => wf h ∧ ∀ f, f = ah_icon ∨ f = ah_nacp ∨ f = ah_romfs →
      asset_in_bounds (f h) (nh_size (n_header n)) (len (n_bytes n))
  | None => True
  end.

Section read_lemmas.
Context `{ZC : Zerocopy}.

Lemma find_asset_header_some bytes sz :
  0 ≤ sz → ∃ r, find_asset_header bytes sz = Some r ∧ ∀ h, r = Some h → wf h.
Proof.
  intros Hsz. unfold find_asset_header. change (size_of NroAssetHeader) with 0x38.
  destruct (Z.ltb_spec (sz + 0x38) (len bytes)); [|by exists None].
  rewrite get_from_ok by lia. bind_cbn. eexists. split; [done|]. intros h Hh.
  apply bind_Some in Hh as ([h' r] & Hr & Hh). apply ref_from_prefix_inv in Hr as (_ & Hwf & _).
  case_match; by simplify_eq.
Qed.

Lemma wf_nro_header_inv (h : NroHeader) :
  wf h → length (nh_segments h) = 3%nat ∧ 0 ≤ nh_size h ∧ Forall wf (nh_segments h).
Proof. cbn. intros H. destruct_and? H. done. Qed.

Lemma try_from_bytes_nro_safe bytes : safe nro_ok (try_from_bytes bytes).
Proof.
  unfold try_from_bytes. change (size_of NroStart + size_of NroHeader) with 0x80.
  safe_step ? Hlen. safe_step [st r] Hst. rewrite get_from_ok by lia. bind_cbn.
  safe_step [h r'] Hh. apply ref_from_prefix_inv in Hh as (_ & Hwf & _).
  apply wf_nro_header_inv in Hwf as (Hl & Hsz & Hsegs).
  safe_step ? Hm. eapply safe_bind; [by apply nro_check_segments_safe|]. intros ? Hb.
  destruct (find_asset_header_some bytes (nh_size h) Hsz) as (ah & -> & Hah). bind_cbn.
  destruct ah as [ah|].
  - eapply (safe_bind (λ _, ∀ f, f = ah_icon ∨ f = ah_nacp ∨ f = ah_romfs →
      asset_in_bounds (f ah) (nh_size h) (len bytes))).
    { unfold check_assets. eapply safe_bind; [apply check_asset_safe|]. intros ? Hi.
      eapply safe_bind; [apply check_asset_safe|]. intros ? Hn.
      eapply safe_mono; [apply check_asset_safe|]. intros ? Hr f [-> | [-> | ->]]; done. }
    intros ? Hall. bind_cbn. cbn [safe]. unfold nro_ok. cbn [n_header n_bytes n_asset_header].
    split_and!; [done|done|done|by apply Hah|done].
  - bind_cbn. cbn [safe]. unfold nro_ok. cbn [n_header n_bytes n_asset_header]. done.
Qed.
End read_lemmas.

Lemma nro_segment_ok n i :
  nro_ok n → 0 ≤ i < 3 → ∃ s d, index (nh_segments (n_header n)) i = Some s ∧
    segment n i = Some d ∧ get_range (n_bytes n) (file_off s) (file_off s + seg_size s) = Some d.
Proof.
  intros (Hl & _ & Hall & _) Hi.
  destruct (index_in_range (nh_segments (n_header n)) i) as [s Hs]; [unfold len; lia|].
  assert (0 ≤ file_off s ∧ 0 ≤ seg_size s ∧ file_off s + seg_size s ≤ len (n_bytes n) ∧
    file_off s + seg_size s ≤ USIZE_MAX) as (? & ? & ? & ?).
  { unfold index in Hs. rewrite (proj2 (Z.leb_le _ _)) in Hs by lia.
    eapply Forall_lookup_1 in Hs; [|exact Hall]. done. }
  exists s. unfold segment. rewrite Hs. bind_cbn. rewrite checked_add_ok by done. bind_cbn.
  rewrite get_range_ok by lia. eauto.
Qed.

(** An asset section that is present, or whose recorded place is addressable, reads in bounds. *)
Lemma asset_section_ok n f h :
  nro_ok n → n_asset_header n = Some h → f = ah_icon ∨ f = ah_nacp ∨ f = ah_romfs →
  nh_size (n_header n) + as_offset (f h) ≤ USIZE_MAX → asset_section n f ≠ None.
Proof.
  intros (_ & Hsz & _ & Hah) Hh Hf Hmax. rewrite Hh in Hah. destruct Hah as [Hwf Hb].
  specialize (Hb f Hf). unfold asset_section. rewrite Hh, checked_add_ok by done. bind_cbn.
  destruct (Z.eqb_spec (as_size (f h)) 0); [done|]. destruct Hb as [|[? ?]]; [done|].
  rewrite checked_add_ok by lia. bind_cbn.
  assert (0 ≤ as_offset (f h) ∧ 0 ≤ as_size (f h)).
  { cbn in Hwf. destruct Hf as [-> | [-> | ->]]; lia. }
  by rewrite get_range_ok by lia.
Qed.

(** An asset that lies between two others. *)
Lemma asset_section_at n f h l m r :
  n_asset_header n = Some h → n_bytes n = l ++ m ++ r → len (n_bytes n) ≤ USIZE_MAX →
  as_size (f h) = len m → (m ≠ [] → nh_size (n_header n) + as_offset (f h) = len l) →
  nh_size (n_header n) + as_offset (f h) ≤ USIZE_MAX →
  asset_section n f = Some (visible (Some m)).
Proof.
  intros Hh Hb Hmax Hs Ho Ho2. unfold asset_section. rewrite Hh, checked_add_ok by done. bind_cbn.
  rewrite Hs. destruct m as [|x m]; [done|]. rewrite Ho by done.
  rewrite (proj2 (Z.eqb_neq _ _)) by len_lia. rewrite Hb in *.
  rewrite checked_add_ok by len_lia. bind_cbn. by rewrite get_range_mid.
Qed.

(** ** Lemmas: the built image read back *)

Section round_trip.
Context `{ZC : Zerocopy}.
Variables (b : NroBuilder) (text rodata data : list byte).
Hypothesis L : layout_ok b text rodata data.

#[local] Abbreviation img := (image_of b text rodata data).
#[local] Abbreviation assets := (if has_assets b then assets_of b else []).
#[local] Abbreviation h := (header_of b text rodata data).

Definition read_asset_header : option NroAssetHeader :=
  if 0 <? len (asset_bytes (nb_icon b)) + len (asset_bytes (nb_nacp b)) + len (asset_bytes (nb_romfs b))
  then Some (asset_header_of b) else None.

Lemma len_assets_of :
  len (assets_of b) = 0x38 + len (asset_bytes (nb_icon b)) + len (asset_bytes (nb_nacp b))
    + len (asset_bytes (nb_romfs b)).
Proof.
  unfold assets_of. rewrite !len_app, (len_asset_header _ _ _ _ L). lia.
Qed.

Lemma len_nro_image : len img = nro_size_of b data + len assets.
Proof. unfold image_of. rewrite len_app, (len_front _ _ _ _ L). done. Qed.

Lemma no_assets_empty :
  has_assets b = false → asset_bytes (nb_icon b) = [] ∧ asset_bytes (nb_nacp b) = []
    ∧ asset_bytes (nb_romfs b) = [].
Proof. unfold has_assets. by destruct (nb_icon b), (nb_nacp b), (nb_romfs b). Qed.

Lemma read_assets : find_asset_header img (nro_size_of b data) = Some read_asset_header.
Proof.
  pose proof len_nro_image as Hl. unfold find_asset_header, read_asset_header.
  change (size_of NroAssetHeader) with 56. pose proof L as [].
  pose proof (len_padded_nonneg data). pose proof (len_padded_nonneg rodata).
  pose proof (len_padded_nonneg text).
  assert (0 ≤ nro_size_of b data) by (unfold nro_size_of; lia).
  pose proof (len_nonneg (asset_bytes (nb_icon b))). pose proof (len_nonneg (asset_bytes (nb_nacp b))).
  pose proof (len_nonneg (asset_bytes (nb_romfs b))).
  destruct (has_assets b) eqn:Ha.
  2:{ destruct (no_assets_empty Ha) as (-> & -> & ->). rewrite len_nil in *. by settle. }
  rewrite len_assets_of in Hl. destruct (Z.ltb_spec 0 (len (asset_bytes (nb_icon b))
    + len (asset_bytes (nb_nacp b)) + len (asset_bytes (nb_romfs b)))); settle; [|done].
  rewrite get_from_ok by lia. bind_cbn. unfold image_of. rewrite Ha.
  rewrite zdrop_app_eq by (by rewrite (len_front _ _ _ _ L)). unfold assets_of.
  rewrite ref_from_prefix_as_bytes by exact (wf_asset_header _ _ _ _ L). bind_cbn. done.
Qed.

Lemma read_nro_image :
  try_from_bytes img
    = Ok {| n_bytes := img; n_start := of_bytes (ztake 0x10 (padded text)); n_header := h;
            n_asset_header := read_asset_header |}.
Proof.
  pose proof len_nro_image as Hl. pose proof (len_nonneg assets).
  destruct (len_text_in_file _ _ _ _ L) as [_ Hmin]. pose proof (len_nro_header _ _ _ _ L) as Hh.
  pose proof L as []. pose proof (len_padded_nonneg data). pose proof (len_padded_nonneg rodata).
  unfold nro_size_of in *. unfold try_from_bytes.
  change (size_of NroStart + size_of NroHeader) with 128. settle. bind_cbn.
  rewrite ref_from_prefix_ok by (change (size_of NroStart) with 16; lia).
  change (size_of NroStart) with 16. bind_cbn. rewrite get_from_ok by lia. bind_cbn.
  assert (ztake 16 img = ztake 16 (padded text)
    ∧ ∃ rest, zdrop 16 img = as_bytes h ++ rest) as [-> [rest ->]].
  { unfold image_of, front_of, text_in_file. rewrite <-!app_assoc.
    rewrite ztake_app_eq, zdrop_app_eq by (rewrite len_ztake; lia). eauto. }
  rewrite ref_from_prefix_as_bytes by exact (wf_nro_header _ _ _ _ L). bind_cbn.
  change (nh_magic h) with NRO_MAGIC. rewrite Z.eqb_refl. cbn [negb]. bind_cbn.
  cbn [nh_segments header_of check_segments file_off seg_size].
  do 3 (bind_step; rewrite (proj2 (Z.ltb_ge _ _)) by lia; bind_cbn).
  change (nh_size h) with (nro_size_of b data). rewrite read_assets. bind_cbn.
  unfold read_asset_header. destruct (Z.ltb_spec 0 (len (asset_bytes (nb_icon b))
    + len (asset_bytes (nb_nacp b)) + len (asset_bytes (nb_romfs b)))) as [Hpos|_]; [|done].
  assert (len assets = 56 + len (asset_bytes (nb_icon b)) + len (asset_bytes (nb_nacp b))
    + len (asset_bytes (nb_romfs b))) as Hla.
  { destruct (has_assets b) eqn:Ha; [by apply len_assets_of|].
    destruct (no_assets_empty Ha) as (E1 & E2 & E3). exfalso. revert Hpos. by rewrite E1, E2, E3. }
  pose proof (len_nonneg (asset_bytes (nb_icon b))). pose proof (len_nonneg (asset_bytes (nb_nacp b))).
  pose proof (len_nonneg (asset_bytes (nb_romfs b))).
  assert (∀ nm off sz, 0 ≤ off → 0 ≤ sz → off + sz ≤ 56 + len (asset_bytes (nb_icon b))
      + len (asset_bytes (nb_nacp b)) + len (asset_bytes (nb_romfs b)) →
    check_asset nm (Build_NroAssetSection off sz) (nro_size_of b data) (len img) = Ok tt) as Hchk.
  { intros nm off sz Ho Hs Hle. unfold check_asset. cbn [as_size as_offset].
    destruct (Z.eqb_spec sz 0); [done|]. unfold nro_size_of. bind_step. bind_step.
    by rewrite (proj2 (Z.ltb_ge _ _)) by lia. }
  clear Hl Hla. unfold check_assets, asset_header_of. cbn [ah_icon ah_nacp ah_romfs].
  rewrite Hchk by (repeat case_match; lia). bind_cbn. rewrite Hchk by (repeat case_match; lia). bind_cbn.
  rewrite Hchk by (repeat case_match; lia). bind_cbn. done.
Qed.
Lemma image_segments :
  ∀ hd, text_segment {| n_bytes := img; n_start := of_bytes (ztake 0x10 (padded text));
    n_header := h; n_asset_header := hd |} = Some (text_in_file b text rodata data) ∧
  rodata_segment {| n_bytes := img; n_start := of_bytes (ztake 0x10 (padded text));
    n_header := h; n_asset_header := hd |} = Some (padded rodata) ∧
  data_segment {| n_bytes := img; n_start := of_bytes (ztake 0x10 (padded text));
    n_header := h; n_asset_header := hd |} = Some (padded data).
Proof.
  intros hd. destruct (len_text_in_file _ _ _ _ L) as [Ht Hmin]. pose proof L as [].
  pose proof (len_padded_nonneg data). pose proof (len_padded_nonneg rodata).
  unfold text_segment, rodata_segment, data_segment, segment. cbn [n_header n_bytes].
  unfold image_of, front_of. split_and!.
  - change (index _ 0) with (Some (Build_NroSegment 0 (len (padded text)))). bind_cbn.
    cbn [file_off seg_size]. rewrite checked_add_ok by mlia. bind_cbn. rewrite <-!app_assoc.
    by apply (get_range_mid []).
  - change (index _ 1) with (Some (Build_NroSegment (nb_rodata_vaddr b) (len (padded rodata)))). bind_cbn.
    cbn [file_off seg_size]. rewrite checked_add_ok by mlia. bind_cbn. rewrite <-!app_assoc, (app_assoc _ (zeros _)).
    apply get_range_mid; rewrite len_app, Ht, len_zeros by lia; lia.
  - change (index _ 2) with (Some (Build_NroSegment (nb_data_vaddr b) (len (padded data)))). bind_cbn.
    cbn [file_off seg_size]. rewrite checked_add_ok by mlia. bind_cbn.
    rewrite (app_assoc (padded rodata)), (app_assoc (zeros _)), (app_assoc (text_in_file _ _ _ _)), <-app_assoc.
    apply get_range_mid; rewrite !len_app, Ht, !len_zeros by lia; lia.
Qed.

Lemma image_assets :
  ∀ st, let n := {| n_bytes := img; n_start := st; n_header := h; n_asset_header := read_asset_header |} in
  asset_icon n = Some (visible (nb_icon b)) ∧ asset_nacp n = Some (visible (nb_nacp b)) ∧
  asset_romfs n = Some (visible (nb_romfs b)).
Proof.
  intros st n. pose proof len_nro_image as Hl. pose proof L as [].
  pose proof (len_padded_nonneg data). pose proof (len_padded_nonneg rodata).
  pose proof (len_padded_nonneg text).
  pose proof (len_nonneg (asset_bytes (nb_icon b))). pose proof (len_nonneg (asset_bytes (nb_nacp b))).
  pose proof (len_nonneg (asset_bytes (nb_romfs b))).
  assert (∀ o, visible o = visible (Some (asset_bytes o))) as Hv by (by intros [[|]|]).
  assert (∀ o, asset_bytes o = [] → visible o = None) as Hnone by (by intros [[|]|]).
  assert (∀ o : option (list byte), asset_bytes o ≠ [] → is_some o = true) as Hsome by (by intros [|]).
  destruct (Z.ltb_spec 0 (len (asset_bytes (nb_icon b)) + len (asset_bytes (nb_nacp b))
    + len (asset_bytes (nb_romfs b)))) as [Hpos|Hz].
  - assert (n_asset_header n = Some (asset_header_of b)) as Hh.
    { unfold n, read_asset_header. cbn [n_asset_header]. by rewrite (proj2 (Z.ltb_lt _ _)). }
    assert (has_assets b = true) as Ha.
    { destruct (has_assets b) eqn:Ha; [done|]. destruct (no_assets_empty Ha) as (E1 & E2 & E3).
      exfalso. revert Hpos. by rewrite E1, E2, E3. }
    rewrite Ha, len_assets_of in Hl. unfold nro_size_of in Hl.
    assert (n_bytes n = front_of b text rodata data ++ assets_of b) as Hb.
    { unfold n, image_of. by rewrite Ha. }
    pose proof (len_front _ _ _ _ L) as Hf. pose proof (len_asset_header _ _ _ _ L) as Hah.
    assert (len (n_bytes n) ≤ USIZE_MAX) as Hmax by (unfold n; cbn [n_bytes]; mlia).
    unfold asset_icon, asset_nacp, asset_romfs. rewrite !(Hv (nb_icon b)), (Hv (nb_nacp b)), (Hv (nb_romfs b)).
    unfold nro_size_of in *. split_and!; eapply asset_section_at; try exact Hh; try exact Hmax; try done.
    + rewrite Hb. unfold assets_of. by rewrite (app_assoc (front_of _ _ _ _)).
    + intros E. cbn [asset_header_of ah_icon as_offset]. rewrite (Hsome _ E).
      unfold n. cbn [n_header header_of nh_size]. rewrite len_app, Hf, Hah. done.
    + cbn [asset_header_of ah_icon as_offset n_header header_of nh_size n]. unfold nro_size_of.
      repeat case_match; mlia.
    + rewrite Hb. unfold assets_of. by rewrite (app_assoc (front_of _ _ _ _)), (app_assoc _ (asset_bytes _)).
    + intros E. cbn [asset_header_of ah_nacp as_offset]. rewrite (Hsome _ E).
      unfold n. cbn [n_header header_of nh_size]. rewrite !len_app, Hf, Hah. unfold nro_size_of. lia.
    + cbn [asset_header_of ah_nacp as_offset n_header header_of nh_size n]. unfold nro_size_of.
      repeat case_match; mlia.
    + rewrite Hb. unfold assets_of. rewrite (app_assoc (front_of _ _ _ _)), (app_assoc _ (asset_bytes _)).
      rewrite <-(app_nil_r (asset_bytes (nb_romfs b))) at 1. by rewrite (app_assoc _ (asset_bytes (nb_nacp b))).
    + intros E. cbn [asset_header_of ah_romfs as_offset]. rewrite (Hsome _ E).
      unfold n. cbn [n_header header_of nh_size]. rewrite !len_app, Hf, Hah. unfold nro_size_of. lia.
    + cbn [asset_header_of ah_romfs as_offset n_header header_of nh_size n]. unfold nro_size_of.
      repeat case_match; mlia.
  - assert (n_asset_header n = None) as Hh.
    { unfold n, read_asset_header. cbn [n_asset_header]. by rewrite (proj2 (Z.ltb_ge _ _)). }
    assert (∀ l : list byte, len l ≤ 0 → l = []) as Hnil by (intros []; [done|len_lia]).
    rewrite !Hnone by (apply Hnil; lia). unfold asset_icon, asset_nacp, asset_romfs, asset_section. by rewrite Hh.
Qed.
End round_trip.

Lemma copy_from_slice_overrun {A} (l k : list A) a e : len l < e → copy_from_slice l a e k = None.
Proof.
  intros H. unfold copy_from_slice. repeat case_match; try done; zify_bool; lia.
Qed.

Lemma len_copy_from_slice {A} (l k r : list A) a e : copy_from_slice l a e k = Some r → len r = len l.
Proof.
  unfold copy_from_slice. repeat case_match; intros; simplify_eq; zify_bool.
  rewrite !len_app, len_ztake, len_zdrop; lia.
Qed.

Lemma build_image_overrun `{ZC : Zerocopy} b text rodata data :
  has_assets b = false → is_u32 (nb_data_vaddr b) → len (padded data) ≤ U32_MAX →
  nb_data_vaddr b + len (padded data) < Z.max (nb_text_vaddr b + len (padded text))
                                          (nb_rodata_vaddr b + len (padded rodata)) →
  build_image b text rodata data = None.
Proof.
  intros Ha Hv Hsz Hlt. unfold build_image. fold (padded text) (padded rodata) (padded data) (has_assets b).
  rewrite Ha. pose proof (len_padded_nonneg data). rewrite (as_u32_small (len (padded data))) by mlia.
  unfold checked_add_u32. destruct (Z.leb_spec (nb_data_vaddr b + len (padded data)) U32_MAX); [|done].
  bind_cbn. rewrite vec_zeroed_ok by mlia. bind_cbn.
  destruct (copy_from_slice (zeros _) _ _ _) as [b1|] eqn:E1; [|done]. bind_cbn.
  destruct (copy_from_slice b1 _ _ _) as [b2|] eqn:E2; [|done]. exfalso.
  pose proof (len_copy_from_slice _ _ _ _ _ E1) as Hl.
  destruct (Z.max_spec (nb_text_vaddr b + len (padded text)) (nb_rodata_vaddr b + len (padded rodata)))
    as [[_ Hm]|[_ Hm]]; rewrite Hm in Hlt.
  - rewrite copy_from_slice_overrun in E2; [done|]. rewrite Hl, (len_zrep_max _ x00 : len (zeros _) = _). mlia.
  - rewrite copy_from_slice_overrun in E1; [done|]. rewrite (len_zrep_max _ x00 : len (zeros _) = _). mlia.
Qed.

(** ** Lemmas: an image followed by anything *)

Definition with_bytes (n : Nro) (bytes : list byte) : Nro :=
  {| n_bytes := bytes; n_start := n_start n; n_header := n_header n; n_asset_header := n_asset_header n |}.

Lemma check_segments_more n n' segs : ∀ idx u,
  check_segments idx segs n = Ok u → n ≤ n' → check_segments idx segs n' = Ok u.
Proof.
  induction segs as [|s segs IH]; intros idx u; [done|]. cbn [check_segments].
  destruct (checked_add (file_off s) (seg_size s)) as [e|]; bind_cbn; [|done].
  destruct (Z.ltb_spec n e); [done|]. intros H1 Hn. rewrite (proj2 (Z.ltb_ge _ _)) by lia. bind_cbn. by apply IH.
Qed.

Lemma check_asset_more n n' nm s base u :
  check_asset nm s base n = Ok u → n ≤ n' → check_asset nm s base n' = Ok u.
Proof.
  unfold check_asset. destruct (as_size s =? 0); [done|]. destruct (checked_add base (as_offset s)) as [a|]; bind_cbn; [|done].
  destruct (checked_add a (as_size s)) as [e|]; bind_cbn; [|done].
  destruct (Z.ltb_spec n e); [done|]. intros _ Hn. rewrite (proj2 (Z.ltb_ge _ _)) by lia. by destruct u.
Qed.

Lemma check_assets_more n n' h base u :
  check_assets h base n = Ok u → n ≤ n' → check_assets h base n' = Ok u.
Proof.
  unfold check_assets. intros (? & H1 & (? & H2 & H3)%bind_ok_inv)%bind_ok_inv Hn.
  rewrite (check_asset_more _ _ _ _ _ _ H1 Hn). bind_cbn. rewrite (check_asset_more _ _ _ _ _ _ H2 Hn). bind_cbn.
  by apply (check_asset_more n).
Qed.

Section more.
Context `{ZC : Zerocopy}.

(** When the place of an asset header lies in the image, what follows the image does not matter. *)
Lemma find_asset_header_app l k sz r :
  0 ≤ sz → sz + 0x38 < len l → find_asset_header l sz = Some r → find_asset_header (l ++ k) sz = Some r.
Proof.
  intros Hsz Hl. unfold find_asset_header. change (size_of NroAssetHeader) with 0x38. pose proof (len_nonneg k).
  rewrite !(proj2 (Z.ltb_lt _ _)) by (rewrite ?len_app; lia). rewrite !get_from_ok by (rewrite ?len_app; lia). bind_cbn.
  rewrite zdrop_app_le by lia.
  destruct (ref_from_prefix NroAssetHeader (zdrop sz l)) as [[h rest]|] eqn:Hh.
  - by rewrite (ref_from_prefix_app _ _ _ _ Hh).
  - apply ref_from_prefix_None in Hh. change (size_of NroAssetHeader) with 0x38 in Hh. rewrite len_zdrop in Hh by lia. lia.
Qed.

Lemma nro_try_from_bytes_app l k n :
  try_from_bytes l = Ok n → nh_size (n_header n) + 0x38 < len l →
  try_from_bytes (l ++ k) = Ok (with_bytes n (l ++ k)).
Proof.
  unfold try_from_bytes. set (min_size := size_of NroStart + size_of NroHeader). pose proof (len_nonneg k).
  assert (len l ≤ len (l ++ k)) as Hle by (rewrite len_app; lia).
  intros (? & Hlen%guard_err_ok_inv & H1)%bind_ok_inv Hasset. zify_bool. rewrite (proj2 (Z.ltb_ge _ _)) by lia. bind_cbn.
  apply bind_ok_inv in H1 as ([st r] & Hst%ok_or_ok_inv & H1). rewrite (ref_from_prefix_app _ _ _ _ Hst). bind_cbn.
  assert (0x10 ≤ len l) as H10 by (apply ref_from_prefix_inv in Hst as [? _]; done).
  rewrite !get_from_ok in * by (unfold len in *; lia). bind_cbn. cbn [or_panic mbind outcome_bind] in H1.
  rewrite zdrop_app_le by lia.
  apply bind_ok_inv in H1 as ([h r'] & Hh%ok_or_ok_inv & H1). rewrite (ref_from_prefix_app _ _ _ _ Hh). bind_cbn.
  assert (0 ≤ nh_size h) as Hsz by (apply ref_from_prefix_inv in Hh as (_ & (_ & ? & _)%wf_nro_header_inv & _); done).
  apply bind_ok_inv in H1 as (? & -> & H1). bind_cbn.
  apply bind_ok_inv in H1 as (? & Hs & H1). rewrite (check_segments_more _ _ _ _ _ Hs Hle). bind_cbn.
  apply bind_ok_inv in H1 as (ah & Hah & H1).
  destruct (find_asset_header l (nh_size h)) as [ah'|] eqn:Hf; [|done]. injection Hah as ->.
  apply bind_ok_inv in H1 as (? & Ha & [= <-]). cbn [n_header] in Hasset.
  rewrite (find_asset_header_app l k _ _ Hsz Hasset Hf). bind_cbn.
  destruct ah as [ah|]; [rewrite (check_assets_more _ _ _ _ _ Ha Hle)|]; done.
Qed.
End more.

Lemma nro_bytes `{ZC : Zerocopy} bytes n : try_from_bytes bytes = Ok n → n_bytes n = bytes.
Proof.
  unfold try_from_bytes. intros H. repeat (apply bind_ok_inv in H as (? & _ & H); try case_match); by injection H as <-.
Qed.

Lemma segment_app n k i d :
  segment n i = Some d → segment (with_bytes n (n_bytes n ++ k)) i = Some d.
Proof.
  unfold segment, with_bytes. cbn [n_header n_bytes]. destruct (index _ i) as [s|]; cbn [mbind option_bind]; [|done].
  destruct (checked_add _ _); cbn [mbind option_bind]; [|done]. apply get_range_app.
Qed.

Lemma asset_section_app n k f o :
  asset_section n f = Some o → asset_section (with_bytes n (n_bytes n ++ k)) f = Some o.
Proof.
  unfold asset_section, with_bytes. cbn [n_header n_bytes n_asset_header]. destruct (n_asset_header n) as [h|]; [|done].
  destruct (checked_add _ (as_offset (f h))) as [off|]; cbn [mbind option_bind]; [|done].
  destruct (as_size (f h) =? 0); [done|]. destruct (checked_add off _); cbn [mbind option_bind]; [|done].
  intros (b & Hb & Ho)%bind_Some. by rewrite (get_range_app _ _ _ _ _ Hb).
Qed.

(** ** Properties *)

Section properties.
Context `{ZC : Zerocopy}.

(** C9. A built NRO reads back as it was configured. When the segments are placed in order from
    address 0 without overlap, [build] succeeds and [try_from_bytes] accepts the image; the rodata
    and data segments are the builder's, zero-padded to pages; the text segment is the padded text
    except for bytes [0x10..0x80], which hold the header; the entry stub is the text's first 16
    bytes; the build id and the header fields come back; and each asset reads back, an empty one
    as absent. *)
Theorem nro_round_trip b text rodata data :
  layout_ok b text rodata data →
  ∃ image n t, build b = Ok image ∧ try_from_bytes image = Ok n ∧
    text_segment n = Some t ∧ len t = len (padded text) ∧
    ztake 0x10 t = ztake 0x10 (padded text) ∧ zdrop 0x80 t = zdrop 0x80 (padded text) ∧
    to_bytes (n_start n) = ztake 0x10 (padded text) ∧
    rodata_segment n = Some (padded rodata) ∧ data_segment n = Some (padded data) ∧
    build_id n = default (zeros 0x20) (nb_build_id b) ∧
    nh_flags (n_header n) = nb_flags b ∧ nh_bss_size (n_header n) = nb_bss_size b ∧
    asset_icon n = Some (visible (nb_icon b)) ∧ asset_nacp n = Some (visible (nb_nacp b)) ∧
    asset_romfs n = Some (visible (nb_romfs b)).
Proof.
  intros L. eexists _, _, (text_in_file b text rodata data).
  split; [exact (nro_build_spec _ _ _ _ L)|]. split; [exact (read_nro_image _ _ _ _ L)|].
  destruct (len_text_in_file _ _ _ _ L) as [Ht Hmin]. pose proof (len_nro_header _ _ _ _ L) as Hh.
  destruct (image_segments _ _ _ _ L (read_asset_header b)) as (S0 & S1 & S2).
  destruct (image_assets _ _ _ _ L (of_bytes (ztake 0x10 (padded text)))) as (A0 & A1 & A2).
  split_and!; [exact S0|exact Ht| | | |exact S1|exact S2|done|done|done|exact A0|exact A1|exact A2].
  - unfold text_in_file. by rewrite ztake_app_eq by (rewrite len_ztake; lia).
  - unfold text_in_file. rewrite app_assoc. by rewrite zdrop_app_eq by (rewrite len_app, Hh, len_ztake; lia).
  - cbn [n_start]. apply to_of_bytes. change (size_of NroStart) with 16. rewrite len_ztake; lia.
Qed.

(** C34. Reading an untrusted NRO is safe: [try_from_bytes] never panics, and in an image it accepts
    each segment accessor returns the slice its header entry describes. An asset accessor either
    reads in bounds or panics, and it panics exactly when [base + offset] overflows, which
    [try_from_bytes] lets pass only for a section whose size is zero. *)
Theorem nro_reader_safe bytes :
  try_from_bytes bytes ≠ Panic ∧
  ∀ n, try_from_bytes bytes = Ok n →
    (∀ i, 0 ≤ i < 3 → ∃ s d, index (nh_segments (n_header n)) i = Some s ∧ segment n i = Some d ∧
       get_range (n_bytes n) (file_off s) (file_off s + seg_size s) = Some d) ∧
    ∀ f, f = ah_icon ∨ f = ah_nacp ∨ f = ah_romfs →
      (asset_section n f = None ↔
       ∃ h, n_asset_header n = Some h ∧ USIZE_MAX < nh_size (n_header n) + as_offset (f h) ∧
         as_size (f h) = 0).
Proof.
  pose proof (try_from_bytes_nro_safe bytes) as Hs. split; [by eapply safe_no_panic|].
  intros n Hn. pose proof (safe_ok _ _ _ Hs Hn) as Hok. split; [intros; by apply nro_segment_ok|].
  intros f Hf. split.
  - intros Ha. destruct (n_asset_header n) as [h|] eqn:Hh; [|by unfold asset_section in Ha; rewrite Hh in Ha].
    exists h. split; [done|].
    destruct (Z.le_gt_cases (nh_size (n_header n) + as_offset (f h)) USIZE_MAX) as [Hle|Hgt].
    { by destruct (asset_section_ok n f h Hok Hh Hf Hle). }
    split; [lia|]. destruct Hok as (_ & _ & _ & Hb). rewrite Hh in Hb. destruct Hb as [Hwf Hb].
    destruct (Hb f Hf) as [?|[_ ?]]; [done|].
    assert (0 ≤ as_size (f h)) by (cbn in Hwf; destruct Hf as [-> | [-> | ->]]; lia). lia.
  - intros (h & Hh & Hgt & _). unfold asset_section, checked_add. rewrite Hh.
    by rewrite (proj2 (Z.leb_gt _ _)).
Qed.

(** A builder without assets whose text or rodata would end past the end of its data segment,
    as when the segments are given out of address order, makes [build] panic rather than return an
    error; the only errors are the three missing segments, reported in order. *)
Theorem nro_build_errors b :
  (∀ e, build b = Err e ↔
     (nb_text b = None ∧ e = MissingText) ∨
     (nb_text b ≠ None ∧ nb_rodata b = None ∧ e = MissingRodata) ∨
     (nb_text b ≠ None ∧ nb_rodata b ≠ None ∧ nb_data b = None ∧ e = MissingData)) ∧
  ∀ text rodata data,
    nb_text b = Some text → nb_rodata b = Some rodata → nb_data b = Some data → has_assets b = false →
    is_u32 (nb_data_vaddr b) → len (padded data) ≤ U32_MAX →
    nb_data_vaddr b + len (padded data) < Z.max (nb_text_vaddr b + len (padded text))
                                            (nb_rodata_vaddr b + len (padded rodata)) →
    build b = Panic.
Proof.
  split.
  - intros e. unfold build. destruct (nb_text b), (nb_rodata b), (nb_data b); bind_cbn;
      [destruct (build_image _ _ _ _)|..]; cbn [or_panic]; split; intros; destruct_or?; destruct_and?;
      simplify_eq; naive_solver.
  - intros text rodata data Ht Hr Hd Ha Hv Hsz Hlt. unfold build. rewrite Ht, Hr, Hd. bind_cbn.
    rewrite build_image_overrun; done.
Qed.

(** An image in memory reads as it does from a buffer that holds it. The place where an asset header
    would be has to be known, since [try_from_ptr] looks there whether or not the image has one: then
    it accepts the image with the same header and asset header, and every segment and every asset
    the buffer gives, memory gives. *)
Theorem nro_try_from_ptr mem ptr bytes n :
  mem_holds mem ptr bytes → len bytes ≤ ISIZE_MAX → try_from_bytes bytes = Ok n →
  nh_size (n_header n) + 0x38 < len bytes →
  ∃ n', try_from_ptr mem ptr = Ok n' ∧ n_start n' = n_start n ∧ n_header n' = n_header n ∧
    n_asset_header n' = n_asset_header n ∧ (∀ i d, segment n i = Some d → segment n' i = Some d) ∧
    ∀ f o, asset_section n f = Some o → asset_section n' f = Some o.
Proof.
  intros Hb Hl Hn Hasset. unfold try_from_ptr. change (USIZE_MAX / 2) with ISIZE_MAX.
  destruct (from_raw_parts_holds mem ptr bytes ISIZE_MAX Hb Hl) as (rest & -> & _).
  rewrite (nro_try_from_bytes_app _ rest _ Hn Hasset). eexists. split; [done|]. do 3 (split; [done|]).
  rewrite <-(nro_bytes bytes n Hn). split; [intros i d; apply segment_app|intros f o; apply asset_section_app].
Qed.
End properties.

(** ** Witnesses *)

Definition sample_nro : NroBuilder :=
  nro_asset_romfs (nro_asset_icon (nro_build_id (nro_bss_size (nro_data_vaddr (nro_data
    (nro_rodata_vaddr (nro_rodata (nro_text NroBuilder_new [x01; x02; x03]) [x04]) 0x2000)
    [x05; x06]) 0x3000) 0x100) (zrep 0x20 x11)) [xff; xd8]) [].

Lemma sample_nro_layout : layout_ok sample_nro [x01; x02; x03] [x04] [x05; x06].
Proof. split; try (vm_compute; first [reflexivity | discriminate | split; discriminate]). by intros ? [= <-]. Qed.

Lemma nro_round_trip_witness :
  ∃ image n t, @build zerocopy_reference sample_nro = Ok image ∧
    @try_from_bytes zerocopy_reference image = Ok n ∧
    text_segment n = Some t ∧ len t = len (padded [x01; x02; x03]) ∧
    ztake 0x10 t = ztake 0x10 (padded [x01; x02; x03]) ∧ zdrop 0x80 t = zdrop 0x80 (padded [x01; x02; x03]) ∧
    to_bytes (n_start n) = ztake 0x10 (padded [x01; x02; x03]) ∧
    rodata_segment n = Some (padded [x04]) ∧ data_segment n = Some (padded [x05; x06]) ∧
    build_id n = zrep 0x20 x11 ∧ nh_flags (n_header n) = 0 ∧ nh_bss_size (n_header n) = 0x100 ∧
    asset_icon n = Some (Some [xff; xd8]) ∧ asset_nacp n = Some None ∧ asset_romfs n = Some None.
Proof. apply (@nro_round_trip zerocopy_reference sample_nro _ _ _ sample_nro_layout). Defined.

(** The zero-size asset section that [try_from_bytes] lets through and [asset_icon] panics on. *)
Definition crafted_image : list byte :=
  zeros 0x10 ++ le_bytes 4 NRO_MAGIC ++ zeros 4 ++ le_bytes 4 0x80 ++ zeros 100 ++
  le_bytes 4 ASSET_MAGIC ++ zeros 4 ++ le_bytes 8 USIZE_MAX ++ zeros 8 ++ zeros 33.

Lemma nro_reader_safe_witness :
  ∃ n h, @try_from_bytes zerocopy_reference crafted_image = Ok n ∧ n_asset_header n = Some h ∧
    as_size (ah_icon h) = 0 ∧ asset_icon n = None.
Proof.
  destruct (@nro_reader_safe zerocopy_reference crafted_image) as [_ H].
  assert (∃ n h, @try_from_bytes zerocopy_reference crafted_image = Ok n ∧ n_asset_header n = Some h
    ∧ nh_size (n_header n) + as_offset (ah_icon h) = 0x80 + USIZE_MAX ∧ as_size (ah_icon h) = 0)
    as (n & h & Hn & Hh & Ho & Hs)
    by (eexists _, _; split; [vm_compute; reflexivity|]; by split_and!).
  exists n, h. split_and!; [done..|]. destruct (H n Hn) as [_ Ha].
  apply (Ha ah_icon); [by left|]. exists h. split_and!; [done|rewrite Ho; done|done].
Defined.

Lemma nro_build_errors_witness :
  @build zerocopy_reference NroBuilder_new = Err MissingText ∧
  @build zerocopy_reference (nro_rodata_vaddr (nro_data (nro_rodata (nro_text NroBuilder_new [x01])
    [x02]) [x03]) 0x1000) = Panic.
Proof.
  split.
  - apply (@nro_build_errors zerocopy_reference NroBuilder_new). by left.
  - eapply (proj2 (@nro_build_errors zerocopy_reference _)); try reflexivity; vm_compute;
      first [discriminate | reflexivity | split; discriminate].
Defined.
