(* ===== verification/Cnmt.v ===== *)
(** * CNMT content meta: [raw/cnmt.rs], [write/cnmt.rs] and [read/cnmt.rs]

    The header, the application extended header and the content records: the builder, whose
    [add_content] admits each record and whose [build] sorts them and cannot fail, and the reader.
    An [option] whose [None] is a panic is the result of an infallible function. *)

From S2P Require Import Prelude Bytes Strs Layout Pfs0.
#[local] Open Scope Z_scope.

(** ** The structures *)

Record CnmtHeader := {
  ch_title_id : Z;
  ch_title_version : Z;
  ch_meta_type : Z;
  ch_reserved_0xd : Z;
  extended_header_size : Z;
  content_entry_count : Z;
  meta_entry_count : Z;
  ch_reserved_0x14 : list byte;
}.
#[export] Instance CnmtHeader_layout : Layout CnmtHeader.
Proof.
  refine (L_struct (u64 ⊗ u32 ⊗ u8 ⊗ u8 ⊗ u16 ⊗ u16 ⊗ u16 ⊗ byte_array 0xC)%layout
    (λ '(a, b, c, d, e, f, g, h), Build_CnmtHeader a b c d e f g h)
    (λ x, (ch_title_id x, ch_title_version x, ch_meta_type x, ch_reserved_0xd x, extended_header_size x,
           content_entry_count x, meta_entry_count x, ch_reserved_0x14 x)) _ _); solve_struct.
Defined.

Record CnmtApplicationExtendedHeader := {
  patch_title_id : Z;
  required_system_version : Z;
  required_application_version : Z;
}.
#[export] Instance CnmtApplicationExtendedHeader_layout : Layout CnmtApplicationExtendedHeader.
Proof.
  refine (L_struct (u64 ⊗ u32 ⊗ u32)%layout (λ '(a, b, c), Build_CnmtApplicationExtendedHeader a b c)
    (λ x, (patch_title_id x, required_system_version x, required_application_version x)) _ _); solve_struct.
Defined.

Record CnmtContentRecord := {
  cr_hash : list byte;
  cr_nca_id : list byte;
  cr_size : list byte;
  cr_content_type : Z;
  cr_id_offset : Z;
}.
#[export] Instance CnmtContentRecord_layout : Layout CnmtContentRecord.
Proof.
  refine (L_struct (byte_array 0x20 ⊗ byte_array 0x10 ⊗ byte_array 0x6 ⊗ u8 ⊗ u8)%layout
    (λ '(a, b, c, d, e), Build_CnmtContentRecord a b c d e)
    (λ x, (cr_hash x, cr_nca_id x, cr_size x, cr_content_type x, cr_id_offset x)) _ _); solve_struct.
Defined.

Inductive CnmtContentMetaType := Application | Patch | AddOnContent | Delta.
Definition meta_type_code (t : CnmtContentMetaType) : Z :=
  match t with Application => 0x80 | Patch => 0x81 | AddOnContent => 0x82 | Delta => 0x83 end.

Inductive CnmtContentType :=
| Meta | Program | Data | Control | HtmlDocument | LegalInformation | DeltaFragment.
Definition content_type_code (t : CnmtContentType) : Z :=
  match t with
  | Meta => 0 | Program => 1 | Data => 2 | Control => 3
  | HtmlDocument => 4 | LegalInformation => 5 | DeltaFragment => 6
  end.

(** ** The builder *)

Definition PATCH_TITLE_ID_OFFSET : Z := 0x800.
Definition MAX_CONTENT_SIZE : Z := Z.shiftl 1 48 - 1.

Record ContentRecord := {
  hash : list byte;
  size : Z;
  content_type : CnmtContentType;
}.

Record CnmtBuilder := {
  cb_title_id : Z;
  cb_title_version : Z;
  cb_records : list ContentRecord;
}.
#[export] Instance eta_CnmtBuilder : Eta CnmtBuilder := λ b,
  Build_CnmtBuilder (cb_title_id b) (cb_title_version b) (cb_records b).

Definition CnmtBuilder_new (title_id : Z) : CnmtBuilder :=
  {| cb_title_id := title_id; cb_title_version := 0; cb_records := [] |}.
Definition cnmt_title_version (b : CnmtBuilder) (v : Z) : CnmtBuilder := b <| cb_title_version := v |>.

Inductive AddContentError :=
| ContentTooLarge (size : Z)
| DuplicateContentType (content_type : CnmtContentType).

Definition same_type (r existing : ContentRecord) : bool :=
  content_type_code (content_type existing) =? content_type_code (content_type r).

Definition add_content (b : CnmtBuilder) (record : ContentRecord) : outcome AddContentError CnmtBuilder :=
  _ ← guard_err (MAX_CONTENT_SIZE <? size record) (ContentTooLarge (size record));
  _ ← guard_err (existsb (same_type record) (cb_records b)) (DuplicateContentType (content_type record));
  Ok (b <| cb_records := cb_records b ++ [record] |>).

(** [{:016x}]: the hexadecimal digits, most significant first, of a value of at most 16. *)
Definition hex_digit (d : Z) : byte := z2b (if d <? 10 then 0x30 + d else 0x61 + (d - 10)).
Fixpoint hex_digits (n : nat) (z : Z) : list byte :=
  match n with O => [] | S n => hex_digits n (z / 16) ++ [hex_digit (z mod 16)] end.

(** [format!("Application_{:016x}.cnmt", self.title_id)]. *)
Definition file_name (b : CnmtBuilder) : list byte :=
  [x41; x70; x70; x6c; x69; x63; x61; x74; x69; x6f; x6e; x5f] ++ hex_digits 16 (cb_title_id b) ++
  [x2e; x63; x6e; x6d; x74].

(** [sort_by_key(|record| record.content_type as u8)]. *)
Definition by_type (a b : ContentRecord) : bool :=
  content_type_code (content_type a) <=? content_type_code (content_type b).

Section build.
Context `{ZC : Zerocopy}.

Definition raw_record (record : ContentRecord) : option CnmtContentRecord :=
  head ← get_to (hash record) 0x10;
  nca_id ← copy_from_slice (zeros 0x10) 0 0x10 head;
  low ← get_to (le_bytes 8 (size record)) 0x6;
  size ← copy_from_slice (zeros 0x6) 0 0x6 low;
  Some {| cr_hash := hash record; cr_nca_id := nca_id; cr_size := size;
          cr_content_type := content_type_code (content_type record); cr_id_offset := 0 |}.

Fixpoint write_records (records : list ContentRecord) (buf : list byte) : option (list byte) :=
  match records with
  | [] => Some buf
  | record :: records => raw ← raw_record record; write_records records (buf ++ as_bytes raw)
  end.

Definition build (b : CnmtBuilder) : option (list byte) :=
  let records := sort_by by_type (cb_records b) in
  let header :=
    {| ch_title_id := cb_title_id b; ch_title_version := cb_title_version b;
       ch_meta_type := meta_type_code Application; ch_reserved_0xd := 0;
       extended_header_size := as_u16 (size_of CnmtApplicationExtendedHeader);
       content_entry_count := as_u16 (len records); meta_entry_count := 0;
       ch_reserved_0x14 := zeros 0xC |} in
  let extended_header :=
    {| patch_title_id := as_u64 (cb_title_id b + PATCH_TITLE_ID_OFFSET);
       required_system_version := 0; required_application_version := 0 |} in
  buf ← write_records records (as_bytes header ++ as_bytes extended_header);
  Some (buf ++ zeros 0x20).
End build.

(** ** The reader *)

Record Cnmt := {
  c_header : CnmtHeader;
  c_extended_header : option CnmtApplicationExtendedHeader;
  c_records : list CnmtContentRecord;
}.

Inductive FromBytesError :=
| BufferTooSmall (required available : Z)
| ExtendedHeaderOutOfBounds (extended_header_size available : Z)
| RecordsOutOfBounds (content_entry_count available : Z).

Section read.
Context `{ZC : Zerocopy}.

Definition try_from_bytes (bytes : list byte) : outcome FromBytesError Cnmt :=
  '(header, rest) ← ok_or (ref_from_prefix CnmtHeader bytes)
    (BufferTooSmall (size_of CnmtHeader) (len bytes));
  let ext_size := extended_header_size header in
  rest' ← ok_or (get_from rest ext_size) (ExtendedHeaderOutOfBounds ext_size (len rest));
  extended_header ← or_panic
    (if (ext_size =? size_of CnmtApplicationExtendedHeader)
        && (ch_meta_type header =? meta_type_code Application) then
       tail ← get_from bytes (size_of CnmtHeader);
       Some ('(extended, _) ← ref_from_prefix CnmtApplicationExtendedHeader tail; Some extended)
     else Some None);
  let count := content_entry_count header in
  '(records, _) ← ok_or (ref_from_prefix_with_elems CnmtContentRecord rest' count)
    (RecordsOutOfBounds count (len rest'));
  Ok {| c_header := header; c_extended_header := extended_header; c_records := records |}.
End read.

Definition read_meta_type (value : Z) : option CnmtContentMetaType :=
  if value =? meta_type_code Application then Some Application
  else if value =? meta_type_code Patch then Some Patch
  else if value =? meta_type_code AddOnContent then Some AddOnContent
  else None.

Definition read_content_type (value : Z) : option CnmtContentType :=
  if value =? content_type_code Meta then Some Meta
  else if value =? content_type_code Program then Some Program
  else if value =? content_type_code Data then Some Data
  else if value =? content_type_code Control then Some Control
  else if value =? content_type_code HtmlDocument then Some HtmlDocument
  else if value =? content_type_code LegalInformation then Some LegalInformation
  else if value =? content_type_code DeltaFragment then Some DeltaFragment
  else None.

Definition title_id (c : Cnmt) : Z := ch_title_id (c_header c).
Definition title_version (c : Cnmt) : Z := ch_title_version (c_header c).
Definition meta_type (c : Cnmt) : option CnmtContentMetaType := read_meta_type (ch_meta_type (c_header c)).
Definition record_count (c : Cnmt) : Z := len (c_records c).
Definition record_size (r : CnmtContentRecord) : option Z :=
  bytes ← copy_from_slice (zeros 8) 0 0x6 (cr_size r);
  Some (le_val bytes).
Definition record_content_type (r : CnmtContentRecord) : option CnmtContentType :=
  read_content_type (cr_content_type r).

(** ** Invariant and lemmas *)

(** What [add_content] keeps: the sizes fit six bytes and no content type repeats. *)
Record builder_wf (b : CnmtBuilder) : Prop := {
  bw_title : is_u64 (cb_title_id b);
  bw_version : is_u32 (cb_title_version b);
  bw_hash : Forall (λ r, len (hash r) = 0x20) (cb_records b);
  bw_size : Forall (λ r, 0 ≤ size r ≤ MAX_CONTENT_SIZE) (cb_records b);
  bw_types : NoDup (map content_type (cb_records b));
}.

#[export] Instance CnmtContentType_eq_dec : EqDecision CnmtContentType.
Proof. solve_decision. Defined.

Lemma content_type_code_inj s t : content_type_code s = content_type_code t → s = t.
Proof. by destruct s, t. Qed.

Lemma content_type_code_range t : 0 ≤ content_type_code t ≤ 6.
Proof. destruct t; cbn; lia. Qed.

Lemma read_content_type_code t : read_content_type (content_type_code t) = Some t.
Proof. by destruct t. Qed.

(** At most one record per type: at most seven. *)
Lemma len_records b : builder_wf b → len (cb_records b) ≤ 7.
Proof.
  intros Hb. unfold len. rewrite <-(length_map content_type).
  assert (length (map content_type (cb_records b)) ≤
    length [Meta; Program; Data; Control; HtmlDocument; LegalInformation; DeltaFragment])%nat as H.
  { apply submseteq_length, NoDup_submseteq; [by apply bw_types|].
    intros [] _; repeat constructor. }
  cbn [length] in H. lia.
Qed.

Lemma by_type_total x y : by_type x y = true ∨ by_type y x = true.
Proof. unfold by_type. rewrite !Z.leb_le. lia. Qed.
Lemma by_type_trans x y z : by_type x y = true → by_type y z = true → by_type x z = true.
Proof. unfold by_type. rewrite !Z.leb_le. lia. Qed.

(** The order separates records of distinct types, so the sorted list is unique. *)
Lemma sort_records_perm l k : NoDup (map content_type l) → l ≡ₚ k → sort_by by_type l = sort_by by_type k.
Proof.
  intros Hnd Hlk. apply (sorted_perm_eq by_type).
  - intros x y Hx Hy. unfold by_type. rewrite !Z.leb_le. intros.
    assert (content_type x = content_type y) as Hxy by (apply content_type_code_inj; lia).
    rewrite sort_by_perm in Hx, Hy. clear k Hlk. induction l as [|z l IH]; [by apply elem_of_nil in Hx|].
    cbn in Hnd. apply NoDup_cons in Hnd as [Hz Hnd].
    apply elem_of_cons in Hx as [-> | Hx], Hy as [-> | Hy]; [done| | |by apply IH].
    + destruct Hz. rewrite Hxy. apply (list_elem_of_fmap_2 content_type _ _ Hy).
    + destruct Hz. rewrite <-Hxy. apply (list_elem_of_fmap_2 content_type _ _ Hx).
  - apply sort_by_sorted; [apply by_type_total|apply by_type_trans].
  - apply sort_by_sorted; [apply by_type_total|apply by_type_trans].
  - by rewrite !sort_by_perm.
Qed.

(** ** Lemmas: the image *)

Definition raw_of (r : ContentRecord) : CnmtContentRecord :=
  {| cr_hash := hash r; cr_nca_id := ztake 0x10 (hash r); cr_size := le_bytes 6 (size r);
     cr_content_type := content_type_code (content_type r); cr_id_offset := 0 |}.

Definition record_ok (r : ContentRecord) : Prop := len (hash r) = 0x20 ∧ 0 ≤ size r ≤ MAX_CONTENT_SIZE.

Lemma le_bytes_take n m z : (n ≤ m)%nat → ztake (Z.of_nat n) (le_bytes m z) = le_bytes n z.
Proof.
  revert m z. induction n as [|n IH]; intros [|m] z H; try done; [lia|].
  cbn [le_bytes]. rewrite ztake_cons by lia.
  replace (Z.of_nat (S n) - 1) with (Z.of_nat n) by lia. by rewrite IH by lia.
Qed.

Lemma wf_raw_of r : record_ok r → wf (raw_of r).
Proof.
  intros [Hh Hs]. pose proof (content_type_code_range (content_type r)). cbn.
  change (256 ^ Z.of_nat 1) with 256. rewrite len_ztake by lia. split_and!; done || lia.
Qed.

Lemma raw_record_spec r : record_ok r → raw_record r = Some (raw_of r).
Proof.
  intros [Hh Hs]. unfold raw_record. rewrite (get_to_ok (hash r)) by lia. bind_cbn.
  assert (len (ztake 16 (hash r)) = 16) as H16 by (rewrite len_ztake; lia).
  rewrite <-(app_nil_r (zeros 16)), (copy_from_slice_start (zeros 16)) by (by rewrite ?H16).
  bind_cbn. rewrite get_to_ok by (rewrite len_le_bytes; lia). bind_cbn.
  rewrite (le_bytes_take 6 8) by lia.
  rewrite <-(app_nil_r (zeros 6)), (copy_from_slice_start (zeros 6)) by (by rewrite ?len_le_bytes).
  bind_cbn. by rewrite !app_nil_r.
Qed.

Lemma raw_of_size r : record_ok r → record_size (raw_of r) = Some (size r).
Proof.
  intros [_ Hs]. unfold record_size, raw_of. cbn [cr_size].
  change (zeros 8) with (zeros 6 ++ zeros 2).
  rewrite copy_from_slice_start by (rewrite ?len_le_bytes; done). bind_cbn.
  assert (le_bytes 6 (size r) ++ zeros 2 = le_bytes 8 (size r)) as ->.
  { rewrite <-(ztake_zdrop 6 (le_bytes 8 (size r))), (le_bytes_take 6 8) by lia. f_equal.
    unfold MAX_CONTENT_SIZE in Hs. change (Z.shiftl 1 48) with 281474976710656 in Hs.
    cbn [le_bytes zdrop Z.to_nat Pos.to_nat Pos.iter_op Nat.add drop].
    assert (size r / 256 / 256 / 256 / 256 / 256 / 256 = 0) as ->; [|done].
    rewrite !Z.div_div by lia. apply Z.div_small. lia. }
  rewrite le_val_le_bytes_small; [done|]. unfold MAX_CONTENT_SIZE in Hs.
  change (Z.shiftl 1 48) with 281474976710656 in Hs. change (256 ^ Z.of_nat 8) with 0x10000000000000000. lia.
Qed.

Section image.
Context `{ZC : Zerocopy}.

Lemma write_records_spec rs buf :
  Forall record_ok rs → write_records rs buf = Some (buf ++ array_to_bytes (map raw_of rs)).
Proof.
  intros H. revert buf. induction H as [|r rs Hr _ IH]; intros buf; cbn [write_records].
  { unfold array_to_bytes. cbn. by rewrite app_nil_r. }
  rewrite raw_record_spec by done. bind_cbn. rewrite IH, as_bytes_spec. unfold array_to_bytes.
  cbn [map concat]. by rewrite <-app_assoc.
Qed.

Definition header_of (b : CnmtBuilder) : CnmtHeader :=
  {| ch_title_id := cb_title_id b; ch_title_version := cb_title_version b; ch_meta_type := 0x80;
     ch_reserved_0xd := 0; extended_header_size := 0x10; content_entry_count := len (cb_records b);
     meta_entry_count := 0; ch_reserved_0x14 := zeros 0xC |}.

Definition extended_header_of (b : CnmtBuilder) : CnmtApplicationExtendedHeader :=
  {| patch_title_id := (cb_title_id b + 0x800) mod 2 ^ 64; required_system_version := 0;
     required_application_version := 0 |}.

Definition records_of (b : CnmtBuilder) : list CnmtContentRecord :=
  map raw_of (sort_by by_type (cb_records b)).

Definition image_of (b : CnmtBuilder) : list byte :=
  as_bytes (header_of b) ++ as_bytes (extended_header_of b) ++ array_to_bytes (records_of b) ++ zeros 0x20.

Lemma wf_cnmt_header_of b : builder_wf b → wf (header_of b).
Proof.
  intros Hb. pose proof (len_records b Hb). pose proof (len_nonneg (cb_records b)). destruct Hb. cbn.
  change (256 ^ 1) with 256. change (256 ^ 2) with 65536. change (256 ^ 4) with 0x100000000.
  change (256 ^ 8) with 0x10000000000000000. split_and!; try done; mlia.
Qed.

Lemma wf_extended_header_of b : wf (extended_header_of b).
Proof.
  cbn. change (256 ^ 8) with (2 ^ 64). pose proof (Z.mod_pos_bound (cb_title_id b + 0x800) (2 ^ 64)).
  change (256 ^ 4) with 0x100000000. split_and!; lia.
Qed.

Lemma records_ok b : builder_wf b → Forall record_ok (sort_by by_type (cb_records b)).
Proof. intros []. rewrite sort_by_perm. apply Forall_and. by split. Qed.

Lemma wf_records_of b : builder_wf b → Forall wf (records_of b).
Proof.
  intros Hb%records_ok. unfold records_of. apply Forall_map. eapply Forall_impl; [exact Hb|].
  apply wf_raw_of.
Qed.

Lemma len_records_of b : len (records_of b) = len (cb_records b).
Proof. unfold records_of. by rewrite len_map, len_sort_by. Qed.

Lemma len_cnmt_image b : builder_wf b → len (image_of b) = 0x50 + 0x38 * len (cb_records b).
Proof.
  intros Hb. unfold image_of. rewrite !len_app, !len_as_bytes, len_array_to_bytes, len_zeros, len_records_of
    by first [by apply wf_cnmt_header_of | by apply wf_extended_header_of | by apply wf_records_of | lia].
  change (size_of CnmtHeader) with 0x20. change (size_of CnmtApplicationExtendedHeader) with 0x10.
  change (size_of CnmtContentRecord) with 0x38. lia.
Qed.

Lemma cnmt_build_spec b : builder_wf b → build b = Some (image_of b).
Proof.
  intros Hb. pose proof (len_records b Hb). pose proof (len_nonneg (cb_records b)). unfold build.
  rewrite len_sort_by, write_records_spec by by apply records_ok. bind_cbn.
  unfold as_u16. rewrite (Z.mod_small (len _)) by lia.
  change (size_of CnmtApplicationExtendedHeader mod 2 ^ 16) with 16.
  unfold image_of. by rewrite <-!app_assoc.
Qed.

Lemma read_cnmt_image b :
  builder_wf b →
  try_from_bytes (image_of b)
    = Ok {| c_header := header_of b; c_extended_header := Some (extended_header_of b);
            c_records := records_of b |}.
Proof.
  intros Hb. pose proof (wf_cnmt_header_of b Hb) as Hh. pose proof (wf_extended_header_of b) as He.
  pose proof (len_as_bytes _ Hh) as Hlh. pose proof (len_as_bytes _ He) as Hle.
  change (size_of CnmtHeader) with 32 in Hlh. change (size_of CnmtApplicationExtendedHeader) with 16 in Hle.
  unfold try_from_bytes, image_of. rewrite ref_from_prefix_as_bytes by done. bind_cbn.
  change (extended_header_size (header_of b)) with 16.
  rewrite (get_from_ok (as_bytes (extended_header_of b) ++ _)) by (rewrite len_app, Hle; len_lia). bind_cbn.
  rewrite zdrop_app_eq by done. change (size_of CnmtHeader) with 32.
  rewrite get_from_ok by (rewrite len_app, Hlh; len_lia).
  change (16 =? size_of CnmtApplicationExtendedHeader) with true.
  change (ch_meta_type (header_of b) =? meta_type_code Application) with true. cbn [andb]. bind_cbn.
  rewrite zdrop_app_eq by done. rewrite ref_from_prefix_as_bytes by done. bind_cbn.
  change (content_entry_count (header_of b)) with (len (cb_records b)).
  rewrite <-len_records_of, ref_from_prefix_with_elems_app by by apply wf_records_of. done.
Qed.
End image.

(** ** Lemmas: the file name *)

Lemma hex_digit_spec d : 0 ≤ d < 16 → b2z (hex_digit d) = if d <? 10 then 0x30 + d else 0x57 + d.
Proof.
  intros Hd. unfold hex_digit. rewrite b2z_z2b_u8; [case_match; lia|]. case_match; mlia.
Qed.

Lemma hex_digit_inj d e : 0 ≤ d < 16 → 0 ≤ e < 16 → hex_digit d = hex_digit e → d = e.
Proof.
  intros Hd He H%(f_equal b2z). rewrite !hex_digit_spec in H by done. repeat case_match; mlia.
Qed.

Lemma length_hex_digits n z : length (hex_digits n z) = n.
Proof. revert z. induction n as [|n IH]; intros; [done|]. cbn. rewrite length_app, IH. cbn. lia. Qed.

Lemma hex_digits_inj n y z :
  0 ≤ y < 16 ^ Z.of_nat n → 0 ≤ z < 16 ^ Z.of_nat n → hex_digits n y = hex_digits n z → y = z.
Proof.
  revert y z. induction n as [|n IH]; intros y z; [cbn; lia|].
  rewrite Nat2Z.inj_succ, Z.pow_succ_r by lia. intros Hy Hz H. cbn in H.
  apply app_inj_tail in H as [Hq Hr]. apply hex_digit_inj in Hr; [|apply Z.mod_pos_bound; lia..].
  apply IH in Hq; [|split; [apply Z.div_pos; lia|apply Z.div_lt_upper_bound; lia]..].
  rewrite (Z.div_mod y 16), (Z.div_mod z 16) by lia. congruence.
Qed.

Lemma hex_digits_no_byte n z x : x < 0x30 ∨ 0x66 < x ∨ 0x39 < x < 0x61 → contains_byte (hex_digits n z) x = false.
Proof.
  intros Hx. revert z. induction n as [|n IH]; intros z; [done|]. cbn [hex_digits].
  rewrite contains_byte_app, IH. cbn. rewrite hex_digit_spec by (apply Z.mod_pos_bound; lia).
  pose proof (Z.mod_pos_bound z 16 eq_refl). rewrite orb_false_r. apply Z.eqb_neq. case_match; mlia.
Qed.

Lemma file_name_no_byte b x : x = 0 ∨ x = 0x2F ∨ x = 0x5C → contains_byte (file_name b) x = false.
Proof.
  intros Hx. unfold file_name. rewrite !contains_byte_app, hex_digits_no_byte by lia.
  destruct Hx as [-> | [-> | ->]]; done.
Qed.

Lemma hex_digits_ascii n z : forallb (in_range 0x00 0x7F) (hex_digits n z) = true.
Proof.
  revert z. induction n as [|n IH]; intros z; [done|]. cbn [hex_digits]. rewrite forallb_app, IH. cbn [forallb andb].
  pose proof (Z.mod_pos_bound z 16 eq_refl) as Hd. unfold in_range. rewrite hex_digit_spec by done.
  rewrite !andb_true_r. case_match; zify_bool; lia.
Qed.

Lemma cnmt_file_name_len b : len (file_name b) = 33.
Proof. unfold file_name, len. rewrite !length_app, length_hex_digits. done. Qed.

(** The archive accepts the file's name. *)
Lemma file_name_ok b d : file_ok {| fe_name := file_name b; fe_data := d |}.
Proof.
  split; [done|]. cbn [fe_name]. split; [|rewrite !file_name_no_byte by auto; by split_and!].
  apply utf8_valid_ascii. unfold file_name. by rewrite !forallb_app, hex_digits_ascii.
Qed.

(** ** Properties *)

(** [add_content] keeps the builder well formed, appends the record it accepts, and rejects
    exactly a content larger than six bytes can measure and a repeated content type; a well-formed
    builder never holds more than seven records, so [build]'s narrowing to [u16] loses nothing. *)
Theorem add_content_spec b r :
  builder_wf b → len (hash r) = 0x20 → is_u64 (size r) →
  len (cb_records b) ≤ 7 ∧
  match add_content b r with
  | Ok b' => b' = Build_CnmtBuilder (cb_title_id b) (cb_title_version b) (cb_records b ++ [r]) ∧ builder_wf b'
  | Err (ContentTooLarge n) => n = size r ∧ 2 ^ 48 ≤ n
  | Err (DuplicateContentType t) => t = content_type r ∧ size r < 2 ^ 48 ∧ t ∈ map content_type (cb_records b)
  | Panic => False
  end.
Proof.
  intros Hb Hh Hs. split; [by apply len_records|]. unfold add_content.
  unfold MAX_CONTENT_SIZE. change (Z.shiftl 1 48) with (2 ^ 48).
  destruct (Z.ltb_spec (2 ^ 48 - 1) (size r)) as [Hl|Hl]; bind_cbn; [lia|].
  destruct (existsb (same_type r) (cb_records b)) eqn:E; bind_cbn.
  - apply existsb_exists in E as (x & Hx & Hxr). unfold same_type in Hxr.
    apply Z.eqb_eq, content_type_code_inj in Hxr. split_and!; [done|lia|].
    rewrite <-Hxr. apply list_elem_of_fmap_2. by apply list_elem_of_In.
  - split; [done|]. destruct Hb. split; cbn [cb_title_id cb_title_version cb_records set_field]; try done.
    + apply Forall_app. by repeat constructor.
    + apply Forall_app. split; [done|]. repeat constructor; [apply Hs|].
      unfold MAX_CONTENT_SIZE. change (Z.shiftl 1 48) with (2 ^ 48). lia.
    + rewrite map_app. apply NoDup_app. split_and!; [done| |repeat constructor; by intros ?%elem_of_nil].
      intros t Ht ->%list_elem_of_singleton. apply list_elem_of_fmap in Ht as (x & Hxt & Hx).
      assert (existsb (same_type r) (cb_records b) = true) as Htrue; [|congruence].
      apply existsb_exists. exists x. split; [by apply list_elem_of_In|]. unfold same_type. rewrite Hxt.
      apply Z.eqb_refl.
Qed.

Section properties.
Context `{ZC : Zerocopy}.

(** The fields and records of what [try_from_bytes] reads in a built image. *)
Lemma cnmt_fields b :
  builder_wf b →
  let c := {| c_header := header_of b; c_extended_header := Some (extended_header_of b);
              c_records := records_of b |} in
  title_id c = cb_title_id b ∧ title_version c = cb_title_version b ∧ meta_type c = Some Application ∧
  (∃ e, c_extended_header c = Some e ∧ patch_title_id e = (cb_title_id b + 0x800) mod 2 ^ 64) ∧
  record_count c = len (cb_records b) ∧
  map (λ r, (cr_hash r, cr_nca_id r, record_size r, record_content_type r)) (c_records c)
    = map (λ r, (hash r, ztake 0x10 (hash r), Some (size r), Some (content_type r)))
        (sort_by by_type (cb_records b)).
Proof.
  intros Hb. split_and!; try done; [by eexists|by apply len_records_of|].
  cbn [c_records]. unfold records_of. rewrite map_map. pose proof (records_ok b Hb) as Hall.
  induction Hall as [|r rs Hr _ IH]; [done|]. cbn [map]. rewrite IH. f_equal.
  rewrite raw_of_size by done. unfold raw_of, record_content_type. cbn [cr_hash cr_nca_id cr_content_type].
  by rewrite read_content_type_code.
Qed.

(** C19. A content meta reads back as it was built: for every builder [add_content] produces,
    [build] cannot panic, and [try_from_bytes] reads the title, its version, the application meta
    type, the patch title 0x800 above (wrapping), and the records in content-type order, each with
    its hash, its NCA id (the first 16 bytes of the hash), its size and its type. *)
Theorem cnmt_round_trip b :
  builder_wf b →
  ∃ image c, build b = Some image ∧ try_from_bytes image = Ok c ∧
    title_id c = cb_title_id b ∧ title_version c = cb_title_version b ∧ meta_type c = Some Application ∧
    (∃ e, c_extended_header c = Some e ∧ patch_title_id e = (cb_title_id b + 0x800) mod 2 ^ 64) ∧
    record_count c = len (cb_records b) ∧
    map (λ r, (cr_hash r, cr_nca_id r, record_size r, record_content_type r)) (c_records c)
      = map (λ r, (hash r, ztake 0x10 (hash r), Some (size r), Some (content_type r)))
          (sort_by by_type (cb_records b)).
Proof.
  intros Hb. eexists _, _. split; [by apply cnmt_build_spec|]. split; [by apply read_cnmt_image|].
  by apply cnmt_fields.
Qed.

(** The bytes do not depend on the order in which the contents were added. *)
Theorem cnmt_build_deterministic b b' :
  builder_wf b → cb_title_id b' = cb_title_id b → cb_title_version b' = cb_title_version b →
  cb_records b' ≡ₚ cb_records b → build b' = build b.
Proof.
  intros Hb Ht Hv Hp. unfold build.
  rewrite Ht, Hv, (sort_records_perm (cb_records b) (cb_records b')); [done|by apply bw_types|done].
Qed.

(** The name the meta is stored under is one the PFS0 builder accepts whenever the archive has
    no file of that name, and it identifies the title. *)
Theorem cnmt_file_name_spec b d :
  len (file_name b) = 33 ∧
  (∀ fs, file_name b ∉ map fe_name fs → ∃ fs', add_file fs (file_name b) d = Ok fs') ∧
  ∀ b', is_u64 (cb_title_id b) → is_u64 (cb_title_id b') → file_name b' = file_name b →
    cb_title_id b' = cb_title_id b.
Proof.
  pose proof (cnmt_file_name_len b) as Hl.
  split_and!; [done| |].
  - intros fs Hn. unfold add_file. rewrite Hl. rewrite !file_name_no_byte by auto. cbn [orb].
    change (33 =? 0) with false. bind_cbn.
    destruct (existsb _ fs) eqn:E; bind_cbn; [|eauto]. destruct Hn.
    apply existsb_exists in E as (f & Hf & Hfn). apply bool_decide_eq_true in Hfn as <-.
    apply list_elem_of_fmap_2. by apply list_elem_of_In.
  - intros b' Hb Hb' H. unfold file_name in H. apply app_inj_1 in H as [_ H]; [|done].
    apply app_inj_1 in H as [H _]; [|by rewrite !length_hex_digits].
    apply hex_digits_inj in H; [done|change (16 ^ Z.of_nat 16) with 0x10000000000000000; mlia..].
Qed.

(** Reading an untrusted content meta is safe: [try_from_bytes] never panics, and what it
    accepts is the header, an extended header of the declared length, exactly as many records as
    the header counts, in that order at the front of the buffer; every record's size reads and is
    below 2^48. *)
Theorem cnmt_reader_safe bytes :
  try_from_bytes bytes ≠ Panic ∧
  ∀ c, try_from_bytes bytes = Ok c →
    record_count c = content_entry_count (c_header c) ∧
    (∃ ext rest, len ext = extended_header_size (c_header c) ∧
       bytes = as_bytes (c_header c) ++ ext ++ array_to_bytes (c_records c) ++ rest ∧
       ∀ e, c_extended_header c = Some e → ext = as_bytes e) ∧
    ∀ r, r ∈ c_records c → ∃ n, record_size r = Some n ∧ 0 ≤ n < 2 ^ 48.
Proof.
  assert (safe (λ c, record_count c = content_entry_count (c_header c) ∧
    (∃ ext rest, len ext = extended_header_size (c_header c) ∧
       bytes = as_bytes (c_header c) ++ ext ++ array_to_bytes (c_records c) ++ rest ∧
       ∀ e, c_extended_header c = Some e → ext = as_bytes e) ∧
    ∀ r, r ∈ c_records c → ∃ n, record_size r = Some n ∧ 0 ≤ n < 2 ^ 48) (try_from_bytes bytes)) as Hs;
    [|split; [by eapply safe_no_panic|intros c Hc; exact (safe_ok _ _ _ Hs Hc)]].
  unfold try_from_bytes. safe_step [h r] Hr. pose proof (ref_from_prefix_inv _ _ _ Hr) as (Hl & Hwf & Hb & Hrest & _).
  assert (0 ≤ content_entry_count h) by (cbn in Hwf; lia).
  change (size_of CnmtHeader) with 32 in *. safe_step r' Hr'. apply get_from_inv in Hr' as [He ->].
  rewrite get_from_ok by lia. bind_cbn. rewrite <-Hrest.
  apply (safe_bind (λ o, ∀ e, o = Some e → ztake (extended_header_size h) r = as_bytes e)).
  { case_match eqn:E; [|done]. apply andb_true_iff in E as [E _]. apply Z.eqb_eq in E. cbn.
    intros e He2. apply bind_Some in He2 as ([e' t] & He2 & [= ->]).
    pose proof (ref_from_prefix_inv _ _ _ He2) as (_ & Hwe & -> & _). rewrite E.
    apply ztake_app_eq. by rewrite len_as_bytes. }
  intros o Ho. safe_step [rs t] Hrs. apply ref_from_prefix_with_elems_inv in Hrs as (Hn & Hall & Hd & _); [|done].
  cbn [safe c_header c_records c_extended_header record_count]. split_and!.
  - done.
  - exists (ztake (extended_header_size h) r), t. split_and!; [by rewrite len_ztake| |done].
    by rewrite <-Hd, ztake_zdrop.
  - intros x Hx. rewrite Forall_forall in Hall. specialize (Hall x Hx).
    assert (len (cr_size x) = 6) as H6 by apply Hall. unfold record_size.
    change (zeros 8) with (zeros 6 ++ zeros 2). rewrite copy_from_slice_start by done. bind_cbn.
    eexists. split; [done|]. pose proof (le_val_range (cr_size x)) as Hv.
    assert (length (cr_size x) = 6%nat) as H6' by (unfold len in H6; lia). rewrite H6' in Hv.
    assert (∀ l, le_val (l ++ zeros 2) = le_val l) as ->; [|done].
    induction l as [|y l IH]; [done|]. cbn [app le_val]. by rewrite IH.
Qed.
End properties.

(** ** Witnesses *)

Definition sample_record (x : byte) (n : Z) (t : CnmtContentType) : ContentRecord :=
  {| hash := zrep 0x20 x; size := n; content_type := t |}.
Definition sample_cnmt : CnmtBuilder :=
  {| cb_title_id := 0x0100000000001000; cb_title_version := 0;
     cb_records := [sample_record xcd 0x5678 Control; sample_record xab 0x1234 Program] |}.

Lemma sample_cnmt_wf : builder_wf sample_cnmt.
Proof.
  split; [by vm_compute|by vm_compute|by repeat constructor|repeat constructor; by vm_compute|].
  apply (bool_decide_unpack _). by vm_compute.
Qed.

Lemma add_content_spec_witness :
  len (cb_records sample_cnmt) ≤ 7 ∧
  match add_content sample_cnmt (sample_record x01 9 Program) with
  | Ok b' => b' = Build_CnmtBuilder 0x0100000000001000 0
                    (cb_records sample_cnmt ++ [sample_record x01 9 Program]) ∧ builder_wf b'
  | Err (ContentTooLarge n) => n = 9 ∧ 2 ^ 48 ≤ n
  | Err (DuplicateContentType t) => t = Program ∧ 9 < 2 ^ 48 ∧ t ∈ map content_type (cb_records sample_cnmt)
  | Panic => False
  end.
Proof. apply (add_content_spec sample_cnmt (sample_record x01 9 Program) sample_cnmt_wf); by vm_compute. Defined.

Lemma cnmt_round_trip_witness :
  ∃ image c, @build zerocopy_reference sample_cnmt = Some image ∧
    @try_from_bytes zerocopy_reference image = Ok c ∧
    title_id c = 0x0100000000001000 ∧ title_version c = 0 ∧ meta_type c = Some Application ∧
    (∃ e, c_extended_header c = Some e ∧ patch_title_id e = 0x0100000000001800) ∧
    record_count c = 2 ∧
    map (λ r, (cr_hash r, cr_nca_id r, record_size r, record_content_type r)) (c_records c)
      = [(zrep 0x20 xab, zrep 0x10 xab, Some 0x1234, Some Program);
         (zrep 0x20 xcd, zrep 0x10 xcd, Some 0x5678, Some Control)].
Proof. apply (@cnmt_round_trip zerocopy_reference sample_cnmt sample_cnmt_wf). Defined.

Lemma cnmt_build_deterministic_witness :
  @build zerocopy_reference {| cb_title_id := 0x0100000000001000; cb_title_version := 0;
    cb_records := reverse (cb_records sample_cnmt) |} = @build zerocopy_reference sample_cnmt.
Proof. apply (@cnmt_build_deterministic zerocopy_reference sample_cnmt); [exact sample_cnmt_wf|done|done|]. cbn. constructor. Defined.

Lemma cnmt_file_name_spec_witness :
  file_name sample_cnmt = [x41; x70; x70; x6c; x69; x63; x61; x74; x69; x6f; x6e; x5f;
    x30; x31; x30; x30; x30; x30; x30; x30; x30; x30; x30; x30; x31; x30; x30; x30;
    x2e; x63; x6e; x6d; x74] ∧
  ∃ fs', add_file [] (file_name sample_cnmt) [x01] = Ok fs'.
Proof.
  split; [vm_compute; reflexivity|].
  apply (cnmt_file_name_spec sample_cnmt [x01]). by intros ?%elem_of_nil.
Defined.
