(* ===== verification/Mod0.v ===== *)
(** * The MOD0 header: [raw/mod0.rs] and [read/mod0.rs]

    The signed offsets an executable embeds, and their reader, over a buffer and over memory. *)

From S2P Require Import Prelude Bytes Layout Ptr.
#[local] Open Scope Z_scope.

Definition MOD0_MAGIC : Z := 0x30444f4d.

Record Mod0Header := {
  mh_magic : Z;
  mh_dynamic_offset : Z;
  mh_bss_start_offset : Z;
  mh_bss_end_offset : Z;
  mh_eh_frame_hdr_start : Z;
  mh_eh_frame_hdr_end : Z;
  mh_module_object_offset : Z;
}.
#[export] Instance Mod0Header_layout : Layout Mod0Header.
Proof.
  refine (L_struct (u32 ⊗ i32 ⊗ i32 ⊗ i32 ⊗ i32 ⊗ i32 ⊗ i32)%layout
    (λ '(a, b, c, d, e, f, g), Build_Mod0Header a b c d e f g)
    (λ h, (mh_magic h, mh_dynamic_offset h, mh_bss_start_offset h, mh_bss_end_offset h,
           mh_eh_frame_hdr_start h, mh_eh_frame_hdr_end h, mh_module_object_offset h)) _ _); solve_struct.
Defined.

Record Mod0 := { m_header : Mod0Header }.

Definition dynamic_offset (m : Mod0) : Z := mh_dynamic_offset (m_header m).
Definition bss_start_offset (m : Mod0) : Z := mh_bss_start_offset (m_header m).
Definition bss_end_offset (m : Mod0) : Z := mh_bss_end_offset (m_header m).
Definition eh_frame_hdr_start (m : Mod0) : Z := mh_eh_frame_hdr_start (m_header m).
Definition eh_frame_hdr_end (m : Mod0) : Z := mh_eh_frame_hdr_end (m_header m).
Definition module_object_offset (m : Mod0) : Z := mh_module_object_offset (m_header m).

Inductive FromBytesError :=
| BufferTooSmall (required available : Z)
| InvalidMagic (found : Z).

Lemma wf_offsets (h : Mod0Header) :
  wf h →
  Forall (λ o, - 2 ^ 31 ≤ o < 2 ^ 31)
    (map (λ f, f {| m_header := h |}) [dynamic_offset; bss_start_offset; bss_end_offset;
       eh_frame_hdr_start; eh_frame_hdr_end; module_object_offset]).
Proof.
  cbn. change (256 ^ 4) with (2 ^ 32). intros H.
  repeat (apply Forall_cons; split; [unfold dynamic_offset, bss_start_offset, bss_end_offset,
    eh_frame_hdr_start, eh_frame_hdr_end, module_object_offset; cbn [m_header]; lia|]). done.
Qed.

Lemma size_of_Mod0Header : size_of Mod0Header = 28.
Proof. reflexivity. Qed.

Lemma mod0_magic_at l : mh_magic (of_bytes l) = le_val (ztake 4 l).
Proof. cbn. by rewrite !ztake_ztake by lia. Qed.

#[local] Opaque Mod0Header_layout.

Section read.
Context `{ZC : Zerocopy}.

Definition try_from_bytes (bytes : list byte) : outcome FromBytesError Mod0 :=
  _ ← guard_err (len bytes <? size_of Mod0Header) (BufferTooSmall (size_of Mod0Header) (len bytes));
  '(header, _) ← ok_or (ref_from_prefix Mod0Header bytes) (BufferTooSmall 0x1C (len bytes));
  _ ← guard_err (negb (mh_magic header =? MOD0_MAGIC)) (InvalidMagic (mh_magic header));
  Ok {| m_header := header |}.

(** The reader on a buffer that is long enough. *)
Lemma mod0_try_from_bytes_long bytes (h : Mod0Header) :
  28 ≤ len bytes → h = of_bytes (ztake 28 bytes) →
  try_from_bytes bytes = if mh_magic h =? MOD0_MAGIC then Ok {| m_header := h |} else Err (InvalidMagic (mh_magic h)).
Proof.
  intros Hl. rewrite <-size_of_Mod0Header. unfold try_from_bytes.
  rewrite (proj2 (Z.ltb_ge _ _)) by (by rewrite size_of_Mod0Header). bind_cbn.
  rewrite ref_from_prefix_ok by (by rewrite size_of_Mod0Header).
  generalize (of_bytes (ztake (size_of Mod0Header) bytes) : Mod0Header). intros h' ->. bind_cbn.
  by destruct (mh_magic h' =? MOD0_MAGIC).
Qed.

(** Reading a MOD0 header is total and exact: a buffer shorter than the header is reported with
    both lengths, a buffer whose first word is not the magic with the word found, and any other
    buffer yields the header whose serialization the buffer starts with, its six offsets read as
    signed 32-bit integers. *)
Theorem mod0_try_from_bytes_spec bytes :
  match try_from_bytes bytes with
  | Ok m => (∃ rest, bytes = as_bytes (m_header m) ++ rest) ∧ mh_magic (m_header m) = MOD0_MAGIC ∧
      Forall (λ o, - 2 ^ 31 ≤ o < 2 ^ 31)
        (map (λ f, f m) [dynamic_offset; bss_start_offset; bss_end_offset; eh_frame_hdr_start;
                         eh_frame_hdr_end; module_object_offset])
  | Err (BufferTooSmall required available) => required = 0x1C ∧ available = len bytes ∧ len bytes < 0x1C
  | Err (InvalidMagic found) => 0x1C ≤ len bytes ∧ found = le_val (ztake 4 bytes) ∧ found ≠ MOD0_MAGIC
  | Panic => False
  end.
Proof.
  destruct (Z.ltb_spec (len bytes) 28) as [Hl|Hl].
  { unfold try_from_bytes. rewrite size_of_Mod0Header, (proj2 (Z.ltb_lt _ _)) by done. bind_cbn. done. }
  assert (len (ztake 28 bytes) = size_of Mod0Header) as H28 by (rewrite len_ztake; [by rewrite size_of_Mod0Header|lia]).
  remember (of_bytes (ztake 28 bytes) : Mod0Header) as h eqn:Hh. rewrite (mod0_try_from_bytes_long bytes h Hl Hh).
  assert (wf h) as Hwf by (rewrite Hh; by apply wf_of_bytes).
  assert (as_bytes h ++ zdrop 28 bytes = bytes) as Hb.
  { rewrite as_bytes_spec, Hh, to_of_bytes by done. apply ztake_zdrop. }
  assert (mh_magic h = le_val (ztake 4 bytes)) as Hmagic by (rewrite Hh, mod0_magic_at; by rewrite ztake_ztake by lia).
  clear Hh. destruct (Z.eqb_spec (mh_magic h) MOD0_MAGIC) as [Hm|Hm]; cbn [m_header].
  - split_and!; [by eexists|done|by apply wf_offsets].
  - by split_and!.
Qed.

Inductive FromPtrError := FromPtr (source : FromBytesError).

Definition try_from_ptr (mem : memory) (ptr : Z) : outcome FromPtrError Mod0 :=
  map_err FromPtr (try_from_bytes (from_raw_parts mem ptr (size_of Mod0Header))).

Lemma mod0_try_from_bytes_take bytes :
  0x1C ≤ len bytes → try_from_bytes (ztake 0x1C bytes) = try_from_bytes bytes.
Proof.
  intros Hl. remember (of_bytes (ztake 28 bytes) : Mod0Header) as h eqn:Hh.
  rewrite (mod0_try_from_bytes_long bytes h Hl Hh). apply mod0_try_from_bytes_long; [rewrite len_ztake; lia|].
  by rewrite ztake_ztake by lia.
Qed.

(** A header in memory reads as it does from a buffer that holds it, whatever follows it there, and its
    length is never in question. *)
Theorem mod0_try_from_ptr mem ptr :
  (∀ bytes, mem_holds mem ptr bytes → 0x1C ≤ len bytes → try_from_ptr mem ptr = map_err FromPtr (try_from_bytes bytes)) ∧
  match try_from_ptr mem ptr with Err (FromPtr (BufferTooSmall _ _)) | Panic => False | _ => True end.
Proof.
  unfold try_from_ptr. rewrite size_of_Mod0Header. split.
  - intros bytes Hb Hl. rewrite (from_raw_parts_take mem ptr bytes) by (done || lia). by rewrite mod0_try_from_bytes_take.
  - assert (len (from_raw_parts mem ptr 28) = 28) as Hl by (apply len_from_raw_parts; lia).
    rewrite (mod0_try_from_bytes_long (from_raw_parts mem ptr 28) _ ltac:(rewrite Hl; done) eq_refl).
    generalize (of_bytes (ztake 28 (from_raw_parts mem ptr 28)) : Mod0Header). intros h.
    by destruct (mh_magic h =? MOD0_MAGIC).
Qed.
End read.
