(* ===== verification/NpdmCaps.v ===== *)
(** * NPDM permission blocks: [write/npdm.rs]

    The three blocks nested in the ACID and ACI0 sections: the kernel capability words
    ([KernelCapability::encode]), the service access list and the two filesystem access forms, each
    with the reading that shows nothing is lost beyond what a field's width cuts off. *)

From S2P Require Import Prelude Bytes Layout.
#[local] Open Scope Z_scope.

(** ** Kernel capabilities *)

(** [x << k] on a [u32], and [x as u32]. *)
Definition shl32 (x k : Z) : Z := as_u32 (Z.shiftl x k).

Record MapRegionDescriptor := {
  region_type : Z;
  region_is_ro : bool;
}.

(** The map of [Syscalls] is its entries in key order. *)
Inductive KernelCapability :=
| KernelFlags (highest_thread_priority lowest_thread_priority highest_cpu_id lowest_cpu_id : Z)
| Syscalls (syscalls : list (list byte * Z))
| Map (address size : Z) (is_ro is_io : bool)
| MapPage (page : Z)
| MapRegion (regions : list MapRegionDescriptor)
| IrqPair (irq0 irq1 : Z)
| ApplicationType (app_type : Z)
| MinKernelVersion (min_kernel : Z)
| HandleTableSize (handle_table_size : Z)
| DebugFlags (allow_debug force_debug_prod force_debug : bool).

(** The two vectors of the [Syscalls] arm, updated for one id. *)
Definition add_syscall (st : list Z * list bool) (syscall_id : Z) : list Z * list bool :=
  let mask_idx := syscall_id / 24 in
  let bit_offset := syscall_id mod 24 + 5 in
  if (mask_idx <? 8) && (bit_offset <? 32)
  then (alter (λ m, Z.lor m (shl32 1 bit_offset)) (Z.to_nat mask_idx) st.1,
        <[Z.to_nat mask_idx := true]> st.2)
  else st.

Definition syscall_masks : list Z :=
  imap (λ idx mask, Z.lor mask (shl32 (Z.land (Z.of_nat idx) 0x7) 29)) (replicate 8 0xF).

(** [for idx in (0..8).rev() { if !used[idx] { masks.remove(idx); } }]. *)
Definition remove_unused (used : list bool) (masks : list Z) : list Z :=
  foldl (λ masks idx, if used !! idx is Some true then masks else delete idx masks) masks
    (reverse (seq 0 8)).

Definition encode_syscalls (ids : list Z) : list Z :=
  let '(masks, used) := foldl add_syscall (syscall_masks, replicate 8 false) ids in
  remove_unused used masks.

Definition region_desc (region : MapRegionDescriptor) : Z :=
  Z.lor (Z.land (region_type region) 0x3F) (shl32 (Z.b2z (region_is_ro region)) 6).

Fixpoint add_regions (i : Z) (regions : list MapRegionDescriptor) (val : Z) : Z :=
  match regions with
  | [] => val
  | region :: regions => add_regions (i + 1) regions (Z.lor val (shl32 (region_desc region) (11 + 7 * i)))
  end.

Definition or_if (b : bool) (val bit : Z) : Z := if b then Z.lor val (shl32 1 bit) else val.

Definition encode (c : KernelCapability) : list Z :=
  match c with
  | KernelFlags highest_thread_priority lowest_thread_priority highest_cpu_id lowest_cpu_id =>
    let val := 0x7 in
    let val := Z.lor val (shl32 (Z.land lowest_thread_priority 0x3F) 4) in
    let val := Z.lor val (shl32 (Z.land highest_thread_priority 0x3F) 10) in
    let val := Z.lor val (shl32 (Z.land lowest_cpu_id 0xFF) 16) in
    let val := Z.lor val (shl32 (Z.land highest_cpu_id 0xFF) 24) in
    [val]
  | Syscalls syscalls => encode_syscalls (map snd syscalls)
  | Map address size is_ro is_io =>
    let desc1 := Z.land (as_u32 address) 0xFFFFFF in
    let desc1 := or_if is_ro desc1 24 in
    let val1 := Z.lor (shl32 desc1 7) 0x3F in
    let desc2 := Z.land (as_u32 size) 0xFFFFF in
    let desc2 := Z.lor desc2 (shl32 (Z.land (as_u32 (Z.shiftr address 24)) 0xF) 20) in
    let is_io_inverted := negb is_io in
    let desc2 := or_if is_io_inverted desc2 24 in
    let val2 := Z.lor (shl32 desc2 7) 0x3F in
    [val1; val2]
  | MapPage page => [Z.lor 0x7F (shl32 (Z.land (as_u32 page) 0xFFFFFF) 8)]
  | MapRegion regions => [add_regions 0 (take 3 regions) 0x3FF]
  | IrqPair irq0 irq1 =>
    let val := 0x7FF in
    let val := Z.lor val (shl32 (Z.land irq0 0x3FF) 12) in
    let val := Z.lor val (shl32 (Z.land irq1 0x3FF) 22) in
    [val]
  | ApplicationType app_type => [Z.lor 0x1FFF (shl32 (Z.land app_type 0x7) 14)]
  | MinKernelVersion min_kernel => [Z.lor 0x3FFF (shl32 (Z.land (as_u32 min_kernel) 0x1FFFF) 15)]
  | HandleTableSize handle_table_size => [Z.lor 0x7FFF (shl32 (Z.land handle_table_size 0x3FF) 16)]
  | DebugFlags allow_debug force_debug_prod force_debug =>
    let val := 0xFFFF in
    let val := or_if allow_debug val 17 in
    let val := or_if force_debug_prod val 18 in
    let val := or_if force_debug val 19 in
    [val]
  end.

(** [build_kernel_capabilities]. *)
Definition build_kernel_capabilities (capabilities : list KernelCapability) : list byte :=
  concat (map (λ cap, concat (map (le_bytes 4) (encode cap))) capabilities).

(** ** Service access *)

(** [services: Vec<(String, bool)>]: a name and whether the program hosts it. *)
Definition ServiceAccess : Type := list (list byte * bool).

Definition service_entry (service : list byte * bool) : list byte :=
  let '(name_bytes, is_host) := service in
  let n := Z.min (len name_bytes) 8 in
  if n =? 0 then [] else
  let control := as_u8 (n - 1) in
  let control := if is_host : bool then Z.lor control 0x80 else control in
  z2b control :: ztake n name_bytes.

Definition build_service_access_control (sac : ServiceAccess) : list byte := concat (map service_entry sac).

(** ** Filesystem access *)

Record SaveDataOwnerId := {
  accessibility : Z;
  owner_id : Z;
}.

Record FilesystemAccess := {
  permissions : Z;
  content_owner_ids : list Z;
  save_data_owner_ids : list SaveDataOwnerId;
  content_owner_id_min : Z;
  content_owner_id_max : Z;
  save_data_owner_id_min : Z;
  save_data_owner_id_max : Z;
}.

Definition FilesystemAccess_default : FilesystemAccess :=
  {| permissions := 0xFFFFFFFFFFFFFFFF; content_owner_ids := []; save_data_owner_ids := [];
     content_owner_id_min := 0; content_owner_id_max := 0xFFFFFFFFFFFFFFFF;
     save_data_owner_id_min := 0; save_data_owner_id_max := 0xFFFFFFFFFFFFFFFF |}.

Definition is_empty {A} (l : list A) : bool := if l is [] then true else false.

(** [(count + 3) & !3]. *)
Definition align_4 (count : Z) : Z := Z.land (count + 3) (Z.lnot 3).

Definition coi_section (ids : list Z) : list byte :=
  if is_empty ids then [] else le_bytes 4 (as_u32 (len ids)) ++ concat (map (le_bytes 8) ids).

Definition sdoi_section (entries : list SaveDataOwnerId) : list byte :=
  if is_empty entries then [] else
  let padding := align_4 (len entries) - len entries in
  le_bytes 4 (as_u32 (len entries)) ++ map (λ e, z2b (accessibility e)) entries ++ zrep padding x00 ++
  concat (map (λ e, le_bytes 8 (owner_id e)) entries).

(** [None] is the overflow of [coi_offset + coi_size]. *)
Definition build_filesystem_access_header (fs_access : FilesystemAccess) : option (list byte) :=
  let coi_size :=
    if is_empty (content_owner_ids fs_access) then 0
    else as_u32 (4 + len (content_owner_ids fs_access) * 8) in
  let sdoi_size :=
    if is_empty (save_data_owner_ids fs_access) then 0
    else let count := len (save_data_owner_ids fs_access) in as_u32 (4 + align_4 count + count * 8) in
  let coi_offset := 0x1C in
  sdoi_offset ← checked_add_u32 coi_offset coi_size;
  Some (le_bytes 4 1 ++ le_bytes 8 (permissions fs_access) ++ le_bytes 4 coi_offset ++ le_bytes 4 coi_size ++
        le_bytes 4 sdoi_offset ++ le_bytes 4 sdoi_size ++
        coi_section (content_owner_ids fs_access) ++ sdoi_section (save_data_owner_ids fs_access)).

Definition build_filesystem_access_control (fs_access : FilesystemAccess) : list byte :=
  [x01; x00; x00; x00] ++ le_bytes 8 (permissions fs_access) ++
  le_bytes 8 (content_owner_id_min fs_access) ++ le_bytes 8 (content_owner_id_max fs_access) ++
  le_bytes 8 (save_data_owner_id_min fs_access) ++ le_bytes 8 (save_data_owner_id_max fs_access).

(** ** Reading the access blocks back *)

(** The service entries of a block: [fuel] is at least its length. *)
Fixpoint decode_services (fuel : nat) (l : list byte) : option ServiceAccess :=
  match fuel, l with
  | _, [] => Some []
  | O, _ => None
  | S fuel, control :: l =>
    let n := Z.land (b2z control) 0x7F + 1 in
    name ← get_to l n;
    services ← decode_services fuel (zdrop n l);
    Some ((name, Z.testbit (b2z control) 7) :: services)
  end.

(** The names the block can hold: cut to 8 bytes, the empty ones left out. *)
Definition cut_services (sac : list (list byte * bool)) : list (list byte * bool) :=
  map (λ '(n, h), (ztake 8 n, h)) (filter (λ s : list byte * bool, is_empty s.1 = false) sac).

Definition read_u32 (l : list byte) (off : Z) : option Z := le_val <$> get_range l off (off + 4).
Definition read_u64s (l : list byte) (off n : Z) : option (list Z) :=
  b ← get_range l off (off + 8 * n); Some (@array_of_bytes Z u64 (Z.to_nat n) b).

(** The permissions and the two lists of an ACI0 filesystem block. *)
Definition read_filesystem_access_header (l : list byte) : option (Z * list Z * list (Z * Z)) :=
  perms ← le_val <$> get_range l 4 12;
  coi ← read_u32 l 12; coi_size ← read_u32 l 16;
  sdoi ← read_u32 l 20; sdoi_size ← read_u32 l 24;
  ids ← (if coi_size =? 0 then Some [] else n ← read_u32 l coi; read_u64s l (coi + 4) n);
  owners ←
    (if sdoi_size =? 0 then Some [] else
     n ← read_u32 l sdoi;
     acc ← get_range l (sdoi + 4) (sdoi + 4 + n);
     ids ← read_u64s l (sdoi + 4 + align_4 n) n;
     Some (zip (map b2z acc) ids));
  Some (perms, ids, owners).

(** ** Reading the words back *)

(** The [n] bits of [w] from bit [lo]. *)
Definition field (w lo n : Z) : Z := Z.land (Z.shiftr w lo) (Z.ones n).

(** [n] one bits and a zero bit at the bottom of a word tell its type. *)
Definition has_trailer (w n : Z) : bool := field w 0 (n + 1) =? Z.ones n.

Definition trailer_bits (c : KernelCapability) : Z :=
  match c with
  | KernelFlags _ _ _ _ => 3 | Syscalls _ => 4 | Map _ _ _ _ => 6 | MapPage _ => 7 | MapRegion _ => 10
  | IrqPair _ _ => 11 | ApplicationType _ => 13 | MinKernelVersion _ => 14 | HandleTableSize _ => 15
  | DebugFlags _ _ _ => 16
  end.

Definition region_of (w lo : Z) : MapRegionDescriptor :=
  {| region_type := field w lo 6; region_is_ro := field w (lo + 6) 1 =? 1 |}.

(** The capability of a group of words other than a system call mask. *)
Definition decode (ws : list Z) : option KernelCapability :=
  match ws with
  | [w] =>
    if has_trailer w 3 then Some (KernelFlags (field w 10 6) (field w 4 6) (field w 24 8) (field w 16 8))
    else if has_trailer w 7 then Some (MapPage (field w 8 24))
    else if has_trailer w 10 then Some (MapRegion [region_of w 11; region_of w 18; region_of w 25])
    else if has_trailer w 11 then Some (IrqPair (field w 12 10) (field w 22 10))
    else if has_trailer w 13 then Some (ApplicationType (field w 14 3))
    else if has_trailer w 14 then Some (MinKernelVersion (field w 15 17))
    else if has_trailer w 15 then Some (HandleTableSize (field w 16 10))
    else if has_trailer w 16 then
      Some (DebugFlags (field w 17 1 =? 1) (field w 18 1 =? 1) (field w 19 1 =? 1))
    else None
  | [w1; w2] =>
    if has_trailer w1 6 && has_trailer w2 6 then
      Some (Map (Z.lor (Z.shiftl (field w2 27 4) 24) (field w1 7 24)) (field w2 7 20)
        (field w1 31 1 =? 1) (field w2 31 1 =? 0))
    else None
  | _ => None
  end.

(** The system calls below 192 that a group of masks permits, in order: a mask has the group of 24 as
    its index and a bit for each call of the group. *)
Definition permits (ws : list Z) (id : Z) : bool :=
  existsb (λ w, has_trailer w 4 && (field w 29 3 =? id / 24) && (field w (5 + id mod 24) 1 =? 1)) ws.
Definition permitted_syscalls (ws : list Z) : list Z := filter (λ id, permits ws id = true) (seqZ 0 192).

(** What the words can hold of a capability: each field cut to its width. *)
Definition no_region : MapRegionDescriptor := {| region_type := 0; region_is_ro := false |}.
Definition cut_region (r : MapRegionDescriptor) : MapRegionDescriptor :=
  {| region_type := region_type r mod 2 ^ 6; region_is_ro := region_is_ro r |}.
Definition normalize (c : KernelCapability) : KernelCapability :=
  match c with
  | KernelFlags hp lp hc lc => KernelFlags (hp mod 2 ^ 6) (lp mod 2 ^ 6) (hc mod 2 ^ 8) (lc mod 2 ^ 8)
  | Map address size is_ro is_io => Map (address mod 2 ^ 28) (size mod 2 ^ 20) is_ro is_io
  | MapPage page => MapPage (page mod 2 ^ 24)
  | MapRegion regions => MapRegion (map cut_region (take 3 (regions ++ replicate 3 no_region)))
  | IrqPair irq0 irq1 => IrqPair (irq0 mod 2 ^ 10) (irq1 mod 2 ^ 10)
  | ApplicationType t => ApplicationType (t mod 2 ^ 3)
  | MinKernelVersion v => MinKernelVersion (v mod 2 ^ 17)
  | HandleTableSize n => HandleTableSize (n mod 2 ^ 10)
  | Syscalls _ | DebugFlags _ _ _ => c
  end.

(** ** Lemmas: bit fields *)

Lemma testbit_shl32 x k i :
  0 ≤ i → Z.testbit (shl32 x k) i = (i <? 32) && Z.testbit x (i - k).
Proof.
  intros Hi. unfold shl32, as_u32. destruct (Z.ltb_spec i 32).
  - rewrite Z.mod_pow2_bits_low by lia. by rewrite Z.shiftl_spec.
  - by rewrite Z.mod_pow2_bits_high by lia.
Qed.

Lemma testbit_field w lo n i :
  0 ≤ n → 0 ≤ i → Z.testbit (field w lo n) i = (i <? n) && Z.testbit w (i + lo).
Proof.
  intros Hn Hi. unfold field. rewrite Z.land_spec, Z.shiftr_spec, Z.testbit_ones by done.
  rewrite (proj2 (Z.leb_le 0 i)) by done. cbn [andb]. apply andb_comm.
Qed.

Lemma field_lor a b lo n : field (Z.lor a b) lo n = Z.lor (field a lo n) (field b lo n).
Proof. unfold field. by rewrite Z.shiftr_lor, Z.land_lor_distr_l. Qed.

Lemma shl32_lor a b k : shl32 (Z.lor a b) k = Z.lor (shl32 a k) (shl32 b k).
Proof.
  apply Z.bits_inj'. intros i Hi. rewrite Z.lor_spec, !testbit_shl32, Z.lor_spec by done.
  by destruct (i <? 32).
Qed.

Lemma shl32_shl32 x a b : 0 ≤ a → 0 ≤ b → shl32 (shl32 x a) b = shl32 x (a + b).
Proof.
  intros Ha Hb. apply Z.bits_inj'. intros i Hi. rewrite (testbit_shl32 (shl32 x a)), (testbit_shl32 x (a + b)) by done.
  destruct (Z.ltb_spec i 32); [|done]. cbn [andb]. destruct (Z.le_gt_cases 0 (i - b)).
  - rewrite testbit_shl32 by done. rewrite (proj2 (Z.ltb_lt _ _)) by lia. cbn [andb]. f_equal. lia.
  - by rewrite !Z.testbit_neg_r by lia.
Qed.

(** A field of a piece stored below it, above it, or exactly there. *)
Lemma field_zero_lo x k lo n : 0 ≤ lo → 0 ≤ n → lo + n ≤ k → field (shl32 x k) lo n = 0.
Proof.
  intros. apply Z.bits_inj'. intros i Hi. rewrite testbit_field, testbit_shl32, Z.bits_0 by lia.
  destruct (Z.ltb_spec i n); [|done]. rewrite (Z.testbit_neg_r x) by lia. by rewrite !andb_false_r.
Qed.

Lemma field_zero_hi x m k lo n :
  0 ≤ lo → 0 ≤ n → 0 ≤ m → k + m ≤ lo → field (shl32 (x mod 2 ^ m) k) lo n = 0.
Proof.
  intros. apply Z.bits_inj'. intros i Hi. rewrite testbit_field, testbit_shl32, Z.bits_0 by lia.
  rewrite Z.mod_pow2_bits_high by lia. by rewrite !andb_false_r.
Qed.

Lemma field_same x k n : 0 ≤ k → 0 ≤ n → k + n ≤ 32 → field (shl32 (x mod 2 ^ n) k) k n = x mod 2 ^ n.
Proof.
  intros. apply Z.bits_inj'. intros i Hi. rewrite testbit_field, testbit_shl32 by lia.
  destruct (Z.ltb_spec i n).
  - rewrite (proj2 (Z.ltb_lt _ _)) by lia. cbn [andb]. f_equal. lia.
  - cbn [andb]. by rewrite Z.mod_pow2_bits_high by lia.
Qed.

Lemma or_if_lor b v bit : or_if b v bit = Z.lor v (shl32 (Z.b2z b mod 2 ^ 1) bit).
Proof.
  destruct b; cbn [or_if Z.b2z]; [done|]. unfold shl32. rewrite Z.shiftl_0_l. by rewrite Z.lor_0_r.
Qed.

Lemma land_ones_as_u32 x n : 0 ≤ n ≤ 32 → Z.land (as_u32 x) (Z.ones n) = x mod 2 ^ n.
Proof.
  intros Hn. rewrite Z.land_ones by lia. unfold as_u32. apply Z.mod_mod_divide.
  exists (2 ^ (32 - n)). rewrite <-Z.pow_add_r by lia. f_equal. lia.
Qed.

Lemma b2z_mod b : Z.b2z b mod 2 ^ 1 = Z.b2z b.
Proof. by destruct b. Qed.

Lemma b2z_eqb_1 b : (Z.b2z b =? 1) = b.
Proof. by destruct b. Qed.

(** Every masked field as a remainder, every word as a sequence of shifted pieces. *)
Ltac word_simpl :=
  repeat match goal with
  | |- context [Z.land ?x (Zpos ?p)] =>
    let n := eval vm_compute in (Z.log2 (Zpos p) + 1) in
    change (Z.land x (Zpos p)) with (Z.land x (Z.ones n))
  end;
  rewrite ?or_if_lor, ?land_ones_as_u32, ?Z.land_ones by lia;
  rewrite ?shl32_lor, ?shl32_shl32 by lia;
  repeat match goal with
  | |- context [shl32 ?x (Zpos ?a + Zpos ?b)] =>
    let k := eval vm_compute in (Zpos a + Zpos b) in change (shl32 x (Zpos a + Zpos b)) with (shl32 x k)
  end.

Ltac field_const :=
  repeat match goal with
  | |- context [field ?c ?lo ?n] =>
    lazymatch c with
    | Zpos _ => idtac
    | Z.ones _ => idtac
    | Z0 => idtac
    end;
    let v := eval vm_compute in (field c lo n) in change (field c lo n) with v
  end.

Ltac field_simpl :=
  rewrite ?field_lor;
  repeat match goal with
  | |- context [field (shl32 (?x mod 2 ^ ?m) ?k) ?lo ?n] =>
    first [rewrite (field_zero_lo _ k lo n) by lia | rewrite (field_zero_hi x m k lo n) by lia
          | rewrite (field_same x k n) by lia]
  end;
  field_const; rewrite ?Z.lor_0_l, ?Z.lor_0_r.

Lemma has_trailer_ones w n : has_trailer w n = true ↔ field w 0 (n + 1) = Z.ones n.
Proof. apply Z.eqb_eq. Qed.

Ltac trailer :=
  apply has_trailer_ones; cbn [Z.add Pos.add Pos.succ]; word_simpl; field_simpl; reflexivity.

Lemma shl32_u32 x k : is_u32 (shl32 x k).
Proof. unfold shl32, as_u32. pose proof (Z.mod_pos_bound (Z.shiftl x k) (2 ^ 32)). mlia. Qed.

Lemma lor_u32 a b : is_u32 a → is_u32 b → is_u32 (Z.lor a b).
Proof.
  unfold_max. intros [Ha Ha2] [Hb Hb2]. assert (0 ≤ Z.lor a b) by (by apply Z.lor_nonneg).
  split; [done|]. enough (Z.lor a b < 2 ^ 32) by lia.
  destruct (Z.eq_dec (Z.lor a b) 0) as [->|]; [done|]. apply Z.log2_lt_pow2; [lia|].
  rewrite Z.log2_lor by done.
  assert (∀ x, 0 ≤ x ≤ 4294967295 → Z.log2 x < 32) as Hlog.
  { intros x Hx. destruct (Z.eq_dec x 0) as [->|]; [done|]. apply Z.log2_lt_pow2; lia. }
  apply Z.max_lub_lt; apply Hlog; lia.
Qed.

Lemma or_if_u32 b v bit : is_u32 v → is_u32 (or_if b v bit).
Proof. intros. rewrite or_if_lor. apply lor_u32; [done|apply shl32_u32]. Qed.

Lemma add_regions_u32 i rs v : is_u32 v → is_u32 (add_regions i rs v).
Proof.
  revert i v. induction rs as [|r rs IH]; intros i v Hv; cbn [add_regions]; [done|].
  apply IH, lor_u32; [done|apply shl32_u32].
Qed.

(** A trailer determines the number of its one bits. *)
Lemma has_trailer_bits w n i :
  0 ≤ n → has_trailer w n = true → 0 ≤ i ≤ n → Z.testbit w i = (i <? n).
Proof.
  intros Hn Ht%has_trailer_ones Hi. assert (Z.testbit (field w 0 (n + 1)) i = Z.testbit (Z.ones n) i) as H
    by by rewrite Ht.
  rewrite testbit_field, Z.testbit_ones, Z.add_0_r in H by lia.
  rewrite (proj2 (Z.ltb_lt i (n + 1))), (proj2 (Z.leb_le 0 i)) in H by lia. done.
Qed.

Lemma has_trailer_unique w n m :
  0 ≤ n → 0 ≤ m → has_trailer w n = true → has_trailer w m = true → n = m.
Proof.
  assert (∀ a b, 0 ≤ a < b → has_trailer w a = true → has_trailer w b = true → False) as Hlt.
  { intros a b Hab Ha Hb. pose proof (has_trailer_bits w a a) as H1.
    pose proof (has_trailer_bits w b a) as H2. rewrite H1 in H2 by (done || lia).
    rewrite Z.ltb_irrefl in H2. specialize (H2 ltac:(lia) Hb ltac:(lia)). symmetry in H2. zify_bool. lia. }
  intros Hn Hm H1 H2. destruct (Z.lt_trichotomy n m) as [?|[?|?]]; [|done|];
    [destruct (Hlt n m)|destruct (Hlt m n)]; done || lia.
Qed.

(** ** Lemmas: system calls *)

Definition mask_bit (ids : list Z) (k j : Z) : bool :=
  existsb (λ id, (id / 24 =? k) && (id mod 24 + 5 =? j)) ids.
Definition mask_used (ids : list Z) (k : Z) : bool := existsb (λ id, id / 24 =? k) ids.
Definition mask_base (k : Z) : Z := Z.lor 0xF (shl32 (Z.land k 0x7) 29).

(** What the loop over the ids maintains. *)
Definition masks_ok (ids : list Z) (st : list Z * list bool) : Prop :=
  length st.1 = 8%nat ∧ length st.2 = 8%nat ∧
  ∀ k, (k < 8)%nat →
    st.2 !! k = Some (mask_used ids (Z.of_nat k)) ∧
    ∃ m, st.1 !! k = Some m ∧ is_u32 m ∧
      ∀ j, 0 ≤ j → Z.testbit m j = Z.testbit (mask_base (Z.of_nat k)) j || mask_bit ids (Z.of_nat k) j.

Lemma syscall_masks_ok : masks_ok [] (syscall_masks, replicate 8 false).
Proof.
  split; [done|]. split; [done|]. intros k Hk. cbn [fst snd].
  split; [by rewrite lookup_replicate_2|].
  exists (mask_base (Z.of_nat k)). split_and!.
  - unfold syscall_masks. rewrite list_lookup_imap, lookup_replicate_2 by done. done.
  - unfold mask_base. apply lor_u32; [done|apply shl32_u32].
  - intros j _. by rewrite orb_false_r.
Qed.

Lemma add_syscall_ok ids st id :
  0 ≤ id → masks_ok ids st → masks_ok (ids ++ [id]) (add_syscall st id).
Proof.
  intros Hid (Hm & Hu & Hk). unfold add_syscall.
  assert ((id mod 24 + 5 <? 32) = true) as -> by (apply Z.ltb_lt; pose proof (Z.mod_pos_bound id 24); lia).
  rewrite andb_true_r.
  assert (∀ k j, mask_bit (ids ++ [id]) k j = mask_bit ids k j || (id / 24 =? k) && (id mod 24 + 5 =? j)) as Hb
    by (intros; unfold mask_bit; rewrite existsb_app; cbn; by rewrite orb_false_r).
  assert (∀ k, mask_used (ids ++ [id]) k = mask_used ids k || (id / 24 =? k)) as Hus
    by (intros; unfold mask_used; rewrite existsb_app; cbn; by rewrite orb_false_r).
  pose proof (Z.div_pos id 24 Hid eq_refl).
  destruct (Z.ltb_spec (id / 24) 8) as [H8|H8].
  - unfold masks_ok. cbn [fst snd]. split; [by rewrite length_alter|]. split; [by rewrite length_insert|]. intros k Hk8.
    destruct (Hk k Hk8) as (Huk & m & Hmk & Hm32 & Hbits). cbn [fst snd].
    rewrite Hus. destruct (Z.eqb_spec (id / 24) (Z.of_nat k)) as [Heq|Hne].
    + replace (Z.to_nat (id / 24)) with k by lia. rewrite orb_true_r.
      split; [apply list_lookup_insert_eq; lia|]. exists (Z.lor m (shl32 1 (id mod 24 + 5))).
      split_and!; [by rewrite list_lookup_alter_eq, Hmk|apply lor_u32; [done|apply shl32_u32]|].
      intros j Hj. rewrite Z.lor_spec, Hbits, Hb, testbit_shl32 by done.
      rewrite (proj2 (Z.eqb_eq _ _) Heq), <-orb_assoc. cbn [andb]. do 2 f_equal.
      pose proof (Z.mod_pos_bound id 24 eq_refl).
      destruct (Z.eqb_spec (id mod 24 + 5) j) as [<-|Hne].
      * rewrite Z.sub_diag. settle. done.
      * destruct (Z.le_gt_cases 0 (j - (id mod 24 + 5))).
        -- rewrite Z.bits_above_log2 by (cbn; lia). apply andb_false_r.
        -- rewrite Z.testbit_neg_r by lia. apply andb_false_r.
    + rewrite orb_false_r. split; [by rewrite list_lookup_insert_ne by lia|]. exists m.
      split_and!; [by rewrite list_lookup_alter_ne by lia|done|].
      intros j Hj. rewrite Hbits, Hb by done. rewrite (proj2 (Z.eqb_neq _ _) Hne). cbn [andb].
      by rewrite orb_false_r.
  - split; [done|]. split; [done|]. intros k Hk8. destruct (Hk k Hk8) as (Huk & m & Hmk & Hm32 & Hbits).
    assert ((id / 24 =? Z.of_nat k) = false) as Hne by (apply Z.eqb_neq; lia).
    rewrite Hus, Hne, orb_false_r. split; [done|]. exists m. split_and!; [done|done|].
    intros j Hj. rewrite Hbits, Hb, Hne by done. cbn [andb]. by rewrite orb_false_r.
Qed.

Lemma fold_syscalls_ok ids :
  Forall (λ id, 0 ≤ id) ids → masks_ok ids (foldl add_syscall (syscall_masks, replicate 8 false) ids).
Proof.
  induction ids as [|id ids IH] using rev_ind; intros H; [apply syscall_masks_ok|].
  apply Forall_app in H as [H Hid]. rewrite foldl_app. cbn [foldl].
  apply add_syscall_ok; [by inversion Hid|by apply IH].
Qed.

Lemma remove_unused_spec us ms :
  length us = 8%nat → length ms = 8%nat →
  remove_unused us ms = concat (zip_with (λ (u : bool) m, if u then [m] else []) us ms).
Proof.
  intros Hu Hm. do 8 (destruct us as [|? us]; [done|]; destruct ms as [|? ms]; [done|]).
  destruct us; [|done]. destruct ms; [|done]. clear. unfold remove_unused.
  change (reverse (seq 0 8)) with [7; 6; 5; 4; 3; 2; 1; 0]%nat.
  destruct b, b0, b1, b2, b3, b4, b5, b6; reflexivity.
Qed.

(** The masks of the eight groups, of which those of the used groups are kept in order. *)
Lemma encode_syscalls_masks ids :
  Forall (λ id, 0 ≤ id) ids →
  ∃ ms, Forall2 (λ k m, 0 ≤ k < 8 ∧ ∀ j, 0 ≤ j → Z.testbit m j = Z.testbit (mask_base k) j || mask_bit ids k j)
           (seqZ 0 8) ms ∧
    encode_syscalls ids = concat (zip_with (λ k m, if mask_used ids k then [m] else []) (seqZ 0 8) ms).
Proof.
  intros Hids. pose proof (fold_syscalls_ok ids Hids) as Hok. unfold encode_syscalls.
  destruct (foldl _ _ ids) as [ms us]. destruct Hok as (Hm & Hu & Hk). cbn [fst snd] in *. exists ms. split.
  - apply Forall2_same_length_lookup_2; [by rewrite length_seqZ, Hm|]. intros i k m Hik Him.
    apply lookup_seqZ in Hik as [-> Hi]. destruct (Hk i ltac:(lia)) as (_ & m' & Hm' & _ & Hbits). simplify_eq.
    split; [lia|done].
  - rewrite remove_unused_spec by done. f_equal.
    assert (us = mask_used ids <$> seqZ 0 8) as ->; [|by rewrite zip_with_fmap_l].
    apply list_eq. intros i. rewrite list_lookup_fmap. destruct (decide (i < 8)%nat) as [Hi|Hi].
    + destruct (Hk i Hi) as [-> _]. by rewrite lookup_seqZ_lt by lia.
    + rewrite lookup_ge_None_2 by lia. by rewrite lookup_seqZ_ge by lia.
Qed.

Lemma kept_keys {A} (key : A → Z) (used : Z → bool) ks ms :
  Forall2 (λ k m, key m = k) ks ms →
  map key (concat (zip_with (λ k m, if used k then [m] else []) ks ms)) = filter (λ k, used k = true) ks.
Proof.
  induction 1 as [|k m ks ms Hk _ IH]; [done|]. cbn [zip_with concat]. rewrite filter_cons, map_app, IH.
  destruct (used k); [by rewrite decide_True by done; cbn; rewrite Hk|by rewrite decide_False by done].
Qed.

Lemma filter_ext {A} (P Q : A → Prop) `{∀ x, Decision (P x), ∀ x, Decision (Q x)} l :
  Forall (λ x, P x ↔ Q x) l → filter P l = filter Q l.
Proof. induction 1 as [|x l Hx _ IH]; [done|]. rewrite !filter_cons, IH. repeat case_decide; naive_solver. Qed.

(** The words of a [Syscalls] capability: the masks of the groups of 24 that hold an id. *)
Lemma elem_of_encode_syscalls ids w :
  Forall (λ id, 0 ≤ id) ids →
  w ∈ encode_syscalls ids ↔
    ∃ k, 0 ≤ k < 8 ∧ mask_used ids k = true ∧ is_u32 w ∧
      (∀ j, 0 ≤ j → Z.testbit w j = Z.testbit (mask_base k) j || mask_bit ids k j).
Proof.
  intros Hids. pose proof (fold_syscalls_ok ids Hids) as Hok. unfold encode_syscalls.
  destruct (foldl _ _ ids) as [ms us]. destruct Hok as (Hm & Hu & Hk). cbn [fst snd] in *.
  rewrite remove_unused_spec by done. rewrite list_elem_of_In, in_concat. split.
  - intros (l & Hl & Hw). apply list_elem_of_In, list_elem_of_lookup in Hl as [k Hl].
    apply lookup_zip_with_Some in Hl as (u & m & -> & Hku & Hkm).
    assert (k < 8)%nat as Hk8 by (apply lookup_lt_Some in Hkm; lia).
    destruct (Hk k Hk8) as (Hu' & m' & Hm' & Hm32 & Hbits). simplify_eq.
    destruct (mask_used ids (Z.of_nat k)) eqn:E; [|done]. destruct Hw as [->|[]].
    exists (Z.of_nat k). split_and!; [lia|lia|done|done..].
  - intros (k & Hk8 & Huse & Hw32 & Hbits). destruct (Hk (Z.to_nat k) ltac:(lia)) as (Hu' & m & Hm' & Hm32 & Hb).
    rewrite Z2Nat.id in * by lia. assert (w = m) as ->.
    { apply Z.bits_inj'. intros j Hj. by rewrite Hbits, Hb by done. }
    exists [m]. split; [|by left]. apply list_elem_of_In, list_elem_of_lookup. exists (Z.to_nat k).
    apply lookup_zip_with_Some. exists true, m. rewrite Huse in Hu'. done.
Qed.

Lemma mask_base_trailer k : field (mask_base k) 0 5 = 0xF.
Proof. unfold mask_base. word_simpl. field_simpl. done. Qed.

Lemma mask_base_index k : 0 ≤ k < 8 → field (mask_base k) 29 3 = k.
Proof.
  intros Hk. unfold mask_base. word_simpl. field_simpl. cbn [Z.lor]. by apply Z.mod_small.
Qed.

Lemma mask_base_middle k j : 0 ≤ k → 5 ≤ j < 29 → Z.testbit (mask_base k) j = false.
Proof.
  intros Hk Hj. unfold mask_base. rewrite Z.lor_spec, testbit_shl32 by lia.
  rewrite (Z.testbit_neg_r (Z.land k 7)) by lia. rewrite andb_false_r.
  rewrite Z.bits_above_log2; [done|done|cbn; lia].
Qed.

Lemma mask_bit_middle ids k j : 0 ≤ j → j < 5 ∨ 29 ≤ j → mask_bit ids k j = false.
Proof.
  intros Hj Hr. unfold mask_bit. induction ids as [|id ids IH]; [done|]. cbn [existsb]. rewrite IH, orb_false_r.
  pose proof (Z.mod_pos_bound id 24 eq_refl). rewrite (proj2 (Z.eqb_neq (id mod 24 + 5) j)) by lia.
  apply andb_false_r.
Qed.

(** A field outside the mask bits is the base's. *)
Lemma mask_field w ids k lo n :
  0 ≤ lo → 0 ≤ n → lo + n ≤ 5 ∨ 29 ≤ lo →
  (∀ j, 0 ≤ j → Z.testbit w j = Z.testbit (mask_base k) j || mask_bit ids k j) →
  field w lo n = field (mask_base k) lo n.
Proof.
  intros Hlo Hn Hr Hbits. apply Z.bits_inj'. intros i Hi. rewrite !testbit_field by done.
  destruct (Z.ltb_spec i n); [|done]. cbn [andb]. rewrite Hbits, mask_bit_middle by lia. apply orb_false_r.
Qed.

(** ** Lemmas: the access blocks *)

Lemma align_4_spec n : 0 ≤ n → n ≤ align_4 n < n + 4.
Proof. intros. destruct (align_up_spec n 4 2) as [_ H']; [lia|done|]. exact H'. Qed.

Lemma decode_services_entry fuel n h l :
  is_empty n = false →
  decode_services (S fuel) (service_entry (n, h) ++ l)
    = services ← decode_services fuel l; Some ((ztake 8 n, h) :: services).
Proof.
  intros Hn. assert (0 < len n) by (destruct n; [done|len_lia]). unfold service_entry.
  set (k := Z.min (len n) 8). assert (1 ≤ k ≤ 8 ∧ k ≤ len n) as [Hk1 Hk2] by (unfold k; lia).
  assert (ztake k n = ztake 8 n) as ->.
  { unfold k. destruct (Z.min_spec (len n) 8) as [[? ->]|[? ->]]; [|done]. by rewrite !ztake_all by lia. }
  rewrite (proj2 (Z.eqb_neq _ _)) by lia. cbn [app decode_services].
  set (c := if h then _ else _).
  assert (Z.land (b2z (z2b c)) 127 + 1 = k ∧ Z.testbit (b2z (z2b c)) 7 = h) as [-> ->].
  { assert (k = 1 ∨ k = 2 ∨ k = 3 ∨ k = 4 ∨ k = 5 ∨ k = 6 ∨ k = 7 ∨ k = 8) as Hc by lia.
    unfold c. clearbody k. destruct_or? Hc; rewrite Hc; destruct h; done. }
  assert (len (ztake 8 n) = k) as Hl by (rewrite len_ztake_min by lia; unfold k; lia).
  rewrite get_to_ok by (rewrite len_app, Hl; len_lia). bind_cbn.
  by rewrite ztake_app_eq, zdrop_app_eq by (by rewrite Hl).
Qed.

Lemma decode_services_sac sac fuel :
  (length (build_service_access_control sac) ≤ fuel)%nat →
  decode_services fuel (build_service_access_control sac) = Some (cut_services sac).
Proof.
  unfold build_service_access_control, cut_services. revert fuel.
  induction sac as [|[n h] sac IH]; intros fuel Hf; [by destruct fuel|]. cbn [map concat] in *.
  rewrite filter_cons. destruct (is_empty n) eqn:En; case_decide as Hd; cbn [fst] in Hd; try congruence.
  - destruct n; [|done]. by apply IH.
  - rewrite length_app in Hf.
    assert (1 ≤ length (service_entry (n, h)))%nat.
    { unfold service_entry. assert (0 < len n) by (destruct n; [done|len_lia]).
      rewrite (proj2 (Z.eqb_neq _ _)) by lia. cbn [length]. lia. }
    destruct fuel as [|fuel]; [lia|]. rewrite decode_services_entry by done.
    by rewrite IH by lia.
Qed.

Lemma len_concat_le_bytes {A} (f : A → Z) k l : len (concat (map (λ x, le_bytes k (f x)) l)) = Z.of_nat k * len l.
Proof. induction l as [|x l IH]; [change (len (@nil A)) with 0; by rewrite Z.mul_0_r|]. cbn [map concat]. rewrite len_app, len_le_bytes, IH, len_cons. lia. Qed.

(** A read at a known place of a concatenation. *)
Lemma read_u32_at l m r off z :
  off = len l → is_u32 z → m = le_bytes 4 z → read_u32 (l ++ m ++ r) off = Some z.
Proof.
  intros -> Hz ->. unfold read_u32. rewrite get_range_mid by (rewrite ?len_le_bytes; lia). cbn [fmap option_fmap option_map].
  by rewrite le_val_le_bytes_small by mlia.
Qed.

Lemma read_u64s_at {A} (f : A → Z) l xs r off :
  off = len l → Forall (λ x, is_u64 (f x)) xs →
  read_u64s (l ++ concat (map (λ x, le_bytes 8 (f x)) xs) ++ r) off (len xs) = Some (map f xs).
Proof.
  intros -> Hxs. unfold read_u64s. rewrite get_range_mid by (rewrite ?len_concat_le_bytes; lia). bind_cbn.
  f_equal. unfold len. rewrite Nat2Z.id. rewrite <-(length_map f).
  assert (concat (map (λ x, le_bytes 8 (f x)) xs) = @array_to_bytes Z u64 (map f xs)) as ->.
  { unfold array_to_bytes. rewrite map_map. done. }
  rewrite <-(app_nil_r (array_to_bytes _)). apply (array_of_to_bytes (A:=Z)). apply Forall_map.
  eapply Forall_impl; [exact Hxs|]. cbn. intros x Hx. change (256 ^ 8) with 0x10000000000000000. mlia.
Qed.

(** The lists an ACI0 filesystem block can hold. *)
Record access_wf (fs : FilesystemAccess) : Prop := {
  aw_permissions : is_u64 (permissions fs);
  aw_content : Forall is_u64 (content_owner_ids fs);
  aw_save : Forall (λ e, is_u8 (accessibility e) ∧ is_u64 (owner_id e)) (save_data_owner_ids fs);
  aw_range : Forall is_u64 [content_owner_id_min fs; content_owner_id_max fs;
                            save_data_owner_id_min fs; save_data_owner_id_max fs];
  aw_size : 0x28 + 8 * len (content_owner_ids fs) + 9 * len (save_data_owner_ids fs) ≤ U32_MAX;
}.

Definition coi_size_of (fs : FilesystemAccess) : Z :=
  if is_empty (content_owner_ids fs) then 0 else 4 + len (content_owner_ids fs) * 8.
Definition sdoi_size_of (fs : FilesystemAccess) : Z :=
  if is_empty (save_data_owner_ids fs) then 0
  else 4 + align_4 (len (save_data_owner_ids fs)) + len (save_data_owner_ids fs) * 8.

Definition fah_of (fs : FilesystemAccess) : list byte :=
  le_bytes 4 1 ++ le_bytes 8 (permissions fs) ++ le_bytes 4 0x1C ++ le_bytes 4 (coi_size_of fs) ++
  le_bytes 4 (0x1C + coi_size_of fs) ++ le_bytes 4 (sdoi_size_of fs) ++
  coi_section (content_owner_ids fs) ++ sdoi_section (save_data_owner_ids fs).

Lemma sizes_range fs :
  access_wf fs → 0 ≤ coi_size_of fs ∧ 0 ≤ sdoi_size_of fs ∧ 0x1C + coi_size_of fs + sdoi_size_of fs ≤ U32_MAX.
Proof.
  intros []. pose proof (len_nonneg (content_owner_ids fs)). pose proof (len_nonneg (save_data_owner_ids fs)).
  pose proof (align_4_spec (len (save_data_owner_ids fs))). unfold coi_size_of, sdoi_size_of.
  destruct (is_empty _), (is_empty _); lia.
Qed.

Lemma build_fah_spec fs : access_wf fs → build_filesystem_access_header fs = Some (fah_of fs).
Proof.
  intros Hw. pose proof (sizes_range fs Hw) as (Hc & Hs & Hm). unfold build_filesystem_access_header.
  unfold fah_of.
  replace (if is_empty (content_owner_ids fs) then 0 else as_u32 _) with (coi_size_of fs).
  2:{ unfold coi_size_of in *. destruct (is_empty _); [done|]. rewrite as_u32_small; [done|mlia]. }
  replace (if is_empty (save_data_owner_ids fs) then 0 else _) with (sdoi_size_of fs).
  2:{ unfold sdoi_size_of in *. destruct (is_empty (save_data_owner_ids fs)); [done|].
      rewrite as_u32_small; [done|mlia]. }
  bind_step. done.
Qed.

Lemma len_coi_section fs : len (coi_section (content_owner_ids fs)) = coi_size_of fs.
Proof.
  unfold coi_section, coi_size_of. destruct (is_empty _); [done|].
  rewrite len_app, len_le_bytes, (len_concat_le_bytes (λ x, x)). lia.
Qed.

(** The fixed part of the block, as its own prefix. *)
Definition fah_head (fs : FilesystemAccess) : list byte :=
  le_bytes 4 1 ++ le_bytes 8 (permissions fs) ++ le_bytes 4 0x1C ++ le_bytes 4 (coi_size_of fs) ++
  le_bytes 4 (0x1C + coi_size_of fs) ++ le_bytes 4 (sdoi_size_of fs).

Lemma fah_split fs :
  fah_of fs = fah_head fs ++ coi_section (content_owner_ids fs) ++ sdoi_section (save_data_owner_ids fs).
Proof. unfold fah_of, fah_head. by rewrite <-!app_assoc. Qed.

Lemma len_fah_head fs : len (fah_head fs) = 28.
Proof. unfold fah_head. rewrite !len_app, !len_le_bytes. done. Qed.

Lemma read_coi fs :
  access_wf fs →
  (if coi_size_of fs =? 0 then Some [] else n ← read_u32 (fah_of fs) 28; read_u64s (fah_of fs) 32 n)
    = Some (content_owner_ids fs).
Proof.
  intros Hw. pose proof Hw as []. pose proof (len_nonneg (content_owner_ids fs)).
  pose proof (len_nonneg (save_data_owner_ids fs)). pose proof (len_fah_head fs) as Hh.
  rewrite fah_split. unfold coi_size_of. set (hd := fah_head fs) in *. clearbody hd.
  unfold coi_section. destruct (content_owner_ids fs) as [|i ids] eqn:E; [done|]. cbn [is_empty].
  rewrite (proj2 (Z.eqb_neq _ _)) by len_lia. rewrite <-!app_assoc.
  rewrite as_u32_small by mlia.
  rewrite (read_u32_at hd _ _ _ (len (i :: ids))) by (done || mlia). bind_cbn.
  rewrite app_assoc. rewrite (read_u64s_at (λ x, x)); [by rewrite map_id|len_lia|done].
Qed.

(** The save data section, read where it lies. *)
Definition read_owners (l : list byte) (off : Z) : option (list (Z * Z)) :=
  n ← read_u32 l off;
  acc ← get_range l (off + 4) (off + 4 + n);
  ids ← read_u64s l (off + 4 + align_4 n) n;
  Some (zip (map b2z acc) ids).

Lemma read_owners_at hd es off :
  off = len hd → is_empty es = false → len es + 4 ≤ U32_MAX →
  Forall (λ e, is_u8 (accessibility e) ∧ is_u64 (owner_id e)) es →
  read_owners (hd ++ sdoi_section es) off = Some (map (λ e, (accessibility e, owner_id e)) es).
Proof.
  intros -> Hne Hlen Hwf. pose proof (len_nonneg es). pose proof (align_4_spec (len es)) as Hal.
  unfold read_owners, sdoi_section. rewrite Hne, as_u32_small by mlia.
  rewrite (read_u32_at hd _ _ _ (len es)) by (done || mlia). bind_cbn.
  rewrite app_assoc. set (hd2 := hd ++ le_bytes 4 (len es)).
  assert (len hd2 = len hd + 4) as H2 by (unfold hd2; rewrite len_app, len_le_bytes; lia).
  rewrite get_range_mid by (rewrite ?len_map; lia). bind_cbn.
  rewrite (app_assoc hd2), (app_assoc (hd2 ++ _)). set (hd3 := (hd2 ++ _) ++ _).
  assert (len hd3 = len hd + 4 + align_4 (len es)) as H3.
  { unfold hd3. rewrite !len_app, len_map, len_zrep by lia. lia. }
  rewrite <-(app_nil_r (concat _)). rewrite (read_u64s_at owner_id); [|done|].
  2:{ eapply Forall_impl; [exact Hwf|]. by intros ? []. }
  bind_cbn. f_equal. rewrite map_map. clear -Hwf. induction Hwf as [|e es [He _] _ IH]; [done|].
  cbn [map zip zip_with]. rewrite b2z_z2b_u8 by done. f_equal. exact IH.
Qed.

Lemma read_sdoi fs :
  access_wf fs →
  (if sdoi_size_of fs =? 0 then Some [] else read_owners (fah_of fs) (28 + coi_size_of fs))
    = Some (map (λ e, (accessibility e, owner_id e)) (save_data_owner_ids fs)).
Proof.
  intros Hw. pose proof Hw as []. pose proof (len_nonneg (content_owner_ids fs)).
  pose proof (len_nonneg (save_data_owner_ids fs)).
  pose proof (align_4_spec (len (save_data_owner_ids fs))). unfold sdoi_size_of.
  destruct (is_empty (save_data_owner_ids fs)) eqn:E; [by destruct (save_data_owner_ids fs)|].
  rewrite (proj2 (Z.eqb_neq _ _)) by lia. rewrite fah_split, app_assoc.
  apply read_owners_at; [|done|lia|done]. by rewrite len_app, len_fah_head, len_coi_section.
Qed.

(** The word of a region list: the first three regions, missing ones reading as zero. *)
Definition region_bits (r : MapRegionDescriptor) (lo : Z) : Z :=
  Z.lor (shl32 (region_type r mod 2 ^ 6) lo) (shl32 (Z.b2z (region_is_ro r) mod 2 ^ 1) (lo + 6)).

Lemma region_desc_bits r lo : 0 ≤ lo → shl32 (region_desc r) lo = region_bits r lo.
Proof.
  intros Hlo. unfold region_desc, region_bits. word_simpl.
  by rewrite b2z_mod, (Z.add_comm lo).
Qed.

Lemma regions_word rs :
  ∃ r1 r2 r3, take 3 (rs ++ replicate 3 no_region) = [r1; r2; r3] ∧
    add_regions 0 (take 3 rs) 0x3FF
      = Z.lor (Z.lor (Z.lor 0x3FF (region_bits r1 11)) (region_bits r2 18)) (region_bits r3 25).
Proof.
  destruct rs as [|r1 [|r2 [|r3 rs]]]; do 3 eexists; (split; [reflexivity|]);
    cbn [take add_regions app replicate nth]; rewrite ?take_0, ?region_desc_bits by lia;
    change (region_bits no_region _) with 0; by rewrite ?Z.lor_0_r.
Qed.

Lemma has_trailer_other w n m :
  has_trailer w n = true → 0 ≤ n → 0 ≤ m → n ≠ m → has_trailer w m = false.
Proof.
  intros Ht Hn Hm Hne. destruct (has_trailer w m) eqn:E; [|done].
  by destruct (Hne (has_trailer_unique w n m Hn Hm Ht E)).
Qed.

(** Decides every trailer test of the first word tested, whose type has [n] trailing ones. *)
Ltac decide_trailer n :=
  lazymatch goal with
  | |- context [has_trailer ?w _] =>
    let H := fresh in
    assert (has_trailer w n = true) as H by trailer;
    rewrite H;
    repeat match goal with
    | |- context [has_trailer w ?m] => rewrite (has_trailer_other w n m H) by lia
    end; clear H
  end.

(** The mask of a group exists whether or not it is kept. *)
Lemma mask_exists ids k :
  Forall (λ id, 0 ≤ id) ids → 0 ≤ k < 8 →
  ∃ w, is_u32 w ∧ ∀ j, 0 ≤ j → Z.testbit w j = Z.testbit (mask_base k) j || mask_bit ids k j.
Proof.
  intros Hids Hk. destruct (fold_syscalls_ok ids Hids) as (_ & _ & H).
  destruct (H (Z.to_nat k)) as (_ & w & _ & H32 & Hbits); [lia|]. rewrite Z2Nat.id in Hbits by lia. eauto.
Qed.

Lemma field_bit w i : 0 ≤ i → field w i 1 = 1 ↔ Z.testbit w i = true.
Proof.
  intros Hi. unfold field. rewrite Z.land_ones, <-Z.bit0_mod, Z.shiftr_spec, Z.add_0_l by lia.
  by destruct (Z.testbit w i).
Qed.

Lemma len_sdoi_section fs : len (sdoi_section (save_data_owner_ids fs)) = sdoi_size_of fs.
Proof.
  unfold sdoi_section, sdoi_size_of. destruct (is_empty _); [done|].
  pose proof (align_4_spec (len (save_data_owner_ids fs)) (len_nonneg _)).
  rewrite !len_app, len_le_bytes, len_map, len_zrep, len_concat_le_bytes by lia. lia.
Qed.

Lemma read_fah_head fs :
  access_wf fs →
  (le_val <$> get_range (fah_of fs) 4 12) = Some (permissions fs) ∧
  read_u32 (fah_of fs) 12 = Some 28 ∧ read_u32 (fah_of fs) 16 = Some (coi_size_of fs) ∧
  read_u32 (fah_of fs) 20 = Some (28 + coi_size_of fs) ∧ read_u32 (fah_of fs) 24 = Some (sdoi_size_of fs).
Proof.
  intros Hw. pose proof (sizes_range fs Hw) as (Hc & Hs & Hm). destruct Hw. unfold fah_of.
  split_and!.
  - rewrite get_range_mid by by rewrite !len_le_bytes. cbn [fmap option_fmap option_map].
    rewrite le_val_le_bytes_small; [done|]. change (256 ^ Z.of_nat 8) with 0x10000000000000000. mlia.
  - rewrite app_assoc. by apply read_u32_at.
  - rewrite 2!app_assoc. apply read_u32_at; [done|mlia|done].
  - rewrite 3!app_assoc. apply read_u32_at; [done|mlia|done].
  - rewrite 4!app_assoc. apply read_u32_at; [done|mlia|done].
Qed.

(** ** Properties *)

(** Every system call mask has the trailer of one. *)
Lemma syscalls_trailer s w :
  Forall (λ id, 0 ≤ id) (map snd s) → w ∈ encode (Syscalls s) → has_trailer w 4 = true.
Proof.
  intros Hs Hw. apply elem_of_encode_syscalls in Hw as (k & Hk & _ & _ & Hbits); [|done].
  apply has_trailer_ones. rewrite (mask_field w (map snd s) k) by (done || lia). apply mask_base_trailer.
Qed.

(** C33. Every word of an encoded capability is a [u32] whose low bits are the documented trailer of
    its type - that many ones and then a zero - and of no other type, and an encoding has at most
    eight words. *)
Theorem capability_words c :
  (∀ s, c = Syscalls s → Forall (λ id, 0 ≤ id) (map snd s)) →
  len (encode c) ≤ 8 ∧
  ∀ w, w ∈ encode c →
    is_u32 w ∧ ∀ n, 0 ≤ n → has_trailer w n = true ↔ n = trailer_bits c.
Proof.
  intros Hs. assert (∀ w, w ∈ encode c → is_u32 w ∧ has_trailer w (trailer_bits c) = true) as Hw.
  { intros w Hw. destruct c as [| s | | | rs | | | | | ]; cbn [encode trailer_bits] in *;
      rewrite ?elem_of_cons, ?elem_of_nil in Hw; destruct_or? Hw; try done; try subst w;
      try (split; [repeat first [apply lor_u32 | apply or_if_u32 | apply shl32_u32 | done] | trailer]).
    - apply elem_of_encode_syscalls in Hw as (k & Hk & _ & Hw & Hbits); [|by apply Hs].
      split; [done|]. apply has_trailer_ones. rewrite (mask_field w (map snd s) k) by (done || lia).
      apply mask_base_trailer.
    - split; [by apply add_regions_u32|]. apply has_trailer_ones.
      destruct (regions_word rs) as (r1 & r2 & r3 & _ & ->). unfold region_bits. cbn [trailer_bits].
      change (10 + 1) with 11. field_simpl. done. }
  split.
  - destruct c as [| s | | | | | | | | ]; try done. cbn [encode].
    specialize (Hs s eq_refl). pose proof (fold_syscalls_ok _ Hs) as (Hm & Hu & _).
    unfold encode_syscalls. destruct (foldl _ _ _) as [ms us]. cbn [fst snd] in *.
    rewrite remove_unused_spec by done. clear -Hm Hu.
    do 8 (destruct us as [|? us]; [done|]; destruct ms as [|? ms]; [done|]); destruct us; [|done].
    destruct ms; [|done]. repeat match goal with u : bool |- _ => destruct u end; done.
  - intros w Hin. destruct (Hw w Hin) as [H32 Ht]. split; [done|]. intros n Hn. split; [|by intros ->].
    intros Hn2. eapply has_trailer_unique; [done| |done|done]. by destruct c.
Qed.

(** The system call masks permit exactly the ids below 192 that the map holds: an id is in the
    map when and only when a word has its group of 24 as index and its bit set, and every word is
    the mask of some group the map uses. *)
Theorem syscalls_permitted s :
  Forall (λ id, 0 ≤ id) (map snd s) →
  (∀ id, 0 ≤ id < 192 →
    id ∈ map snd s ↔
      ∃ w, w ∈ encode (Syscalls s) ∧ field w 29 3 = id / 24 ∧ field w (5 + id mod 24) 1 = 1) ∧
  (∀ w, w ∈ encode (Syscalls s) → ∃ id, id ∈ map snd s ∧ 0 ≤ id < 192 ∧ field w 29 3 = id / 24).
Proof.
  cbn [encode]. set (ids := map snd s). intros Hids.
  assert (∀ w k, (∀ j, 0 ≤ j → Z.testbit w j = Z.testbit (mask_base k) j || mask_bit ids k j) →
    0 ≤ k < 8 → field w 29 3 = k) as Hidx.
  { intros w k Hbits Hk. rewrite (mask_field w ids k) by (done || lia). by apply mask_base_index. }
  assert (∀ k, mask_used ids k = true ↔ ∃ id, id ∈ ids ∧ id / 24 = k) as Hused.
  { intros k. unfold mask_used. rewrite existsb_exists. setoid_rewrite list_elem_of_In.
    setoid_rewrite Z.eqb_eq. done. }
  split.
  - intros id Hid. pose proof (Z.mod_pos_bound id 24 eq_refl). split.
    + intros Hin. assert (0 ≤ id / 24 < 8) as Hk
        by (split; [apply Z.div_pos; lia|apply Z.div_lt_upper_bound; lia]).
      destruct (mask_exists ids (id / 24)) as (w & Hw32 & Hbits); [done|lia|].
      exists w. split_and!; [|by apply Hidx|].
      * apply elem_of_encode_syscalls; [done|]. exists (id / 24). split_and!; [lia|lia| |done|done].
        apply Hused. eauto.
      * apply field_bit; [lia|]. rewrite Hbits by lia. apply orb_true_iff. right.
        apply existsb_exists. exists id. split; [by apply list_elem_of_In|].
        by rewrite Z.eqb_refl, Z.add_comm, Z.eqb_refl.
    + intros (w & Hw & Hi & Hb). apply elem_of_encode_syscalls in Hw as (k & Hk & _ & _ & Hbits); [|done].
      rewrite (Hidx w k Hbits Hk) in Hi. subst k. apply field_bit in Hb; [|lia].
      rewrite Hbits, mask_base_middle in Hb by lia. cbn [orb] in Hb.
      apply existsb_exists in Hb as (id' & Hin & Heq). zify_bool.
      assert (id = id') as -> by (rewrite (Z.div_mod id 24), (Z.div_mod id' 24) by lia; lia).
      by apply list_elem_of_In.
  - intros w Hw. apply elem_of_encode_syscalls in Hw as (k & Hk & Hu & _ & Hbits); [|done].
    apply Hused in Hu as (id & Hin & <-). exists id. split_and!; [done| | |by apply Hidx].
    + rewrite Forall_forall in Hids. by apply Hids.
    + rewrite (Z.div_mod id 24) by lia. pose proof (Z.mod_pos_bound id 24 eq_refl). lia.
Qed.

(** The same, with the groups in order: what the masks permit, listed, is what the map holds. *)
Lemma syscalls_listed s :
  Forall (λ id, 0 ≤ id) (map snd s) →
  permitted_syscalls (encode (Syscalls s)) = filter (λ id, id ∈ map snd s) (seqZ 0 192) ∧
  map (λ w, field w 29 3) (encode (Syscalls s))
    = filter (λ k, existsb (λ id, id / 24 =? k) (map snd s) = true) (seqZ 0 8).
Proof.
  intros Hids. split.
  - apply filter_ext, Forall_forall. intros id [Hid1 Hid2]%elem_of_seqZ.
    destruct (syscalls_permitted s Hids) as [Hp _]. rewrite Hp by lia. unfold permits. rewrite existsb_exists.
    setoid_rewrite andb_true_iff. setoid_rewrite andb_true_iff. setoid_rewrite Z.eqb_eq.
    setoid_rewrite list_elem_of_In. split; [naive_solver|]. intros (w & Hw & Hg & Hb). exists w. split_and!; try done.
    apply Z.eqb_eq. apply (syscalls_trailer s w Hids). by apply list_elem_of_In.
  - destruct (encode_syscalls_masks _ Hids) as (ms & Hms & He). cbn [encode]. rewrite He. apply kept_keys.
    eapply Forall2_impl; [exact Hms|]. intros k m [Hk Hbits].
    rewrite (mask_field m (map snd s) k) by (done || lia). by apply mask_base_index.
Qed.

(** C32. The words determine the capability: reading their fields at the positions the code writes
    gives back every argument, cut to the width its field has. The masks of a [Syscalls] give back
    exactly the system calls below 192 of its map, in words that are the groups of 24 it uses, each
    once and in order. *)
Theorem capability_round_trip c :
  (∀ s, c = Syscalls s → Forall (λ id, 0 ≤ id) (map snd s)) →
  match c with
  | Syscalls s =>
    permitted_syscalls (encode c) = filter (λ id, id ∈ map snd s) (seqZ 0 192) ∧
    map (λ w, field w 29 3) (encode c)
      = filter (λ k, existsb (λ id, id / 24 =? k) (map snd s) = true) (seqZ 0 8)
  | _ => decode (encode c) = Some (normalize c)
  end.
Proof.
  intros Hs.
  destruct c as [hp lp hc lc| s | address size is_ro is_io | | rs | | | | | ];
    [|by apply syscalls_listed, Hs|..];
    cbn [encode decode normalize].
  - decide_trailer 3. word_simpl. by field_simpl.
  - decide_trailer 6. decide_trailer 6. cbn [andb]. word_simpl. field_simpl. rewrite !b2z_mod, b2z_eqb_1.
    f_equal. f_equal; [|by destruct is_io].
    rewrite Z.shiftr_div_pow2 by lia. rewrite lor_shiftl by (done || apply Z.mod_pos_bound; lia).
    change (2 ^ 28) with (2 ^ 24 * 2 ^ 4). rewrite Z.rem_mul_r by lia. lia.
  - decide_trailer 7. word_simpl. by field_simpl.
  - destruct (regions_word rs) as (r1 & r2 & r3 & -> & ->). unfold region_bits, region_of.
    decide_trailer 10. change (11 + 6) with 17. change (18 + 6) with 24. change (25 + 6) with 31. field_simpl.
    cbn [map]. unfold cut_region. by rewrite !b2z_mod, !b2z_eqb_1.
  - decide_trailer 11. word_simpl. by field_simpl.
  - decide_trailer 13. word_simpl. by field_simpl.
  - decide_trailer 14. word_simpl. by field_simpl.
  - decide_trailer 15. word_simpl. by field_simpl.
  - decide_trailer 16. word_simpl. field_simpl. by rewrite !b2z_mod, !b2z_eqb_1.
Qed.

(** The service list survives its encoding: reading entries by their control bytes gives back
    every named service, its name cut to 8 bytes and its host flag, in order. *)
Theorem service_access_round_trip sac :
  decode_services (length (build_service_access_control sac)) (build_service_access_control sac)
    = Some (cut_services sac).
Proof. by apply decode_services_sac. Qed.

(** The filesystem access block survives its encoding: following the block's own offsets gives
    back the permissions, the content owners and the save data owners, and the block is as long as
    its header, its sections' recorded sizes and nothing more; the ACID form is 44 bytes. *)
Theorem filesystem_access_round_trip fs :
  access_wf fs →
  ∃ block, build_filesystem_access_header fs = Some block ∧
    read_filesystem_access_header block
      = Some (permissions fs, content_owner_ids fs,
              map (λ e, (accessibility e, owner_id e)) (save_data_owner_ids fs)) ∧
    len block = 0x1C + coi_size_of fs + sdoi_size_of fs ∧
    len (build_filesystem_access_control fs) = 44.
Proof.
  intros Hw. exists (fah_of fs). split; [by apply build_fah_spec|]. split_and!.
  - unfold read_filesystem_access_header. destruct (read_fah_head fs Hw) as (-> & -> & -> & -> & ->).
    bind_cbn. change (28 + 4) with 32. rewrite read_coi by done. bind_cbn.
    pose proof (read_sdoi fs Hw) as Hs. unfold read_owners in Hs. rewrite Hs. bind_cbn. done.
  - rewrite fah_split, !len_app, len_fah_head, len_coi_section, len_sdoi_section. lia.
  - unfold build_filesystem_access_control. rewrite !len_app, !len_le_bytes. done.
Qed.

(** ** Witnesses *)

Definition sample_syscalls : list (list byte * Z) := [([x61], 1); ([x62], 0x29); ([x63], 25)].

Example sample_syscall_words : encode (Syscalls sample_syscalls) = [0x4F; 0x2040004F].
Proof. vm_compute. reflexivity. Qed.

Lemma capability_words_witness :
  len (encode (Syscalls sample_syscalls)) ≤ 8 ∧
  ∀ w, w ∈ encode (Syscalls sample_syscalls) → is_u32 w ∧ ∀ n, 0 ≤ n → has_trailer w n = true ↔ n = 4.
Proof.
  apply (capability_words (Syscalls sample_syscalls)). intros s [= <-]. by repeat constructor.
Defined.

Lemma capability_round_trip_witness :
  decode (encode (Map 0x5000000 0x1000 true false)) = Some (Map 0x5000000 0x1000 true false) ∧
  permitted_syscalls (encode (Syscalls sample_syscalls)) = [1; 25; 0x29] ∧
  map (λ w, field w 29 3) (encode (Syscalls sample_syscalls)) = [0; 1].
Proof.
  split; [by apply (capability_round_trip (Map 0x5000000 0x1000 true false))|].
  apply (capability_round_trip (Syscalls sample_syscalls)). intros s [= <-]. by repeat constructor.
Defined.

Lemma syscalls_permitted_witness :
  ∃ w, w ∈ encode (Syscalls sample_syscalls) ∧ field w 29 3 = 1 ∧ field w (5 + 0x29 mod 24) 1 = 1.
Proof.
  destruct (syscalls_permitted sample_syscalls) as [H _]; [by repeat constructor|].
  apply (H 0x29); [lia|]. cbn. right. left.
Defined.

Definition sample_access : FilesystemAccess :=
  {| permissions := 0xFFFFFFFFFFFFFFFF; content_owner_ids := [1; 2];
     save_data_owner_ids := [{| accessibility := 3; owner_id := 4 |}];
     content_owner_id_min := 0; content_owner_id_max := 5; save_data_owner_id_min := 0;
     save_data_owner_id_max := 6 |}.

Lemma sample_access_wf : access_wf sample_access.
Proof. split; repeat constructor; by vm_compute. Qed.

Lemma filesystem_access_round_trip_witness :
  ∃ block, build_filesystem_access_header sample_access = Some block ∧
    read_filesystem_access_header block = Some (0xFFFFFFFFFFFFFFFF, [1; 2], [(3, 4)]) ∧
    len block = 64 ∧ len (build_filesystem_access_control sample_access) = 44.
Proof. apply (filesystem_access_round_trip sample_access sample_access_wf). Defined.
