(* ===== verification/Npdm.v ===== *)
(** * NPDM program metadata: [raw/npdm.rs], [write/npdm.rs] and [read/npdm.rs]

    The META, ACID and ACI0 headers, the builder that lays the three sections out over the permission
    blocks of [NpdmCaps], and the reader. An [option] whose [None] is a panic is the result of an
    infallible function. *)

From S2P Require Import Prelude Bytes Strs Layout NpdmCaps.
#[local] Open Scope Z_scope.

(** ** The structures *)

Definition META_MAGIC : Z := 0x4154454d.
Definition ACID_MAGIC : Z := 0x44494341.
Definition ACI0_MAGIC : Z := 0x30494341.

Record NpdmHeader := {
  nh_magic : Z;
  nh_signature_key_generation : Z;
  nh_reserved_08 : Z;
  nh_flags : Z;
  nh_reserved_0d : Z;
  nh_main_thread_priority : Z;
  nh_main_thread_core_number : Z;
  nh_reserved_10 : Z;
  nh_system_resource_size : Z;
  nh_version : Z;
  nh_main_thread_stack_size : Z;
  nh_name : list byte;
  nh_product_code : list byte;
  nh_reserved_40 : list byte;
  nh_aci_offset : Z;
  nh_aci_size : Z;
  nh_acid_offset : Z;
  nh_acid_size : Z;
}.
#[export] Instance NpdmHeader_layout : Layout NpdmHeader.
Proof.
  refine (L_struct (u32 ⊗ u32 ⊗ u32 ⊗ u8 ⊗ u8 ⊗ u8 ⊗ u8 ⊗ u32 ⊗ u32 ⊗ u32 ⊗ u32 ⊗ byte_array 16
                    ⊗ byte_array 16 ⊗ byte_array 48 ⊗ u32 ⊗ u32 ⊗ u32 ⊗ u32)%layout
    (λ '(a, b, c, d, e, f, g, h, i, j, k, l, m, n, o, p, q, r),
       Build_NpdmHeader a b c d e f g h i j k l m n o p q r)
    (λ x, (nh_magic x, nh_signature_key_generation x, nh_reserved_08 x, nh_flags x, nh_reserved_0d x,
           nh_main_thread_priority x, nh_main_thread_core_number x, nh_reserved_10 x,
           nh_system_resource_size x, nh_version x, nh_main_thread_stack_size x, nh_name x,
           nh_product_code x, nh_reserved_40 x, nh_aci_offset x, nh_aci_size x, nh_acid_offset x,
           nh_acid_size x)) _ _); solve_struct.
Defined.
#[export] Instance eta_NpdmHeader : Eta NpdmHeader := λ x,
  Build_NpdmHeader (nh_magic x) (nh_signature_key_generation x) (nh_reserved_08 x) (nh_flags x)
    (nh_reserved_0d x) (nh_main_thread_priority x) (nh_main_thread_core_number x) (nh_reserved_10 x)
    (nh_system_resource_size x) (nh_version x) (nh_main_thread_stack_size x) (nh_name x)
    (nh_product_code x) (nh_reserved_40 x) (nh_aci_offset x) (nh_aci_size x) (nh_acid_offset x)
    (nh_acid_size x).

Record AcidHeader := {
  ad_signature : list byte;
  ad_public_key : list byte;
  ad_magic : Z;
  ad_size : Z;
  ad_version : Z;
  ad_reserved_209 : list byte;
  ad_flags : Z;
  ad_program_id_min : Z;
  ad_program_id_max : Z;
  ad_fac_offset : Z;
  ad_fac_size : Z;
  ad_sac_offset : Z;
  ad_sac_size : Z;
  ad_kc_offset : Z;
  ad_kc_size : Z;
  ad_reserved_238 : Z;
}.
#[export] Instance AcidHeader_layout : Layout AcidHeader.
Proof.
  refine (L_struct (byte_array 0x100 ⊗ byte_array 0x100 ⊗ u32 ⊗ u32 ⊗ u8 ⊗ byte_array 3 ⊗ u32 ⊗ u64
                    ⊗ u64 ⊗ u32 ⊗ u32 ⊗ u32 ⊗ u32 ⊗ u32 ⊗ u32 ⊗ u64)%layout
    (λ '(a, b, c, d, e, f, g, h, i, j, k, l, m, n, o, p), Build_AcidHeader a b c d e f g h i j k l m n o p)
    (λ x, (ad_signature x, ad_public_key x, ad_magic x, ad_size x, ad_version x, ad_reserved_209 x,
           ad_flags x, ad_program_id_min x, ad_program_id_max x, ad_fac_offset x, ad_fac_size x,
           ad_sac_offset x, ad_sac_size x, ad_kc_offset x, ad_kc_size x, ad_reserved_238 x)) _ _);
    solve_struct.
Defined.
#[export] Instance eta_AcidHeader : Eta AcidHeader := λ x,
  Build_AcidHeader (ad_signature x) (ad_public_key x) (ad_magic x) (ad_size x) (ad_version x)
    (ad_reserved_209 x) (ad_flags x) (ad_program_id_min x) (ad_program_id_max x) (ad_fac_offset x)
    (ad_fac_size x) (ad_sac_offset x) (ad_sac_size x) (ad_kc_offset x) (ad_kc_size x) (ad_reserved_238 x).

Record Aci0Header := {
  ai_magic : Z;
  ai_reserved_04 : list byte;
  ai_program_id : Z;
  ai_reserved_18 : Z;
  ai_fac_offset : Z;
  ai_fac_size : Z;
  ai_sac_offset : Z;
  ai_sac_size : Z;
  ai_kc_offset : Z;
  ai_kc_size : Z;
  ai_reserved_38 : Z;
}.
#[export] Instance Aci0Header_layout : Layout Aci0Header.
Proof.
  refine (L_struct (u32 ⊗ byte_array 12 ⊗ u64 ⊗ u64 ⊗ u32 ⊗ u32 ⊗ u32 ⊗ u32 ⊗ u32 ⊗ u32 ⊗ u64)%layout
    (λ '(a, b, c, d, e, f, g, h, i, j, k), Build_Aci0Header a b c d e f g h i j k)
    (λ x, (ai_magic x, ai_reserved_04 x, ai_program_id x, ai_reserved_18 x, ai_fac_offset x, ai_fac_size x,
           ai_sac_offset x, ai_sac_size x, ai_kc_offset x, ai_kc_size x, ai_reserved_38 x)) _ _);
    solve_struct.
Defined.
#[export] Instance eta_Aci0Header : Eta Aci0Header := λ x,
  Build_Aci0Header (ai_magic x) (ai_reserved_04 x) (ai_program_id x) (ai_reserved_18 x) (ai_fac_offset x)
    (ai_fac_size x) (ai_sac_offset x) (ai_sac_size x) (ai_kc_offset x) (ai_kc_size x) (ai_reserved_38 x).

(** ** The builder *)

Record AciData := {
  aci_program_id : Z;
  aci_filesystem_access : FilesystemAccess;
  aci_service_access : ServiceAccess;
  aci_kernel_capabilities : list KernelCapability;
}.

Record AcidData := {
  acid_program_id_min : Z;
  acid_program_id_max : Z;
  acid_filesystem_access : FilesystemAccess;
  acid_service_access : ServiceAccess;
  acid_kernel_capabilities : list KernelCapability;
  acid_flags : Z;
}.
Definition AcidData_default : AcidData :=
  {| acid_program_id_min := 0; acid_program_id_max := 0xFFFFFFFFFFFFFFFF;
     acid_filesystem_access := FilesystemAccess_default; acid_service_access := [];
     acid_kernel_capabilities := []; acid_flags := 0 |}.

Record NpdmMetadata := {
  md_name : list byte;
  md_title_id : Z;
  md_version : Z;
  md_main_thread_priority : Z;
  md_default_cpu_id : Z;
  md_main_thread_stack_size : Z;
  md_flags : Z;
}.

Record NpdmBuilder := {
  metadata : NpdmMetadata;
  b_aci : option AciData;
  b_acid : option AcidData;
}.
#[export] Instance eta_NpdmBuilder : Eta NpdmBuilder := λ b, Build_NpdmBuilder (metadata b) (b_aci b) (b_acid b).

Definition NpdmBuilder_new (m : NpdmMetadata) : NpdmBuilder := {| metadata := m; b_aci := None; b_acid := None |}.
Definition with_aci (b : NpdmBuilder) (aci : AciData) : NpdmBuilder := b <| b_aci := Some aci |>.
Definition with_acid (b : NpdmBuilder) (acid : AcidData) : NpdmBuilder := b <| b_acid := Some acid |>.

(** [(value + 0xF) & !0xF] on [u32]. *)
Definition align_up_16 (value : Z) : option Z :=
  v ← checked_add_u32 value 0xF; Some (Z.land v (Z.lnot 0xF)).

Definition build_aci_sections (aci : AciData) : option (list byte * list byte * list byte) :=
  fac_data ← build_filesystem_access_header (aci_filesystem_access aci);
  Some (fac_data, build_service_access_control (aci_service_access aci),
        build_kernel_capabilities (aci_kernel_capabilities aci)).

Definition build_acid_sections (acid : AcidData) : list byte * list byte * list byte :=
  (build_filesystem_access_control (acid_filesystem_access acid),
   build_service_access_control (acid_service_access acid),
   build_kernel_capabilities (acid_kernel_capabilities acid)).

(** The offsets of a section's SAC and KC blocks past its header and FAC block, and its size. *)
Definition section_layout (fac_offset : Z) (fac sac kc : list byte) : option (Z * Z * Z) :=
  t ← checked_add_u32 fac_offset (as_u32 (len fac));
  sac_offset ← align_up_16 t;
  t ← checked_add_u32 sac_offset (as_u32 (len sac));
  kc_offset ← align_up_16 t;
  size ← checked_add_u32 kc_offset (as_u32 (len kc));
  Some (sac_offset, kc_offset, size).

Section build.
Context `{ZC : Zerocopy}.

(** The name field: at most 15 bytes, zero-padded. *)
Definition copy_name (name_bytes : list byte) (field : list byte) : option (list byte) :=
  let copy_len := Z.min (len name_bytes) (len field - 1) in
  head ← get_to name_bytes copy_len;
  copy_from_slice field 0 copy_len head.

(** [None] is a panic. *)
Definition build (b : NpdmBuilder) : option (list byte) :=
  let aci := match b_aci b with
             | Some aci => aci
             | None => {| aci_program_id := md_title_id (metadata b);
                          aci_filesystem_access := FilesystemAccess_default; aci_service_access := [];
                          aci_kernel_capabilities := [] |}
             end in
  let acid := default AcidData_default (b_acid b) in
  '(fac_data, sac_data, kc_data) ← build_aci_sections aci;
  let '(acid_fac_data, acid_sac_data, acid_kc_data) := build_acid_sections acid in
  let aci0_fac_offset := as_u32 (size_of Aci0Header) in
  '(aci0_sac_offset, aci0_kc_offset, aci0_size) ← section_layout aci0_fac_offset fac_data sac_data kc_data;
  let acid_fac_offset := as_u32 (size_of AcidHeader) in
  '(acid_sac_offset, acid_kc_offset, acid_size) ←
    section_layout acid_fac_offset acid_fac_data acid_sac_data acid_kc_data;
  let meta := new_zeroed NpdmHeader in
  name ← copy_name (md_name (metadata b)) (nh_name meta);
  let acid_offset := as_u32 (size_of NpdmHeader) in
  t ← checked_add_u32 acid_offset acid_size;
  aci0_offset ← align_up_16 t;
  let meta_header := meta <| nh_magic := META_MAGIC |> <| nh_flags := md_flags (metadata b) |>
    <| nh_main_thread_priority := md_main_thread_priority (metadata b) |>
    <| nh_main_thread_core_number := md_default_cpu_id (metadata b) |>
    <| nh_version := md_version (metadata b) |>
    <| nh_main_thread_stack_size := md_main_thread_stack_size (metadata b) |>
    <| nh_name := name |> <| nh_acid_offset := acid_offset |> <| nh_acid_size := acid_size |>
    <| nh_aci_offset := aci0_offset |> <| nh_aci_size := aci0_size |> in
  signed_size ← checked_sub acid_size 0x100;
  let acid_header := (new_zeroed AcidHeader) <| ad_magic := ACID_MAGIC |> <| ad_size := signed_size |>
    <| ad_flags := acid_flags acid |> <| ad_program_id_min := acid_program_id_min acid |>
    <| ad_program_id_max := acid_program_id_max acid |> <| ad_fac_offset := acid_fac_offset |>
    <| ad_fac_size := as_u32 (len acid_fac_data) |> <| ad_sac_offset := acid_sac_offset |>
    <| ad_sac_size := as_u32 (len acid_sac_data) |> <| ad_kc_offset := acid_kc_offset |>
    <| ad_kc_size := as_u32 (len acid_kc_data) |> in
  let aci0_header := (new_zeroed Aci0Header) <| ai_magic := ACI0_MAGIC |>
    <| ai_program_id := aci_program_id aci |> <| ai_fac_offset := aci0_fac_offset |>
    <| ai_fac_size := as_u32 (len fac_data) |> <| ai_sac_offset := aci0_sac_offset |>
    <| ai_sac_size := as_u32 (len sac_data) |> <| ai_kc_offset := aci0_kc_offset |>
    <| ai_kc_size := as_u32 (len kc_data) |> in
  npdm ← vec_zeroed (aci0_offset + aci0_size);
  write_all npdm
    [ (0, as_bytes meta_header);
      (acid_offset, as_bytes acid_header);
      (acid_offset + acid_fac_offset, acid_fac_data);
      (acid_offset + acid_sac_offset, acid_sac_data);
      (acid_offset + acid_kc_offset, acid_kc_data);
      (aci0_offset, as_bytes aci0_header);
      (aci0_offset + aci0_fac_offset, fac_data);
      (aci0_offset + aci0_sac_offset, sac_data);
      (aci0_offset + aci0_kc_offset, kc_data) ].
End build.

(** ** The reader *)

Record Npdm := {
  np_bytes : list byte;
  np_header : NpdmHeader;
  np_acid : AcidHeader;
  np_aci0 : Aci0Header;
}.

Inductive inner_section := FAC | SAC | KC.

Inductive FromBytesError :=
| BufferTooSmall (required available : Z)
| InvalidMetaMagic (found : Z)
| InvalidAcidMagic (found : Z)
| InvalidAci0Magic (found : Z)
| InvalidAcidSize (found : Z)
| InvalidAci0Size (found : Z)
| Aci0InnerSectionOutOfBounds (section : inner_section) (offset size end_ buffer_size : Z).

Section read.
Context `{ZC : Zerocopy}.

(** The offsets and sizes are [u32] values as [usize], whose sums cannot overflow. *)
Definition try_from_bytes (bytes : list byte) : outcome FromBytesError Npdm :=
  _ ← guard_err (len bytes <? size_of NpdmHeader) (BufferTooSmall (size_of NpdmHeader) (len bytes));
  '(header, _) ← ok_or (ref_from_prefix NpdmHeader bytes) (BufferTooSmall 0x80 (len bytes));
  _ ← guard_err (negb (nh_magic header =? META_MAGIC)) (InvalidMetaMagic (nh_magic header));
  let acid_offset := nh_acid_offset header in
  let acid_size := nh_acid_size header in
  _ ← guard_err (len bytes <? acid_offset + acid_size) (BufferTooSmall (acid_offset + acid_size) (len bytes));
  _ ← guard_err (acid_size <? size_of AcidHeader) (InvalidAcidSize acid_size);
  rest ← or_panic (get_from bytes acid_offset);
  '(acid, _) ← ok_or (ref_from_prefix AcidHeader rest)
    (BufferTooSmall (acid_offset + size_of AcidHeader) (len bytes));
  _ ← guard_err (negb (ad_magic acid =? ACID_MAGIC)) (InvalidAcidMagic (ad_magic acid));
  let aci_offset := nh_aci_offset header in
  let aci_size := nh_aci_size header in
  _ ← guard_err (len bytes <? aci_offset + aci_size) (BufferTooSmall (aci_offset + aci_size) (len bytes));
  _ ← guard_err (aci_size <? size_of Aci0Header) (InvalidAci0Size aci_size);
  rest ← or_panic (get_from bytes aci_offset);
  '(aci0, _) ← ok_or (ref_from_prefix Aci0Header rest)
    (BufferTooSmall (aci_offset + size_of Aci0Header) (len bytes));
  _ ← guard_err (negb (ai_magic aci0 =? ACI0_MAGIC)) (InvalidAci0Magic (ai_magic aci0));
  Ok {| np_bytes := bytes; np_header := header; np_acid := acid; np_aci0 := aci0 |}.
End read.

(** [None] is a panic. *)
Definition name (n : Npdm) : option (list byte) :=
  bytes ← get_to (nh_name (np_header n)) (nul_position (nh_name (np_header n)));
  Some (utf8_or_empty bytes).
Definition main_thread_priority (n : Npdm) : Z := nh_main_thread_priority (np_header n).
Definition main_thread_stack_size (n : Npdm) : Z := nh_main_thread_stack_size (np_header n).
Definition program_id_range (n : Npdm) : Z * Z :=
  (ad_program_id_min (np_acid n), ad_program_id_max (np_acid n)).
Definition program_id (n : Npdm) : Z := ai_program_id (np_aci0 n).

(** The common body of the three accessors below. *)
Definition aci0_data (section : inner_section) (n : Npdm) (offset size : Z) : outcome FromBytesError (list byte) :=
  let buffer_size := len (np_bytes n) in
  let start := nh_aci_offset (np_header n) + offset in
  end_ ← ok_or (checked_add start size) (Aci0InnerSectionOutOfBounds section offset size USIZE_MAX buffer_size);
  _ ← guard_err (buffer_size <? end_) (Aci0InnerSectionOutOfBounds section offset size end_ buffer_size);
  or_panic (get_range (np_bytes n) start end_).
Definition aci0_fac_data (n : Npdm) := aci0_data FAC n (ai_fac_offset (np_aci0 n)) (ai_fac_size (np_aci0 n)).
Definition aci0_sac_data (n : Npdm) := aci0_data SAC n (ai_sac_offset (np_aci0 n)) (ai_sac_size (np_aci0 n)).
Definition aci0_kc_data (n : Npdm) := aci0_data KC n (ai_kc_offset (np_aci0 n)) (ai_kc_size (np_aci0 n)).

(** ** What the image holds, abstractly *)

Definition a16 (v : Z) : Z := align_up v 16.
Definition sac_off (fo : Z) (fac : list byte) : Z := a16 (fo + len fac).
Definition kc_off (fo : Z) (fac sac : list byte) : Z := a16 (sac_off fo fac + len sac).
Definition sec_size (fo : Z) (fac sac kc : list byte) : Z := kc_off fo fac sac + len kc.

(** The builder's sections with the defaults filled in. *)
Definition aci_of (b : NpdmBuilder) : AciData :=
  match b_aci b with
  | Some aci => aci
  | None => {| aci_program_id := md_title_id (metadata b);
               aci_filesystem_access := FilesystemAccess_default; aci_service_access := [];
               aci_kernel_capabilities := [] |}
  end.
Definition acid_of (b : NpdmBuilder) : AcidData := default AcidData_default (b_acid b).

Definition aci_fac (b : NpdmBuilder) := fah_of (aci_filesystem_access (aci_of b)).
Definition aci_sac (b : NpdmBuilder) := build_service_access_control (aci_service_access (aci_of b)).
Definition aci_kc (b : NpdmBuilder) := build_kernel_capabilities (aci_kernel_capabilities (aci_of b)).
Definition acid_fac (b : NpdmBuilder) := build_filesystem_access_control (acid_filesystem_access (acid_of b)).
Definition acid_sac (b : NpdmBuilder) := build_service_access_control (acid_service_access (acid_of b)).
Definition acid_kc (b : NpdmBuilder) := build_kernel_capabilities (acid_kernel_capabilities (acid_of b)).

Definition acid_size_of (b : NpdmBuilder) : Z := sec_size 0x240 (acid_fac b) (acid_sac b) (acid_kc b).
Definition aci_size_of (b : NpdmBuilder) : Z := sec_size 0x40 (aci_fac b) (aci_sac b) (aci_kc b).
Definition aci_offset_of (b : NpdmBuilder) : Z := a16 (0x80 + acid_size_of b).

Definition stored_name (n : list byte) : list byte := ztake 15 n ++ zeros (16 - Z.min (len n) 15).

Definition meta_of (b : NpdmBuilder) : NpdmHeader :=
  Build_NpdmHeader META_MAGIC 0 0 (md_flags (metadata b)) 0 (md_main_thread_priority (metadata b))
    (md_default_cpu_id (metadata b)) 0 0 (md_version (metadata b))
    (md_main_thread_stack_size (metadata b)) (stored_name (md_name (metadata b))) (zeros 16) (zeros 48)
    (aci_offset_of b) (aci_size_of b) 0x80 (acid_size_of b).

Definition acid_header_of (b : NpdmBuilder) : AcidHeader :=
  Build_AcidHeader (zeros 0x100) (zeros 0x100) ACID_MAGIC (acid_size_of b - 0x100) 0 (zeros 3)
    (acid_flags (acid_of b)) (acid_program_id_min (acid_of b)) (acid_program_id_max (acid_of b))
    0x240 (len (acid_fac b)) (sac_off 0x240 (acid_fac b)) (len (acid_sac b))
    (kc_off 0x240 (acid_fac b) (acid_sac b)) (len (acid_kc b)) 0.

Definition aci0_header_of (b : NpdmBuilder) : Aci0Header :=
  Build_Aci0Header ACI0_MAGIC (zeros 12) (aci_program_id (aci_of b)) 0
    0x40 (len (aci_fac b)) (sac_off 0x40 (aci_fac b)) (len (aci_sac b))
    (kc_off 0x40 (aci_fac b) (aci_sac b)) (len (aci_kc b)) 0.

Record builder_wf (b : NpdmBuilder) : Prop := {
  bw_flags : is_u8 (md_flags (metadata b));
  bw_priority : is_u8 (md_main_thread_priority (metadata b));
  bw_cpu : is_u8 (md_default_cpu_id (metadata b));
  bw_version : is_u32 (md_version (metadata b));
  bw_stack : is_u32 (md_main_thread_stack_size (metadata b));
  bw_program_id : is_u64 (aci_program_id (aci_of b));
  bw_range : is_u64 (acid_program_id_min (acid_of b)) ∧ is_u64 (acid_program_id_max (acid_of b));
  bw_acid_flags : is_u32 (acid_flags (acid_of b));
  bw_access : access_wf (aci_filesystem_access (aci_of b));
  (** The sections fit the [u32] offsets, paddings included. *)
  bw_size : 0x400 + len (acid_fac b) + len (acid_sac b) + len (acid_kc b)
            + len (aci_fac b) + len (aci_sac b) + len (aci_kc b) ≤ U32_MAX;
}.

(** ** Lemmas: the layout *)

Lemma a16_spec v : a16 v mod 16 = 0 ∧ v ≤ a16 v < v + 16.
Proof. by apply (align_up_spec v 16 4). Qed.

Lemma align_up_16_spec v : v + 15 ≤ U32_MAX → align_up_16 v = Some (a16 v).
Proof. intros. unfold align_up_16. bind_step. done. Qed.

Lemma section_bounds fo fac sac kc :
  0 ≤ fo →
  fo + len fac ≤ sac_off fo fac ≤ fo + len fac + 15 ∧
  sac_off fo fac + len sac ≤ kc_off fo fac sac ≤ sac_off fo fac + len sac + 15 ∧
  sec_size fo fac sac kc = kc_off fo fac sac + len kc ∧
  sac_off fo fac mod 16 = 0 ∧ kc_off fo fac sac mod 16 = 0.
Proof.
  intros. destruct (a16_spec (fo + len fac)), (a16_spec (sac_off fo fac + len sac)).
  unfold sec_size, kc_off. unfold sac_off in *. split_and!; lia.
Qed.

Lemma section_layout_spec fo fac sac kc :
  0 ≤ fo → fo + len fac + len sac + len kc + 45 ≤ U32_MAX →
  section_layout fo fac sac kc = Some (sac_off fo fac, kc_off fo fac sac, sec_size fo fac sac kc).
Proof.
  intros Hfo Hmax. destruct (section_bounds fo fac sac kc Hfo) as (H1 & H2 & H3 & _).
  pose proof (len_nonneg fac). pose proof (len_nonneg sac). pose proof (len_nonneg kc).
  unfold section_layout. rewrite !as_u32_small by mlia. bind_step.
  rewrite align_up_16_spec by lia. fold (sac_off fo fac). bind_cbn. bind_step.
  rewrite align_up_16_spec by lia. fold (kc_off fo fac sac). bind_cbn. bind_step. done.
Qed.

Lemma layout_bounds b :
  builder_wf b →
  0x240 ≤ acid_size_of b ∧ 0x40 ≤ aci_size_of b ∧ 0x80 + acid_size_of b ≤ aci_offset_of b ∧
  aci_offset_of b ≤ 0x80 + acid_size_of b + 15 ∧ aci_offset_of b mod 16 = 0 ∧
  aci_offset_of b + aci_size_of b + 0x40 ≤ U32_MAX.
Proof.
  intros []. unfold acid_size_of, aci_size_of.
  destruct (section_bounds 0x240 (acid_fac b) (acid_sac b) (acid_kc b)) as (H1 & H2 & H3 & _); [done|].
  destruct (section_bounds 0x40 (aci_fac b) (aci_sac b) (aci_kc b)) as (H4 & H5 & H6 & _); [done|].
  destruct (a16_spec (0x80 + acid_size_of b)) as [H7 H8]. fold (aci_offset_of b) in *.
  unfold acid_size_of in *.
  pose proof (len_nonneg (acid_fac b)). pose proof (len_nonneg (acid_sac b)). pose proof (len_nonneg (acid_kc b)).
  pose proof (len_nonneg (aci_fac b)). pose proof (len_nonneg (aci_sac b)). pose proof (len_nonneg (aci_kc b)).
  split_and!; lia.
Qed.

Section image.
Context `{ZC : Zerocopy}.

Lemma new_zeroed_npdm :
  new_zeroed NpdmHeader = Build_NpdmHeader 0 0 0 0 0 0 0 0 0 0 0 (zeros 16) (zeros 16) (zeros 48) 0 0 0 0 ∧
  new_zeroed AcidHeader
    = Build_AcidHeader (zeros 0x100) (zeros 0x100) 0 0 0 (zeros 3) 0 0 0 0 0 0 0 0 0 0 ∧
  new_zeroed Aci0Header = Build_Aci0Header 0 (zeros 12) 0 0 0 0 0 0 0 0 0.
Proof. rewrite !new_zeroed_spec. split_and!; vm_compute; reflexivity. Qed.

Lemma copy_name_spec n : copy_name n (zeros 16) = Some (stored_name n).
Proof.
  unfold copy_name. change (len (zeros 16) - 1) with 15. pose proof (len_nonneg n).
  rewrite get_to_ok by lia. bind_cbn.
  assert (ztake (Z.min (len n) 15) n = ztake 15 n) as ->.
  { destruct (Z.min_spec (len n) 15) as [[? ->]|[? ->]]; [|done]. by rewrite !ztake_all by lia. }
  assert (len (ztake 15 n) = Z.min (len n) 15) as Hl by (rewrite len_ztake_min by lia; lia).
  set (m := Z.min (len n) 15) in *. assert (0 ≤ m ≤ 15) by (unfold m; lia).
  replace (zeros 16) with (zeros m ++ zeros (16 - m)) by (rewrite <-zeros_add by lia; f_equal; lia).
  by rewrite copy_from_slice_start by (rewrite ?len_zeros by lia; done).
Qed.

Lemma len_stored_name n : len (stored_name n) = 16.
Proof.
  unfold stored_name. pose proof (len_nonneg n).
  rewrite len_app, len_ztake_min, len_zeros by lia. lia.
Qed.

Ltac widths :=
  change (256 ^ Z.of_nat 1) with 256; change (256 ^ Z.of_nat 4) with 0x100000000;
  change (256 ^ Z.of_nat 8) with 0x10000000000000000.

Lemma wf_meta b : builder_wf b → wf (meta_of b).
Proof.
  intros Hb. pose proof (layout_bounds b Hb) as (? & ? & ? & ? & _ & ?). destruct Hb. cbn. widths.
  unfold META_MAGIC. split_and!; try done; try mlia. apply len_stored_name.
Qed.

Lemma wf_acid b : builder_wf b → wf (acid_header_of b).
Proof.
  intros Hb. pose proof (layout_bounds b Hb) as (? & ? & ? & ? & _ & ?). destruct Hb.
  destruct bw_range0.
  destruct (section_bounds 0x240 (acid_fac b) (acid_sac b) (acid_kc b)) as (Hs1 & Hs2 & Hs3 & _); [done|].
  fold (acid_size_of b) in *. pose proof (len_nonneg (acid_fac b)). pose proof (len_nonneg (acid_sac b)).
  pose proof (len_nonneg (acid_kc b)). cbn [wf AcidHeader_layout L_struct L_pair acid_header_of fst snd
    L_uint L_bytes ad_signature ad_public_key ad_magic ad_size ad_version ad_reserved_209 ad_flags
    ad_program_id_min ad_program_id_max ad_fac_offset ad_fac_size ad_sac_offset ad_sac_size ad_kc_offset
    ad_kc_size ad_reserved_238]. widths.
  unfold ACID_MAGIC. split_and!; try done; mlia.
Qed.

Lemma wf_aci0 b : builder_wf b → wf (aci0_header_of b).
Proof.
  intros Hb. pose proof (layout_bounds b Hb) as (? & ? & ? & ? & _ & ?). destruct Hb.
  destruct (section_bounds 0x40 (aci_fac b) (aci_sac b) (aci_kc b)) as (Hs1 & Hs2 & Hs3 & _); [done|].
  fold (aci_size_of b) in *. pose proof (len_nonneg (aci_fac b)). pose proof (len_nonneg (aci_sac b)).
  pose proof (len_nonneg (aci_kc b)). cbn [wf Aci0Header_layout L_struct L_pair aci0_header_of fst snd
    L_uint L_bytes ai_magic ai_reserved_04 ai_program_id ai_reserved_18 ai_fac_offset ai_fac_size
    ai_sac_offset ai_sac_size ai_kc_offset ai_kc_size ai_reserved_38]. widths.
  unfold ACI0_MAGIC. split_and!; try done; mlia.
Qed.

Definition pieces_of (b : NpdmBuilder) : list (Z * list byte) :=
  [ (0, as_bytes (meta_of b));
    (0x80, as_bytes (acid_header_of b));
    (0x80 + 0x240, acid_fac b);
    (0x80 + sac_off 0x240 (acid_fac b), acid_sac b);
    (0x80 + kc_off 0x240 (acid_fac b) (acid_sac b), acid_kc b);
    (aci_offset_of b, as_bytes (aci0_header_of b));
    (aci_offset_of b + 0x40, aci_fac b);
    (aci_offset_of b + sac_off 0x40 (aci_fac b), aci_sac b);
    (aci_offset_of b + kc_off 0x40 (aci_fac b) (aci_sac b), aci_kc b) ].

Definition image_of (b : NpdmBuilder) : list byte := places [] (pieces_of b).

Lemma pieces_ascending b :
  builder_wf b → ascending 0 (pieces_of b) ∧ pieces_end 0 (pieces_of b) = aci_offset_of b + aci_size_of b.
Proof.
  intros Hb. pose proof (layout_bounds b Hb) as (? & ? & ? & ? & _ & ?).
  pose proof (len_as_bytes _ (wf_meta b Hb)) as Lm. pose proof (len_as_bytes _ (wf_acid b Hb)) as La.
  pose proof (len_as_bytes _ (wf_aci0 b Hb)) as Li.
  change (size_of NpdmHeader) with 0x80 in Lm. change (size_of AcidHeader) with 0x240 in La.
  change (size_of Aci0Header) with 0x40 in Li.
  destruct (section_bounds 0x240 (acid_fac b) (acid_sac b) (acid_kc b)) as (Hs1 & Hs2 & Hs3 & _); [done|].
  destruct (section_bounds 0x40 (aci_fac b) (aci_sac b) (aci_kc b)) as (Hs4 & Hs5 & Hs6 & _); [done|].
  fold (acid_size_of b) in *. fold (aci_size_of b) in *. unfold pieces_of. cbn [ascending pieces_end].
  rewrite Lm, La, Li. split_and!; try done; lia.
Qed.

Lemma npdm_build_spec b : builder_wf b → build b = Some (image_of b).
Proof.
  intros Hb. pose proof (layout_bounds b Hb) as (? & ? & ? & ? & _ & ?).
  destruct (pieces_ascending b Hb) as [Hasc Hend]. pose proof Hb as [].
  pose proof (len_nonneg (acid_fac b)). pose proof (len_nonneg (acid_sac b)). pose proof (len_nonneg (acid_kc b)).
  pose proof (len_nonneg (aci_fac b)). pose proof (len_nonneg (aci_sac b)). pose proof (len_nonneg (aci_kc b)).
  unfold build. fold (aci_of b) (acid_of b). unfold build_aci_sections.
  rewrite build_fah_spec by done. bind_cbn. fold (aci_fac b) (aci_sac b) (aci_kc b).
  unfold build_acid_sections. fold (acid_fac b) (acid_sac b) (acid_kc b).
  change (as_u32 (size_of Aci0Header)) with 0x40. change (as_u32 (size_of AcidHeader)) with 0x240.
  change (as_u32 (size_of NpdmHeader)) with 0x80.
  rewrite !section_layout_spec by lia. bind_cbn. fold (acid_size_of b) (aci_size_of b).
  destruct new_zeroed_npdm as (-> & -> & ->). cbn [nh_name]. rewrite copy_name_spec. bind_cbn. do 2 bind_step.
  rewrite align_up_16_spec by lia. fold (aci_offset_of b). bind_cbn.
  rewrite vec_zeroed_ok by mlia. bind_cbn. rewrite !as_u32_small by mlia.
  change (write_all (zeros (aci_offset_of b + aci_size_of b)) (pieces_of b) = Some (image_of b)).
  pose proof (write_all_spec [] (aci_offset_of b + aci_size_of b) (pieces_of b)) as Hw. cbn [app] in Hw.
  rewrite Hw; [|done|rewrite len_nil, Hend; lia].
  rewrite len_nil, Hend, Z.add_0_l, Z.sub_diag. change (zeros 0) with (@nil byte). by rewrite app_nil_r.
Qed.

(** A piece of the image, where it is. *)
Lemma image_piece b pre off k post :
  builder_wf b → pieces_of b = pre ++ (off, k) :: post →
  ∃ p r, image_of b = p ++ k ++ r ∧ len p = off.
Proof.
  intros Hb Hp. destruct (pieces_ascending b Hb) as [Hasc _]. unfold image_of. rewrite Hp in *.
  by apply places_split.
Qed.

Lemma image_range b pre off k post :
  builder_wf b → pieces_of b = pre ++ (off, k) :: post → get_range (image_of b) off (off + len k) = Some k.
Proof.
  intros Hb Hp. destruct (image_piece b pre off k post Hb Hp) as (p & r & -> & <-). by apply get_range_mid.
Qed.

Lemma len_npdm_image b : builder_wf b → len (image_of b) = aci_offset_of b + aci_size_of b.
Proof.
  intros Hb. destruct (pieces_ascending b Hb) as [Hasc Hend]. unfold image_of.
  rewrite len_places by done. exact Hend.
Qed.

Definition read_of (b : NpdmBuilder) : Npdm :=
  {| np_bytes := image_of b; np_header := meta_of b; np_acid := acid_header_of b;
     np_aci0 := aci0_header_of b |}.

Lemma read_npdm_image b : builder_wf b → try_from_bytes (image_of b) = Ok (read_of b).
Proof.
  intros Hb. pose proof (layout_bounds b Hb) as (? & ? & ? & ? & _ & ?).
  pose proof (len_npdm_image b Hb) as Hl. unfold try_from_bytes.
  destruct (image_piece b [] _ _ _ Hb eq_refl) as (p0 & r0 & E0 & L0).
  destruct (image_piece b [_] _ _ _ Hb eq_refl) as (p1 & r1 & E1 & L1).
  destruct (image_piece b [_; _; _; _; _] _ _ _ Hb eq_refl) as (p2 & r2 & E2 & L2).
  change (size_of NpdmHeader) with 0x80. change (size_of AcidHeader) with 0x240.
  change (size_of Aci0Header) with 0x40. rewrite Hl. rewrite (proj2 (Z.ltb_ge _ _)) by lia. bind_cbn.
  assert (p0 = []) as -> by (destruct p0; [done|len_lia]). cbn [app] in E0.
  rewrite E0 at 1. rewrite ref_from_prefix_as_bytes by by apply wf_meta. bind_cbn.
  cbn [nh_magic meta_of nh_acid_offset nh_acid_size nh_aci_offset nh_aci_size].
  rewrite Z.eqb_refl. cbn [negb]. bind_cbn. rewrite !(proj2 (Z.ltb_ge _ _)) by lia. bind_cbn.
  rewrite (get_from_ok _ 0x80) by lia. bind_cbn. rewrite E1 at 1. rewrite zdrop_app_eq by done.
  rewrite ref_from_prefix_as_bytes by by apply wf_acid. bind_cbn.
  cbn [ad_magic acid_header_of]. rewrite Z.eqb_refl. cbn [negb]. bind_cbn.
  rewrite (get_from_ok _ (aci_offset_of b)) by lia. bind_cbn. rewrite E2 at 1. rewrite zdrop_app_eq by done.
  rewrite ref_from_prefix_as_bytes by by apply wf_aci0. bind_cbn. done.
Qed.

Lemma aci0_data_of b section pre off k post :
  builder_wf b → pieces_of b = pre ++ (aci_offset_of b + off, k) :: post → len k ≤ U32_MAX →
  0 ≤ off → aci_offset_of b + off + len k ≤ len (image_of b) →
  aci0_data section (read_of b) off (len k) = Ok k.
Proof.
  intros Hb Hp Hk Hoff Hle. pose proof (layout_bounds b Hb) as (_ & _ & _ & _ & _ & ?).
  pose proof (len_npdm_image b Hb). unfold aci0_data, read_of. cbn [np_bytes np_header meta_of nh_aci_offset].
  bind_step. rewrite (proj2 (Z.ltb_ge _ _)) by lia. bind_cbn.
  by rewrite (image_range b pre _ _ _ Hb Hp).
Qed.
(** The three accessors give back the blocks of the built ACI0. *)
Lemma aci0_blocks b :
  builder_wf b →
  aci0_fac_data (read_of b) = Ok (aci_fac b) ∧ aci0_sac_data (read_of b) = Ok (aci_sac b) ∧
  aci0_kc_data (read_of b) = Ok (aci_kc b).
Proof.
  intros Hb. pose proof (len_npdm_image b Hb) as Hl.
  destruct (section_bounds 0x40 (aci_fac b) (aci_sac b) (aci_kc b)) as (Hs1 & Hs2 & Hs3 & _); [done|].
  fold (aci_size_of b) in *. pose proof (layout_bounds b Hb) as (_ & _ & _ & _ & _ & ?).
  pose proof (len_nonneg (aci_fac b)). pose proof (len_nonneg (aci_sac b)). pose proof (len_nonneg (aci_kc b)).
  pose proof (bw_size b Hb). pose proof (len_nonneg (acid_fac b)). pose proof (len_nonneg (acid_sac b)).
  pose proof (len_nonneg (acid_kc b)). split_and!.
  - change (aci0_fac_data (read_of b)) with (aci0_data FAC (read_of b) 0x40 (len (aci_fac b))).
    eapply (aci0_data_of b FAC [_; _; _; _; _; _]); [done|reflexivity|lia..].
  - change (aci0_sac_data (read_of b)) with (aci0_data SAC (read_of b) (sac_off 0x40 (aci_fac b)) (len (aci_sac b))).
    eapply (aci0_data_of b SAC [_; _; _; _; _; _; _]); [done|reflexivity|lia..].
  - change (aci0_kc_data (read_of b)) with (aci0_data KC (read_of b) (kc_off 0x40 (aci_fac b) (aci_sac b)) (len (aci_kc b))).
    eapply (aci0_data_of b KC [_; _; _; _; _; _; _; _]); [done|reflexivity|lia..].
Qed.
End image.

(** ** Lemmas: the reader *)

Definition npdm_ok (bytes : list byte) (n : Npdm) : Prop :=
  np_bytes n = bytes ∧ wf (np_header n) ∧ wf (np_acid n) ∧ wf (np_aci0 n) ∧
  0x240 ≤ nh_acid_size (np_header n) ∧ nh_acid_offset (np_header n) + nh_acid_size (np_header n) ≤ len bytes ∧
  0x40 ≤ nh_aci_size (np_header n) ∧ nh_aci_offset (np_header n) + nh_aci_size (np_header n) ≤ len bytes.

Lemma wf_npdm_header h :
  wf h → len (nh_name h) = 16 ∧ is_u32 (nh_aci_offset h) ∧ is_u32 (nh_acid_offset h) ∧ is_u32 (nh_aci_size h)
    ∧ is_u32 (nh_acid_size h).
Proof. cbn. change (256 ^ 4) with 0x100000000. intros H. destruct_and? H. split_and!; mlia. Qed.

Lemma wf_aci0_header h :
  wf h → is_u32 (ai_fac_offset h) ∧ is_u32 (ai_fac_size h) ∧ is_u32 (ai_sac_offset h) ∧ is_u32 (ai_sac_size h)
    ∧ is_u32 (ai_kc_offset h) ∧ is_u32 (ai_kc_size h).
Proof. cbn. change (256 ^ 4) with 0x100000000. intros H. destruct_and? H. split_and!; mlia. Qed.

Section read_lemmas.
Context `{ZC : Zerocopy}.

Lemma try_from_bytes_npdm_safe bytes :
  safe (npdm_ok bytes) (try_from_bytes bytes).
Proof.
  unfold try_from_bytes. change (size_of NpdmHeader) with 0x80. change (size_of AcidHeader) with 0x240.
  change (size_of Aci0Header) with 0x40. safe_step ? Hlen. safe_step [h r] Hh.
  apply ref_from_prefix_inv in Hh as (_ & Hwh & _). pose proof (wf_npdm_header h Hwh) as (_ & ? & ? & ? & ?).
  safe_step ? Hm. safe_step ? Hb1. safe_step ? Hs1. rewrite (get_from_ok _ (nh_acid_offset h)) by mlia. bind_cbn.
  safe_step [ad r2] Ha. apply ref_from_prefix_inv in Ha as (_ & Hwa & _). safe_step ? Hm2.
  safe_step ? Hb2. safe_step ? Hs2. rewrite (get_from_ok _ (nh_aci_offset h)) by mlia. bind_cbn.
  safe_step [ai r3] Hi. apply ref_from_prefix_inv in Hi as (_ & Hwi & _). safe_step ? Hm3.
  cbn [safe]. unfold npdm_ok. cbn [np_bytes np_header np_acid np_aci0]. done.
Qed.
End read_lemmas.

(** The accessor of an inner block: its slice when it lies in the buffer, and the error otherwise. *)
Lemma aci0_data_spec bytes n section off size :
  npdm_ok bytes n → is_u32 off → is_u32 size →
  let start := nh_aci_offset (np_header n) + off in
  aci0_data section n off size
    = if start + size <=? len bytes then Ok (ztake size (zdrop start bytes))
      else Err (Aci0InnerSectionOutOfBounds section off size (start + size) (len bytes)).
Proof.
  intros (Hb & Hw & _) Ho Hs start. pose proof (wf_npdm_header _ Hw) as (_ & ? & _).
  unfold aci0_data. rewrite Hb. fold start. unfold start in *. bind_step.
  destruct (Z.leb_spec (nh_aci_offset (np_header n) + off + size) (len bytes)) as [Hl|Hl].
  - rewrite (proj2 (Z.ltb_ge _ _)) by lia. bind_cbn. rewrite get_range_ok by mlia. bind_cbn. do 3 f_equal. lia.
  - rewrite (proj2 (Z.ltb_lt _ _)) by lia. done.
Qed.

(** ** Properties *)

Section properties.
Context `{ZC : Zerocopy}.

(** C11. A built NPDM reads back as it was configured, every field of the builder included: for a
    builder whose sections fit their [u32] offsets, [build] cannot panic and [try_from_bytes] accepts
    the image. META holds the version, flags, default CPU, priority and stack size of the metadata
    and the name cut to 15 bytes; ACID holds the flags and the program id range, ACI0 the program id
    (the title's when no ACI0 data was given); the three blocks of ACID (filesystem, service and
    capability) lie in the image at the offsets and sizes its header records, and the three
    accessors return those of ACI0. *)
Theorem npdm_round_trip b :
  builder_wf b →
  ∃ image n, build b = Some image ∧ try_from_bytes image = Ok n ∧
    (let m := metadata b in let h := np_header n in
     name n = Some (utf8_or_empty (ztake (nul_position (stored_name (md_name m))) (stored_name (md_name m)))) ∧
     nh_version h = md_version m ∧ nh_flags h = md_flags m ∧
     nh_main_thread_core_number h = md_default_cpu_id m ∧
     main_thread_priority n = md_main_thread_priority m ∧
     main_thread_stack_size n = md_main_thread_stack_size m) ∧
    (let acid := np_acid n in
     ad_flags acid = acid_flags (acid_of b) ∧
     program_id_range n = (acid_program_id_min (acid_of b), acid_program_id_max (acid_of b)) ∧
     let at_ off size := get_range image (nh_acid_offset (np_header n) + off)
                                         (nh_acid_offset (np_header n) + off + size) in
     at_ (ad_fac_offset acid) (ad_fac_size acid) = Some (acid_fac b) ∧
     at_ (ad_sac_offset acid) (ad_sac_size acid) = Some (acid_sac b) ∧
     at_ (ad_kc_offset acid) (ad_kc_size acid) = Some (acid_kc b)) ∧
    program_id n = match b_aci b with Some aci => aci_program_id aci | None => md_title_id (metadata b) end ∧
    aci0_fac_data n = Ok (aci_fac b) ∧ aci0_sac_data n = Ok (aci_sac b) ∧ aci0_kc_data n = Ok (aci_kc b).
Proof.
  intros Hb. exists (image_of b), (read_of b). cbv beta zeta.
  split_and!; [by apply npdm_build_spec|by apply read_npdm_image| |done|done|done|done|done|done|done
    | | | | |by apply aci0_blocks..].
  - unfold name. cbn [np_header read_of meta_of nh_name]. rewrite get_to_ok; [done|apply nul_position_range].
  - by eapply (image_range b [_; _]).
  - by eapply (image_range b [_; _; _]).
  - by eapply (image_range b [_; _; _; _]).
  - unfold program_id. cbn [np_aci0 read_of aci0_header_of ai_program_id]. unfold aci_of.
    by destruct (b_aci b).
Qed.

(** The sections are where the documentation puts them: META at 0, ACID at 0x80, ACI0 after it
    on the next 16-byte boundary and ending the image; inside each section the filesystem block
    follows the header and the service and capability blocks start on 16-byte boundaries; the six
    blocks are at the recorded offsets; and the signed size of ACID leaves out its signature. *)
Theorem npdm_layout b :
  builder_wf b →
  ∃ image n, build b = Some image ∧ try_from_bytes image = Ok n ∧
    let h := np_header n in let acid := np_acid n in let aci0 := np_aci0 n in
    nh_acid_offset h = 0x80 ∧
    nh_aci_offset h mod 16 = 0 ∧ nh_acid_offset h + nh_acid_size h ≤ nh_aci_offset h
      < nh_acid_offset h + nh_acid_size h + 16 ∧
    len image = nh_aci_offset h + nh_aci_size h ∧
    ad_size acid = nh_acid_size h - 0x100 ∧
    ad_fac_offset acid = 0x240 ∧ ad_sac_offset acid mod 16 = 0 ∧ ad_kc_offset acid mod 16 = 0 ∧
    ai_fac_offset aci0 = 0x40 ∧ ai_sac_offset aci0 mod 16 = 0 ∧ ai_kc_offset aci0 mod 16 = 0 ∧
    (let at_ off size := get_range image (nh_acid_offset h + off) (nh_acid_offset h + off + size) in
     at_ (ad_fac_offset acid) (ad_fac_size acid) = Some (acid_fac b) ∧
     at_ (ad_sac_offset acid) (ad_sac_size acid) = Some (acid_sac b) ∧
     at_ (ad_kc_offset acid) (ad_kc_size acid) = Some (acid_kc b)) ∧
    (let at_ off size := get_range image (nh_aci_offset h + off) (nh_aci_offset h + off + size) in
     at_ (ai_fac_offset aci0) (ai_fac_size aci0) = Some (aci_fac b) ∧
     at_ (ai_sac_offset aci0) (ai_sac_size aci0) = Some (aci_sac b) ∧
     at_ (ai_kc_offset aci0) (ai_kc_size aci0) = Some (aci_kc b)).
Proof.
  intros Hb. exists (image_of b), (read_of b). pose proof (len_npdm_image b Hb) as Hl.
  destruct (section_bounds 0x240 (acid_fac b) (acid_sac b) (acid_kc b)) as (_ & _ & _ & Ha1 & Ha2); [done|].
  destruct (section_bounds 0x40 (aci_fac b) (aci_sac b) (aci_kc b)) as (_ & _ & _ & Hi1 & Hi2); [done|].
  pose proof (layout_bounds b Hb) as (_ & _ & ? & ? & Hmod & _).
  split_and!; [by apply npdm_build_spec|by apply read_npdm_image|].
  cbn [read_of np_header np_acid np_aci0 meta_of acid_header_of aci0_header_of nh_acid_offset nh_acid_size
    nh_aci_offset nh_aci_size ad_size ad_fac_offset ad_fac_size ad_sac_offset ad_sac_size ad_kc_offset
    ad_kc_size ai_fac_offset ai_fac_size ai_sac_offset ai_sac_size ai_kc_offset ai_kc_size].
  split_and!; try done; try lia.
  - by eapply (image_range b [_; _]).
  - by eapply (image_range b [_; _; _]).
  - by eapply (image_range b [_; _; _; _]).
  - by eapply (image_range b [_; _; _; _; _; _]).
  - by eapply (image_range b [_; _; _; _; _; _; _]).
  - by eapply (image_range b [_; _; _; _; _; _; _; _]).
Qed.

(** C35. Reading an untrusted NPDM is safe: [try_from_bytes] never panics, the ACID and ACI0 sections
    of what it accepts lie inside the buffer, the name reads, and each accessor of an inner block
    returns that slice of the buffer when it fits and its out-of-bounds error when it does not. *)
Theorem npdm_reader_safe bytes :
  try_from_bytes bytes ≠ Panic ∧
  ∀ n, try_from_bytes bytes = Ok n →
    nh_acid_offset (np_header n) + nh_acid_size (np_header n) ≤ len bytes ∧
    nh_aci_offset (np_header n) + nh_aci_size (np_header n) ≤ len bytes ∧
    (∃ s, name n = Some s) ∧
    ∀ acc section off size,
      (acc, section, off, size) = (aci0_fac_data n, FAC, ai_fac_offset (np_aci0 n), ai_fac_size (np_aci0 n)) ∨
      (acc, section, off, size) = (aci0_sac_data n, SAC, ai_sac_offset (np_aci0 n), ai_sac_size (np_aci0 n)) ∨
      (acc, section, off, size) = (aci0_kc_data n, KC, ai_kc_offset (np_aci0 n), ai_kc_size (np_aci0 n)) →
      let start := nh_aci_offset (np_header n) + off in
      acc = if start + size <=? len bytes then Ok (ztake size (zdrop start bytes))
            else Err (Aci0InnerSectionOutOfBounds section off size (start + size) (len bytes)).
Proof.
  pose proof (try_from_bytes_npdm_safe bytes) as Hs. split; [by eapply safe_no_panic|].
  intros n Hn. pose proof (safe_ok _ _ _ Hs Hn) as Hok.
  pose proof Hok as (Hb & Hwh & _ & Hwi & _ & ? & _ & ?).
  pose proof (wf_aci0_header _ Hwi) as (? & ? & ? & ? & ? & ?). split_and!; [done|done| |].
  - unfold name. rewrite get_to_ok; [eauto|apply nul_position_range].
  - intros acc section off size [[= -> -> -> ->] | [[= -> -> -> ->] | [= -> -> -> ->]]];
      by apply (aci0_data_spec bytes n).
Qed.
End properties.

(** ** Witnesses *)

Definition sample_npdm : NpdmBuilder :=
  with_acid
    (with_aci (NpdmBuilder_new {| md_name := [x4d; x79; x41; x70; x70]; md_title_id := 0x0100000000010000;
      md_version := 3; md_main_thread_priority := 44; md_default_cpu_id := 2;
      md_main_thread_stack_size := 0x100000; md_flags := 0x0F |})
    {| aci_program_id := 0x0100000000010000; aci_filesystem_access := sample_access;
       aci_service_access := [([x68; x69; x64], false); ([x73; x6d; x3a], true)];
       aci_kernel_capabilities := [KernelFlags 59 28 3 0; MinKernelVersion 0x60; HandleTableSize 512] |})
  {| acid_program_id_min := 0x0100000000000000; acid_program_id_max := 0x01FFFFFFFFFFFFFF;
     acid_filesystem_access := sample_access; acid_service_access := [([x68; x69; x64], false)];
     acid_kernel_capabilities := [MinKernelVersion 0x60]; acid_flags := 1 |}.

Lemma sample_npdm_wf : builder_wf sample_npdm.
Proof. split; try (by vm_compute); apply sample_access_wf. Qed.

Lemma npdm_round_trip_witness :
  ∃ image n, @build zerocopy_reference sample_npdm = Some image ∧
    @try_from_bytes zerocopy_reference image = Ok n ∧
    (let h := np_header n in
     name n = Some [x4d; x79; x41; x70; x70] ∧ nh_version h = 3 ∧ nh_flags h = 0x0F ∧
     nh_main_thread_core_number h = 2 ∧ main_thread_priority n = 44 ∧ main_thread_stack_size n = 0x100000) ∧
    (let acid := np_acid n in
     ad_flags acid = 1 ∧ program_id_range n = (0x0100000000000000, 0x01FFFFFFFFFFFFFF) ∧
     let at_ off size := get_range image (nh_acid_offset (np_header n) + off)
                                         (nh_acid_offset (np_header n) + off + size) in
     at_ (ad_fac_offset acid) (ad_fac_size acid) = Some (acid_fac sample_npdm) ∧
     at_ (ad_sac_offset acid) (ad_sac_size acid) = Some (acid_sac sample_npdm) ∧
     at_ (ad_kc_offset acid) (ad_kc_size acid) = Some (acid_kc sample_npdm)) ∧
    program_id n = 0x0100000000010000 ∧
    aci0_fac_data n = Ok (aci_fac sample_npdm) ∧ aci0_sac_data n = Ok (aci_sac sample_npdm) ∧
    aci0_kc_data n = Ok (aci_kc sample_npdm).
Proof. apply (@npdm_round_trip zerocopy_reference sample_npdm sample_npdm_wf). Defined.

Lemma npdm_layout_witness :
  ∃ image n, @build zerocopy_reference sample_npdm = Some image ∧
    @try_from_bytes zerocopy_reference image = Ok n ∧ nh_acid_offset (np_header n) = 0x80.
Proof.
  destruct (@npdm_layout zerocopy_reference sample_npdm sample_npdm_wf) as (image & n & Hb & Hr & Ho & _).
  exists image, n. split; [exact Hb|]. split; [exact Hr|exact Ho].
Defined.
