(* ===== verification/Crates.v ===== *)
(** * Third-party codecs as parameters

    The sha2 and lz4_flex crates, which the source only calls: each is a class of the operations the
    code uses with what it relies on as laws, and a concrete instance shows the laws can hold. *)

From S2P Require Import Prelude Bytes.
#[local] Open Scope Z_scope.

(** [Sha256::digest]: a digest of 32 bytes. *)
Class Sha256 := {
  sha256 : list byte → list byte;
  len_sha256 l : len (sha256 l) = 0x20;
}.

(** A digest that is not SHA-256: the first 32 bytes, zero-padded. *)
Program Definition sha256_reference : Sha256 := {|
  sha256 l := vec_resize l 0x20 x00;
|}.
Next Obligation.
  intros l. unfold vec_resize. pose proof (len_nonneg l). rewrite len_app, len_ztake_min, len_zrep_max by lia. lia.
Qed.

(** [lz4_flex::compress] and [lz4_flex::decompress]: a block decompresses to its input when it is
    given the input's length. *)
Class Lz4 := {
  lz4_error : Type;
  lz4_compress : list byte → list byte;
  lz4_decompress : list byte → Z → outcome lz4_error (list byte);
  lz4_round_trip l : lz4_decompress (lz4_compress l) (len l) = Ok l;
  lz4_no_panic l n : lz4_decompress l n ≠ Panic;
}.

(** A codec that stores its input after a marker byte. *)
Definition unmark (l : list byte) (n : Z) : outcome unit (list byte) :=
  match l with
  | x01 :: l => if len l =? n then Ok l else Err tt
  | _ => Err tt
  end.

Definition lz4_reference : Lz4.
Proof.
  refine {| lz4_error := unit; lz4_compress l := x01 :: l; lz4_decompress := unmark |}.
  - intros l. unfold unmark. by rewrite Z.eqb_refl.
  - intros [|[] l] n; try done. cbn. by case_match.
Defined.

(** ** Hashing in blocks

    [slice::chunks(n)], [n] at least one: consecutive pieces of [n] bytes, the last one possibly
    shorter. [fuel] is at least the number of bytes, since each piece takes one at least. *)
Fixpoint chunks_fuel (fuel : nat) (n : Z) (l : list byte) : list (list byte) :=
  match fuel, l with
  | S fuel, _ :: _ => ztake n l :: chunks_fuel fuel n (zdrop n l)
  | _, _ => []
  end.
Definition chunks (n : Z) (l : list byte) : list (list byte) := chunks_fuel (length l) n l.

Lemma chunks_fuel_enough f n l : 0 < n → (length l ≤ f)%nat → chunks_fuel f n l = chunks n l.
Proof.
  intros Hn. unfold chunks. revert l. induction f as [f IH] using lt_wf_ind. intros l Hf.
  destruct f as [|f]; destruct l as [|x l]; try done; [cbn in Hf; lia|].
  cbn [chunks_fuel length] in *. f_equal.
  assert (length (zdrop n (x :: l)) ≤ length l)%nat as Hd.
  { unfold zdrop. rewrite length_drop. cbn. lia. }
  rewrite (IH f) by lia. destruct (decide (length l < S f)%nat) as [Hlt|]; [|lia].
  symmetry. apply IH; lia.
Qed.

Lemma chunks_cons n l : 0 < n → l ≠ [] → chunks n l = ztake n l :: chunks n (zdrop n l).
Proof.
  intros Hn Hl. destruct l as [|x l]; [done|]. unfold chunks at 1. cbn [length chunks_fuel].
  rewrite chunks_fuel_enough; [done|done|]. unfold zdrop. rewrite length_drop. cbn. lia.
Qed.

(** Induction that takes a block off the front. *)
Lemma chunk_ind n (Hn : 0 < n) (P : list byte → Prop) :
  P [] → (∀ l, l ≠ [] → P (zdrop n l) → P l) → ∀ l, P l.
Proof.
  intros H0 Hs l. remember (length l) as m eqn:Hm. revert l Hm.
  induction m as [m IH] using lt_wf_ind. intros [|x l] ->; [done|]. apply Hs; [done|].
  eapply IH; [|reflexivity]. unfold zdrop. rewrite length_drop. cbn. lia.
Qed.

Lemma len_nil_inv {A} (l : list A) : len l ≤ 0 → l = [].
Proof. destruct l; [done|]. len_lia. Qed.

Lemma chunks_index n l k :
  0 < n → 0 ≤ k → k * n < len l → index (chunks n l) k = Some (ztake n (zdrop (k * n) l)).
Proof.
  intros Hn. revert k. induction l as [|l Hl IH] using (chunk_ind n Hn); intros k Hk Hlt; [rewrite len_nil in Hlt; nia|].
  rewrite chunks_cons by done. destruct (Z.eq_dec k 0) as [->|Hk0]; [done|].
  change (ztake n l :: chunks n (zdrop n l)) with ([ztake n l] ++ chunks n (zdrop n l)).
  rewrite index_app_r by (unfold len; cbn; lia). change (len [ztake n l]) with 1.
  destruct (Z.le_gt_cases (len l) n); [nia|].
  rewrite IH by (rewrite ?len_zdrop; nia). rewrite zdrop_zdrop by nia. do 3 f_equal. lia.
Qed.

Lemma chunks_app_len n l m :
  0 < n → len l = len m → chunks n l = chunks n m → l = m.
Proof.
  intros Hn. revert m. induction l as [|l Hl IH] using (chunk_ind n Hn).
  { intros m Hm _. symmetry. apply len_nil_inv. rewrite <-Hm. done. }
  intros m Hlm Hc. assert (m ≠ []) as Hm by (intros ->; destruct l; [done|len_lia]).
  rewrite (chunks_cons n l), (chunks_cons n m) in Hc by done. injection Hc as H1 H2.
  rewrite <-(ztake_zdrop n l), <-(ztake_zdrop n m), H1. f_equal. apply IH; [|done].
  rewrite !len_zdrop_max by lia. lia.
Qed.

Lemma length_chunks n l m : 0 < n → len l = len m → length (chunks n l) = length (chunks n m).
Proof.
  intros Hn. revert m. induction l as [|l Hl IH] using (chunk_ind n Hn).
  { intros m Hm. by rewrite (len_nil_inv m) by by rewrite <-Hm. }
  intros m Hlm. assert (m ≠ []) as Hm by (intros ->; destruct l; [done|len_lia]).
  rewrite (chunks_cons n l), (chunks_cons n m) by done. cbn [length]. f_equal. apply IH. rewrite !len_zdrop_max by lia. lia.
Qed.

Section hashes.
Context `{SH : Sha256}.

(** The digests of a byte string's blocks, one after the other. *)
Definition block_hashes (n : Z) (l : list byte) : list byte := concat (map sha256 (chunks n l)).

Lemma len_concat_sha (ls : list (list byte)) : len (concat (map sha256 ls)) = 32 * len ls.
Proof.
  induction ls as [|x ls IH]; [done|]. cbn [map concat]. rewrite len_app, len_sha256, IH, len_cons. lia.
Qed.

(** The [k]-th digest is that of the [k]-th block. *)
Lemma concat_sha_index (ls : list (list byte)) k x r :
  index ls k = Some x → get_range (concat (map sha256 ls) ++ r) (32 * k) (32 * k + 32) = Some (sha256 x).
Proof.
  intros Hx. pose proof (index_Some_inv _ _ _ Hx) as Hk.
  rewrite <-(ztake_zdrop k ls), (zdrop_S _ _ _ Hx). rewrite map_app, concat_app. cbn [map concat].
  rewrite <-!app_assoc. apply get_range_mid; rewrite len_concat_sha, len_ztake, ?len_sha256 by lia; lia.
Qed.

Lemma block_hash_at n l r k :
  0 < n → 0 ≤ k → k * n < len l →
  get_range (block_hashes n l ++ r) (32 * k) (32 * k + 32) = Some (sha256 (ztake n (zdrop (k * n) l))).
Proof. intros. apply concat_sha_index. by apply chunks_index. Qed.

(** Two byte strings differ in their [k]-th blocks, which have one digest: a collision of SHA-256
    that the two strings exhibit. *)
Definition block_collision (n : Z) (l m : list byte) : Prop :=
  ∃ k x y, index (chunks n l) k = Some x ∧ index (chunks n m) k = Some y ∧ x ≠ y ∧ sha256 x = sha256 y.

Lemma concat_sha_inj (xs ys : list (list byte)) :
  length xs = length ys → concat (map sha256 xs) = concat (map sha256 ys) →
  xs = ys ∨ ∃ k x y, index xs k = Some x ∧ index ys k = Some y ∧ x ≠ y ∧ sha256 x = sha256 y.
Proof.
  revert ys. induction xs as [|x xs IH]; intros [|y ys]; try done; [by left|].
  cbn [map concat length]. intros [= Hc] He. apply app_inj_1 in He as [Hxy He].
  2:{ pose proof (len_sha256 x) as Hx. pose proof (len_sha256 y) as Hy. unfold len in *. lia. }
  destruct (decide (x = y)) as [->|Hne]; [|right; by exists 0, x, y].
  destruct (IH ys Hc He) as [->|(k & a & b & Ha & Hb & Hab)]; [by left|right].
  exists (1 + k), a, b. pose proof (index_Some_inv _ _ _ Ha).
  change (y :: xs) with ([y] ++ xs). change (y :: ys) with ([y] ++ ys).
  rewrite !index_app_r by (unfold len; cbn; lia).
  replace (1 + k - len [y]) with k by (unfold len; cbn; lia). done.
Qed.

(** Equal block digests of inputs of one length: the inputs are equal, or two blocks collide. *)
Lemma block_hashes_inj n l m :
  0 < n → len l = len m → block_hashes n l = block_hashes n m → l = m ∨ block_collision n l m.
Proof.
  intros Hn Hlen He. destruct (concat_sha_inj _ _ (length_chunks n l m Hn Hlen) He); [|by right].
  left. by eapply chunks_app_len.
Qed.

Lemma len_block_hashes n l m : 0 < n → len l = len m → len (block_hashes n l) = len (block_hashes n m).
Proof.
  intros Hn Hlen. unfold block_hashes. rewrite !len_concat_sha. unfold len. do 2 f_equal. by apply length_chunks.
Qed.
End hashes.
