(* ===== verification/Nso.v ===== *)
(** * NSO images: [raw/nso.rs], [write/nso.rs] and [read/nso.rs]

    The header, the builder - which pads, hashes and compresses the three segments - and the reader,
    which expands them again. The [lz4-compression] feature is on; with it off the builder is this
    one with [compress] false. The reader is over a buffer or over memory. An [option] whose [None] is a panic is the result of an infallible function. *)

From S2P Require Import Prelude Bytes Layout Ptr Crates.
#[local] Open Scope Z_scope.

(** ** The structures *)

Definition NSO_MAGIC : Z := 0x304f534e.

(** [NsoFlags]. *)
Definition TEXT_COMPRESS : Z := Z.shiftl 1 0.
Definition RODATA_COMPRESS : Z := Z.shiftl 1 1.
Definition DATA_COMPRESS : Z := Z.shiftl 1 2.
Definition TEXT_HASH : Z := Z.shiftl 1 3.
Definition RODATA_HASH : Z := Z.shiftl 1 4.
Definition DATA_HASH : Z := Z.shiftl 1 5.

Record NsoSegmentHeader := {
  file_offset : Z;
  memory_offset : Z;
  seg_size : Z;
}.
#[export] Instance NsoSegmentHeader_layout : Layout NsoSegmentHeader.
Proof.
  refine (L_struct (u32 ⊗ u32 ⊗ u32)%layout (λ '(a, b, c), Build_NsoSegmentHeader a b c)
    (λ x, (file_offset x, memory_offset x, seg_size x)) _ _); solve_struct.
Defined.

Record NsoHeader := {
  so_magic : Z;
  so_version : Z;
  so_reserved : Z;
  so_flags : Z;
  so_text : NsoSegmentHeader;
  so_module_name_offset : Z;
  so_rodata : NsoSegmentHeader;
  so_module_name_size : Z;
  so_data : NsoSegmentHeader;
  so_bss_size : Z;
  so_module_id : list byte;
  so_text_file_size : Z;
  so_rodata_file_size : Z;
  so_data_file_size : Z;
  so_reserved2 : list byte;
  so_embedded_offset : Z;
  so_embedded_size : Z;
  so_dynstr_offset : Z;
  so_dynstr_size : Z;
  so_dynsym_offset : Z;
  so_dynsym_size : Z;
  so_text_hash : list byte;
  so_rodata_hash : list byte;
  so_data_hash : list byte;
}.
#[export] Instance NsoHeader_layout : Layout NsoHeader.
Proof.
  refine (L_struct (u32 ⊗ u32 ⊗ u32 ⊗ u32 ⊗ NsoSegmentHeader_layout ⊗ u32 ⊗ NsoSegmentHeader_layout ⊗ u32
                    ⊗ NsoSegmentHeader_layout ⊗ u32 ⊗ byte_array 0x20 ⊗ u32 ⊗ u32 ⊗ u32 ⊗ byte_array 0x1C
                    ⊗ u32 ⊗ u32 ⊗ u32 ⊗ u32 ⊗ u32 ⊗ u32 ⊗ byte_array 0x20 ⊗ byte_array 0x20
                    ⊗ byte_array 0x20)%layout
    (λ '(a, b, c, d, e, f, g, h, i, j, k, l, m, n, o, p, q, r, s, t, u, v, w, x),
       Build_NsoHeader a b c d e f g h i j k l m n o p q r s t u v w x)
    (λ x, (so_magic x, so_version x, so_reserved x, so_flags x, so_text x, so_module_name_offset x,
           so_rodata x, so_module_name_size x, so_data x, so_bss_size x, so_module_id x,
           so_text_file_size x, so_rodata_file_size x, so_data_file_size x, so_reserved2 x,
           so_embedded_offset x, so_embedded_size x, so_dynstr_offset x, so_dynstr_size x,
           so_dynsym_offset x, so_dynsym_size x, so_text_hash x, so_rodata_hash x, so_data_hash x)) _ _);
    solve_struct.
Defined.
#[export] Instance eta_NsoHeader : Eta NsoHeader := λ x,
  Build_NsoHeader (so_magic x) (so_version x) (so_reserved x) (so_flags x) (so_text x)
    (so_module_name_offset x) (so_rodata x) (so_module_name_size x) (so_data x) (so_bss_size x)
    (so_module_id x) (so_text_file_size x) (so_rodata_file_size x) (so_data_file_size x) (so_reserved2 x)
    (so_embedded_offset x) (so_embedded_size x) (so_dynstr_offset x) (so_dynstr_size x)
    (so_dynsym_offset x) (so_dynsym_size x) (so_text_hash x) (so_rodata_hash x) (so_data_hash x).

(** ** The builder *)

Record NsoBuilder := {
  sb_text : option (list byte);
  sb_text_vaddr : Z;
  sb_rodata : option (list byte);
  sb_rodata_vaddr : Z;
  sb_data : option (list byte);
  sb_data_vaddr : Z;
  sb_bss_size : Z;
  sb_module_id : option (list byte);
  sb_compress : bool;
}.
#[export] Instance eta_NsoBuilder : Eta NsoBuilder := λ b,
  Build_NsoBuilder (sb_text b) (sb_text_vaddr b) (sb_rodata b) (sb_rodata_vaddr b) (sb_data b)
    (sb_data_vaddr b) (sb_bss_size b) (sb_module_id b) (sb_compress b).

Definition NsoBuilder_new : NsoBuilder :=
  {| sb_text := None; sb_text_vaddr := 0; sb_rodata := None; sb_rodata_vaddr := 0; sb_data := None;
     sb_data_vaddr := 0; sb_bss_size := 0; sb_module_id := None; sb_compress := true |}.

Definition nso_text (b : NsoBuilder) (data : list byte) := b <| sb_text := Some data |>.
Definition nso_text_vaddr (b : NsoBuilder) (vaddr : Z) := b <| sb_text_vaddr := vaddr |>.
Definition nso_rodata (b : NsoBuilder) (data : list byte) := b <| sb_rodata := Some data |>.
Definition nso_rodata_vaddr (b : NsoBuilder) (vaddr : Z) := b <| sb_rodata_vaddr := vaddr |>.
Definition nso_data (b : NsoBuilder) (data : list byte) := b <| sb_data := Some data |>.
Definition nso_data_vaddr (b : NsoBuilder) (vaddr : Z) := b <| sb_data_vaddr := vaddr |>.
Definition nso_bss_size (b : NsoBuilder) (size : Z) := b <| sb_bss_size := size |>.
Definition nso_module_id (b : NsoBuilder) (id : list byte) := b <| sb_module_id := Some id |>.
Definition nso_compressed (b : NsoBuilder) (compress : bool) := b <| sb_compress := compress |>.

Inductive BuildError := MissingText | MissingRodata | MissingData.

Definition pad_to_alignment (data : list byte) (alignment : Z) : list byte :=
  vec_resize data (div_ceil (len data) alignment * alignment) x00.

Section build.
Context `{ZC : Zerocopy} `{SH : Sha256} `{LZ : Lz4}.

Definition build_flags (text_compressed rodata_compressed data_compressed : bool) : Z :=
  let flags := 0 in
  let flags := if text_compressed then Z.lor flags TEXT_COMPRESS else flags in
  let flags := if rodata_compressed then Z.lor flags RODATA_COMPRESS else flags in
  let flags := if data_compressed then Z.lor flags DATA_COMPRESS else flags in
  Z.lor flags (Z.lor (Z.lor TEXT_HASH RODATA_HASH) DATA_HASH).

(** Everything past the three required segments. [None] is a panic. *)
Definition build_image (b : NsoBuilder) (text rodata data : list byte) : option (list byte) :=
  let text_padded := pad_to_alignment text 0x1000 in
  let rodata_padded := pad_to_alignment rodata 0x1000 in
  let data_padded := pad_to_alignment data 0x1000 in
  let text_hash := sha256 text_padded in
  let rodata_hash := sha256 rodata_padded in
  let data_hash := sha256 data_padded in
  let '(text_data, text_compressed, rodata_data, rodata_compressed, data_data, data_compressed) :=
    if sb_compress b
    then (lz4_compress text_padded, true, lz4_compress rodata_padded, true, lz4_compress data_padded, true)
    else (text_padded, false, rodata_padded, false, data_padded, false) in
  let flags := build_flags text_compressed rodata_compressed data_compressed in
  let text_offset := 0x100 in
  rodata_offset ← checked_add_u32 text_offset (as_u32 (len text_data));
  data_offset ← checked_add_u32 rodata_offset (as_u32 (len rodata_data));
  let header := (new_zeroed NsoHeader) <| so_magic := NSO_MAGIC |> <| so_version := 0 |>
    <| so_flags := flags |>
    <| so_text := {| file_offset := text_offset; memory_offset := sb_text_vaddr b;
                     seg_size := as_u32 (len text_padded) |} |>
    <| so_module_name_offset := 1 |>
    <| so_rodata := {| file_offset := rodata_offset; memory_offset := sb_rodata_vaddr b;
                       seg_size := as_u32 (len rodata_padded) |} |>
    <| so_module_name_size := 1 |>
    <| so_data := {| file_offset := data_offset; memory_offset := sb_data_vaddr b;
                     seg_size := as_u32 (len data_padded) |} |>
    <| so_bss_size := sb_bss_size b |> <| so_module_id := default (zeros 0x20) (sb_module_id b) |>
    <| so_text_file_size := as_u32 (len text_data) |> <| so_rodata_file_size := as_u32 (len rodata_data) |>
    <| so_data_file_size := as_u32 (len data_data) |> <| so_embedded_offset := 0 |>
    <| so_embedded_size := 0 |> <| so_dynstr_offset := 0 |> <| so_dynstr_size := 0 |>
    <| so_dynsym_offset := 0 |> <| so_dynsym_size := 0 |> <| so_text_hash := text_hash |>
    <| so_rodata_hash := rodata_hash |> <| so_data_hash := data_hash |> in
  total_size ← checked_sum [0x100; len text_data; len rodata_data; len data_data];
  Some (as_bytes header ++ text_data ++ rodata_data ++ data_data).

Definition build (b : NsoBuilder) : outcome BuildError (list byte) :=
  text ← ok_or (sb_text b) MissingText;
  rodata ← ok_or (sb_rodata b) MissingRodata;
  data ← ok_or (sb_data b) MissingData;
  or_panic (build_image b text rodata data).
End build.

(** ** The reader *)

Record Nso := {
  o_bytes : list byte;
  o_header : NsoHeader;
}.

Inductive Segment := Text | RoData | Data.

Inductive FromBytesError :=
| BufferTooSmall (required available : Z)
| InvalidMagic (found : Z)
| SegmentOutOfBounds (segment : Segment) (offset size buffer_len : Z).

Definition validate_segment_bounds (buffer_len : Z) (segment : Segment) (offset size : Z)
    : outcome FromBytesError unit :=
  end_ ← ok_or (checked_add offset size) (SegmentOutOfBounds segment offset size buffer_len);
  guard_err (buffer_len <? end_) (SegmentOutOfBounds segment offset size buffer_len).

Section read.
Context `{ZC : Zerocopy}.

Definition try_from_bytes (bytes : list byte) : outcome FromBytesError Nso :=
  _ ← guard_err (len bytes <? size_of NsoHeader) (BufferTooSmall (size_of NsoHeader) (len bytes));
  '(header, _) ← ok_or (ref_from_prefix NsoHeader bytes) (BufferTooSmall 0x100 (len bytes));
  _ ← guard_err (negb (so_magic header =? NSO_MAGIC)) (InvalidMagic (so_magic header));
  _ ← validate_segment_bounds (len bytes) Text (file_offset (so_text header)) (so_text_file_size header);
  _ ← validate_segment_bounds (len bytes) RoData (file_offset (so_rodata header)) (so_rodata_file_size header);
  _ ← validate_segment_bounds (len bytes) Data (file_offset (so_data header)) (so_data_file_size header);
  Ok {| o_bytes := bytes; o_header := header |}.

Inductive FromPtrError := FromPtr (source : FromBytesError).

Definition try_from_ptr (mem : memory) (ptr : Z) : outcome FromPtrError Nso :=
  map_err FromPtr (try_from_bytes (from_raw_parts mem ptr (USIZE_MAX / 2))).
End read.

Definition module_id (n : Nso) : list byte := so_module_id (o_header n).
(** [from_bits_truncate] keeps the six known bits. *)
Definition flags (n : Nso) : Z := Z.land (so_flags (o_header n)) 0x3F.

(** [None] is a panic. *)
Definition stored_segment (n : Nso) (off size : Z) : option (list byte) :=
  end_ ← checked_add off size;
  get_range (o_bytes n) off end_.
Definition text_compressed (n : Nso) : option (list byte) :=
  stored_segment n (file_offset (so_text (o_header n))) (so_text_file_size (o_header n)).
Definition rodata_compressed (n : Nso) : option (list byte) :=
  stored_segment n (file_offset (so_rodata (o_header n))) (so_rodata_file_size (o_header n)).
Definition data_compressed (n : Nso) : option (list byte) :=
  stored_segment n (file_offset (so_data (o_header n))) (so_data_file_size (o_header n)).

Section decompress.
Context `{LZ : Lz4}.

Record DecompressError := {
  de_segment : Segment;
  de_source : lz4_error;
}.

Definition decompress (n : Nso) (segment : Segment) (stored : list byte) (decompressed_size flag : Z)
    : outcome DecompressError (list byte) :=
  if negb (Z.land (flags n) flag =? flag) then Ok stored
  else map_err (λ err, {| de_segment := segment; de_source := err |})
         (lz4_decompress stored decompressed_size).

Definition text (n : Nso) : outcome DecompressError (list byte) :=
  stored ← or_panic (text_compressed n);
  decompress n Text stored (seg_size (so_text (o_header n))) TEXT_COMPRESS.
Definition rodata (n : Nso) : outcome DecompressError (list byte) :=
  stored ← or_panic (rodata_compressed n);
  decompress n RoData stored (seg_size (so_rodata (o_header n))) RODATA_COMPRESS.
Definition data (n : Nso) : outcome DecompressError (list byte) :=
  stored ← or_panic (data_compressed n);
  decompress n Data stored (seg_size (so_data (o_header n))) DATA_COMPRESS.
End decompress.

(** ** What the image holds, abstractly *)

Section image.
Context `{ZC : Zerocopy} `{SH : Sha256} `{LZ : Lz4}.

Definition padded (l : list byte) : list byte := pad_to_alignment l 0x1000.
(** A segment as the file stores it. *)
Definition stored_form (compress : bool) (l : list byte) : list byte :=
  if compress then lz4_compress (padded l) else padded l.

Record builder_ok (b : NsoBuilder) (text rodata data : list byte) : Prop := {
  bo_text : sb_text b = Some text;
  bo_rodata : sb_rodata b = Some rodata;
  bo_data : sb_data b = Some data;
  bo_vaddrs : is_u32 (sb_text_vaddr b) ∧ is_u32 (sb_rodata_vaddr b) ∧ is_u32 (sb_data_vaddr b);
  bo_bss : is_u32 (sb_bss_size b);
  bo_module_id : ∀ id, sb_module_id b = Some id → len id = 0x20;
  bo_padded : len (padded text) ≤ U32_MAX ∧ len (padded rodata) ≤ U32_MAX ∧ len (padded data) ≤ U32_MAX;
  bo_stored : 0x100 + len (stored_form (sb_compress b) text) + len (stored_form (sb_compress b) rodata)
              + len (stored_form (sb_compress b) data) ≤ U32_MAX;
}.

Definition header_of (b : NsoBuilder) (text rodata data : list byte) : NsoHeader :=
  let t := stored_form (sb_compress b) text in
  let r := stored_form (sb_compress b) rodata in
  let d := stored_form (sb_compress b) data in
  Build_NsoHeader NSO_MAGIC 0 0 (if sb_compress b then 0x3F else 0x38)
    (Build_NsoSegmentHeader 0x100 (sb_text_vaddr b) (len (padded text))) 1
    (Build_NsoSegmentHeader (0x100 + len t) (sb_rodata_vaddr b) (len (padded rodata))) 1
    (Build_NsoSegmentHeader (0x100 + len t + len r) (sb_data_vaddr b) (len (padded data)))
    (sb_bss_size b) (default (zeros 0x20) (sb_module_id b)) (len t) (len r) (len d) (zeros 0x1C)
    0 0 0 0 0 0 (sha256 (padded text)) (sha256 (padded rodata)) (sha256 (padded data)).

Definition image_of (b : NsoBuilder) (text rodata data : list byte) : list byte :=
  as_bytes (header_of b text rodata data) ++ stored_form (sb_compress b) text ++
  stored_form (sb_compress b) rodata ++ stored_form (sb_compress b) data.

(** ** Lemmas *)

Lemma new_zeroed_nso_header :
  new_zeroed NsoHeader
  = Build_NsoHeader 0 0 0 0 (Build_NsoSegmentHeader 0 0 0) 0 (Build_NsoSegmentHeader 0 0 0) 0
      (Build_NsoSegmentHeader 0 0 0) 0 (zeros 0x20) 0 0 0 (zeros 0x1C) 0 0 0 0 0 0
      (zeros 0x20) (zeros 0x20) (zeros 0x20).
Proof. rewrite new_zeroed_spec. vm_compute. reflexivity. Qed.

Lemma wf_nso_header b text rodata data :
  builder_ok b text rodata data → wf (header_of b text rodata data).
Proof.
  intros []. destruct bo_vaddrs0 as (? & ? & ?), bo_padded0 as (? & ? & ?).
  assert (len (default (zeros 32) (sb_module_id b)) = 32).
  { destruct (sb_module_id b) as [id|] eqn:E; [by apply bo_module_id0|done]. }
  pose proof (len_nonneg (stored_form (sb_compress b) text)).
  pose proof (len_nonneg (stored_form (sb_compress b) rodata)).
  pose proof (len_nonneg (stored_form (sb_compress b) data)).
  pose proof (len_nonneg (padded text)). pose proof (len_nonneg (padded rodata)).
  pose proof (len_nonneg (padded data)). cbn. change (256 ^ 4) with 0x100000000. unfold NSO_MAGIC.
  split_and!; try done; try mlia; try apply len_sha256; destruct (sb_compress b); lia.
Qed.

Lemma nso_build_spec b text rodata data :
  builder_ok b text rodata data → build b = Ok (image_of b text rodata data).
Proof.
  intros Hb. pose proof Hb as []. destruct bo_padded0 as (? & ? & ?).
  pose proof (len_nonneg (stored_form (sb_compress b) text)).
  pose proof (len_nonneg (stored_form (sb_compress b) rodata)).
  pose proof (len_nonneg (stored_form (sb_compress b) data)).
  unfold build. rewrite bo_text0, bo_rodata0, bo_data0. bind_cbn. unfold build_image.
  fold (padded text) (padded rodata) (padded data).
  replace (if sb_compress b then _ else _)
    with (stored_form (sb_compress b) text, sb_compress b, stored_form (sb_compress b) rodata, sb_compress b,
          stored_form (sb_compress b) data, sb_compress b)
    by (unfold stored_form; by destruct (sb_compress b)).
  replace (build_flags _ _ _) with (if sb_compress b then 0x3F else 0x38) by by destruct (sb_compress b).
  pose proof (len_nonneg (padded text)). pose proof (len_nonneg (padded rodata)).
  pose proof (len_nonneg (padded data)).
  rewrite !as_u32_small by mlia. do 2 bind_step. rewrite new_zeroed_nso_header.
  rewrite checked_sum_ok; [done|repeat constructor; lia|cbn [zsum foldr]; mlia].
Qed.
End image.

Section round_trip.
Context `{ZC : Zerocopy} `{SH : Sha256} `{LZ : Lz4}.
Variables (b : NsoBuilder) (text_ rodata_ data_ : list byte).
Hypothesis B : builder_ok b text_ rodata_ data_.

#[local] Abbreviation img := (image_of b text_ rodata_ data_).
#[local] Abbreviation hd := (header_of b text_ rodata_ data_).
#[local] Abbreviation st := (stored_form (sb_compress b)).
Definition read_of : Nso := {| o_bytes := img; o_header := hd |}.

Lemma len_nso_image : len img = 0x100 + len (st text_) + len (st rodata_) + len (st data_).
Proof.
  pose proof (len_as_bytes hd (wf_nso_header _ _ _ _ B)) as Hh. change (size_of NsoHeader) with 0x100 in Hh.
  unfold image_of. rewrite !len_app, Hh. lia.
Qed.

Lemma read_nso_image : try_from_bytes img = Ok read_of.
Proof.
  pose proof len_nso_image as Hl. pose proof B as [].
  pose proof (len_nonneg (st text_)). pose proof (len_nonneg (st rodata_)). pose proof (len_nonneg (st data_)).
  unfold try_from_bytes. change (size_of NsoHeader) with 0x100.
  rewrite (proj2 (Z.ltb_ge (len img) _)) by lia. bind_cbn.
  replace (ref_from_prefix NsoHeader img) with (Some (hd, st text_ ++ st rodata_ ++ st data_))
    by (symmetry; apply ref_from_prefix_as_bytes; exact (wf_nso_header _ _ _ _ B)).
  bind_cbn.
  change (so_magic hd) with NSO_MAGIC. rewrite Z.eqb_refl. cbn [negb]. bind_cbn.
  unfold validate_segment_bounds. cbn [header_of so_text so_rodata so_data file_offset so_text_file_size
    so_rodata_file_size so_data_file_size].
  do 3 (bind_step; rewrite (proj2 (Z.ltb_ge (len img) _)) by lia; bind_cbn). done.
Qed.

Lemma image_stored :
  text_compressed read_of = Some (st text_) ∧ rodata_compressed read_of = Some (st rodata_) ∧
  data_compressed read_of = Some (st data_).
Proof.
  pose proof len_nso_image as Hl. pose proof B as [].
  pose proof (len_as_bytes hd (wf_nso_header _ _ _ _ B)) as Hh. change (size_of NsoHeader) with 0x100 in Hh.
  pose proof (len_nonneg (st text_)). pose proof (len_nonneg (st rodata_)). pose proof (len_nonneg (st data_)).
  unfold text_compressed, rodata_compressed, data_compressed, stored_segment.
  cbn [o_header o_bytes read_of header_of so_text so_rodata so_data file_offset so_text_file_size
    so_rodata_file_size so_data_file_size]. unfold image_of. split_and!.
  - bind_step. by apply get_range_mid; rewrite ?Hh.
  - bind_step. rewrite app_assoc. apply get_range_mid; rewrite len_app, Hh; lia.
  - bind_step.
    replace (as_bytes hd ++ _) with ((as_bytes hd ++ st text_ ++ st rodata_) ++ st data_ ++ [])
      by by rewrite app_nil_r, <-!app_assoc.
    apply get_range_mid; rewrite !len_app, Hh; lia.
Qed.

(** A segment of the image expands to what was stored, whichever way it was stored. *)
Lemma expand_stored segment l flag :
  (∃ i, 0 ≤ i < 3 ∧ flag = Z.shiftl 1 i) →
  decompress read_of segment (st l) (len (padded l)) flag = Ok (padded l).
Proof.
  intros (i & Hi & ->). unfold decompress, flags, stored_form. cbn [o_header read_of header_of so_flags].
  assert (i = 0 ∨ i = 1 ∨ i = 2) as Hc by lia.
  destruct (sb_compress b).
  - destruct Hc as [-> | [-> | ->]]; cbn [negb Z.shiftl]; rewrite lz4_round_trip; done.
  - destruct Hc as [-> | [-> | ->]]; done.
Qed.
End round_trip.

(** ** Lemmas: the reader *)

Definition nso_ok (bytes : list byte) (n : Nso) : Prop :=
  o_bytes n = bytes ∧
  Forall (λ '(off, size), 0 ≤ off ∧ 0 ≤ size ∧ off + size ≤ len bytes ∧ off + size ≤ USIZE_MAX)
    [(file_offset (so_text (o_header n)), so_text_file_size (o_header n));
     (file_offset (so_rodata (o_header n)), so_rodata_file_size (o_header n));
     (file_offset (so_data (o_header n)), so_data_file_size (o_header n))].

Lemma validate_segment_bounds_safe n sg off size :
  safe (λ _, off + size ≤ n ∧ off + size ≤ USIZE_MAX) (validate_segment_bounds n sg off size).
Proof.
  unfold validate_segment_bounds. safe_step e He. apply checked_add_inv in He as [-> ?].
  eapply safe_mono; [apply safe_guard|]. cbn. intros _ H'. zify_bool. lia.
Qed.

Lemma wf_nso_sizes (h : NsoHeader) :
  wf h → 0 ≤ file_offset (so_text h) ∧ 0 ≤ file_offset (so_rodata h) ∧ 0 ≤ file_offset (so_data h) ∧
    0 ≤ so_text_file_size h ∧ 0 ≤ so_rodata_file_size h ∧ 0 ≤ so_data_file_size h.
Proof. cbn. intros H. destruct_and? H. split_and!; lia. Qed.

Lemma try_from_bytes_nso_safe `{ZC : Zerocopy} bytes : safe (nso_ok bytes) (try_from_bytes bytes).
Proof.
  unfold try_from_bytes. safe_step ? Hlen. safe_step [h r] Hh.
  apply ref_from_prefix_inv in Hh as (_ & Hwf & _). apply wf_nso_sizes in Hwf as (? & ? & ? & ? & ? & ?).
  safe_step ? Hm. eapply safe_bind; [apply validate_segment_bounds_safe|]. intros _ [? ?].
  eapply safe_bind; [apply validate_segment_bounds_safe|]. intros _ [? ?].
  eapply safe_bind; [apply validate_segment_bounds_safe|]. intros _ [? ?].
  cbn [safe]. split; [done|]. cbn [o_header]. by repeat constructor.
Qed.

Lemma stored_segment_ok bytes n off size :
  o_bytes n = bytes → 0 ≤ off ∧ 0 ≤ size ∧ off + size ≤ len bytes ∧ off + size ≤ USIZE_MAX →
  stored_segment n off size = Some (ztake size (zdrop off bytes)).
Proof.
  intros <- (? & ? & ? & ?). unfold stored_segment. rewrite checked_add_ok by done. bind_cbn.
  rewrite get_range_ok by lia. do 2 f_equal. lia.
Qed.

(** ** Lemmas: an image followed by anything *)

Lemma size_of_NsoHeader : size_of NsoHeader = 0x100.
Proof. reflexivity. Qed.

Lemma wf_nso_max (h : NsoHeader) :
  wf h → 0 ≤ file_offset (so_text h) ≤ U32_MAX ∧ 0 ≤ file_offset (so_rodata h) ≤ U32_MAX ∧
    0 ≤ file_offset (so_data h) ≤ U32_MAX ∧ 0 ≤ so_text_file_size h ≤ U32_MAX ∧
    0 ≤ so_rodata_file_size h ≤ U32_MAX ∧ 0 ≤ so_data_file_size h ≤ U32_MAX.
Proof. cbn. change (256 ^ 4) with 0x100000000. intros H. destruct_and? H. unfold_max. split_and!; lia. Qed.

Lemma validate_segment_bounds_long sg off size :
  0 ≤ off ≤ U32_MAX ∧ 0 ≤ size ≤ U32_MAX → validate_segment_bounds ISIZE_MAX sg off size = Ok tt.
Proof.
  unfold_max. intros [? ?]. unfold validate_segment_bounds. rewrite checked_add_ok by (unfold_max; lia). bind_cbn.
  unfold guard_err. by rewrite (proj2 (Z.ltb_ge _ _)) by lia.
Qed.

Lemma validate_segment_bounds_more n n' sg off size u :
  validate_segment_bounds n sg off size = Ok u → n ≤ n' → validate_segment_bounds n' sg off size = Ok u.
Proof.
  unfold validate_segment_bounds. destruct (checked_add off size) as [e|]; bind_cbn; [|done].
  unfold guard_err. destruct (Z.ltb_spec n e); [done|]. intros H1 Hn. by rewrite (proj2 (Z.ltb_ge _ _)) by lia.
Qed.

Lemma stored_segment_app l k h h' off size x :
  stored_segment {| o_bytes := l; o_header := h |} off size = Some x →
  stored_segment {| o_bytes := l ++ k; o_header := h' |} off size = Some x.
Proof.
  unfold stored_segment. destruct (checked_add off size); bind_cbn; [|done]. apply get_range_app.
Qed.

Lemma nso_try_from_bytes_app `{ZC : Zerocopy} l k n :
  try_from_bytes l = Ok n → try_from_bytes (l ++ k) = Ok {| o_bytes := l ++ k; o_header := o_header n |}.
Proof.
  unfold try_from_bytes. pose proof (len_nonneg k). assert (len l ≤ len (l ++ k)) as Hle by (rewrite len_app; lia).
  intros (? & Hlen%guard_err_ok_inv & H1)%bind_ok_inv. zify_bool. rewrite (proj2 (Z.ltb_ge _ _)) by lia. bind_cbn.
  apply bind_ok_inv in H1 as ([h r] & Hh%ok_or_ok_inv & H1). rewrite (ref_from_prefix_app _ _ _ _ Hh). bind_cbn.
  apply bind_ok_inv in H1 as (? & -> & H1). bind_cbn.
  apply bind_ok_inv in H1 as (? & Ht & H1). rewrite (validate_segment_bounds_more _ _ _ _ _ _ Ht Hle). bind_cbn.
  apply bind_ok_inv in H1 as (? & Hr & H1). rewrite (validate_segment_bounds_more _ _ _ _ _ _ Hr Hle). bind_cbn.
  apply bind_ok_inv in H1 as (? & Hd & H1). rewrite (validate_segment_bounds_more _ _ _ _ _ _ Hd Hle). bind_cbn.
  by injection H1 as <-.
Qed.

(** ** Properties *)

Section properties.
Context `{ZC : Zerocopy} `{SH : Sha256} `{LZ : Lz4}.

(** C16. A built NSO reads back as it was configured, compressed or not: [build] succeeds,
    [try_from_bytes] accepts the image, the three segments expand to the builder's, zero-padded to
    pages, the recorded hashes are those of the expanded segments and every hash flag is set, and
    the module id, addresses and BSS size come back. *)
Theorem nso_round_trip b text_ rodata_ data_ :
  builder_ok b text_ rodata_ data_ →
  ∃ image n, build b = Ok image ∧ try_from_bytes image = Ok n ∧
    text n = Ok (padded text_) ∧ rodata n = Ok (padded rodata_) ∧ data n = Ok (padded data_) ∧
    so_text_hash (o_header n) = sha256 (padded text_) ∧ so_rodata_hash (o_header n) = sha256 (padded rodata_) ∧
    so_data_hash (o_header n) = sha256 (padded data_) ∧
    flags n = Z.lor 0x38 (if sb_compress b then 0x7 else 0) ∧
    module_id n = default (zeros 0x20) (sb_module_id b) ∧ so_bss_size (o_header n) = sb_bss_size b ∧
    memory_offset (so_text (o_header n)) = sb_text_vaddr b ∧
    memory_offset (so_rodata (o_header n)) = sb_rodata_vaddr b ∧
    memory_offset (so_data (o_header n)) = sb_data_vaddr b.
Proof.
  intros Hb. exists (image_of b text_ rodata_ data_), (read_of b text_ rodata_ data_).
  split; [by apply nso_build_spec|]. split; [by apply read_nso_image|].
  destruct (image_stored b text_ rodata_ data_ Hb) as (Ht & Hr & Hd).
  unfold text, rodata, data. rewrite Ht, Hr, Hd. bind_cbn.
  split_and!; try done.
  - apply expand_stored. by exists 0.
  - apply expand_stored. by exists 1.
  - apply expand_stored. by exists 2.
  - unfold flags. cbn [o_header read_of header_of so_flags]. by destruct (sb_compress b).
Qed.

(** Reading an untrusted NSO is safe: [try_from_bytes] never panics, and in an image it accepts
    each stored segment is the slice of the buffer its offset and size describe and expanding a
    segment never panics; a segment whose compression flag is clear is returned as stored. *)
Theorem nso_reader_safe bytes :
  try_from_bytes bytes ≠ Panic ∧
  ∀ n, try_from_bytes bytes = Ok n →
    let h := o_header n in
    text_compressed n = Some (ztake (so_text_file_size h) (zdrop (file_offset (so_text h)) bytes)) ∧
    rodata_compressed n = Some (ztake (so_rodata_file_size h) (zdrop (file_offset (so_rodata h)) bytes)) ∧
    data_compressed n = Some (ztake (so_data_file_size h) (zdrop (file_offset (so_data h)) bytes)) ∧
    text n ≠ Panic ∧ rodata n ≠ Panic ∧ data n ≠ Panic ∧
    (Z.testbit (so_flags h) 0 = false → text n = or_panic (text_compressed n)) ∧
    (Z.testbit (so_flags h) 1 = false → rodata n = or_panic (rodata_compressed n)) ∧
    (Z.testbit (so_flags h) 2 = false → data n = or_panic (data_compressed n)).
Proof.
  pose proof (try_from_bytes_nso_safe bytes) as Hs. split; [by eapply safe_no_panic|].
  intros n Hn h. destruct (safe_ok _ _ _ Hs Hn) as [Hb Hall].
  apply Forall_cons in Hall as [Ht Hall]. apply Forall_cons in Hall as [Hr Hall].
  apply Forall_cons in Hall as [Hd _]. unfold h.
  assert (∀ sg l sz fl, decompress n sg l sz fl ≠ Panic) as Hdec.
  { intros. unfold decompress. case_match; [done|]. apply map_err_no_panic, lz4_no_panic. }
  unfold text, rodata, data.
  unfold text_compressed, rodata_compressed, data_compressed.
  rewrite (stored_segment_ok bytes n _ _ Hb Ht), (stored_segment_ok bytes n _ _ Hb Hr),
    (stored_segment_ok bytes n _ _ Hb Hd). bind_cbn.
  assert (∀ i sg l sz, 0 ≤ i < 3 → Z.testbit (so_flags (o_header n)) i = false →
    decompress n sg l sz (Z.shiftl 1 i) = Ok l) as Hclear.
  { intros i sg l sz Hi Hbit. unfold decompress, flags.
    assert (Z.land (Z.land (so_flags (o_header n)) 63) (Z.shiftl 1 i) = 0) as ->.
    { rewrite <-Z.land_assoc. replace (Z.land 63 (Z.shiftl 1 i)) with (Z.shiftl 1 i).
      - apply Z.eqb_eq. rewrite land_flag_eqb by lia. by rewrite Hbit.
      - assert (i = 0 ∨ i = 1 ∨ i = 2) as [-> | [-> | ->]] by lia; done. }
    assert (i = 0 ∨ i = 1 ∨ i = 2) as [-> | [-> | ->]] by lia; done. }
  split_and!; try done; intros Hbit; by apply Hclear.
Qed.

(** [build] reports a missing segment, the first in the order text, rodata, data, and no other
    error; when the stored text and rodata outgrow the header's 32-bit offsets it panics. *)
Theorem nso_build_errors b :
  (∀ e, build b = Err e ↔
     (sb_text b = None ∧ e = MissingText) ∨
     (sb_text b ≠ None ∧ sb_rodata b = None ∧ e = MissingRodata) ∨
     (sb_text b ≠ None ∧ sb_rodata b ≠ None ∧ sb_data b = None ∧ e = MissingData)) ∧
  ∀ text_ rodata_ data_,
    sb_text b = Some text_ → sb_rodata b = Some rodata_ → sb_data b = Some data_ →
    len (stored_form (sb_compress b) text_) ≤ U32_MAX → len (stored_form (sb_compress b) rodata_) ≤ U32_MAX →
    U32_MAX < 0x100 + len (stored_form (sb_compress b) text_) + len (stored_form (sb_compress b) rodata_) →
    build b = Panic.
Proof.
  split.
  - intros e. unfold build. destruct (sb_text b), (sb_rodata b), (sb_data b); bind_cbn;
      [destruct (build_image _ _ _ _)|..]; cbn [or_panic]; split; intros; destruct_or?; destruct_and?;
      simplify_eq; naive_solver.
  - intros t r d Ht Hr Hd Hlt Hlr Hover. unfold build. rewrite Ht, Hr, Hd. bind_cbn. unfold build_image.
    fold (padded t) (padded r) (padded d).
    replace (if sb_compress b then _ else _)
      with (stored_form (sb_compress b) t, sb_compress b, stored_form (sb_compress b) r, sb_compress b,
            stored_form (sb_compress b) d, sb_compress b)
      by (unfold stored_form; by destruct (sb_compress b)).
    pose proof (len_nonneg (stored_form (sb_compress b) t)). pose proof (len_nonneg (stored_form (sb_compress b) r)).
    rewrite (as_u32_small (len (stored_form _ t))), (as_u32_small (len (stored_form _ r))) by mlia.
    unfold checked_add_u32. case_match; [|done]. bind_cbn. rewrite (proj2 (Z.leb_gt _ _)) by lia. done.
Qed.

(** An image in memory reads as it does from a buffer that holds it: [try_from_ptr] accepts it with the
    same header and the same segments, whatever follows it there. *)
Theorem nso_try_from_ptr mem ptr bytes n :
  mem_holds mem ptr bytes → len bytes ≤ ISIZE_MAX → try_from_bytes bytes = Ok n →
  ∃ n', try_from_ptr mem ptr = Ok n' ∧ o_header n' = o_header n ∧ text_compressed n' = text_compressed n ∧
    rodata_compressed n' = rodata_compressed n ∧ data_compressed n' = data_compressed n.
Proof.
  intros Hb Hl Hn. unfold try_from_ptr. change (USIZE_MAX / 2) with ISIZE_MAX.
  destruct (from_raw_parts_holds mem ptr bytes ISIZE_MAX Hb Hl) as (rest & -> & _).
  rewrite (nso_try_from_bytes_app _ rest _ Hn). eexists. split; [done|]. split; [done|].
  pose proof (safe_ok _ _ _ (try_from_bytes_nso_safe bytes) Hn) as [Ho Hall]. cbn in Ho, Hall.
  destruct n as [o h]. cbn in Ho, Hall. subst o.
  assert (∀ off size, 0 ≤ off ∧ 0 ≤ size ∧ off + size ≤ len bytes ∧ off + size ≤ USIZE_MAX →
    stored_segment {| o_bytes := bytes ++ rest; o_header := h |} off size =
    stored_segment {| o_bytes := bytes; o_header := h |} off size) as Heq.
  { intros off size Hb'. rewrite (stored_segment_ok bytes {| o_bytes := bytes; o_header := h |}) by done.
    apply (stored_segment_app bytes rest h). by apply stored_segment_ok. }
  rewrite !Forall_cons in Hall. destruct Hall as (H1 & H2 & H3 & _). split_and!; by apply Heq.
Qed.

(** The slice is longer than any extent a header records, so the only error is a wrong magic. *)
Theorem nso_try_from_ptr_errors mem ptr :
  match try_from_ptr mem ptr with Ok _ | Err (FromPtr (InvalidMagic _)) => True | _ => False end.
Proof.
  unfold try_from_ptr. change (USIZE_MAX / 2) with ISIZE_MAX.
  assert (len (from_raw_parts mem ptr ISIZE_MAX) = ISIZE_MAX) as Hl by (apply len_from_raw_parts; unfold_max; lia).
  generalize dependent (from_raw_parts mem ptr ISIZE_MAX). intros bytes Hl. unfold try_from_bytes.
  assert (size_of NsoHeader ≤ len bytes) as Hsize by (rewrite Hl, size_of_NsoHeader; unfold_max; lia).
  rewrite (proj2 (Z.ltb_ge _ _)) by done. bind_cbn. rewrite ref_from_prefix_ok by done.
  assert (wf (of_bytes (ztake (size_of NsoHeader) bytes) : NsoHeader)) as Hwf
    by (apply wf_of_bytes; rewrite len_ztake; [done|split; [rewrite size_of_NsoHeader; lia|done]]).
  generalize dependent (of_bytes (ztake (size_of NsoHeader) bytes) : NsoHeader). intros h Hwf. bind_cbn.
  apply wf_nso_max in Hwf as (? & ? & ? & ? & ? & ?).
  destruct (so_magic h =? NSO_MAGIC); bind_cbn; [|done]. rewrite Hl.
  rewrite !validate_segment_bounds_long by done. done.
Qed.
End properties.

(** ** Witnesses *)

Definition sample_nso : NsoBuilder :=
  nso_data_vaddr (nso_data (nso_rodata_vaddr (nso_rodata (nso_text NsoBuilder_new [x01; x02]) [x03]) 0x1000)
    [x04]) 0x2000.

Lemma sample_nso_ok :
  @builder_ok lz4_reference sample_nso [x01; x02] [x03] [x04].
Proof. split; try (vm_compute; first [done | repeat split; discriminate]). Qed.

Lemma nso_round_trip_witness :
  ∃ image n, @build zerocopy_reference sha256_reference lz4_reference sample_nso = Ok image ∧
    @try_from_bytes zerocopy_reference image = Ok n ∧
    @text lz4_reference n = Ok (padded [x01; x02]) ∧ @rodata lz4_reference n = Ok (padded [x03]) ∧
    @data lz4_reference n = Ok (padded [x04]) ∧ flags n = 0x3F.
Proof.
  destruct (@nso_round_trip zerocopy_reference sha256_reference lz4_reference sample_nso _ _ _ sample_nso_ok)
    as (image & n & Hb & Hr & Ht & Hro & Hd & _ & _ & _ & Hf & _).
  exists image, n. split_and!; [exact Hb|exact Hr|exact Ht|exact Hro|exact Hd|exact Hf].
Defined.

Lemma nso_build_errors_witness :
  @build zerocopy_reference sha256_reference lz4_reference NsoBuilder_new = Err MissingText.
Proof.
  apply (@nso_build_errors zerocopy_reference sha256_reference lz4_reference NsoBuilder_new). by left.
Defined.
