(* ===== verification/Ivfc.v ===== *)
(** * The IVFC hash tree: [write/nca/ivfc.rs]

    Six levels over a RomFS image, each holding the digests of the blocks of the next, and the digest
    of the first. [None] of an [option] is a panic. *)

From S2P Require Import Prelude Bytes Layout Crates.
#[local] Open Scope Z_scope.

(** ** Definitions *)

Definition IVFC_MAX_LEVELS : nat := 6.
Definition IVFC_BLOCK_SIZE : Z := 0x4000.
Definition IVFC_BLOCK_SIZE_LOG2 : Z := 14.
Definition HASH_SIZE : Z := 0x20.

Record IvfcLevelHeader := {
  logical_offset : Z;
  hash_data_size : Z;
  block_size : Z;
  lh_reserved : Z;
}.
#[export] Instance IvfcLevelHeader_layout : Layout IvfcLevelHeader.
Proof.
  refine (L_struct (u64 ⊗ u64 ⊗ u32 ⊗ u32)%layout (λ '(a, b, c, d), Build_IvfcLevelHeader a b c d)
    (λ x, (logical_offset x, hash_data_size x, block_size x, lh_reserved x)) _ _); solve_struct.
Defined.

Record IvfcTree := {
  tree_data : list byte;
  level_headers : list IvfcLevelHeader;
  master_hash : list byte;
}.

Section build.
Context `{SH : Sha256}.

Definition hash_level (level : list byte) : list byte :=
  let hashes := concat (map sha256 (chunks IVFC_BLOCK_SIZE level)) in
  let padding := IVFC_BLOCK_SIZE - len hashes mod IVFC_BLOCK_SIZE in
  hashes ++ zeros padding.

(** The [while] loop, [n] levels before the last push. *)
Fixpoint derive_levels (n : nat) (levels : list (list byte)) (level_above : list byte) : list (list byte) :=
  match n with
  | O => levels ++ [level_above]
  | S n => let level_below := hash_level level_above in derive_levels n (levels ++ [level_above]) level_below
  end.

(** The [for] loop over the headers, and the logical offset it ends with. *)
Fixpoint fill_headers (levels : list (list byte)) (offset : Z) : option (list IvfcLevelHeader * Z) :=
  match levels with
  | [] => Some ([], offset)
  | level :: levels =>
    let header := {| logical_offset := offset; hash_data_size := len level;
                     block_size := IVFC_BLOCK_SIZE_LOG2; lh_reserved := 0 |} in
    offset ← checked_add offset (len level);
    '(headers, end_) ← fill_headers levels offset;
    Some (header :: headers, end_)
  end.

Definition build (romfs : list byte) : option IvfcTree :=
  let levels := reverse (derive_levels (IVFC_MAX_LEVELS - 1) [] romfs) in
  level0 ← index levels 0;
  let master_hash := sha256 level0 in
  '(level_headers, logical_offset) ← fill_headers levels 0;
  _ ← with_capacity logical_offset;
  Some {| tree_data := concat levels; level_headers := level_headers; master_hash := master_hash |}.
End build.

(** ** Reading a level back through its header *)

Definition level (t : IvfcTree) (i : Z) : option (list byte) :=
  h ← index (level_headers t) i;
  get_range (tree_data t) (logical_offset h) (logical_offset h + hash_data_size h).

(** ** Lemmas *)

Section lemmas.
Context `{SH : Sha256}.

Definition levels_of (romfs : list byte) : list (list byte) :=
  let l4 := hash_level romfs in let l3 := hash_level l4 in let l2 := hash_level l3 in
  let l1 := hash_level l2 in let l0 := hash_level l1 in
  [l0; l1; l2; l3; l4; romfs].

Lemma derive_levels_of romfs : reverse (derive_levels (IVFC_MAX_LEVELS - 1) [] romfs) = levels_of romfs.
Proof. reflexivity. Qed.

Lemma chunks_count n l : 0 < n → len (chunks n l) * n ≤ len l + (n - 1).
Proof.
  intros Hn. induction l as [|l Hl IH] using (chunk_ind n Hn).
  { change (len (chunks n [])) with 0. pose proof (len_nonneg (@nil byte)). lia. }
  rewrite chunks_cons, len_cons by done. rewrite len_zdrop_max in IH by lia.
  assert (0 < len l) by (destruct l; [done|rewrite len_cons; pose proof (len_nonneg l); lia]).
  pose proof (len_nonneg (chunks n (zdrop n l))). set (c := len (chunks _ _)) in *.
  destruct (Z.eq_dec c 0) as [->|]; [lia|]. assert (n ≤ c * n) by nia. lia.
Qed.

(** A derived level is a whole number of blocks, at least one, and about a 512th of its input. *)
Lemma hash_level_size l :
  len (hash_level l) mod IVFC_BLOCK_SIZE = 0 ∧ IVFC_BLOCK_SIZE ≤ len (hash_level l) ∧
  len (hash_level l) ≤ len l / 512 + 2 * IVFC_BLOCK_SIZE.
Proof.
  pose proof (chunks_count IVFC_BLOCK_SIZE l eq_refl) as Hc. unfold hash_level.
  rewrite len_app, len_concat_sha. unfold IVFC_BLOCK_SIZE in *.
  set (c := len (chunks 16384 l)) in *. assert (0 ≤ c) by apply len_nonneg.
  rewrite len_zeros by div_lia. clearbody c. split_and!; div_lia.
Qed.

Lemma zsum_lens_nonneg (ls : list (list byte)) : 0 ≤ zsum (map len ls).
Proof. apply zsum_nonneg, Forall_map, Forall_true. intros. apply len_nonneg. Qed.

Lemma fill_headers_spec ls off :
  0 ≤ off → off + zsum (map len ls) ≤ USIZE_MAX →
  ∃ hs, fill_headers ls off = Some (hs, off + zsum (map len ls)) ∧ len hs = len ls ∧ Forall wf hs ∧
    ∀ pre l post, ls = pre ++ l :: post →
      index hs (len pre) = Some (Build_IvfcLevelHeader (off + zsum (map len pre)) (len l) 14 0).
Proof.
  revert off. induction ls as [|l ls IH]; intros off Hoff Hmax.
  { exists []. split; [by cbn; rewrite Z.add_0_r|]. do 2 (split; [done|]). by intros [|]. }
  cbn [map zsum foldr] in Hmax. fold (zsum (map len ls)) in Hmax.
  pose proof (len_nonneg l). pose proof (zsum_lens_nonneg ls). cbn [fill_headers].
  bind_step. destruct (IH (off + len l)) as (hs & -> & Hl & Hwf & Hidx); [lia|lia|]. bind_cbn.
  eexists. rewrite <-Z.add_assoc. split; [reflexivity|].
  split; [by rewrite !len_cons, Hl|].
  split; [constructor; [|done]; cbn; split_and!; try done; change (256 ^ 8) with (2 ^ 64); unfold_max; lia|]. intros [|l' pre] l0 post [= <- Heq].
  - cbn [map zsum foldr]. rewrite Z.add_0_r. subst. reflexivity.
  - rewrite len_cons. cbn [map zsum foldr]. fold (zsum (map len pre)).
    change (?x :: hs) with ([x] ++ hs). pose proof (len_nonneg pre).
    rewrite index_app_r by (unfold len; cbn; lia).
    replace (1 + len pre - len [_]) with (len pre) by (unfold len; cbn; lia).
    rewrite (Hidx pre l0 post Heq). do 2 f_equal. lia.
Qed.

Lemma len_concat_sum (ls : list (list byte)) : len (concat ls) = zsum (map len ls).
Proof. induction ls as [|l ls IH]; [done|]. cbn [concat map zsum foldr]. by rewrite len_app, IH. Qed.

(** The levels above the image cost at most 1/256 of it, and a few blocks. *)
Lemma levels_growth romfs : 256 * zsum (map len (levels_of romfs)) ≤ 257 * len romfs + 256 * 0x3FE00.
Proof.
  unfold levels_of. pose proof (len_nonneg romfs).
  pose proof (hash_level_size romfs) as (_ & _ & H4). set (l4 := hash_level romfs) in *.
  pose proof (hash_level_size l4) as (_ & _ & H3). set (l3 := hash_level l4) in *.
  pose proof (hash_level_size l3) as (_ & _ & H2). set (l2 := hash_level l3) in *.
  pose proof (hash_level_size l2) as (_ & _ & H1). set (l1 := hash_level l2) in *.
  pose proof (hash_level_size l1) as (_ & _ & H0). set (l0 := hash_level l1) in *.
  cbn [map zsum foldr]. unfold IVFC_BLOCK_SIZE in *.
  assert (∀ a b, b ≤ a / 512 + 32768 → 512 * b ≤ a + 16777216) as Hb.
  { intros a b Hab. pose proof (Z.div_mod a 512). pose proof (Z.mod_pos_bound a 512). lia. }
  apply Hb in H0, H1, H2, H3, H4. lia.
Qed.

Lemma levels_total romfs :
  len romfs ≤ 2 ^ 62 → zsum (map len (levels_of romfs)) ≤ len romfs + 2 ^ 57.
Proof. pose proof (levels_growth romfs). lia. Qed.

Lemma ivfc_build_spec romfs :
  len romfs ≤ 2 ^ 62 →
  ∃ t, build romfs = Some t ∧ (len (level_headers t) = 6 ∧ Forall wf (level_headers t)) ∧
    tree_data t = concat (levels_of romfs) ∧
    master_hash t = sha256 (hash_level (hash_level (hash_level (hash_level (hash_level romfs))))) ∧
    ∀ pre l post, levels_of romfs = pre ++ l :: post →
      index (level_headers t) (len pre) = Some (Build_IvfcLevelHeader (zsum (map len pre)) (len l) 14 0) ∧
      level t (len pre) = Some l.
Proof.
  intros Hr. destruct (fill_headers_spec (levels_of romfs) 0) as (hs & Hhs & Hl & Hwf & Hidx);
    [done|pose proof (levels_total romfs Hr); mlia|].
  eexists. unfold build. rewrite derive_levels_of. change (index (levels_of romfs) 0)
    with (Some (hash_level (hash_level (hash_level (hash_level (hash_level romfs)))))). bind_cbn.
  rewrite Hhs. bind_cbn. rewrite with_capacity_ok by (pose proof (levels_total romfs Hr); mlia). bind_cbn.
  split; [done|]. cbn [level_headers tree_data master_hash].
  split; [split; [exact Hl|done]|]. split; [done|]. split; [done|]. intros pre l post Hsplit.
  specialize (Hidx pre l post Hsplit). rewrite Z.add_0_l in Hidx. split; [done|].
  unfold level. cbn [level_headers tree_data]. rewrite Hidx. bind_cbn. cbn [logical_offset hash_data_size].
  rewrite Hsplit, concat_app. cbn [concat]. apply get_range_mid; by rewrite len_concat_sum.
Qed.

(** A list of six, from its elements. *)
Lemma six_headers {A} (l : list A) a b c d e f n0 n1 n2 n3 n4 n5 :
  len l = 6 → index l n0 = Some a → index l n1 = Some b → index l n2 = Some c → index l n3 = Some d →
  index l n4 = Some e → index l n5 = Some f → (n0, n1, n2, n3, n4, n5) = (0, 1, 2, 3, 4, 5) →
  l = [a; b; c; d; e; f].
Proof.
  intros Hl H0 H1 H2 H3 H4 H5 [= -> -> -> -> -> ->].
  destruct l as [|x0 [|x1 [|x2 [|x3 [|x4 [|x5 [|]]]]]]]; try (unfold len in Hl; cbn in Hl; lia).
  vm_compute in H0, H1, H2, H3, H4, H5. by simplify_eq.
Qed.

(** The level a digest covers, and the digest's place in the level below it. *)
Lemma hash_level_digest l k :
  0 ≤ k → k * IVFC_BLOCK_SIZE < len l →
  get_range (hash_level l) (HASH_SIZE * k) (HASH_SIZE * k + HASH_SIZE)
    = Some (sha256 (ztake IVFC_BLOCK_SIZE (zdrop (k * IVFC_BLOCK_SIZE) l))).
Proof. intros. unfold hash_level. by apply (block_hash_at IVFC_BLOCK_SIZE). Qed.

Lemma hash_level_inj l m : len l = len m → hash_level l = hash_level m → l = m ∨ block_collision IVFC_BLOCK_SIZE l m.
Proof.
  intros Hlen He. apply (block_hashes_inj IVFC_BLOCK_SIZE); [done|done|].
  unfold hash_level in He. apply app_inj_1 in He as [He _]; [done|].
  pose proof (len_block_hashes IVFC_BLOCK_SIZE l m eq_refl Hlen) as Hl. unfold block_hashes, len in Hl. lia.
Qed.

Lemma len_hash_level l m : len l = len m → len (hash_level l) = len (hash_level m).
Proof.
  intros Hlen. unfold hash_level.
  pose proof (len_block_hashes IVFC_BLOCK_SIZE l m eq_refl Hlen) as Hl. unfold block_hashes in Hl.
  rewrite !len_app, Hl. done.
Qed.
End lemmas.

(** ** Properties *)

Section properties.
Context `{SH : Sha256}.

(** The tree has the documented shape: six levels back to back, each starting where the one
    before ended, at the offsets and sizes of the headers; the last is the image unchanged, every
    other is a whole, non-zero number of blocks; and the master hash is the digest of level 0. *)
Theorem ivfc_levels romfs :
  len romfs ≤ 2 ^ 62 →
  ∃ t l0 l1 l2 l3 l4, build romfs = Some t ∧ len (level_headers t) = 6 ∧
    tree_data t = l0 ++ l1 ++ l2 ++ l3 ++ l4 ++ romfs ∧ master_hash t = sha256 l0 ∧
    level t 0 = Some l0 ∧ level t 1 = Some l1 ∧ level t 2 = Some l2 ∧ level t 3 = Some l3 ∧
    level t 4 = Some l4 ∧ level t 5 = Some romfs ∧
    Forall (λ l, len l mod IVFC_BLOCK_SIZE = 0 ∧ IVFC_BLOCK_SIZE ≤ len l) [l0; l1; l2; l3; l4] ∧
    map logical_offset (level_headers t)
      = [0; len l0; len l0 + len l1; len l0 + len l1 + len l2; len l0 + len l1 + len l2 + len l3;
         len l0 + len l1 + len l2 + len l3 + len l4] ∧
    map hash_data_size (level_headers t) = map len [l0; l1; l2; l3; l4; romfs].
Proof.
  intros Hr. destruct (ivfc_build_spec romfs Hr) as (t & Hb & [Hl _] & Hd & Hm & Hlev).
  unfold levels_of in *. set (l4 := hash_level romfs) in *. set (l3 := hash_level l4) in *.
  set (l2 := hash_level l3) in *. set (l1 := hash_level l2) in *. set (l0 := hash_level l1) in *.
  destruct (Hlev [] l0 _ eq_refl) as [I0 L0]. destruct (Hlev [l0] l1 _ eq_refl) as [I1 L1].
  destruct (Hlev [l0; l1] l2 _ eq_refl) as [I2 L2]. destruct (Hlev [l0; l1; l2] l3 _ eq_refl) as [I3 L3].
  destruct (Hlev [l0; l1; l2; l3] l4 _ eq_refl) as [I4 L4].
  destruct (Hlev [l0; l1; l2; l3; l4] romfs _ eq_refl) as [I5 L5].
  exists t, l0, l1, l2, l3, l4. split_and!; try done.
  - rewrite Hd. cbn [concat]. by rewrite app_nil_r.
  - repeat (apply Forall_cons; split; [split; apply hash_level_size|]). done.
  - rewrite (six_headers _ _ _ _ _ _ _ _ _ _ _ _ _ Hl I0 I1 I2 I3 I4 I5 eq_refl).
    cbn [map zsum foldr logical_offset]. by rewrite !Z.add_0_r, ?Z.add_assoc.
  - by rewrite (six_headers _ _ _ _ _ _ _ _ _ _ _ _ _ Hl I0 I1 I2 I3 I4 I5 eq_refl).
Qed.

(** C31. Verification works at every level: the [k]-th digest of a level is the SHA-256 of the
    [k]-th block of the level after it, as the headers locate both, for every block there is. *)
Theorem ivfc_verifies romfs :
  len romfs ≤ 2 ^ 62 →
  ∃ t, build romfs = Some t ∧
    ∀ i k, 0 ≤ i < 5 →
      ∃ below above, level t i = Some below ∧ level t (i + 1) = Some above ∧
        (0 ≤ k → k * IVFC_BLOCK_SIZE < len above →
         get_range below (HASH_SIZE * k) (HASH_SIZE * k + HASH_SIZE)
           = Some (sha256 (ztake IVFC_BLOCK_SIZE (zdrop (k * IVFC_BLOCK_SIZE) above)))).
Proof.
  intros Hr. destruct (ivfc_build_spec romfs Hr) as (t & Hb & _ & _ & _ & Hlev). exists t. split; [done|].
  unfold levels_of in Hlev. set (l4 := hash_level romfs) in *. set (l3 := hash_level l4) in *.
  set (l2 := hash_level l3) in *. set (l1 := hash_level l2) in *. set (l0 := hash_level l1) in *.
  destruct (Hlev [] l0 _ eq_refl) as [_ L0]. destruct (Hlev [l0] l1 _ eq_refl) as [_ L1].
  destruct (Hlev [l0; l1] l2 _ eq_refl) as [_ L2]. destruct (Hlev [l0; l1; l2] l3 _ eq_refl) as [_ L3].
  destruct (Hlev [l0; l1; l2; l3] l4 _ eq_refl) as [_ L4].
  destruct (Hlev [l0; l1; l2; l3; l4] romfs _ eq_refl) as [_ L5].
  intros i k Hi. assert (i = 0 ∨ i = 1 ∨ i = 2 ∨ i = 3 ∨ i = 4) as Hc by lia.
  destruct Hc as [-> | [-> | [-> | [-> | ->]]]]; do 2 eexists; (split; [eassumption|]);
    (split; [eassumption|]); apply hash_level_digest.
Qed.

(** C38. The master hash binds the image: when two images of one length have trees with one master
    hash, either the images are the same, or the trees exhibit a collision of SHA-256: their levels 0
    differ and have one digest, or two blocks at one place of one level do. *)
Theorem ivfc_binding r1 r2 t1 t2 :
  len r1 ≤ 2 ^ 62 → len r1 = len r2 → build r1 = Some t1 → build r2 = Some t2 →
  master_hash t1 = master_hash t2 →
  r1 = r2 ∨
  ∃ i l m, 0 ≤ i < 6 ∧ level t1 i = Some l ∧ level t2 i = Some m ∧ l ≠ m ∧
    (i = 0 ∧ sha256 l = sha256 m ∨ 0 < i ∧ block_collision IVFC_BLOCK_SIZE l m).
Proof.
  intros Hr Hlen H1 H2 Hm. destruct (decide (r1 = r2)) as [|Hne]; [by left|right].
  destruct (ivfc_build_spec r1 Hr) as (t1' & E1 & _ & _ & M1 & L1).
  destruct (ivfc_build_spec r2) as (t2' & E2 & _ & _ & M2 & L2); [lia|].
  assert (t1' = t1) as -> by congruence. assert (t2' = t2) as -> by congruence. rewrite M1, M2 in Hm.
  pose proof (len_hash_level _ _ Hlen) as N4. pose proof (len_hash_level _ _ N4) as N3.
  pose proof (len_hash_level _ _ N3) as N2. pose proof (len_hash_level _ _ N2) as N1.
  assert (∀ i pre1 post1 pre2 post2 l m, len l = len m →
    levels_of r1 = pre1 ++ l :: post1 → levels_of r2 = pre2 ++ m :: post2 → len pre1 = i → len pre2 = i →
    0 < i < 6 → l ≠ m → hash_level l ≠ hash_level m ∨ ∃ i l m, 0 ≤ i < 6 ∧ level t1 i = Some l ∧
      level t2 i = Some m ∧ l ≠ m ∧ (i = 0 ∧ sha256 l = sha256 m ∨ 0 < i ∧ block_collision IVFC_BLOCK_SIZE l m))
    as Hstep.
  { intros i p1 q1 p2 q2 l m Hlm S1 S2 <- I2 Hi Hlm'.
    destruct (decide (hash_level l = hash_level m)) as [E|]; [right|by left].
    destruct (L1 _ _ _ S1) as [_ V1]. destruct (L2 _ _ _ S2) as [_ V2]. rewrite I2 in V2.
    apply hash_level_inj in E as [|]; [done| |done]. exists (len p1), l, m. split_and!; try done; try lia. right. split; [lia|done]. }
  unfold levels_of in *.
  destruct (Hstep 5 [_; _; _; _; _] [] [_; _; _; _; _] [] _ _ Hlen eq_refl eq_refl eq_refl eq_refl ltac:(lia) Hne) as [D4|]; [|done].
  destruct (Hstep 4 [_; _; _; _] [_] [_; _; _; _] [_] _ _ N4 eq_refl eq_refl eq_refl eq_refl ltac:(lia) D4) as [D3|]; [|done].
  destruct (Hstep 3 [_; _; _] [_; _] [_; _; _] [_; _] _ _ N3 eq_refl eq_refl eq_refl eq_refl ltac:(lia) D3) as [D2|]; [|done].
  destruct (Hstep 2 [_; _] [_; _; _] [_; _] [_; _; _] _ _ N2 eq_refl eq_refl eq_refl eq_refl ltac:(lia) D2) as [D1|]; [|done].
  destruct (Hstep 1 [_] [_; _; _; _] [_] [_; _; _; _] _ _ N1 eq_refl eq_refl eq_refl eq_refl ltac:(lia) D1) as [D0|]; [|done].
  destruct (L1 [] _ _ eq_refl) as [_ V1]. destruct (L2 [] _ _ eq_refl) as [_ V2].
  exists 0. do 2 eexists. split_and!; try done. by left.
Qed.
End properties.

(** ** Witnesses *)

Definition sample : list byte := [x52; x4f; x4d].

Lemma ivfc_levels_witness : len sample ≤ 2 ^ 62 ∧ ∃ t l0, @build sha256_reference sample = Some t ∧
  level t 0 = Some l0 ∧ level t 5 = Some sample ∧ master_hash t = @sha256 sha256_reference l0.
Proof.
  split; [done|].
  destruct (@ivfc_levels sha256_reference sample ltac:(done))
    as (t & l0 & l1 & l2 & l3 & l4 & Hb & _ & _ & Hm & L0 & _ & _ & _ & _ & L5 & _).
  exists t, l0. repeat (split; [assumption|]). assumption.
Defined.

Lemma ivfc_verifies_witness : len sample ≤ 2 ^ 62 ∧ ∃ t below, @build sha256_reference sample = Some t ∧
  level t 4 = Some below ∧ get_range below 0 0x20 = Some (@sha256 sha256_reference sample).
Proof.
  split; [done|]. destruct (@ivfc_verifies sha256_reference sample ltac:(done)) as (t & Hb & H).
  destruct (H 4 0 ltac:(lia)) as (below & above & H4 & H5 & Hk).
  destruct (@ivfc_build_spec sha256_reference sample ltac:(done)) as (t' & Hb' & _ & _ & _ & Hlev).
  rewrite Hb in Hb'. injection Hb' as <-. destruct (Hlev [_; _; _; _; _] sample [] eq_refl) as [_ H5'].
  change (len [_; _; _; _; _]) with (4 + 1) in H5'. rewrite H5 in H5'. injection H5' as ->.
  exists t, below. split; [assumption|]. split; [assumption|]. apply Hk; done.
Defined.

(** With a digest that only looks at 32 bytes, two images do collide. *)
Lemma ivfc_binding_witness :
  let r1 := zeros 0x20 ++ [x01] in let r2 := zeros 0x20 ++ [x02] in
  ∃ t1 t2, @build sha256_reference r1 = Some t1 ∧ @build sha256_reference r2 = Some t2 ∧
    master_hash t1 = master_hash t2 ∧
    ∃ i l m, 0 ≤ i < 6 ∧ level t1 i = Some l ∧ level t2 i = Some m ∧ l ≠ m ∧
    (i = 0 ∧ @sha256 sha256_reference l = @sha256 sha256_reference m ∨
     0 < i ∧ @block_collision sha256_reference IVFC_BLOCK_SIZE l m).
Proof.
  intros r1 r2.
  assert (@hash_level sha256_reference r1 = @hash_level sha256_reference r2) as He.
  { unfold hash_level. assert (concat (map (@sha256 sha256_reference) (chunks IVFC_BLOCK_SIZE r1))
      = concat (map (@sha256 sha256_reference) (chunks IVFC_BLOCK_SIZE r2))) as -> by (vm_compute; reflexivity).
    reflexivity. }
  destruct (@ivfc_build_spec sha256_reference r1 ltac:(done)) as (t1 & H1 & _ & _ & M1 & _).
  destruct (@ivfc_build_spec sha256_reference r2 ltac:(done)) as (t2 & H2 & _ & _ & M2 & _).
  assert (master_hash t1 = master_hash t2) as Hm by (rewrite M1, M2, He; reflexivity).
  exists t1, t2. split; [assumption|]. split; [assumption|]. split; [assumption|].
  destruct (@ivfc_binding sha256_reference r1 r2 t1 t2 ltac:(done) eq_refl H1 H2 Hm) as [E|C]; [|assumption].
  exfalso. revert E. unfold r1, r2. intros [= ]%app_inv_head.
Defined.
