(* ===== verification/Partition.v ===== *)
(** * The hash table of a PFS0 section: [write/nca/partition.rs]

    The SHA-256 of each block of an archive, padded to a media unit, ahead of the archive, with the
    superblock of [raw/nca.rs] that describes both. [None] of an [option] is a panic. *)

From S2P Require Import Prelude Bytes Layout Crates.
#[local] Open Scope Z_scope.

(** ** Definitions *)

Definition MEDIA_UNIT_SIZE : Z := 0x200.
Definition HASH_SIZE : Z := 0x20.

Record Pfs0Superblock := {
  ps_master_hash : list byte;
  ps_block_size : Z;
  layer_count : Z;
  hash_table_offset : Z;
  hash_table_size : Z;
  pfs0_offset : Z;
  pfs0_size : Z;
  ps_reserved : list byte;
}.
#[export] Instance Pfs0Superblock_layout : Layout Pfs0Superblock.
Proof.
  refine (L_struct (byte_array 0x20 ⊗ u32 ⊗ u32 ⊗ u64 ⊗ u64 ⊗ u64 ⊗ u64 ⊗ byte_array 0xF0)%layout
    (λ '(a, b, c, d, e, f, g, h), Build_Pfs0Superblock a b c d e f g h)
    (λ x, (ps_master_hash x, ps_block_size x, layer_count x, hash_table_offset x, hash_table_size x,
           pfs0_offset x, pfs0_size x, ps_reserved x)) _ _); solve_struct.
Defined.

Record PartitionSection := {
  ps_data : list byte;
  superblock : Pfs0Superblock;
}.

Section build.
Context `{SH : Sha256}.

Definition build (archive : list byte) (block_size : Z) : option PartitionSection :=
  (* a division by zero panics *)
  if block_size =? 0 then None else
  blocks ← checked_add (len archive / block_size) 1;
  capacity ← checked_mul blocks HASH_SIZE;
  _ ← with_capacity capacity;
  let hash_table := concat (map sha256 (chunks block_size archive)) in
  let hash_table_size := len hash_table in
  let master_hash := sha256 hash_table in
  let media_unit := MEDIA_UNIT_SIZE in
  padding ← checked_sub media_unit (len hash_table mod media_unit);
  let hash_table := hash_table ++ zeros padding in
  let archive_offset := len hash_table in
  let superblock := {|
    ps_master_hash := master_hash; ps_block_size := block_size; layer_count := 2;
    hash_table_offset := 0; hash_table_size := hash_table_size; pfs0_offset := archive_offset;
    pfs0_size := len archive; ps_reserved := zeros 0xF0 |} in
  Some {| ps_data := hash_table ++ archive; superblock := superblock |}.
End build.

(** ** Reading the two regions through the superblock *)

Definition hash_table_of (s : PartitionSection) : option (list byte) :=
  get_range (ps_data s) (hash_table_offset (superblock s))
    (hash_table_offset (superblock s) + hash_table_size (superblock s)).
Definition archive_of (s : PartitionSection) : option (list byte) :=
  get_range (ps_data s) (pfs0_offset (superblock s)) (pfs0_offset (superblock s) + pfs0_size (superblock s)).

(** ** Lemmas *)

Section lemmas.
Context `{SH : Sha256}.

Definition table_padding (l : list byte) : Z := MEDIA_UNIT_SIZE - len l mod MEDIA_UNIT_SIZE.

Definition section_of (archive : list byte) (bs : Z) : PartitionSection :=
  let table := block_hashes bs archive in
  {| ps_data := (table ++ zeros (table_padding table)) ++ archive;
     superblock := {|
       ps_master_hash := sha256 table; ps_block_size := bs; layer_count := 2; hash_table_offset := 0;
       hash_table_size := len table; pfs0_offset := len table + table_padding table;
       pfs0_size := len archive; ps_reserved := zeros 0xF0 |} |}.

Lemma table_padding_bounds l : 0 < table_padding l ≤ MEDIA_UNIT_SIZE.
Proof. unfold table_padding, MEDIA_UNIT_SIZE. div_lia. Qed.

(** What fits: an archive whose table the code can size. *)
Definition buildable (archive : list byte) (bs : Z) : Prop :=
  1 ≤ bs ∧ (len archive / bs + 1) * HASH_SIZE ≤ ISIZE_MAX.

Lemma partition_build_spec archive bs :
  buildable archive bs → build archive bs = Some (section_of archive bs).
Proof.
  intros [Hbs Hcap]. unfold build. rewrite (proj2 (Z.eqb_neq _ _)) by lia.
  assert (0 ≤ len archive / bs) by (apply Z.div_pos; [apply len_nonneg|lia]). unfold HASH_SIZE in *.
  bind_step. bind_step. rewrite with_capacity_ok by done. bind_cbn.
  fold (block_hashes bs archive). pose proof (table_padding_bounds (block_hashes bs archive)) as Hp.
  unfold table_padding in Hp. unfold MEDIA_UNIT_SIZE in *.
  bind_step. unfold section_of, table_padding. rewrite len_app, len_zeros by (unfold MEDIA_UNIT_SIZE; lia).
  done.
Qed.

Lemma section_hash_table archive bs :
  hash_table_of (section_of archive bs) = Some (block_hashes bs archive).
Proof.
  unfold hash_table_of, section_of. cbn [superblock ps_data hash_table_offset hash_table_size].
  rewrite <-app_assoc. by apply (get_range_mid []).
Qed.

Lemma section_archive archive bs : archive_of (section_of archive bs) = Some archive.
Proof.
  unfold archive_of, section_of. cbn [superblock ps_data pfs0_offset pfs0_size].
  pose proof (table_padding_bounds (block_hashes bs archive)).
  rewrite <-(app_nil_r archive) at 3. apply get_range_mid; rewrite len_app, len_zeros by lia; done.
Qed.

Lemma len_section_data archive bs :
  len (ps_data (section_of archive bs)) = pfs0_offset (superblock (section_of archive bs)) + len archive.
Proof.
  cbn. pose proof (table_padding_bounds (block_hashes bs archive)).
  rewrite !len_app, len_zeros by lia. lia.
Qed.

Lemma pfs0_offset_unit archive bs :
  pfs0_offset (superblock (section_of archive bs)) mod MEDIA_UNIT_SIZE = 0.
Proof. cbn. unfold table_padding, MEDIA_UNIT_SIZE. div_lia. Qed.
End lemmas.

(** ** Properties *)

Section properties.
Context `{SH : Sha256}.

(** The section has the documented shape: the superblock locates the table at its front and the
    archive, unchanged, after it, on a media unit and at the very end; the table holds, for every
    block of the archive, the SHA-256 of that block; and the master hash is that of the table
    without its padding. A block size of zero panics. *)
Theorem partition_verifies archive bs :
  buildable archive bs →
  build archive 0 = None ∧
  ∃ s table, build archive bs = Some s ∧ hash_table_of s = Some table ∧ archive_of s = Some archive ∧
    ps_master_hash (superblock s) = sha256 table ∧ ps_block_size (superblock s) = bs ∧
    pfs0_offset (superblock s) mod MEDIA_UNIT_SIZE = 0 ∧ len table < pfs0_offset (superblock s) ∧
    len (ps_data s) = pfs0_offset (superblock s) + len archive ∧
    ∀ k, 0 ≤ k → k * bs < len archive →
      get_range table (HASH_SIZE * k) (HASH_SIZE * k + HASH_SIZE)
        = Some (sha256 (ztake bs (zdrop (k * bs) archive))).
Proof.
  intros Hb. split; [done|]. exists (section_of archive bs), (block_hashes bs archive).
  split; [by apply partition_build_spec|]. split; [apply section_hash_table|]. split; [apply section_archive|].
  pose proof (table_padding_bounds (block_hashes bs archive)) as Hp.
  split; [done|]. split; [done|]. split; [apply pfs0_offset_unit|]. split; [cbn; lia|].
  split; [apply len_section_data|]. intros k Hk Hlt. rewrite <-(app_nil_r (block_hashes bs archive)).
  destruct Hb. apply block_hash_at; lia.
Qed.

(** The master hash binds the archive: two archives of one length with one master hash at one
    block size are the same, or exhibit a collision of SHA-256, of the tables or of two blocks at
    one place. *)
Theorem partition_binding a1 a2 bs s1 s2 :
  build a1 bs = Some s1 → build a2 bs = Some s2 → buildable a1 bs → len a1 = len a2 →
  ps_master_hash (superblock s1) = ps_master_hash (superblock s2) →
  a1 = a2 ∨ block_collision bs a1 a2 ∨
  ∃ t1 t2, hash_table_of s1 = Some t1 ∧ hash_table_of s2 = Some t2 ∧ t1 ≠ t2 ∧ sha256 t1 = sha256 t2.
Proof.
  intros H1 H2 Hb Hlen Hm. pose proof Hb as [Hbs Hcap].
  assert (buildable a2 bs) as Hb2 by (split; [done|by rewrite <-Hlen]).
  rewrite partition_build_spec in H1, H2 by done. injection H1 as <-. injection H2 as <-. cbn in Hm.
  destruct (decide (block_hashes bs a1 = block_hashes bs a2)) as [E|Hne].
  - apply block_hashes_inj in E as [|]; [by left|by right; left|lia|done].
  - right. right. exists (block_hashes bs a1), (block_hashes bs a2).
    split; [apply section_hash_table|]. split; [apply section_hash_table|]. done.
Qed.
End properties.

(** ** Witnesses *)

Definition sample_archive : list byte := [x50; x46; x53; x30; x01].

Lemma partition_verifies_witness :
  buildable sample_archive 4 ∧ ∃ s, @build sha256_reference sample_archive 4 = Some s ∧
    pfs0_offset (superblock s) = 0x200 ∧ archive_of s = Some sample_archive.
Proof.
  assert (buildable sample_archive 4) as Hb by done. split; [done|].
  destruct (@partition_verifies sha256_reference sample_archive 4 Hb) as (_ & s & table & Hs & _ & Ha & _).
  exists s. split; [done|]. split; [|done]. vm_compute in Hs. by injection Hs as <-.
Defined.

(** With a digest that only looks at 32 bytes, two archives do collide. *)
Lemma partition_binding_witness :
  let a1 := zeros 0x20 ++ [x01] in let a2 := zeros 0x20 ++ [x02] in
  buildable a1 0x40 ∧ a1 ≠ a2 ∧ @block_collision sha256_reference 0x40 a1 a2.
Proof.
  intros a1 a2. assert (buildable a1 0x40) as Hb by done. split; [done|]. split; [done|].
  destruct (@build sha256_reference a1 0x40) as [s1|] eqn:H1; [|done].
  destruct (@build sha256_reference a2 0x40) as [s2|] eqn:H2; [|done].
  assert (ps_master_hash (superblock s1) = ps_master_hash (superblock s2)) as Hm.
  { vm_compute in H1, H2. injection H1 as <-. injection H2 as <-. reflexivity. }
  assert (hash_table_of s1 = hash_table_of s2) as Ht.
  { vm_compute in H1, H2. injection H1 as <-. injection H2 as <-. reflexivity. }
  destruct (@partition_binding sha256_reference a1 a2 0x40 s1 s2 H1 H2 Hb eq_refl Hm)
    as [E|[C|(t1 & t2 & T1 & T2 & Hne & _)]]; [done|done|].
  rewrite Ht, T2 in T1. by injection T1 as <-.
Defined.
