(* ===== verification/NcaRaw.v ===== *)
(** * NCA structures: [raw/nca.rs]

    The header, its section entries, the per-section FS headers and the two superblocks; the level
    headers are those of [Ivfc] and the PFS0 superblock that of [Partition], which fill them in. *)

From S2P Require Import Prelude Bytes Layout Crates.
From S2P Require Import Ivfc Partition.
#[local] Open Scope Z_scope.

Definition NCA3_MAGIC : Z := 0x3341434E.
Definition IVFC_MAGIC : Z := 0x43465649.
Definition NCA_HEADER_SIZE : Z := 0xC00.
Definition NCA_SECTION_COUNT : nat := 4.

Record NcaSectionEntry := {
  media_start_offset : Z;
  media_end_offset : Z;
  se_reserved : list byte;
}.
#[export] Instance NcaSectionEntry_layout : Layout NcaSectionEntry.
Proof.
  refine (L_struct (u32 ⊗ u32 ⊗ byte_array 0x8)%layout (λ '(a, b, c), Build_NcaSectionEntry a b c)
    (λ x, (media_start_offset x, media_end_offset x, se_reserved x)) _ _); solve_struct.
Defined.

Record IvfcHeader := {
  ih_magic : Z;
  ih_version : Z;
  master_hash_size : Z;
  level_count : Z;
  ih_level_headers : list IvfcLevelHeader;
  signature_salt : list byte;
  ih_master_hash : list byte;
}.
#[export] Instance IvfcHeader_layout : Layout IvfcHeader.
Proof.
  refine (L_struct (u32 ⊗ u32 ⊗ u32 ⊗ u32 ⊗ (IvfcLevelHeader_layout × 6) ⊗ byte_array 0x20
      ⊗ byte_array 0x20)%layout
    (λ '(a, b, c, d, e, f, g), Build_IvfcHeader a b c d e f g)
    (λ x, (ih_magic x, ih_version x, master_hash_size x, level_count x, ih_level_headers x,
           signature_salt x, ih_master_hash x)) _ _); solve_struct.
Defined.

Record RomFsSuperblock := {
  ivfc_header : IvfcHeader;
  rs_reserved : list byte;
}.
#[export] Instance RomFsSuperblock_layout : Layout RomFsSuperblock.
Proof.
  refine (L_struct (IvfcHeader_layout ⊗ byte_array 0x58)%layout (λ '(a, b), Build_RomFsSuperblock a b)
    (λ x, (ivfc_header x, rs_reserved x)) _ _); solve_struct.
Defined.

(** The enumerations of header bytes; [.._code] is the [as u8] cast of a variant. *)
Inductive NcaFsType := FsRomFs | FsPfs0.
#[export] Instance NcaFsType_eq_dec : EqDecision NcaFsType.
Proof. solve_decision. Defined.
Definition fs_type_code (t : NcaFsType) : Z := match t with FsRomFs => 0 | FsPfs0 => 1 end.

Inductive NcaHashType := HashPfs0 | HashRomFs.
#[export] Instance NcaHashType_eq_dec : EqDecision NcaHashType.
Proof. solve_decision. Defined.
Definition hash_type_code (t : NcaHashType) : Z := match t with HashPfs0 => 2 | HashRomFs => 3 end.

Inductive NcaCryptType := CryptNone | Xts | Ctr | Bktr.
#[export] Instance NcaCryptType_eq_dec : EqDecision NcaCryptType.
Proof. solve_decision. Defined.
Definition crypt_type_code (t : NcaCryptType) : Z :=
  match t with CryptNone => 1 | Xts => 2 | Ctr => 3 | Bktr => 4 end.

Inductive NcaContentType := Program | Meta | Control | Manual | Data | PublicData.
#[export] Instance NcaContentType_eq_dec : EqDecision NcaContentType.
Proof. solve_decision. Defined.
Definition content_type_code (t : NcaContentType) : Z :=
  match t with Program => 0 | Meta => 1 | Control => 2 | Manual => 3 | Data => 4 | PublicData => 5 end.

Record NcaFsHeader := {
  fh_version : Z;
  fh_fs_type : Z;
  fh_hash_type : Z;
  fh_crypt_type : Z;
  fh_reserved_0x5 : list byte;
  fh_superblock : list byte;
  section_ctr : list byte;
  fh_reserved_0x148 : list byte;
}.
#[export] Instance NcaFsHeader_layout : Layout NcaFsHeader.
Proof.
  refine (L_struct (u16 ⊗ u8 ⊗ u8 ⊗ u8 ⊗ byte_array 0x3 ⊗ byte_array 0x138 ⊗ byte_array 0x8
      ⊗ byte_array 0xB8)%layout
    (λ '(a, b, c, d, e, f, g, h), Build_NcaFsHeader a b c d e f g h)
    (λ x, (fh_version x, fh_fs_type x, fh_hash_type x, fh_crypt_type x, fh_reserved_0x5 x,
           fh_superblock x, section_ctr x, fh_reserved_0x148 x)) _ _); solve_struct.
Defined.
#[export] Instance eta_NcaFsHeader : Eta NcaFsHeader := λ x,
  Build_NcaFsHeader (fh_version x) (fh_fs_type x) (fh_hash_type x) (fh_crypt_type x)
    (fh_reserved_0x5 x) (fh_superblock x) (section_ctr x) (fh_reserved_0x148 x).

Record NcaHeader := {
  fixed_key_sig : list byte;
  npdm_key_sig : list byte;
  nca_magic : Z;
  distribution : Z;
  nca_content_type : Z;
  crypto_type : Z;
  kaek_index : Z;
  nca_size : Z;
  nca_title_id : Z;
  nca_reserved_0x218 : list byte;
  nca_sdk_version : Z;
  crypto_type2 : Z;
  nca_reserved_0x221 : list byte;
  rights_id : list byte;
  section_entries : list NcaSectionEntry;
  section_hashes : list (list byte);
  encrypted_keys : list (list byte);
  nca_reserved_0x340 : list byte;
  fs_headers : list NcaFsHeader;
}.
#[export] Instance NcaHeader_layout : Layout NcaHeader.
Proof.
  refine (L_struct (byte_array 0x100 ⊗ byte_array 0x100 ⊗ u32 ⊗ u8 ⊗ u8 ⊗ u8 ⊗ u8 ⊗ u64 ⊗ u64
      ⊗ byte_array 0x4 ⊗ u32 ⊗ u8 ⊗ byte_array 0xF ⊗ byte_array 0x10 ⊗ (NcaSectionEntry_layout × 4)
      ⊗ (byte_array 0x20 × 4) ⊗ (byte_array 0x10 × 4) ⊗ byte_array 0xC0 ⊗ (NcaFsHeader_layout × 4))%layout
    (λ '(a, b, c, d, e, f, g, h, i, j, k, l, m, n, o, p, q, r, s),
       Build_NcaHeader a b c d e f g h i j k l m n o p q r s)
    (λ x, (fixed_key_sig x, npdm_key_sig x, nca_magic x, distribution x, nca_content_type x,
           crypto_type x, kaek_index x, nca_size x, nca_title_id x, nca_reserved_0x218 x,
           nca_sdk_version x, crypto_type2 x, nca_reserved_0x221 x, rights_id x, section_entries x,
           section_hashes x, encrypted_keys x, nca_reserved_0x340 x, fs_headers x)) _ _); solve_struct.
Defined.
#[export] Instance eta_NcaHeader : Eta NcaHeader := λ x,
  Build_NcaHeader (fixed_key_sig x) (npdm_key_sig x) (nca_magic x) (distribution x)
    (nca_content_type x) (crypto_type x) (kaek_index x) (nca_size x) (nca_title_id x)
    (nca_reserved_0x218 x) (nca_sdk_version x) (crypto_type2 x) (nca_reserved_0x221 x) (rights_id x)
    (section_entries x) (section_hashes x) (encrypted_keys x) (nca_reserved_0x340 x) (fs_headers x).

(** The sizes the source asserts. *)
Lemma nca_sizes :
  size_of NcaSectionEntry = 0x10 ∧ size_of IvfcLevelHeader = 0x18 ∧ size_of IvfcHeader = 0xE0 ∧
  size_of RomFsSuperblock = 0x138 ∧ size_of Pfs0Superblock = 0x138 ∧ size_of NcaFsHeader = 0x200 ∧
  size_of NcaHeader = NCA_HEADER_SIZE.
Proof. done. Qed.

(** A level header and a superblock read back from the bytes a section header carries. *)
Section superblocks.
Context `{ZC : Zerocopy}.

Lemma ref_from_bytes_as_bytes {T} `{Layout T} (x : T) : wf x → ref_from_bytes T (as_bytes x) = Some x.
Proof.
  intros Hx. rewrite ref_from_bytes_spec, len_as_bytes by done. rewrite Z.eqb_refl.
  by rewrite as_bytes_spec, of_to_bytes.
Qed.
End superblocks.
