(* ===== verification/NcaWrite.v ===== *)
(** * The NCA builder: [write/nca.rs]

    Up to four sections, each laid out with the hash structure that verifies it, behind a header that
    locates and describes them. [None] of an [option] is a panic. *)

From S2P Require Import Prelude Bytes Layout Crates.
From S2P Require Import Ivfc Partition NcaRaw.
#[local] Open Scope Z_scope.

(** ** Key generations *)

Definition MAX_KEY_GENERATION : Z := 32.
Definition SECTION_KEY_INDEX : Z := 2.

Record KeyGeneration := { kg_value : Z }.

Definition FIRST : KeyGeneration := {| kg_value := 1 |}.
Definition to_u8 (g : KeyGeneration) : Z := kg_value g.

Inductive ParseKeyGenerationError :=
| NotANumber
| OutOfRange (value : Z).

(** [TryFrom<u8>]. *)
Definition key_generation_try_from (value : Z) : outcome ParseKeyGenerationError KeyGeneration :=
  if (value =? 0) || (MAX_KEY_GENERATION <? value) then Err (OutOfRange value)
  else Ok {| kg_value := value |}.

(** [str::parse::<u32>]: an optional plus sign and at least one decimal digit, no overflow. *)
Definition decimal_digit (c : byte) : option Z :=
  if (0x30 <=? b2z c) && (b2z c <=? 0x39) then Some (b2z c - 0x30) else None.
Fixpoint parse_digits (acc : Z) (l : list byte) : option Z :=
  match l with
  | [] => Some acc
  | c :: l =>
    d ← decimal_digit c;
    if U32_MAX <? acc * 10 + d then None else parse_digits (acc * 10 + d) l
  end.
Definition parse_u32 (input : list byte) : option Z :=
  let digits := match input with x2b :: l => l | _ => input end in
  match digits with [] => None | _ => parse_digits 0 digits end.

(** [FromStr]. *)
Definition key_generation_from_str (input : list byte) : outcome ParseKeyGenerationError KeyGeneration :=
  value ← ok_or (parse_u32 input) NotANumber;
  value ← (if value <=? U8_MAX then Ok value else Err (OutOfRange value));
  key_generation_try_from value.

(** [Display]: the decimal digits of a [u8]. *)
Definition digit (n : Z) : byte := z2b (0x30 + n).
Definition key_generation_fmt (g : KeyGeneration) : list byte :=
  let n := kg_value g in
  (if 100 <=? n then [digit (n / 100)] else []) ++
  (if 10 <=? n then [digit (n / 10 mod 10)] else []) ++ [digit (n mod 10)].

Definition split_key_generation (g : KeyGeneration) : Z * Z :=
  match to_u8 g with
  | 1 => (0, 0)
  | 2 => (2, 0)
  | generation => (2, generation)
  end.

(** ** The builder *)

Inductive SectionEncryption := EncNone | EncCtr.

Inductive SectionData :=
| RomFs (image : list byte)
| Partition (archive : list byte) (hash_block_size : Z).

Record Section_ := {
  sec_data : SectionData;
  sec_encryption : SectionEncryption;
}.

Record NcaBuilder := {
  nb_content_type : NcaContentType;
  nb_title_id : Z;
  nb_sdk_version : Z;
  nb_key_generation : KeyGeneration;
  nb_key_area : list (list byte);
  nb_sections : list (option Section_);
}.
#[export] Instance eta_NcaBuilder : Eta NcaBuilder := λ b,
  Build_NcaBuilder (nb_content_type b) (nb_title_id b) (nb_sdk_version b) (nb_key_generation b)
    (nb_key_area b) (nb_sections b).

Inductive AddSectionError :=
| IndexOutOfRange (index : Z)
| IndexOccupied (index : Z).

Record BuildError := { be_size : Z }.

Definition NcaBuilder_new (content_type : NcaContentType) (title_id : Z) : NcaBuilder :=
  {| nb_content_type := content_type; nb_title_id := title_id; nb_sdk_version := 0;
     nb_key_generation := FIRST; nb_key_area := replicate NCA_SECTION_COUNT (zeros 0x10);
     nb_sections := replicate NCA_SECTION_COUNT None |}.

Definition nca_sdk_version_set (b : NcaBuilder) (v : Z) := b <| nb_sdk_version := v |>.
Definition nca_key_generation_set (b : NcaBuilder) (g : KeyGeneration) := b <| nb_key_generation := g |>.

Definition key_area_key (b : NcaBuilder) (i : Z) (key : list byte) : outcome AddSectionError NcaBuilder :=
  key_area ← ok_or (set_index (nb_key_area b) i key) (IndexOutOfRange i);
  Ok (b <| nb_key_area := key_area |>).

Definition add_section (b : NcaBuilder) (i : Z) (section : Section_) : outcome AddSectionError NcaBuilder :=
  slot ← ok_or (index (nb_sections b) i) (IndexOutOfRange i);
  _ ← guard_err (if slot is Some _ then true else false) (IndexOccupied i);
  sections ← or_panic (set_index (nb_sections b) i (Some section));
  Ok (b <| nb_sections := sections |>).

(** ** Building *)

Definition EMPTY_SECTION_ENTRY : NcaSectionEntry :=
  {| media_start_offset := 0; media_end_offset := 0; se_reserved := zeros 0x8 |}.
Definition EMPTY_FS_HEADER : NcaFsHeader :=
  {| fh_version := 0; fh_fs_type := 0; fh_hash_type := 0; fh_crypt_type := 0;
     fh_reserved_0x5 := zeros 0x3; fh_superblock := zeros 0x138; section_ctr := zeros 0x8;
     fh_reserved_0x148 := zeros 0xB8 |}.

Definition encryption_code (e : SectionEncryption) : Z :=
  match e with EncNone => crypt_type_code CryptNone | EncCtr => crypt_type_code Ctr end.

Definition media_offset (offset : Z) : outcome BuildError Z :=
  let units := offset / MEDIA_UNIT_SIZE in
  if units <=? U32_MAX then Ok units else Err {| be_size := offset |}.

Definition pad_to_media_unit (body : list byte) : list byte :=
  let remainder := len body mod MEDIA_UNIT_SIZE in
  if negb (remainder =? 0) then body ++ zeros (MEDIA_UNIT_SIZE - remainder) else body.

(** [for (index, byte) in section_ctr.iter().rev().enumerate() { counter[index] = *byte }]. *)
Fixpoint write_from (counter : list byte) (i : Z) (bytes : list byte) : option (list byte) :=
  match bytes with
  | [] => Some counter
  | b :: bytes => counter ← set_index counter i b; write_from counter (i + 1) bytes
  end.

Definition section_counter (section_ctr : list byte) (offset : Z) : option (list byte) :=
  let counter := zeros 0x10 in
  counter ← write_from counter 0 (reverse section_ctr);
  copy_from_slice counter 0x8 0x10 (be_bytes 8 (offset / 0x10)).

Record PlainNca := {
  pn_header : NcaHeader;
  pn_body : list byte;
}.

Record CtrSection := {
  cs_range : Z * Z;
  cs_counter : list byte;
}.

Section build.
Context `{ZC : Zerocopy} `{SH : Sha256}.

Definition lay_out_section (section : Section_) : option (list byte * NcaFsHeader) :=
  let fs_header := EMPTY_FS_HEADER <| fh_version := 2 |>
    <| fh_crypt_type := encryption_code (sec_encryption section) |> in
  match sec_data section with
  | RomFs image =>
    tree ← Ivfc.build image;
    level_count ← checked_add_u32 (as_u32 (len (level_headers tree))) 1;
    let superblock := {|
      ivfc_header := {|
        ih_magic := IVFC_MAGIC; ih_version := 0x20000; master_hash_size := 0x20;
        level_count := level_count; ih_level_headers := level_headers tree;
        signature_salt := zeros 0x20; ih_master_hash := master_hash tree |};
      rs_reserved := zeros 0x58 |} in
    let fs_header := fs_header <| fh_fs_type := fs_type_code FsRomFs |>
      <| fh_hash_type := hash_type_code HashRomFs |> in
    sb ← copy_from_slice (fh_superblock fs_header) 0 (len (fh_superblock fs_header)) (as_bytes superblock);
    Some (tree_data tree, fs_header <| fh_superblock := sb |>)
  | Partition archive hash_block_size =>
    built ← Partition.build archive hash_block_size;
    let fs_header := fs_header <| fh_fs_type := fs_type_code FsPfs0 |>
      <| fh_hash_type := hash_type_code HashPfs0 |> in
    sb ← copy_from_slice (fh_superblock fs_header) 0 (len (fh_superblock fs_header))
           (as_bytes (superblock built));
    Some (ps_data built, fs_header <| fh_superblock := sb |>)
  end.

(** The [for] loop over the section slots. *)
Fixpoint place_sections (i : Z) (sections : list (option Section_)) (header : NcaHeader)
    (body : list byte) : outcome BuildError (NcaHeader * list byte) :=
  match sections with
  | [] => Ok (header, body)
  | None :: sections => place_sections (i + 1) sections header body
  | Some section :: sections =>
    start ← uadd NCA_HEADER_SIZE (len body);
    media_start ← media_offset start;
    '(data, fs_header) ← or_panic (lay_out_section section);
    let body := body ++ data in
    let body := pad_to_media_unit body in
    end_ ← uadd NCA_HEADER_SIZE (len body);
    media_end ← media_offset end_;
    entries ← or_panic (set_index (section_entries header) i
      {| media_start_offset := media_start; media_end_offset := media_end;
         se_reserved := x01 :: zeros 7 |});
    hashes ← or_panic (set_index (section_hashes header) i (sha256 (as_bytes fs_header)));
    headers ← or_panic (set_index (fs_headers header) i fs_header);
    let header := header <| section_entries := entries |> <| section_hashes := hashes |>
      <| fs_headers := headers |> in
    place_sections (i + 1) sections header body
  end.

Definition build (b : NcaBuilder) : outcome BuildError PlainNca :=
  let header := {|
    fixed_key_sig := zeros 0x100; npdm_key_sig := zeros 0x100; nca_magic := NCA3_MAGIC;
    distribution := 0; nca_content_type := content_type_code (nb_content_type b); crypto_type := 0;
    kaek_index := 0; nca_size := 0; nca_title_id := nb_title_id b; nca_reserved_0x218 := zeros 0x4;
    nca_sdk_version := nb_sdk_version b; crypto_type2 := 0; nca_reserved_0x221 := zeros 0xF;
    rights_id := zeros 0x10; section_entries := replicate NCA_SECTION_COUNT EMPTY_SECTION_ENTRY;
    section_hashes := replicate NCA_SECTION_COUNT (zeros 0x20); encrypted_keys := nb_key_area b;
    nca_reserved_0x340 := zeros 0xC0; fs_headers := replicate NCA_SECTION_COUNT EMPTY_FS_HEADER |} in
  let '(low, high) := split_key_generation (nb_key_generation b) in
  let header := header <| crypto_type := low |> <| crypto_type2 := high |> in
  '(header, body) ← place_sections 0 (nb_sections b) header [];
  size ← uadd NCA_HEADER_SIZE (len body);
  Ok {| pn_header := header <| nca_size := size |>; pn_body := body |}.

(** The loop of [ctr_sections], which also ends on an arithmetic panic. *)
Fixpoint ctr_sections_of (zipped : list (NcaSectionEntry * NcaFsHeader)) : option (list CtrSection) :=
  match zipped with
  | [] => Some []
  | (entry, fs_header) :: zipped =>
    if negb (fh_crypt_type fs_header =? crypt_type_code Ctr) then ctr_sections_of zipped else
    start ← checked_mul (media_start_offset entry) MEDIA_UNIT_SIZE;
    end_ ← checked_mul (media_end_offset entry) MEDIA_UNIT_SIZE;
    range_start ← checked_sub start NCA_HEADER_SIZE;
    range_end ← checked_sub end_ NCA_HEADER_SIZE;
    counter ← section_counter (section_ctr fs_header) start;
    sections ← ctr_sections_of zipped;
    Some ({| cs_range := (range_start, range_end); cs_counter := counter |} :: sections)
  end.

Definition ctr_sections (p : PlainNca) : option (list CtrSection) :=
  ctr_sections_of (zip (section_entries (pn_header p)) (fs_headers (pn_header p))).

Definition to_bytes (p : PlainNca) : option (list byte) :=
  capacity ← checked_add NCA_HEADER_SIZE (len (pn_body p));
  _ ← with_capacity capacity;
  Some (as_bytes (pn_header p) ++ pn_body p).
End build.

(** ** Lemmas *)

Lemma pad_to_media_unit_eq l : pad_to_media_unit l = l ++ zeros (align_up (len l) MEDIA_UNIT_SIZE - len l).
Proof.
  unfold pad_to_media_unit, MEDIA_UNIT_SIZE. rewrite (align_up_pow2 _ 9) by done. change (2 ^ 9) with 512.
  destruct (Z.eqb_spec (len l mod 512) 0); cbn [negb].
  - replace (512 * _ - _) with 0 by div_lia. by rewrite app_nil_r.
  - do 2 f_equal. div_lia.
Qed.

Lemma len_pad_to_media_unit l :
  len (pad_to_media_unit l) mod MEDIA_UNIT_SIZE = 0 ∧
  len l ≤ len (pad_to_media_unit l) < len l + MEDIA_UNIT_SIZE.
Proof.
  pose proof (align_up_spec (len l) MEDIA_UNIT_SIZE 9 ltac:(done) eq_refl) as [? ?].
  rewrite pad_to_media_unit_eq, len_app, len_zeros by lia.
  replace (len l + _) with (align_up (len l) MEDIA_UNIT_SIZE) by lia. split; [done|lia].
Qed.

Lemma pad_app body d :
  len body mod MEDIA_UNIT_SIZE = 0 → pad_to_media_unit (body ++ d) = body ++ pad_to_media_unit d.
Proof.
  intros Hb. unfold pad_to_media_unit. rewrite len_app.
  replace ((len body + len d) mod MEDIA_UNIT_SIZE) with (len d mod MEDIA_UNIT_SIZE)
    by (unfold MEDIA_UNIT_SIZE in *; div_lia).
  destruct (negb _); [by rewrite app_assoc|done].
Qed.

Lemma write_from_spec pre z bytes r :
  len z = len bytes → write_from (pre ++ z ++ r) (len pre) bytes = Some (pre ++ bytes ++ r).
Proof.
  revert pre z. induction bytes as [|b bytes IH]; intros pre z Hz.
  { destruct z; [done|len_lia]. }
  destruct z as [|y z]; [len_lia|]. cbn [write_from app]. rewrite set_index_app_eq by done. bind_cbn.
  change (b :: z ++ r) with ([b] ++ z ++ r). rewrite app_assoc.
  replace (len pre + 1) with (len (pre ++ [b])) by (rewrite len_app; unfold len; cbn; lia).
  rewrite IH by len_lia. by rewrite <-!app_assoc.
Qed.

(** The counter: the header's eight bytes reversed, then the offset in AES blocks, big-endian. *)
Definition counter_at (section_ctr : list byte) (offset : Z) : list byte :=
  reverse section_ctr ++ be_bytes 8 (offset / 0x10).

Lemma section_counter_spec ctr offset :
  len ctr = 8 → section_counter ctr offset = Some (counter_at ctr offset).
Proof.
  intros Hl. unfold section_counter. change (zeros 16) with ([] ++ zeros 8 ++ zeros 8).
  change 0 with (len (@nil byte)) at 1. rewrite write_from_spec by (by rewrite len_reverse).
  bind_cbn. cbn [app]. assert (len (be_bytes 8 (offset / 16)) = 8) as Hbe.
  { unfold be_bytes. by rewrite len_reverse, len_le_bytes. }
  rewrite (copy_from_slice_end _ _ (be_bytes 8 (offset / 16)))
    by (rewrite ?len_reverse, ?Hbe, ?Hl; done).
  unfold counter_at. rewrite Hbe. by rewrite zdrop_all, app_nil_r.
Qed.

(** A section the builder is given: a payload of less than 64 PiB and a positive block size. *)
Definition payload (s : Section_) : list byte :=
  match sec_data s with RomFs image => image | Partition archive _ => archive end.
Definition section_ok (s : Section_) : Prop :=
  len (payload s) ≤ 2 ^ 56 ∧
  match sec_data s with RomFs _ => True | Partition _ bs => 1 ≤ bs ≤ U32_MAX end.

Lemma section_buildable archive bs :
  len archive ≤ 2 ^ 56 → 1 ≤ bs → Partition.buildable archive bs.
Proof.
  intros Hl Hbs. split; [done|]. unfold HASH_SIZE. pose proof (len_nonneg archive).
  assert (len archive / bs ≤ len archive) by (apply Z.div_le_upper_bound; nia). unfold_max. lia.
Qed.

Section laid_out.
Context `{ZC : Zerocopy} `{SH : Sha256}.

(** What laying a section out gives: the bytes, the header, and where the payload is in the bytes. *)
Record laid_out (s : Section_) (d : list byte) (h : NcaFsHeader) : Prop := {
  lo_eq : lay_out_section s = Some (d, h);
  lo_len : 0 < len d ≤ 2 ^ 62;
  lo_wf : wf h;
  lo_crypt : fh_crypt_type h = encryption_code (sec_encryption s);
  lo_ctr : section_ctr h = zeros 8;
  lo_version : fh_version h = 2;
  lo_payload :
    match sec_data s with
    | RomFs image => ∃ tree,
        Ivfc.build image = Some tree ∧ fh_fs_type h = 0 ∧ fh_hash_type h = 3 ∧ d = tree_data tree ∧
        len (level_headers tree) = 6 ∧ level tree 5 = Some image ∧
        ref_from_bytes RomFsSuperblock (fh_superblock h) = Some {|
          ivfc_header := {| ih_magic := IVFC_MAGIC; ih_version := 0x20000; master_hash_size := 0x20;
            level_count := 7; ih_level_headers := level_headers tree; signature_salt := zeros 0x20;
            ih_master_hash := master_hash tree |};
          rs_reserved := zeros 0x58 |}
    | Partition archive bs => ∃ built,
        Partition.build archive bs = Some built ∧ fh_fs_type h = 1 ∧ fh_hash_type h = 2 ∧
        d = ps_data built ∧ archive_of built = Some archive ∧
        ref_from_bytes Pfs0Superblock (fh_superblock h) = Some (superblock built)
    end;
}.

Lemma superblock_copied {T} `{Layout T} (x : T) :
  wf x → size_of T = 0x138 → copy_from_slice (zeros 0x138) 0 (len (zeros 0x138)) (as_bytes x) = Some (as_bytes x).
Proof.
  intros Hx Hs. rewrite <-(app_nil_r (zeros 312)) at 1.
  rewrite copy_from_slice_start; [by rewrite app_nil_r|done|]. by rewrite len_as_bytes, Hs.
Qed.

Lemma lay_out_romfs image enc :
  len image ≤ 2 ^ 56 → ∃ d h, laid_out {| sec_data := RomFs image; sec_encryption := enc |} d h.
Proof.
  intros Hl. destruct (ivfc_build_spec image) as (t & Hb & [H6 Hwf] & Hd & Hm & Hlev); [lia|].
  pose proof (levels_total image ltac:(lia)) as Htot.
  set (sb := {| ivfc_header := {| ih_magic := IVFC_MAGIC; ih_version := 0x20000; master_hash_size := 0x20;
     level_count := 7; ih_level_headers := level_headers t; signature_salt := zeros 0x20;
     ih_master_hash := master_hash t |}; rs_reserved := zeros 0x58 |}).
  assert (wf sb) as Hsb.
  { cbn. split_and!; try done; [unfold len in H6; lia|]. by rewrite Hm, len_sha256. }
  eexists _, _. split.
  - unfold lay_out_section. cbn [sec_data sec_encryption]. rewrite Hb. bind_cbn. rewrite H6.
    change (as_u32 6) with 6. bind_step. change (6 + 1) with 7. fold sb.
    unfold set_field. cbn [fh_superblock EMPTY_FS_HEADER].
    rewrite superblock_copied by done. bind_cbn. reflexivity.
  - rewrite Hd, len_concat_sum. split; [|lia]. unfold levels_of. cbn [map zsum foldr].
    pose proof (len_nonneg image). destruct (hash_level_size image) as (_ & H4 & _).
    unfold IVFC_BLOCK_SIZE in H4. repeat match goal with |- context [len (hash_level ?l)] =>
      lazymatch l with image => fail | _ => generalize (len_nonneg (hash_level l)); generalize (len (hash_level l)); intros end end. lia.
  - cbn. split_and!; try done; try (by destruct enc). by rewrite (len_as_bytes sb Hsb).
  - done.
  - done.
  - done.
  - exists t. split_and!; try done.
    + destruct (Hlev [_; _; _; _; _] image [] eq_refl) as [_ Hlast]. exact Hlast.
    + by apply (ref_from_bytes_as_bytes sb).
Qed.

Lemma len_chunks_le n l : 0 < n → len (chunks n l) ≤ len l.
Proof.
  intros Hn. pose proof (chunks_count n l Hn). pose proof (len_nonneg (chunks n l)).
  pose proof (len_nonneg l). destruct (Z.le_gt_cases (len (chunks n l)) (len l)); [done|]. nia.
Qed.

Lemma lay_out_partition archive bs enc :
  len archive ≤ 2 ^ 56 → 1 ≤ bs ≤ U32_MAX →
  ∃ d h, laid_out {| sec_data := Partition archive bs; sec_encryption := enc |} d h.
Proof.
  intros Hl Hbs. pose proof (section_buildable archive bs Hl (proj1 Hbs)) as Hb.
  pose proof (partition_build_spec archive bs Hb) as Hbuild.
  pose proof (table_padding_bounds (block_hashes bs archive)) as Hp. unfold MEDIA_UNIT_SIZE in Hp.
  pose proof (len_chunks_le bs archive ltac:(lia)) as Hc.
  pose proof (len_nonneg archive). pose proof (len_nonneg (chunks bs archive)).
  assert (len (block_hashes bs archive) = 32 * len (chunks bs archive)) as Ht by apply len_concat_sha.
  assert (wf (superblock (section_of archive bs))) as Hsb.
  { cbn -[block_hashes]. change (256 ^ 8) with (2 ^ 64). change (256 ^ 4) with (2 ^ 32).
    rewrite Ht. split_and!; try done; try mlia. apply len_sha256. }
  eexists _, _. split.
  - unfold lay_out_section. cbn [sec_data sec_encryption]. rewrite Hbuild. bind_cbn.
    unfold set_field. cbn [fh_superblock EMPTY_FS_HEADER].
    rewrite superblock_copied by done. bind_cbn. reflexivity.
  - rewrite len_section_data. cbn [superblock pfs0_offset section_of]. lia.
  - cbn -[section_of]. split_and!; try done; try (by destruct enc). by rewrite len_as_bytes.
  - done.
  - done.
  - done.
  - exists (section_of archive bs). split_and!; try done; [apply section_archive|].
    by apply ref_from_bytes_as_bytes.
Qed.

Lemma lay_out_ok s : section_ok s → ∃ d h, laid_out s d h.
Proof.
  destruct s as [[image|archive bs] enc]; intros [Hl Hs]; [by apply lay_out_romfs|by apply lay_out_partition].
Qed.

(** The same by computation. *)
Definition laid (s : Section_) : list byte * NcaFsHeader := default ([], EMPTY_FS_HEADER) (lay_out_section s).

Lemma laid_ok s : section_ok s → laid_out s (laid s).1 (laid s).2.
Proof.
  intros Hs. destruct (lay_out_ok s Hs) as (d & h & H). unfold laid. by rewrite (lo_eq _ _ _ H).
Qed.
End laid_out.

(** ** The archive, abstractly *)

Section archive.
Context `{ZC : Zerocopy} `{SH : Sha256}.

(** What each slot contributes to the body and to the three tables of the header. *)
Definition region (o : option Section_) : list byte :=
  match o with None => [] | Some s => pad_to_media_unit (laid s).1 end.
Definition entry_of (off : Z) (o : option Section_) : NcaSectionEntry :=
  match o with
  | None => EMPTY_SECTION_ENTRY
  | Some _ => {| media_start_offset := off / MEDIA_UNIT_SIZE;
                 media_end_offset := (off + len (region o)) / MEDIA_UNIT_SIZE;
                 se_reserved := x01 :: zeros 7 |}
  end.
Fixpoint entries_of (off : Z) (slots : list (option Section_)) : list NcaSectionEntry :=
  match slots with [] => [] | o :: slots => entry_of off o :: entries_of (off + len (region o)) slots end.
Definition fs_header_of (o : option Section_) : NcaFsHeader :=
  match o with None => EMPTY_FS_HEADER | Some s => (laid s).2 end.
Definition hash_of (o : option Section_) : list byte :=
  match o with None => zeros 0x20 | Some s => sha256 (as_bytes (laid s).2) end.

Definition body_of (slots : list (option Section_)) : list byte := concat (map region slots).
Definition slot_ok (o : option Section_) : Prop := match o with None => True | Some s => section_ok s end.

Lemma region_bounds o :
  slot_ok o → len (region o) mod MEDIA_UNIT_SIZE = 0 ∧ 0 ≤ len (region o) ≤ 2 ^ 62 + MEDIA_UNIT_SIZE ∧
  (o ≠ None → 0 < len (region o)).
Proof.
  destruct o as [s|]; [|done]. intros Hs%laid_ok. cbn [region].
  destruct (len_pad_to_media_unit (laid s).1) as [? ?]. pose proof (lo_len _ _ _ Hs).
  unfold MEDIA_UNIT_SIZE in *. split_and!; try done; lia.
Qed.

(** What a section costs on the medium: a RomFS less than twice its image and 256 KiB, a partition at
    most a digest per byte more. *)
Definition growth (s : Section_) : Z := match sec_data s with RomFs _ => 2 | Partition _ _ => 34 end.

Lemma region_growth s : section_ok s → len (region (Some s)) ≤ growth s * len (payload s) + 0x40000.
Proof.
  intros Hs. pose proof (laid_ok s Hs) as HL. pose proof (lo_payload _ _ _ HL) as Hp.
  destruct (len_pad_to_media_unit (laid s).1) as [_ Hpad]. cbn [region]. destruct Hs as [Hl Hs].
  unfold growth, payload in *. pose proof (len_nonneg (payload s)). unfold payload in *. unfold MEDIA_UNIT_SIZE in *.
  destruct (sec_data s) as [image|archive bs].
  - destruct Hp as (t & Ht & _ & _ & Hd & _). destruct (ivfc_build_spec image ltac:(lia)) as (t' & Ht' & _ & Hd' & _).
    rewrite Ht in Ht'. injection Ht' as <-. pose proof (levels_growth image) as Hg. rewrite Hd, Hd', len_concat_sum in *. lia.
  - destruct Hp as (built & Hbuilt & _ & _ & Hd & _).
    rewrite partition_build_spec in Hbuilt by (apply section_buildable; [done|lia]). injection Hbuilt as <-.
    pose proof (len_chunks_le bs archive ltac:(lia)) as Hc. rewrite Hd in Hpad |- *. rewrite len_section_data in Hpad.
    cbn [superblock pfs0_offset section_of] in Hpad.
    pose proof (table_padding_bounds (block_hashes bs archive)) as Ht. unfold MEDIA_UNIT_SIZE in Ht.
    assert (len (block_hashes bs archive) = 32 * len (chunks bs archive)) as Hb by apply len_concat_sha. lia.
Qed.

(** One step of the loop on an occupied slot. *)
Lemma place_section_step s slots i header body :
  section_ok s → len body mod MEDIA_UNIT_SIZE = 0 →
  NCA_HEADER_SIZE + len body ≤ U32_MAX * MEDIA_UNIT_SIZE →
  0 ≤ i < len (section_entries header) → i < len (section_hashes header) → i < len (fs_headers header) →
  place_sections i (Some s :: slots) header body =
    let end_ := NCA_HEADER_SIZE + len body + len (region (Some s)) in
    if U32_MAX <? end_ / MEDIA_UNIT_SIZE then Err {| be_size := end_ |} else
    place_sections (i + 1) slots
      (header <| section_entries := <[Z.to_nat i := entry_of (NCA_HEADER_SIZE + len body) (Some s)]> (section_entries header) |>
              <| section_hashes := <[Z.to_nat i := hash_of (Some s)]> (section_hashes header) |>
              <| fs_headers := <[Z.to_nat i := fs_header_of (Some s)]> (fs_headers header) |>)
      (body ++ region (Some s)).
Proof.
  intros Hs Hmod Hfit Hi Hi2 Hi3. pose proof (laid_ok s Hs) as HL. pose proof (region_bounds (Some s) Hs) as (Hr & Hrl & _).
  unfold NCA_HEADER_SIZE, MEDIA_UNIT_SIZE in *. cbn [place_sections]. unfold NCA_HEADER_SIZE.
  bind_step. unfold media_offset, MEDIA_UNIT_SIZE. cbv zeta.
  rewrite (proj2 (Z.leb_le ((3072 + len body) / 512) _)) by (unfold_max; div_lia). bind_cbn.
  rewrite (lo_eq _ _ _ HL). bind_cbn. rewrite pad_app by done. fold (region (Some s)).
  rewrite len_app. bind_step. rewrite Z.add_assoc.
  rewrite Z.leb_antisym. destruct (_ <? _); cbn [negb]; [done|]. bind_cbn.
  do 3 (rewrite set_index_ok by lia; bind_cbn). done.
Qed.

(** The first end of a section that no media offset can hold. *)
Fixpoint overflow (off : Z) (slots : list (option Section_)) : option Z :=
  match slots with
  | [] => None
  | None :: slots => overflow off slots
  | Some s :: slots =>
    let end_ := off + len (region (Some s)) in
    if U32_MAX <? end_ / MEDIA_UNIT_SIZE then Some end_ else overflow end_ slots
  end.

Lemma insert_here {A} (l : list A) n i x y :
  len l = i → <[Z.to_nat i := x]> (l ++ replicate (S n) y) = (l ++ [x]) ++ replicate n y.
Proof.
  intros <-. unfold len. rewrite Nat2Z.id, insert_app_r_alt, Nat.sub_diag by lia. by rewrite <-app_assoc.
Qed.

Lemma replicate_here {A} (l : list A) n y : l ++ replicate (S n) y = (l ++ [y]) ++ replicate n y.
Proof. by rewrite <-app_assoc. Qed.

Lemma place_sections_spec slots i header body E H F :
  Forall slot_ok slots → len body mod MEDIA_UNIT_SIZE = 0 →
  NCA_HEADER_SIZE + len body ≤ U32_MAX * MEDIA_UNIT_SIZE →
  section_entries header = E ++ replicate (length slots) EMPTY_SECTION_ENTRY → len E = i →
  section_hashes header = H ++ replicate (length slots) (zeros 0x20) → len H = i →
  fs_headers header = F ++ replicate (length slots) EMPTY_FS_HEADER → len F = i →
  place_sections i slots header body =
    match overflow (NCA_HEADER_SIZE + len body) slots with
    | Some e => Err {| be_size := e |}
    | None => Ok (header <| section_entries := E ++ entries_of (NCA_HEADER_SIZE + len body) slots |>
                   <| section_hashes := H ++ map hash_of slots |>
                   <| fs_headers := F ++ map fs_header_of slots |>, body ++ body_of slots)
    end.
Proof.
  intros Hok. revert i header body E H F. induction Hok as [|o slots Ho Hok IH]; intros i header body E H F
    Hmod Hfit HE Ei HH Hi HF Fi.
  { unfold body_of. cbn in *. rewrite !app_nil_r in *. rewrite <-HE, <-HH, <-HF. by destruct header. }
  pose proof (len_nonneg E). pose proof (region_bounds o Ho) as (Hr & Hrl & _).
  destruct o as [s|].
  - pose proof (len_nonneg (replicate (length slots) EMPTY_SECTION_ENTRY)).
    pose proof (len_nonneg (replicate (length slots) (zeros 0x20))).
    pose proof (len_nonneg (replicate (length slots) EMPTY_FS_HEADER)).
    rewrite place_section_step; [|done|done|done|rewrite ?HE, ?HH, ?HF; cbn [length replicate]; rewrite len_app, len_cons; lia..].
    cbv zeta. cbn [overflow]. destruct (Z.ltb_spec U32_MAX ((NCA_HEADER_SIZE + len body + len (region (Some s))) / MEDIA_UNIT_SIZE)) as [|Hle]; [done|].
    cbn [length] in HE, HH, HF. rewrite HE, HH, HF. rewrite !insert_here by done.
    assert (∀ A (l : list A) x, len l = i → len (l ++ [x]) = i + 1) as Hsnoc.
    { intros A l x <-. rewrite len_app. unfold len. cbn. lia. }
    erewrite IH; [|..|reflexivity|by apply Hsnoc|reflexivity|by apply Hsnoc|reflexivity|by apply Hsnoc].
    + rewrite len_app, Z.add_assoc. cbn [entries_of map]. unfold body_of. cbn [map concat].
      rewrite <-!app_assoc. destruct (overflow _ _); [done|]. by destruct header.
    + rewrite len_app. unfold MEDIA_UNIT_SIZE in *. div_lia.
    + rewrite len_app. unfold MEDIA_UNIT_SIZE, NCA_HEADER_SIZE in *. unfold_max. div_lia.
  - cbn [place_sections overflow length] in *. rewrite replicate_here in HE. rewrite replicate_here in HH. rewrite replicate_here in HF.
    assert (∀ A (l : list A) x, len l = i → len (l ++ [x]) = i + 1) as Hsnoc.
    { intros A l x <-. rewrite len_app. unfold len. cbn. lia. }
    erewrite IH; [|done|done|exact HE|by apply Hsnoc|exact HH|by apply Hsnoc|exact HF|by apply Hsnoc].
    cbn [entries_of map entry_of hash_of fs_header_of]. rewrite <-!app_assoc. unfold body_of. cbn [map concat region].
    by rewrite len_nil, Z.add_0_r.
Qed.

Lemma overflow_spec off slots :
  Forall slot_ok slots → 0 ≤ off → off mod MEDIA_UNIT_SIZE = 0 → off ≤ U32_MAX * MEDIA_UNIT_SIZE →
  match overflow off slots with
  | Some e => U32_MAX * MEDIA_UNIT_SIZE < e ∧ e ≤ off + len (body_of slots)
  | None => off + len (body_of slots) ≤ U32_MAX * MEDIA_UNIT_SIZE
  end.
Proof.
  intros Hok. revert off. induction Hok as [|o slots Ho Hok IH]; intros off H0 Hmod Hfit.
  { change (len (body_of [])) with 0. cbn [overflow]. lia. }
  pose proof (region_bounds o Ho) as (Hr & Hrl & _). unfold body_of in *. cbn [map concat]. rewrite len_app.
  pose proof (len_nonneg (concat (map region slots))).
  destruct o as [s|]; cbn [overflow].
  - destruct (Z.ltb_spec U32_MAX ((off + len (region (Some s))) / MEDIA_UNIT_SIZE)) as [Hlt|Hle].
    + unfold MEDIA_UNIT_SIZE in *. unfold_max. split; [div_lia|lia].
    + 
      assert (0 ≤ off + len (region (Some s)) ≤ U32_MAX * MEDIA_UNIT_SIZE ∧ (off + len (region (Some s))) mod MEDIA_UNIT_SIZE = 0)
        as (?&?) by (unfold MEDIA_UNIT_SIZE in *; unfold_max; div_lia).
      rewrite !Z.add_assoc. apply IH; lia.
  - cbn [region]. rewrite len_nil, Z.add_0_l. by apply IH.
Qed.

(** The finished header and archive. *)
Record builder_ok (b : NcaBuilder) : Prop := {
  bk_sections : length (nb_sections b) = NCA_SECTION_COUNT ∧ Forall slot_ok (nb_sections b);
  bk_title : is_u64 (nb_title_id b);
  bk_sdk : is_u32 (nb_sdk_version b);
  bk_generation : 1 ≤ kg_value (nb_key_generation b) ≤ MAX_KEY_GENERATION;
  bk_keys : length (nb_key_area b) = NCA_SECTION_COUNT ∧ Forall (λ k, len k = 0x10) (nb_key_area b);
}.

(** Short of the 2 TiB that media offsets reach. *)
Definition addressable (b : NcaBuilder) : Prop :=
  NCA_HEADER_SIZE + len (body_of (nb_sections b)) ≤ U32_MAX * MEDIA_UNIT_SIZE.

Lemma new_builder_ok t title : is_u64 title → builder_ok (NcaBuilder_new t title).
Proof. intros Ht. split; try done; (split; [done|by repeat constructor]). Qed.

Definition header_of (b : NcaBuilder) : NcaHeader :=
  let g := kg_value (nb_key_generation b) in
  Build_NcaHeader (zeros 0x100) (zeros 0x100) NCA3_MAGIC 0 (content_type_code (nb_content_type b))
    (split_key_generation (nb_key_generation b)).1 0 (NCA_HEADER_SIZE + len (body_of (nb_sections b)))
    (nb_title_id b) (zeros 0x4) (nb_sdk_version b) (split_key_generation (nb_key_generation b)).2
    (zeros 0xF) (zeros 0x10) (entries_of NCA_HEADER_SIZE (nb_sections b)) (map hash_of (nb_sections b))
    (nb_key_area b) (zeros 0xC0) (map fs_header_of (nb_sections b)).

Lemma nca_build_spec b :
  builder_ok b →
  build b = match overflow NCA_HEADER_SIZE (nb_sections b) with
            | Some e => Err {| be_size := e |}
            | None => Ok {| pn_header := header_of b; pn_body := body_of (nb_sections b) |}
            end.
Proof.
  intros [[Hn Hok] _ _ _ _]. unfold build, header_of.
  destruct (split_key_generation (nb_key_generation b)) as [low high]. cbn [fst snd].
  pose proof (overflow_spec NCA_HEADER_SIZE (nb_sections b) Hok ltac:(done) eq_refl ltac:(done)) as Ho.
  erewrite (place_sections_spec _ 0 _ [] [] [] []); [|done|done|done|cbn; by rewrite Hn|done|cbn; by rewrite Hn|done|cbn; by rewrite Hn|done].
  rewrite len_nil, Z.add_0_r. destruct (overflow _ _); [done|]. bind_cbn. cbn [app].
  unfold MEDIA_UNIT_SIZE, NCA_HEADER_SIZE in *. bind_step. done.
Qed.

Lemma length_nca_entries off slots : length (entries_of off slots) = length slots.
Proof. revert off. induction slots; intros; cbn; auto. Qed.

Lemma wf_entries_of off slots :
  Forall slot_ok slots → 0 ≤ off → off + len (body_of slots) ≤ U32_MAX * MEDIA_UNIT_SIZE →
  Forall wf (entries_of off slots).
Proof.
  intros Hok. revert off. induction Hok as [|o slots Ho Hok IH]; intros off H0 Hmax; [constructor|].
  unfold body_of in Hmax. cbn [map concat] in Hmax. rewrite len_app in Hmax. fold (body_of slots) in Hmax.
  pose proof (len_nonneg (body_of slots)). pose proof (len_nonneg (region o)).
  cbn [entries_of]. constructor; [|apply IH; lia].
  destruct o as [s|]; [|cbn; split_and!; done]. unfold MEDIA_UNIT_SIZE in *. unfold_max.
  cbn -[region]. change (256 ^ 4) with (2 ^ 32). unfold MEDIA_UNIT_SIZE. split_and!; try done; div_lia.
Qed.

Lemma wf_nca_header b : builder_ok b → addressable b → wf (header_of b).
Proof.
  intros [[Hn Hok] Ht Hs Hg [Hkn Hk]] Ha. unfold addressable in Ha.
  pose proof (len_nonneg (body_of (nb_sections b))).
  assert (∀ g, 1 ≤ kg_value g ≤ 32 → 0 ≤ (split_key_generation g).1 < 256 ∧ 0 ≤ (split_key_generation g).2 < 256) as Hsp.
  { intros [v] Hv. unfold split_key_generation. cbn in *. destruct v as [|[|[]|]|]; cbn; lia. }
  destruct (Hsp _ Hg). cbn -[entries_of split_key_generation]. change (256 ^ 8) with (2 ^ 64). change (256 ^ 4) with (2 ^ 32). change (256 ^ 1) with 256.
  unfold NCA_HEADER_SIZE, MEDIA_UNIT_SIZE in *. unfold_max.
  split_and!; try done; try lia; try (by destruct (nb_content_type b)).
  - by rewrite length_nca_entries, Hn.
  - by apply (wf_entries_of 3072).
  - by rewrite length_map, Hn.
  - apply Forall_map. eapply Forall_impl; [exact Hok|]. intros [s|] Hso; [apply len_sha256|done].
  - by rewrite length_map, Hn.
  - apply Forall_map. eapply Forall_impl; [exact Hok|].
    intros [s|] Hso; [apply (lo_wf s _ _ (laid_ok s Hso))|cbn; split_and!; done].
Qed.

Lemma len_nca_header b : builder_ok b → addressable b → len (as_bytes (header_of b)) = NCA_HEADER_SIZE.
Proof. intros. rewrite len_as_bytes by (by apply wf_nca_header). done. Qed.

Lemma nca_to_bytes_spec b :
  builder_ok b → addressable b →
  ∃ p, build b = Ok p ∧ p = {| pn_header := header_of b; pn_body := body_of (nb_sections b) |} ∧
    to_bytes p = Some (as_bytes (header_of b) ++ body_of (nb_sections b)).
Proof.
  intros Hb Ha. eexists. rewrite nca_build_spec by done.
  pose proof (overflow_spec NCA_HEADER_SIZE (nb_sections b) (proj2 (bk_sections b Hb)) ltac:(done) eq_refl ltac:(done)) as Ho.
  unfold addressable in Ha. destruct (overflow _ _); [lia|]. split; [done|]. split; [done|].
  unfold to_bytes. cbn [pn_header pn_body]. unfold NCA_HEADER_SIZE, MEDIA_UNIT_SIZE in *.
  bind_step. rewrite with_capacity_ok by (unfold_max; lia). done.
Qed.
End archive.

(** ** Properties *)

Section properties.
Context `{ZC : Zerocopy} `{SH : Sha256}.

(** C40. [build] fails exactly when the archive outgrows its media offsets, a little under 2 TiB,
    reporting an end past that limit, and never panics on sections with a hash block to cover; a
    partition with a hash block size of zero in the first slot panics. *)
Theorem nca_build_errors b :
  builder_ok b →
  build b ≠ Panic ∧
  ((∃ p, build b = Ok p) ↔ addressable b) ∧
  (∀ e, build b = Err e →
     U32_MAX * MEDIA_UNIT_SIZE < be_size e ≤ NCA_HEADER_SIZE + len (body_of (nb_sections b))) ∧
  ∀ archive enc rest,
    build (b <| nb_sections := Some {| sec_data := Partition archive 0; sec_encryption := enc |} :: rest |>)
      = Panic.
Proof.
  intros Hb. rewrite nca_build_spec by done.
  pose proof (overflow_spec NCA_HEADER_SIZE (nb_sections b) (proj2 (bk_sections b Hb)) ltac:(done) eq_refl ltac:(done)) as Ho.
  unfold addressable. split_and!.
  - by destruct (overflow _ _).
  - destruct (overflow _ _); split; intros; [by destruct H|lia|lia|by eexists].
  - intros e He. destruct (overflow _ _); [|done]. injection He as <-. cbn [be_size]. lia.
  - intros archive enc rest. unfold build, set_field. cbn [nb_sections nb_key_generation].
    by destruct (split_key_generation _).
Qed.

(** A section is placed exactly in a free slot among the four: [section] then fills that slot
    and nothing else, keeping the builder one that [build] accepts; it names an index past the
    fourth slot, or one already taken, in its error. *)
Theorem add_section_spec b i s :
  builder_ok b → section_ok s → 0 ≤ i →
  match add_section b i s with
  | Ok b' => index (nb_sections b) i = Some None ∧ builder_ok b' ∧
      b' = b <| nb_sections := <[Z.to_nat i := Some s]> (nb_sections b) |>
  | Err (IndexOutOfRange j) => j = i ∧ 4 ≤ i
  | Err (IndexOccupied j) => j = i ∧ ∃ s', index (nb_sections b) i = Some (Some s')
  | Panic => False
  end.
Proof.
  intros Hb Hs Hi. pose proof (bk_sections b Hb) as [Hn Hok]. unfold add_section.
  destruct (index (nb_sections b) i) as [[s'|]|] eqn:E; bind_cbn.
  - eauto.
  - pose proof (index_Some_inv _ _ _ E) as Hr. rewrite set_index_ok by done. bind_cbn.
    split; [done|]. split; [|done]. destruct Hb as [_ ? ? ? ?]. split; try done. cbn [nb_sections set_field].
    split; [by rewrite length_insert|]. apply Forall_insert; [done|done].
  - split; [done|]. apply index_None_inv in E; [|done]. unfold len in E. rewrite Hn in E. done.
Qed.

(** Key generations round-trip: exactly the numbers 1 to 32 are generations, each is read back
    from the decimal number it prints as, and the two header fields it splits into are bytes whose
    larger one, at least 1, is the generation again. *)
Theorem key_generation_round_trip v :
  is_u8 v →
  (is_ok (key_generation_try_from v) = true ↔ 1 ≤ v ≤ 32) ∧
  ∀ g, key_generation_try_from v = Ok g →
    to_u8 g = v ∧ key_generation_from_str (key_generation_fmt g) = Ok g ∧
    let '(low, high) := split_key_generation g in
    is_u8 low ∧ is_u8 high ∧ Z.max (Z.max low high) 1 = v.
Proof.
  intros Hv. unfold key_generation_try_from, MAX_KEY_GENERATION. split.
  - destruct (Z.eqb_spec v 0), (Z.ltb_spec 32 v); cbn; split; intros; try done; mlia.
  - destruct ((v =? 0) || (32 <? v)) eqn:Hr; [done|]. zify_bool. intros g [= <-]. split; [done|].
    assert (∃ n : nat, (n < 33)%nat ∧ v = Z.of_nat n) as (n & Hn & ->) by (exists (Z.to_nat v); unfold_max; lia).
    do 33 (destruct n as [|n]; [first [exfalso; lia | split; [reflexivity|vm_compute; split_and!; done]]|]). lia.
Qed.
End properties.

(** ** Witnesses *)

Definition sample_partition : Section_ :=
  {| sec_data := Partition [x50; x46; x53; x30; x00] 4; sec_encryption := EncNone |}.
Definition sample_romfs : Section_ :=
  {| sec_data := RomFs [x52; x6f; x6d; x46; x73]; sec_encryption := EncCtr |}.
(** A program archive with a partition in slot 0 and an encrypted RomFS in slot 1. *)
Definition sample_nca : NcaBuilder :=
  NcaBuilder_new Program 0x0100000000001000 <| nb_key_generation := {| kg_value := 5 |} |>
    <| nb_sections := [Some sample_partition; Some sample_romfs; None; None] |>.

Lemma sample_builder_ok : builder_ok sample_nca.
Proof.
  split; [|done..|].
  - split; [done|]. repeat constructor; done.
  - split; [done|]. repeat constructor; done.
Qed.

Lemma sample_addressable : @addressable zerocopy_reference sha256_reference sample_nca.
Proof.
  unfold addressable. cbn [sample_nca nb_sections set_field NcaBuilder_new].
  unfold body_of. cbn [map concat]. rewrite !len_app.
  pose proof (@region_growth zerocopy_reference sha256_reference sample_romfs ltac:(done)) as H.
  change (len (payload sample_romfs)) with 5 in H. cbn [growth sec_data sample_romfs] in H. fold sample_romfs in H.
  assert (len (@region zerocopy_reference sha256_reference (Some sample_partition)) = 0x400) as -> by (vm_compute; reflexivity).
  change (@region zerocopy_reference sha256_reference None) with (@nil byte).
  change (len (@nil byte)) with 0. unfold NCA_HEADER_SIZE, MEDIA_UNIT_SIZE in *. unfold_max. lia.
Qed.

Lemma nca_build_errors_witness : ∃ p, @build zerocopy_reference sha256_reference sample_nca = Ok p.
Proof.
  apply (@nca_build_errors zerocopy_reference sha256_reference sample_nca sample_builder_ok).
  exact sample_addressable.
Defined.

Lemma add_section_spec_witness :
  section_ok sample_romfs ∧ add_section sample_nca 1 sample_romfs = Err (IndexOccupied 1) ∧
  ∃ b, add_section sample_nca 2 sample_romfs = Ok b ∧ builder_ok b.
Proof.
  assert (section_ok sample_romfs) as Hs by done. split; [done|]. split; [reflexivity|].
  pose proof (add_section_spec sample_nca 2 sample_romfs sample_builder_ok Hs ltac:(lia)) as H.
  destruct (add_section sample_nca 2 sample_romfs) as [b| |] eqn:E; [|discriminate E|done].
  exists b. split; [done|]. apply H.
Defined.

Lemma key_generation_round_trip_witness :
  is_u8 17 ∧ ∃ g, key_generation_try_from 17 = Ok g ∧ key_generation_from_str [x31; x37] = Ok g.
Proof.
  assert (is_u8 17) as H by done. split; [done|]. eexists. split; [reflexivity|].
  destruct (key_generation_round_trip 17 H) as [_ Hg]. apply (Hg _ eq_refl).
Defined.
