(* ===== verification/NcaRead.v ===== *)
(** * The NCA reader: [read/nca.rs]

    A validated view of a decrypted archive, and the round trip with the builder of [NcaWrite]. In
    the accessors that return an [Option], the outer [None] of [option (option _)] is a panic. *)

From S2P Require Import Prelude Bytes Layout Crates.
From S2P Require Import Ivfc Partition NcaRaw NcaWrite.
#[local] Open Scope Z_scope.

(** ** Definitions *)

Record Nca := {
  n_bytes : list byte;
  n_header : NcaHeader;
  n_content_type : NcaContentType;
}.

Inductive FromBytesError :=
| BufferTooSmall (required available : Z)
| InvalidMagic (found : Z)
| UnknownContentType (found : Z)
| UnknownHashType (section_index found : Z)
| UnknownCryptType (section_index found : Z)
| SectionBoundsInvalid (section_index start end_ : Z)
| SectionOutOfBounds (section_index start end_ available : Z)
| SuperblockUnreadable (section_index : Z)
| IvfcLevelCountInvalid (section_index level_count : Z)
| DataRegionOutOfBounds (section_index offset size available : Z).

Definition content_type (value : Z) : outcome FromBytesError NcaContentType :=
  if value =? content_type_code Program then Ok Program else
  if value =? content_type_code Meta then Ok Meta else
  if value =? content_type_code Control then Ok Control else
  if value =? content_type_code Manual then Ok Manual else
  if value =? content_type_code Data then Ok Data else
  if value =? content_type_code PublicData then Ok PublicData else
  Err (UnknownContentType value).

Definition hash_type (index value : Z) : outcome FromBytesError NcaHashType :=
  if value =? hash_type_code HashPfs0 then Ok HashPfs0 else
  if value =? hash_type_code HashRomFs then Ok HashRomFs else
  Err (UnknownHashType index value).

Definition crypt_type (index value : Z) : outcome FromBytesError NcaCryptType :=
  if value =? crypt_type_code CryptNone then Ok CryptNone else
  if value =? crypt_type_code Xts then Ok Xts else
  if value =? crypt_type_code Ctr then Ok Ctr else
  if value =? crypt_type_code Bktr then Ok Bktr else
  Err (UnknownCryptType index value).

Definition section_range (index : Z) (entry : NcaSectionEntry) (available : Z)
    : outcome FromBytesError (option (Z * Z)) :=
  start ← umul (media_start_offset entry) MEDIA_UNIT_SIZE;
  end_ ← umul (media_end_offset entry) MEDIA_UNIT_SIZE;
  if end_ =? 0 then Ok None else
  _ ← guard_err ((end_ <? start) || (start <? NCA_HEADER_SIZE)) (SectionBoundsInvalid index start end_);
  _ ← guard_err (available <? end_) (SectionOutOfBounds index start end_ available);
  Ok (Some (start, end_)).

Section read.
Context `{ZC : Zerocopy}.

(** The offset and the size the superblock gives for the filesystem image. *)
Definition data_extent (section_index : Z) (fs_header : NcaFsHeader) (hash_type : NcaHashType)
    : outcome FromBytesError (Z * Z) :=
  match hash_type with
  | HashPfs0 =>
    superblock ← ok_or (ref_from_bytes Pfs0Superblock (fh_superblock fs_header))
                   (SuperblockUnreadable section_index);
    Ok (pfs0_offset superblock, pfs0_size superblock)
  | HashRomFs =>
    superblock ← ok_or (ref_from_bytes RomFsSuperblock (fh_superblock fs_header))
                   (SuperblockUnreadable section_index);
    let ivfc := ivfc_header superblock in
    last ← ok_or (checked_sub (level_count ivfc) 2) (IvfcLevelCountInvalid section_index (level_count ivfc));
    level ← ok_or (index (ih_level_headers ivfc) last)
              (IvfcLevelCountInvalid section_index (level_count ivfc));
    Ok (logical_offset level, hash_data_size level)
  end.

Definition data_range (section_index : Z) (fs_header : NcaFsHeader) (hash_type : NcaHashType)
    (section_size : Z) : outcome FromBytesError (Z * Z) :=
  '(offset, size) ← data_extent section_index fs_header hash_type;
  end_ ← ok_or (checked_add offset size) (DataRegionOutOfBounds section_index offset size section_size);
  _ ← guard_err (section_size <? end_) (DataRegionOutOfBounds section_index offset size section_size);
  Ok (offset, end_).

(** The [for] loop of the constructor, [n] slots from slot [i] on. *)
Fixpoint check_sections (n : nat) (i : Z) (header : NcaHeader) (available : Z)
    : outcome FromBytesError unit :=
  match n with
  | O => Ok tt
  | S n =>
    entry ← or_panic (index (section_entries header) i);
    fs_header ← or_panic (index (fs_headers header) i);
    range ← section_range i entry available;
    match range with
    | None => check_sections n (i + 1) header available
    | Some (start, end_) =>
      _ ← crypt_type i (fh_crypt_type fs_header);
      ht ← hash_type i (fh_hash_type fs_header);
      size ← usub end_ start;
      _ ← data_range i fs_header ht size;
      check_sections n (i + 1) header available
    end
  end.

Definition try_from_bytes (bytes : list byte) : outcome FromBytesError Nca :=
  '(header, _) ← ok_or (ref_from_prefix NcaHeader bytes) (BufferTooSmall NCA_HEADER_SIZE (len bytes));
  _ ← guard_err (negb (nca_magic header =? NCA3_MAGIC)) (InvalidMagic (nca_magic header));
  content_type ← content_type (nca_content_type header);
  _ ← check_sections NCA_SECTION_COUNT 0 header (len bytes);
  Ok {| n_bytes := bytes; n_header := header; n_content_type := content_type |}.

Definition title_id (n : Nca) : Z := nca_title_id (n_header n).
Definition read_nca_size (n : Nca) : Z := nca_size (n_header n).
Definition key_generation (n : Nca) : Z :=
  Z.max (Z.max (crypto_type (n_header n)) (crypto_type2 (n_header n))) 1.

Record NcaSection := {
  ns_index : Z;
  ns_range : Z * Z;
  ns_fs_header : NcaFsHeader;
  ns_bytes : list byte;
  ns_data : list byte;
}.

(** [result.ok()?] in a function that returns an [Option]. *)
Definition ok_try {E A B} (m : outcome E A) (k : A → option (option B)) : option (option B) :=
  match m with Ok a => k a | Err _ => Some None | Panic => None end.

Definition section (n : Nca) (i : Z) : option (option NcaSection) :=
  if negb (i <? Z.of_nat NCA_SECTION_COUNT) then None else
  entry ← index (section_entries (n_header n)) i;
  fs_header ← index (fs_headers (n_header n)) i;
  ok_try (section_range i entry (len (n_bytes n))) (λ range,
  match range with
  | None => Some None
  | Some (start, end_) =>
    bytes ← get_range (n_bytes n) start end_;
    ok_try (hash_type i (fh_hash_type fs_header)) (λ ht,
    ok_try (data_range i fs_header ht (len bytes)) (λ '(data_start, data_end),
    data ← get_range bytes data_start data_end;
    Some (Some {| ns_index := i; ns_range := (start, end_); ns_fs_header := fs_header;
                  ns_bytes := bytes; ns_data := data |})))
  end).

(** [(0..NCA_SECTION_COUNT).filter_map(..)], [k] slots from slot [i] on. *)
Fixpoint sections_from (k : nat) (i : Z) (n : Nca) : option (list NcaSection) :=
  match k with
  | O => Some []
  | S k =>
    s ← section n i;
    rest ← sections_from k (i + 1) n;
    Some (match s with Some s => s :: rest | None => rest end)
  end.
Definition sections (n : Nca) : option (list NcaSection) := sections_from NCA_SECTION_COUNT 0 n.

Definition fs_type (s : NcaSection) : NcaFsType :=
  if fh_fs_type (ns_fs_header s) =? fs_type_code FsPfs0 then FsPfs0 else FsRomFs.

Definition encryption (s : NcaSection) : NcaCryptType :=
  match crypt_type (ns_index s) (fh_crypt_type (ns_fs_header s)) with Ok t => t | _ => CryptNone end.

Inductive Superblock :=
| SbPfs0 (superblock : Pfs0Superblock)
| SbRomFs (superblock : RomFsSuperblock)
| Unreadable.

Definition superblock (s : NcaSection) : Superblock :=
  match hash_type (ns_index s) (fh_hash_type (ns_fs_header s)) with
  | Ok HashPfs0 =>
    match ref_from_bytes Pfs0Superblock (fh_superblock (ns_fs_header s)) with
    | Some sb => SbPfs0 sb | None => Unreadable end
  | _ =>
    match ref_from_bytes RomFsSuperblock (fh_superblock (ns_fs_header s)) with
    | Some sb => SbRomFs sb | None => Unreadable end
  end.

Definition counter (s : NcaSection) : option (option (list byte)) :=
  if negb (bool_decide (encryption s = Ctr)) then Some None else
  let offset := fst (ns_range s) in
  let counter := zeros 0x10 in
  counter ← write_from counter 0 (reverse (section_ctr (ns_fs_header s)));
  counter ← copy_from_slice counter 0x8 0x10 (be_bytes 8 (offset / 0x10));
  Some (Some counter).
End read.

(** ** Lemmas: the reader *)

Section safe.
Context `{ZC : Zerocopy}.

Lemma section_range_spec i entry available :
  wf entry →
  section_range i entry available =
    let start := media_start_offset entry * MEDIA_UNIT_SIZE in
    let end_ := media_end_offset entry * MEDIA_UNIT_SIZE in
    if end_ =? 0 then Ok None else
    if (end_ <? start) || (start <? NCA_HEADER_SIZE) then Err (SectionBoundsInvalid i start end_) else
    if available <? end_ then Err (SectionOutOfBounds i start end_ available) else Ok (Some (start, end_)).
Proof.
  intros [[Hs He] _]. cbn in Hs, He. unfold section_range, MEDIA_UNIT_SIZE. do 2 bind_step.
  cbv zeta. destruct (_ =? 0); [done|]. destruct (_ || _); [done|]. bind_cbn. by destruct (_ <? _).
Qed.

(** What construction proves of one slot. *)
Definition slot_checked (i : Z) (entry : NcaSectionEntry) (fs_header : NcaFsHeader) (available : Z) : Prop :=
  section_range i entry available = Ok None ∨
  ∃ start end_ ct ht a b,
    section_range i entry available = Ok (Some (start, end_)) ∧
    NCA_HEADER_SIZE ≤ start ∧ start ≤ end_ ∧ end_ ≤ available ∧ start mod MEDIA_UNIT_SIZE = 0 ∧
    crypt_type i (fh_crypt_type fs_header) = Ok ct ∧ hash_type i (fh_hash_type fs_header) = Ok ht ∧
    data_range i fs_header ht (end_ - start) = Ok (a, b) ∧ 0 ≤ a ≤ b ∧ b ≤ end_ - start.

(** Tries the codes of an enumeration one after the other. *)
Ltac by_code v :=
  repeat match goal with |- context [v =? ?c] => destruct (Z.eqb_spec v c); [cbn [safe]; by subst|] end; done.

Lemma crypt_type_safe i v : safe (λ ct, crypt_type i v = Ok ct ∧ crypt_type_code ct = v) (crypt_type i v).
Proof. unfold crypt_type. by_code v. Qed.

Lemma hash_type_safe i v : safe (λ ht, hash_type i v = Ok ht ∧ hash_type_code ht = v) (hash_type i v).
Proof. unfold hash_type. by_code v. Qed.

Lemma content_type_safe v : safe (λ ct, content_type_code ct = v) (content_type v).
Proof. unfold content_type. by_code v. Qed.

Lemma data_range_safe i fh ht sz :
  wf fh → safe (λ '(a, b), data_range i fh ht sz = Ok (a, b) ∧ 0 ≤ a ≤ b ∧ b ≤ sz) (data_range i fh ht sz).
Proof.
  intros Hwf. assert (safe (λ '(o, s), 0 ≤ o ∧ 0 ≤ s) (data_extent i fh ht)) as Hs.
  { unfold data_extent. destruct ht.
    - safe_step sb Hsb. rewrite ref_from_bytes_spec in Hsb. case_match; [|done]. zify_bool. simplify_eq.
      assert (wf (of_bytes (T := Pfs0Superblock) (fh_superblock fh))) as Hw by by apply wf_of_bytes.
      cbn in Hw |- *. destruct_and? Hw. lia.
    - safe_step sb Hsb. rewrite ref_from_bytes_spec in Hsb. case_match; [|done]. zify_bool. simplify_eq.
      assert (wf (of_bytes (T := RomFsSuperblock) (fh_superblock fh))) as Hw by by apply wf_of_bytes.
      set (sb := of_bytes _) in *. clearbody sb. safe_step last Hlast. safe_step lv Hlv.
      destruct Hw as [[[[_ [_ Hl]] _] _] _]. cbn in Hl. unfold index in Hlv. case_match; [|done].
      apply list_elem_of_lookup_2 in Hlv. rewrite Forall_forall in Hl. apply Hl in Hlv as [[[? ?] _] _].
      cbn in *. lia. }
  destruct (data_range i fh ht sz) as [[a b]| |] eqn:E; [|done|].
  - split; [done|]. unfold data_range in E. destruct (data_extent i fh ht) as [[o s]| |]; try done. cbn in E, Hs.
    apply bind_ok_inv in E as (e & He & E). apply ok_or_ok_inv, checked_add_inv in He as [-> ?].
    apply bind_ok_inv in E as (u & Hg & E). apply guard_err_ok_inv in Hg. zify_bool. injection E as <- <-. lia.
  - unfold data_range in E. destruct (data_extent i fh ht) as [[o s]| |]; try done. cbn in E.
    destruct (checked_add o s); [|done]. cbn in E. by destruct (_ <? _).
Qed.

Lemma check_sections_safe k i header available :
  Forall wf (section_entries header) → Forall wf (fs_headers header) → 0 ≤ i →
  i + Z.of_nat k ≤ len (section_entries header) → i + Z.of_nat k ≤ len (fs_headers header) →
  safe (λ _, ∀ j e f, i ≤ j < i + Z.of_nat k → index (section_entries header) j = Some e →
          index (fs_headers header) j = Some f → slot_checked j e f available)
    (check_sections k i header available).
Proof.
  intros He Hf. revert i. induction k as [|k IH]; intros i Hi Hle Hlf; [cbn; intros; lia|].
  cbn [check_sections]. destruct (index_in_range (section_entries header) i) as [e Hie]; [lia|].
  destruct (index_in_range (fs_headers header) i) as [f Hif]; [lia|]. rewrite Hie, Hif. bind_cbn.
  assert (wf e ∧ wf f) as [Hwe Hwf'].
  { unfold index in Hie, Hif. case_match; [|done]. rewrite Forall_forall in He. rewrite Forall_forall in Hf.
    split; [apply He|apply Hf]; by eapply list_elem_of_lookup_2. }
  assert (∀ m, safe (λ _, slot_checked i e f available) m → safe (λ _, ∀ j e f, i ≤ j < i + Z.of_nat (S k) →
    index (section_entries header) j = Some e → index (fs_headers header) j = Some f → slot_checked j e f available)
    (m ≫= λ _ : unit, check_sections k (i + 1) header available)) as Hnext.
  { intros m Hm. eapply safe_bind; [exact Hm|]. intros [] Hslot.
    eapply safe_mono; [apply IH; lia|]. intros [] Hrest j e' f' Hj Hje Hjf.
    destruct (Z.eq_dec j i) as [Hji|]; [|apply Hrest; [lia|done|done]]. subst j.
    rewrite Hie in Hje. rewrite Hif in Hjf. by simplify_eq. }
  rewrite section_range_spec by done. cbv zeta.
  pose proof (section_range_spec i e available Hwe) as Hspec. cbv zeta in Hspec.
  destruct (_ =? 0) eqn:E0; [apply (Hnext (Ok tt)); by left|].
  destruct (_ || _) eqn:E1; [done|]. destruct (available <? _) eqn:E2; [done|]. bind_cbn.
  pose proof (crypt_type_safe i (fh_crypt_type f)) as Hct. destruct (crypt_type i _) as [ct| |] eqn:Ect; [|done|done].
  pose proof (hash_type_safe i (fh_hash_type f)) as Hht. destruct (hash_type i _) as [ht| |] eqn:Eht; [|done|done].
  zify_bool. bind_cbn. bind_step. set (st := media_start_offset e * MEDIA_UNIT_SIZE) in *. set (en := media_end_offset e * MEDIA_UNIT_SIZE) in *.
  pose proof (data_range_safe i f ht (en - st) Hwf') as Hdr.
  destruct (data_range i f ht (en - st)) as [[a b]| |] eqn:Edr; [|done|done]. destruct Hdr as (_ & ? & ?).
  apply (Hnext (Ok tt)). right. exists st, en, ct, ht, a, b.
  split_and!; try done; try lia. unfold st. apply Z.mod_mul. done.
Qed.

Definition nca_ok (bytes : list byte) (n : Nca) : Prop :=
  n_bytes n = bytes ∧ wf (n_header n) ∧ NCA_HEADER_SIZE ≤ len bytes ∧
  content_type_code (n_content_type n) = nca_content_type (n_header n) ∧
  ∀ i, 0 ≤ i < 4 → ∃ e f, index (section_entries (n_header n)) i = Some e ∧
    index (fs_headers (n_header n)) i = Some f ∧ wf e ∧ wf f ∧ slot_checked i e f (len bytes).

Lemma wf_nca_tables (h : NcaHeader) :
  wf h → (length (section_entries h) = 4%nat ∧ Forall wf (section_entries h)) ∧
         (length (fs_headers h) = 4%nat ∧ Forall wf (fs_headers h)).
Proof. cbn. intros H. by destruct_and? H. Qed.

Lemma wf_index {T} `{Layout T} (l : list T) i x : Forall wf l → index l i = Some x → wf x.
Proof.
  unfold index. intros Hl Hx. case_match; [|done]. rewrite Forall_forall in Hl.
  apply Hl. by eapply list_elem_of_lookup_2.
Qed.

Lemma try_from_bytes_nca_safe bytes : safe (nca_ok bytes) (try_from_bytes bytes).
Proof.
  unfold try_from_bytes. safe_step [h r] Hh. apply ref_from_prefix_inv in Hh as (Hlen & Hwf & _).
  safe_step ? Hm. eapply safe_bind; [apply content_type_safe|]. intros ct Hct.
  destruct (wf_nca_tables h Hwf) as [[Hn1 He] [Hn2 Hf]].
  eapply safe_bind; [apply (check_sections_safe NCA_SECTION_COUNT 0 h (len bytes)); [done|done|done|unfold len, NCA_SECTION_COUNT; lia..]|].
  intros [] Hslots. cbn [safe]. unfold nca_ok. cbn [n_bytes n_header n_content_type].
  split_and!; try done. intros i Hi.
  destruct (index_in_range (section_entries h) i) as [e Hie]; [unfold len; lia|].
  destruct (index_in_range (fs_headers h) i) as [f Hif]; [unfold len; lia|].
  exists e, f. split_and!; [done|done|by eapply wf_index|by eapply wf_index|]. apply Hslots; [unfold NCA_SECTION_COUNT; lia|done|done].
Qed.

(** The accessor on a slot that construction checked. *)
Lemma section_checked n i e f :
  0 ≤ i < 4 → index (section_entries (n_header n)) i = Some e → index (fs_headers (n_header n)) i = Some f →
  slot_checked i e f (len (n_bytes n)) →
  (section_range i e (len (n_bytes n)) = Ok None ∧ section n i = Some None) ∨
  ∃ start end_ ct ht a b,
    section_range i e (len (n_bytes n)) = Ok (Some (start, end_)) ∧
    NCA_HEADER_SIZE ≤ start ≤ end_ ∧ end_ ≤ len (n_bytes n) ∧
    crypt_type i (fh_crypt_type f) = Ok ct ∧ hash_type i (fh_hash_type f) = Ok ht ∧
    data_range i f ht (end_ - start) = Ok (a, b) ∧ 0 ≤ a ≤ b ∧ b ≤ end_ - start ∧
    let bytes := ztake (end_ - start) (zdrop start (n_bytes n)) in
    section n i = Some (Some {| ns_index := i; ns_range := (start, end_); ns_fs_header := f;
                                ns_bytes := bytes; ns_data := ztake (b - a) (zdrop a bytes) |}).
Proof.
  intros Hi He Hf Hc. unfold section. change (Z.of_nat NCA_SECTION_COUNT) with 4. rewrite (proj2 (Z.ltb_lt _ _)) by lia.
  cbn [negb]. rewrite He, Hf. bind_cbn.
  destruct Hc as [Hr|(st & en & ct & ht & a & b & Hr & H1 & H2 & H3 & _ & Hct & Hht & Hdr & Hab & Hb)].
  - left. rewrite Hr. done.
  - right. exists st, en, ct, ht, a, b. unfold NCA_HEADER_SIZE in *. split_and!; try done; try lia.
    cbv zeta. rewrite Hr. cbn [ok_try]. rewrite get_range_ok by lia. bind_cbn. rewrite Hht. cbn [ok_try].
    rewrite len_ztake by (rewrite ?len_zdrop; lia). rewrite Hdr. cbn [ok_try].
    rewrite get_range_ok by (rewrite ?len_ztake; rewrite ?len_zdrop; lia). done.
Qed.

Lemma superblock_readable s : wf (ns_fs_header s) → superblock s ≠ Unreadable.
Proof.
  intros Hwf. assert (len (fh_superblock (ns_fs_header s)) = 0x138) as Hl by (cbn in Hwf; by destruct_and? Hwf).
  unfold superblock.
  rewrite (ref_from_bytes_ok (T := Pfs0Superblock)) by done.
  rewrite (ref_from_bytes_ok (T := RomFsSuperblock)) by done.
  by destruct (hash_type _ _) as [[]| |].
Qed.

Lemma counter_spec s :
  wf (ns_fs_header s) →
  counter s = Some (if decide (encryption s = Ctr)
                    then Some (counter_at (section_ctr (ns_fs_header s)) (fst (ns_range s))) else None).
Proof.
  intros Hwf. assert (len (section_ctr (ns_fs_header s)) = 8) as Hl by (cbn in Hwf; by destruct_and? Hwf).
  unfold counter. destruct (decide (encryption s = Ctr)) as [Hc|Hc].
  - rewrite bool_decide_true by done. cbn [negb].
    pose proof (section_counter_spec (section_ctr (ns_fs_header s)) (fst (ns_range s)) Hl) as Hs.
    unfold section_counter in Hs. destruct (write_from _ _ _); [|done]. cbn in Hs |- *. by rewrite Hs.
  - by rewrite bool_decide_false.
Qed.
End safe.

(** ** Properties: the reader *)

Section reader_properties.
Context `{ZC : Zerocopy}.

(** C27. Reading an untrusted archive is safe: [try_from_bytes] never panics, and in an archive it
    accepts every slot is either empty, with a zero end, or a section that lies past the header and
    inside the buffer, whose data lies inside it, whose superblock and encryption are readable, and
    which has a counter exactly when it is CTR-encrypted. An index past the fourth slot panics. *)
Theorem nca_reader_safe bytes :
  try_from_bytes bytes ≠ Panic ∧
  ∀ n, try_from_bytes bytes = Ok n →
    NCA_HEADER_SIZE ≤ len bytes ∧
    content_type_code (n_content_type n) = nca_content_type (n_header n) ∧
    is_Some (sections n) ∧ (∀ i, 4 ≤ i → section n i = None) ∧
    ∀ i, 0 ≤ i < 4 →
      (∃ e, index (section_entries (n_header n)) i = Some e ∧ media_end_offset e = 0 ∧
         section n i = Some None) ∨
      ∃ s a b, section n i = Some (Some s) ∧
        NCA_HEADER_SIZE ≤ fst (ns_range s) ≤ snd (ns_range s) ∧ snd (ns_range s) ≤ len bytes ∧
        ns_bytes s = ztake (snd (ns_range s) - fst (ns_range s)) (zdrop (fst (ns_range s)) bytes) ∧
        0 ≤ a ≤ b ∧ b ≤ len (ns_bytes s) ∧ ns_data s = ztake (b - a) (zdrop a (ns_bytes s)) ∧
        crypt_type_code (encryption s) = fh_crypt_type (ns_fs_header s) ∧ superblock s ≠ Unreadable ∧
        ∃ c, counter s = Some c ∧ (is_Some c ↔ encryption s = Ctr).
Proof.
  pose proof (try_from_bytes_nca_safe bytes) as Hs. split; [by eapply safe_no_panic|].
  intros n Hn. destruct (safe_ok _ _ _ Hs Hn) as (Hb & _ & Hlen & Hct & Hslots).
  split; [done|]. split; [done|]. subst bytes.
  assert (∀ i, 0 ≤ i < 4 → is_Some (section n i)) as Hsec.
  { intros i Hi. destruct (Hslots i Hi) as (e & f & He & Hf & _ & _ & Hc).
    destruct (section_checked n i e f Hi He Hf Hc) as [[_ ->]|(?&?&?&?&?&?&?&?&?&?&?&?&?&?& ->)]; eauto. }
  split; [|split].
  - unfold sections. cbn [NCA_SECTION_COUNT sections_from].
    destruct (Hsec 0 ltac:(lia)) as [s0 ->], (Hsec (0 + 1) ltac:(lia)) as [s1 ->],
      (Hsec (0 + 1 + 1) ltac:(lia)) as [s2 ->], (Hsec (0 + 1 + 1 + 1) ltac:(lia)) as [s3 ->].
    bind_cbn. by eexists.
  - intros i Hi. unfold section. change (Z.of_nat NCA_SECTION_COUNT) with 4. rewrite (proj2 (Z.ltb_ge _ _)) by lia. done.
  - intros i Hi. destruct (Hslots i Hi) as (e & f & He & Hf & We & Wf & Hc).
    destruct (section_checked n i e f Hi He Hf Hc)
      as [[Hr Hsn]|(st & en & ct & ht & a & b & Hr & H1 & H2 & Hct' & Hht & Hdr & Hab & Hbl & Hsn)].
    + left. exists e. split; [done|]. split; [|done]. rewrite section_range_spec in Hr by done.
      cbv zeta in Hr. unfold MEDIA_UNIT_SIZE in Hr.
      destruct (Z.eqb_spec (media_end_offset e * 512) 0) as [Hz|]; [lia|].
      destruct (_ || _); [done|]. by destruct (_ <? _).
    + right. eexists _, a, b. split; [exact Hsn|]. cbn [ns_range ns_bytes ns_data ns_fs_header fst snd].
      rewrite len_ztake by (rewrite ?len_zdrop; unfold NCA_HEADER_SIZE in *; lia).
      unfold encryption at 1. cbn [ns_index ns_fs_header]. pose proof (crypt_type_safe i (fh_crypt_type f)) as Hsf.
      rewrite Hct' in Hsf |- *. split_and!; try done; try lia.
      * apply Hsf.
      * by apply superblock_readable.
      * eexists. split; [by apply counter_spec|]. case_decide; split; intros; try done; by destruct H.
Qed.
End reader_properties.

(** ** Lemmas: reading back what the builder wrote *)

Lemma get_range_before {A} (l r : list A) a b k :
  get_range l a b = Some k → 0 ≤ a ≤ b ∧ b ≤ len l ∧ ztake (b - a) (zdrop a (l ++ r)) = k.
Proof.
  intros H. pose proof (get_range_inv _ _ _ _ H) as (Ha & Hb & _). split; [done|]. split; [done|].
  apply (get_range_app l r), get_range_inv in H as (_ & _ & H). by symmetry.
Qed.

Section read_back.
Context `{ZC : Zerocopy} `{SH : Sha256}.

Definition fs_kind (s : Section_) : NcaFsType := match sec_data s with RomFs _ => FsRomFs | Partition _ _ => FsPfs0 end.
Definition hash_kind (s : Section_) : NcaHashType :=
  match sec_data s with RomFs _ => HashRomFs | Partition _ _ => HashPfs0 end.
Definition crypt_kind (s : Section_) : NcaCryptType :=
  match sec_encryption s with EncNone => CryptNone | EncCtr => Ctr end.

(** The section an occupied slot reads back as, and what a slot reads back as. *)
Definition read_section (i off : Z) (s : Section_) : NcaSection :=
  {| ns_index := i; ns_range := (off, off + len (region (Some s))); ns_fs_header := (laid s).2;
     ns_bytes := region (Some s); ns_data := payload s |}.
Definition read_slot (i off : Z) (o : option Section_) : option NcaSection := read_section i off <$> o.

Lemma data_range_laid i s d h :
  laid_out s d h → ∃ a b,
    (∀ sz, len d ≤ sz → data_range i h (hash_kind s) sz = Ok (a, b)) ∧ get_range d a b = Some (payload s).
Proof.
  intros H. pose proof (lo_payload _ _ _ H) as Hp. pose proof (lo_len _ _ _ H) as Hl. unfold hash_kind, payload.
  unfold data_range, data_extent.
  destruct (sec_data s) as [image|archive bs].
  - destruct Hp as (t & Ht & _ & _ & -> & _ & Hlv & Hsb). unfold level in Hlv.
    destruct (index (level_headers t) 5) as [lh|] eqn:E5; [|done]. cbn in Hlv.
    exists (logical_offset lh), (logical_offset lh + hash_data_size lh). split; [|done]. intros sz Hsz.
    rewrite Hsb. bind_cbn. cbn [ivfc_header level_count ih_level_headers]. change (checked_sub 7 2) with (Some 5).
    bind_cbn. rewrite E5. bind_cbn. apply get_range_inv in Hlv as (? & ? & _). bind_step. by settle.
  - destruct Hp as (p & Hp & _ & _ & -> & Ha & Hsb). unfold archive_of in Ha.
    eexists _, _. split; [|exact Ha]. intros sz Hsz. rewrite Hsb. bind_cbn.
    apply get_range_inv in Ha as (? & ? & _). bind_step. by settle.
Qed.

Lemma slot_read i off s available :
  section_ok s → NCA_HEADER_SIZE ≤ off → off mod MEDIA_UNIT_SIZE = 0 →
  off + len (region (Some s)) ≤ available → off + len (region (Some s)) ≤ U32_MAX * MEDIA_UNIT_SIZE →
  ∃ a b, section_range i (entry_of off (Some s)) available = Ok (Some (off, off + len (region (Some s)))) ∧
    crypt_type i (fh_crypt_type (laid s).2) = Ok (crypt_kind s) ∧
    hash_type i (fh_hash_type (laid s).2) = Ok (hash_kind s) ∧
    data_range i (laid s).2 (hash_kind s) (len (region (Some s))) = Ok (a, b) ∧
    0 ≤ a ≤ b ∧ b ≤ len (region (Some s)) ∧ ztake (b - a) (zdrop a (region (Some s))) = payload s.
Proof.
  intros Hs Hoff Hmod Hav Hfit. pose proof (laid_ok s Hs) as HL. pose proof (region_bounds (Some s) Hs) as (Hrm & Hr & Hr0).
  specialize (Hr0 ltac:(done)). destruct (data_range_laid i s _ _ HL) as (a & b & Hdr & Hget). exists a, b.
  pose proof (len_pad_to_media_unit (laid s).1) as [_ Hpl]. change (pad_to_media_unit (laid s).1) with (region (Some s)) in Hpl.
  unfold NCA_HEADER_SIZE, MEDIA_UNIT_SIZE in *.
  split; [|split; [|split; [|split]]].
  - assert (wf (entry_of off (Some s))) as Hwf.
    { cbn -[region]. change (256 ^ 4) with (2 ^ 32). unfold MEDIA_UNIT_SIZE. unfold_max. split_and!; try done; div_lia. }
    rewrite section_range_spec by done. cbv zeta. cbn [entry_of media_start_offset media_end_offset].
    unfold MEDIA_UNIT_SIZE, NCA_HEADER_SIZE.
    replace (off / 512 * 512) with off by div_lia.
    replace ((off + len (region (Some s))) / 512 * 512) with (off + len (region (Some s))) by div_lia.
    by settle.
  - rewrite (lo_crypt _ _ _ HL). unfold crypt_kind. by destruct (sec_encryption s).
  - pose proof (lo_payload _ _ _ HL) as Hp. unfold hash_kind.
    destruct (sec_data s); [destruct Hp as (? & _ & _ & -> & _)|destruct Hp as (? & _ & _ & -> & _)]; done.
  - apply Hdr. lia.
  - assert (region (Some s) = pad_to_media_unit (laid s).1) as Hre by done. rewrite pad_to_media_unit_eq in Hre.
    destruct (get_range_before (laid s).1 (zeros (align_up (len (laid s).1) MEDIA_UNIT_SIZE - len (laid s).1)) a b _ Hget)
      as (? & ? & Ht). rewrite <-Hre in Ht. split; [done|]. split; [lia|done].
Qed.

Lemma check_sections_complete k i header available :
  (∀ j, i ≤ j < i + Z.of_nat k → ∃ e f, index (section_entries header) j = Some e ∧
     index (fs_headers header) j = Some f ∧ slot_checked j e f available) →
  check_sections k i header available = Ok tt.
Proof.
  revert i. induction k as [|k IH]; intros i H; [done|]. cbn [check_sections].
  destruct (H i ltac:(lia)) as (e & f & -> & -> & Hc). bind_cbn.
  assert (check_sections k (i + 1) header available = Ok tt) as Hrest by (apply IH; intros; apply H; lia).
  destruct Hc as [-> | (st & en & ct & ht & a & b & -> & H1 & H2 & H3 & _ & -> & -> & Hdr & _)]; bind_cbn; [done|].
  rewrite usub_ok by lia. bind_cbn. rewrite Hdr. bind_cbn. done.
Qed.
End read_back.

Section round_trip.
Context `{ZC : Zerocopy} `{SH : Sha256}.

Lemma entries_split off pre o post :
  entries_of off (pre ++ o :: post)
  = entries_of off pre ++ entry_of (off + len (body_of pre)) o
      :: entries_of (off + len (body_of pre) + len (region o)) post.
Proof.
  revert off. induction pre as [|p pre IH]; intros off; unfold body_of in *; cbn [app entries_of map concat].
  - by rewrite len_nil, Z.add_0_r.
  - rewrite IH, len_app, Z.add_assoc. done.
Qed.

Lemma body_split pre o post : body_of (pre ++ o :: post) = body_of pre ++ region o ++ body_of post.
Proof. unfold body_of. rewrite map_app, concat_app. done. Qed.

Lemma body_mod slots : Forall slot_ok slots → len (body_of slots) mod MEDIA_UNIT_SIZE = 0.
Proof.
  unfold body_of. induction 1 as [|o slots Ho Hok IH]; [done|]. cbn [map concat]. rewrite len_app.
  pose proof (region_bounds o Ho) as (Hr & _). unfold MEDIA_UNIT_SIZE in *. div_lia.
Qed.

(** The sections of a list of slots from slot [i] and offset [off] on. *)
Fixpoint read_slots (i off : Z) (slots : list (option Section_)) : list (option NcaSection) :=
  match slots with
  | [] => []
  | o :: slots => read_slot i off o :: read_slots (i + 1) (off + len (region o)) slots
  end.

(** A section as the caller that encrypts it sees it. *)
Definition ctr_view (s : NcaSection) : option CtrSection :=
  match counter s with
  | Some (Some c) => Some {| cs_range := (fst (ns_range s) - NCA_HEADER_SIZE, snd (ns_range s) - NCA_HEADER_SIZE);
                             cs_counter := c |}
  | _ => None
  end.

Lemma encryption_read i off s : section_ok s → encryption (read_section i off s) = crypt_kind s.
Proof.
  intros Hs. unfold encryption. cbn [ns_index ns_fs_header read_section].
  rewrite (lo_crypt _ _ _ (laid_ok s Hs)). unfold crypt_kind. by destruct (sec_encryption s).
Qed.

Lemma fs_type_read i off s : section_ok s → fs_type (read_section i off s) = fs_kind s.
Proof.
  intros Hs. pose proof (lo_payload _ _ _ (laid_ok s Hs)) as Hp. unfold fs_type, fs_kind. cbn [ns_fs_header read_section].
  destruct (sec_data s); [destruct Hp as (? & _ & -> & _)|destruct Hp as (? & _ & -> & _)]; done.
Qed.

Lemma ctr_sections_spec i off slots :
  Forall slot_ok slots → NCA_HEADER_SIZE ≤ off → off mod MEDIA_UNIT_SIZE = 0 →
  off + len (body_of slots) ≤ U32_MAX * MEDIA_UNIT_SIZE →
  ctr_sections_of (zip (entries_of off slots) (map fs_header_of slots))
    = Some (omap (λ o, o ≫= ctr_view) (read_slots i off slots)).
Proof.
  intros Hok. revert i off. induction Hok as [|o slots Ho Hok IH]; intros i off Hoff Hmod Hfit; [done|].
  unfold body_of in Hfit. cbn [map concat] in Hfit. rewrite len_app in Hfit. fold (body_of slots) in Hfit.
  pose proof (region_bounds o Ho) as (Hr & Hrl & _). pose proof (len_nonneg (body_of slots)).
  assert (ctr_sections_of (zip (entries_of (off + len (region o)) slots) (map fs_header_of slots))
    = Some (omap (λ o, o ≫= ctr_view) (read_slots (i + 1) (off + len (region o)) slots))) as Hrest.
  { apply IH; unfold MEDIA_UNIT_SIZE in *; [lia|div_lia|lia]. }
  cbn [entries_of map zip ctr_sections_of read_slots omap list_omap].
  destruct o as [s|]; [|exact Hrest]. pose proof (laid_ok s Ho) as HL. cbn [read_slot fmap option_fmap option_map].
  bind_cbn. unfold ctr_view at 1. rewrite counter_spec by exact (lo_wf _ _ _ HL). rewrite encryption_read by done.
  cbn [fs_header_of ns_fs_header ns_range read_section fst snd]. rewrite (lo_crypt _ _ _ HL), (lo_ctr _ _ _ HL).
  unfold crypt_kind. destruct (sec_encryption s); cbn [encryption_code crypt_type_code]; [exact Hrest|].
  rewrite decide_True by done. change (negb (3 =? 3)) with false. cbn match.
  cbn [entry_of media_start_offset media_end_offset].
  replace (off / MEDIA_UNIT_SIZE * MEDIA_UNIT_SIZE) with off by (unfold MEDIA_UNIT_SIZE in *; div_lia).
  unfold NCA_HEADER_SIZE, MEDIA_UNIT_SIZE in *.
  rewrite (checked_mul_ok (off / 512)), (checked_mul_ok ((off + len (region (Some s))) / 512)) by (unfold_max; div_lia).
  bind_cbn.
  replace (off / 512 * 512) with off by div_lia.
  replace ((off + len (region (Some s))) / 512 * 512) with (off + len (region (Some s))) by div_lia.
  do 2 bind_step. rewrite section_counter_spec by done. bind_cbn. rewrite Hrest. done.
Qed.

Variable b : NcaBuilder.
Hypothesis Hb : builder_ok b.
Hypothesis Ha : addressable b.

Definition image_of : list byte := as_bytes (header_of b) ++ body_of (nb_sections b).
Definition nca_of : Nca :=
  {| n_bytes := image_of; n_header := header_of b; n_content_type := nb_content_type b |}.

Lemma len_nca_image : len image_of = NCA_HEADER_SIZE + len (body_of (nb_sections b)).
Proof using Hb Ha. unfold image_of. by rewrite len_app, len_nca_header. Qed.

Lemma slot_at pre o post :
  nb_sections b = pre ++ o :: post →
  ∃ e f, index (section_entries (header_of b)) (len pre) = Some e ∧ index (fs_headers (header_of b)) (len pre) = Some f ∧
    slot_checked (len pre) e f (len image_of) ∧
    section nca_of (len pre) = Some (read_slot (len pre) (NCA_HEADER_SIZE + len (body_of pre)) o).
Proof using Hb Ha.
  intros Hsplit. pose proof len_nca_image as Hlen. pose proof (bk_sections b Hb) as [Hn Hok].
  rewrite Hsplit in Hok. apply Forall_app in Hok as [Hpre Hok]. apply Forall_cons in Hok as [Ho _].
  pose proof (body_mod pre Hpre) as Hmod. pose proof Ha as Ha'. unfold addressable in Ha'.
  pose proof (body_split pre o post) as Hbody. rewrite <-Hsplit in Hbody.
  assert (len (body_of (nb_sections b)) = len (body_of pre) + len (region o) + len (body_of post)) as Hbl
    by (rewrite Hbody, !len_app; lia).
  pose proof (len_nonneg (body_of pre)). pose proof (len_nonneg (body_of post)). pose proof (len_nonneg (region o)).
  assert (len pre < 4) as Hi by (unfold len, NCA_SECTION_COUNT in *; rewrite Hsplit, length_app in Hn; cbn in Hn; lia).
  pose proof (len_nonneg pre).
  exists (entry_of (NCA_HEADER_SIZE + len (body_of pre)) o), (fs_header_of o).
  assert (index (section_entries (header_of b)) (len pre) = Some (entry_of (NCA_HEADER_SIZE + len (body_of pre)) o)) as He.
  { cbn [header_of section_entries]. rewrite Hsplit, entries_split. apply index_app_eq.
    unfold len. by rewrite length_nca_entries. }
  assert (index (fs_headers (header_of b)) (len pre) = Some (fs_header_of o)) as Hf.
  { cbn [header_of fs_headers]. rewrite Hsplit, map_app. apply index_app_eq. by rewrite len_map. }
  split; [done|]. split; [done|].
  destruct o as [s|].
  - destruct (slot_read (len pre) (NCA_HEADER_SIZE + len (body_of pre)) s (len image_of) Ho)
      as (x & y & Hr & Hct & Hht & Hdr & Hxy & Hyl & Hdata);
      [lia|unfold NCA_HEADER_SIZE, MEDIA_UNIT_SIZE in *; div_lia|lia|lia|].
    assert (slot_checked (len pre) (entry_of (NCA_HEADER_SIZE + len (body_of pre)) (Some s)) (fs_header_of (Some s)) (len image_of)) as Hc.
    { right. do 6 eexists. split; [exact Hr|]. split; [lia|]. split; [lia|]. split; [lia|].
      split; [unfold NCA_HEADER_SIZE, MEDIA_UNIT_SIZE in *; div_lia|]. split; [exact Hct|]. split; [exact Hht|].
      rewrite Z.add_simpl_l. split; [exact Hdr|]. lia. }
    split; [done|].
    destruct (section_checked nca_of (len pre) _ _ ltac:(lia) He Hf Hc)
      as [[Hr' _]|(st & en & ct & ht & x' & y' & Hr' & _ & _ & _ & Hht' & Hdr' & _ & _ & ->)]; [cbn [n_bytes nca_of] in Hr'; by rewrite Hr in Hr'|].
    change (n_bytes nca_of) with image_of in Hr' |- *. rewrite Hr in Hr'. injection Hr' as <- <-.
    cbn [fs_header_of] in Hht', Hdr' |- *. rewrite Hht in Hht'. injection Hht' as <-.
    change (pad_to_media_unit (laid s).1) with (region (Some s)) in Hdr' |- *.
    rewrite Z.add_simpl_l in Hdr' |- *. rewrite Hdr in Hdr'. injection Hdr' as <- <-.
    assert (ztake (len (region (Some s))) (zdrop (NCA_HEADER_SIZE + len (body_of pre)) image_of) = region (Some s)) as ->.
    { unfold image_of. rewrite Hbody, app_assoc, zdrop_app_eq by by rewrite len_app, len_nca_header.
      by apply ztake_app_eq. }
    cbv zeta. rewrite Hdata. done.
  - assert (slot_checked (len pre) (entry_of (NCA_HEADER_SIZE + len (body_of pre)) None) (fs_header_of None) (len image_of)) as Hc.
    { left. reflexivity. }
    split; [done|].
    destruct (section_checked nca_of (len pre) _ _ ltac:(lia) He Hf Hc)
      as [[_ ->]|(?&?&?&?&?&?& Hr & _)]; [done|]. cbn in Hr. done.
Qed.

Lemma slot_split i o : nb_sections b !! i = Some o → ∃ pre post, nb_sections b = pre ++ o :: post ∧ len pre = Z.of_nat i.
Proof using.
  intros H. exists (take i (nb_sections b)), (drop (S i) (nb_sections b)). split; [by rewrite take_drop_middle|].
  unfold len. apply lookup_lt_Some in H. rewrite length_take. lia.
Qed.

Lemma read_nca_image : try_from_bytes image_of = Ok nca_of.
Proof using Hb Ha.
  unfold try_from_bytes.
  replace (ref_from_prefix NcaHeader image_of) with (Some (header_of b, body_of (nb_sections b)))
    by (symmetry; apply ref_from_prefix_as_bytes; by apply wf_nca_header).
  bind_cbn. change (nca_magic (header_of b)) with NCA3_MAGIC. rewrite Z.eqb_refl. cbn [negb]. bind_cbn.
  assert (content_type (nca_content_type (header_of b)) = Ok (nb_content_type b)) as ->.
  { cbn [header_of nca_content_type]. by destruct (nb_content_type b). }
  bind_cbn. rewrite check_sections_complete; [done|]. intros j Hj. unfold NCA_SECTION_COUNT in Hj.
  pose proof (bk_sections b Hb) as [Hn _]. unfold NCA_SECTION_COUNT in Hn.
  destruct (lookup_lt_is_Some_2 (nb_sections b) (Z.to_nat j)) as [o Ho]; [lia|].
  destruct (slot_split _ _ Ho) as (pre & post & Hsplit & Hl). rewrite Z2Nat.id in Hl by lia. subst j.
  destruct (slot_at pre o post Hsplit) as (e & f & He & Hf & Hc & _). by exists e, f.
Qed.

Lemma sections_from_spec pre post :
  nb_sections b = pre ++ post →
  sections_from (length post) (len pre) nca_of
    = Some (omap id (read_slots (len pre) (NCA_HEADER_SIZE + len (body_of pre)) post)).
Proof using Hb Ha.
  revert pre. induction post as [|o post IH]; intros pre Hsplit; [done|].
  destruct (slot_at pre o post Hsplit) as (_ & _ & _ & _ & _ & Hs). cbn [length sections_from read_slots].
  rewrite Hs. bind_cbn. specialize (IH (pre ++ [o])). rewrite <-app_assoc in IH. specialize (IH Hsplit).
  assert (len (pre ++ [o]) = len pre + 1) as El by (rewrite len_app; unfold len; cbn; lia).
  assert (len (body_of (pre ++ [o])) = len (body_of pre) + len (region o)) as Eb.
  { rewrite body_split, !len_app. change (len (body_of [])) with 0. lia. }
  rewrite El, Eb, Z.add_assoc in IH. rewrite IH. bind_cbn. cbn [omap list_omap].
  by destruct o as [s|].
Qed.
End round_trip.

Section properties.
Context `{ZC : Zerocopy} `{SH : Sha256}.

Lemma key_generation_split g :
  1 ≤ kg_value g ≤ MAX_KEY_GENERATION →
  Z.max (Z.max (split_key_generation g).1 (split_key_generation g).2) 1 = kg_value g.
Proof.
  destruct g as [v]. cbn. intros Hv. unfold split_key_generation. cbn [to_u8 kg_value].
  destruct v as [|[|[]|]|]; cbn; lia.
Qed.

Lemma sections_from_elem k i n secs :
  sections_from k i n = Some secs →
  Forall (λ s, ∃ j, i ≤ j < i + Z.of_nat k ∧ section n j = Some (Some s)) secs.
Proof.
  revert i secs. induction k as [|k IH]; intros i secs; cbn [sections_from]; [intros [= <-]; constructor|].
  destruct (section n i) as [o|] eqn:Es; [|done]. bind_cbn.
  destruct (sections_from k (i + 1) n) as [rest|] eqn:Er; [|done]. bind_cbn. intros [= <-].
  assert (Forall (λ s, ∃ j, i ≤ j < i + Z.of_nat (S k) ∧ section n j = Some (Some s)) rest) as Hrest.
  { eapply Forall_impl; [by eapply IH|]. intros s (j & Hj & Hs). exists j. split; [lia|done]. }
  destruct o as [s|]; [|done]. constructor; [|done]. exists i. split; [lia|done].
Qed.

(** What the reader should find in the superblock of a section. *)
Definition superblock_expected (s : Section_) (sb : Superblock) : Prop :=
  match sec_data s with
  | RomFs image => ∃ tree r, Ivfc.build image = Some tree ∧ sb = SbRomFs r ∧
      ih_level_headers (ivfc_header r) = level_headers tree ∧ ih_master_hash (ivfc_header r) = master_hash tree
  | Partition archive bs => ∃ built, Partition.build archive bs = Some built ∧
      sb = SbPfs0 (Partition.superblock built)
  end.

(** C5. A built archive reads back as it was configured: the reader accepts the image, gives back
    the content type, title, SDK version, size, key generation and key area, an empty slot where
    nothing was placed, and for each placed section its payload with the hash structure stripped,
    its filesystem and encryption, the superblock the hash structure calls for, media-aligned bounds,
    and an FS header covered by the digest in the table of section hashes. *)
Theorem nca_round_trip b :
  builder_ok b → addressable b →
  ∃ p image n, build b = Ok p ∧ to_bytes p = Some image ∧ try_from_bytes image = Ok n ∧
    n_content_type n = nb_content_type b ∧ title_id n = nb_title_id b ∧
    nca_sdk_version (n_header n) = nb_sdk_version b ∧ read_nca_size n = len image ∧
    key_generation n = kg_value (nb_key_generation b) ∧ encrypted_keys (n_header n) = nb_key_area b ∧
    (∀ i, nb_sections b !! i = Some None → section n (Z.of_nat i) = Some None) ∧
    ∀ i s, nb_sections b !! i = Some (Some s) → ∃ sec, section n (Z.of_nat i) = Some (Some sec) ∧
      ns_data sec = payload s ∧ fs_type sec = fs_kind s ∧ encryption sec = crypt_kind s ∧
      superblock_expected s (superblock sec) ∧
      fst (ns_range sec) mod MEDIA_UNIT_SIZE = 0 ∧ snd (ns_range sec) mod MEDIA_UNIT_SIZE = 0 ∧
      index (section_hashes (n_header n)) (Z.of_nat i) = Some (sha256 (as_bytes (ns_fs_header sec))).
Proof.
  intros Hb Ha. destruct (nca_to_bytes_spec b Hb Ha) as (p & Hp & _ & Hi).
  exists p, (image_of b), (nca_of b). split; [done|]. split; [done|]. split; [by apply read_nca_image|].
  do 3 (split; [done|]). split; [symmetry; by apply len_nca_image|].
  split; [by apply key_generation_split, (bk_generation b Hb)|]. split; [done|]. split.
  - intros i Ho. destruct (slot_split b i None Ho) as (pre & post & Hs & <-).
    by destruct (slot_at b Hb Ha pre None post Hs) as (_ & _ & _ & _ & _ & ->).
  - intros i s Ho. destruct (slot_split b i (Some s) Ho) as (pre & post & Hs & <-).
    destruct (slot_at b Hb Ha pre (Some s) post Hs) as (_ & _ & _ & _ & _ & ->).
    eexists. split; [reflexivity|]. pose proof (bk_sections b Hb) as [Hn Hok]. rewrite Hs in Hok.
    apply Forall_app in Hok as [Hpre Hok]. apply Forall_cons in Hok as [Hso _]. cbn in Hso.
    pose proof (laid_ok s Hso) as HL. pose proof (lo_payload _ _ _ HL) as Hpl.
    pose proof (body_mod pre Hpre) as Hmod. pose proof (region_bounds (Some s) Hso) as (Hr & _).
    split; [done|]. split; [by apply fs_type_read|]. split; [by apply encryption_read|split; [|split; [|split]]].
    + unfold superblock_expected, superblock. cbn [ns_fs_header ns_index read_section].
      destruct (sec_data s).
      * destruct Hpl as (t & Ht & _ & -> & _ & _ & _ & ->). by eexists t, _.
      * destruct Hpl as (t & Ht & _ & -> & _ & _ & ->). by exists t.
    + cbn [ns_range read_section fst]. unfold NCA_HEADER_SIZE, MEDIA_UNIT_SIZE in *. div_lia.
    + cbn [ns_range read_section snd]. unfold NCA_HEADER_SIZE, MEDIA_UNIT_SIZE in *. div_lia.
    + cbn [nca_of n_header header_of section_hashes]. rewrite Hs, map_app. apply index_app_eq. by rewrite len_map.
Qed.

(** C21. What the builder tells the caller to encrypt is what the reader decrypts: [ctr_sections]
    succeeds and lists, in order, exactly the sections the reader finds to be CTR-encrypted, each
    with its bounds in the body, where its bytes are, and the counter the reader derives for it. *)
Theorem nca_ctr_sections b :
  builder_ok b → addressable b →
  ∃ p image n secs, build b = Ok p ∧ to_bytes p = Some image ∧ try_from_bytes image = Ok n ∧
    sections n = Some secs ∧ ctr_sections p = Some (omap ctr_view secs) ∧
    Forall (λ s, get_range (pn_body p) (fst (ns_range s) - NCA_HEADER_SIZE) (snd (ns_range s) - NCA_HEADER_SIZE)
                   = Some (ns_bytes s)) secs.
Proof.
  intros Hb Ha. destruct (nca_to_bytes_spec b Hb Ha) as (p & Hp & Hpe & Hi).
  pose proof (bk_sections b Hb) as [Hn Hok]. pose proof (sections_from_spec b Hb Ha [] (nb_sections b) eq_refl) as Hsec.
  rewrite Hn in Hsec.
  exists p, (image_of b), (nca_of b), (omap id (read_slots 0 (NCA_HEADER_SIZE + 0) (nb_sections b))).
  split; [done|]. split; [done|]. split; [by apply read_nca_image|]. split; [exact Hsec|]. split.
  - subst p. unfold ctr_sections. cbn [pn_header header_of section_entries fs_headers].
    unfold addressable in Ha. rewrite (ctr_sections_spec 0) by done. f_equal.
    rewrite Z.add_0_r. induction (read_slots 0 NCA_HEADER_SIZE (nb_sections b)) as [|[s|] l IH]; [done| |done].
    cbn [omap list_omap id]. cbn. destruct (ctr_view s); [by f_equal|done].
  - eapply Forall_impl; [exact (sections_from_elem _ _ _ _ Hsec)|]. intros s (j & Hj & Hs).
    unfold NCA_SECTION_COUNT in Hj. rewrite len_nil in Hj.
    destruct (lookup_lt_is_Some_2 (nb_sections b) (Z.to_nat j)) as [o Ho]; [rewrite Hn; unfold NCA_SECTION_COUNT; lia|].
    destruct (slot_split b _ _ Ho) as (pre & post & Hsplit & Hl). rewrite Z2Nat.id in Hl by lia. subst j.
    destruct (slot_at b Hb Ha pre o post Hsplit) as (_ & _ & _ & _ & _ & Hs'). rewrite Hs in Hs'. injection Hs' as Hs'.
    destruct o as [s0|]; [|done]. injection Hs' as ->. subst p. cbn [pn_body ns_range read_section fst snd ns_bytes].
    rewrite Hsplit, body_split. apply get_range_mid; lia.
Qed.
End properties.

(** ** Witnesses *)

Lemma nca_round_trip_witness : ∃ image n sec,
  @try_from_bytes zerocopy_reference image = Ok n ∧ @section zerocopy_reference n 1 = Some (Some sec) ∧
  ns_data sec = [x52; x6f; x6d; x46; x73] ∧ encryption sec = Ctr ∧ key_generation n = 5.
Proof.
  destruct (@nca_round_trip zerocopy_reference sha256_reference sample_nca sample_builder_ok sample_addressable)
    as (p & image & n & _ & _ & Hn & _ & _ & _ & _ & Hk & _ & _ & Hs).
  destruct (Hs 1%nat sample_romfs eq_refl) as (sec & Hsec & Hd & _ & He & _).
  exists image, n, sec. split; [assumption|]. split; [exact Hsec|]. split; [exact Hd|]. split; [exact He|exact Hk].
Defined.

Lemma nca_ctr_sections_witness : ∃ p n secs,
  @build zerocopy_reference sha256_reference sample_nca = Ok p ∧ @sections zerocopy_reference n = Some secs ∧
  ctr_sections p = Some (omap ctr_view secs).
Proof.
  destruct (@nca_ctr_sections zerocopy_reference sha256_reference sample_nca sample_builder_ok sample_addressable)
    as (p & image & n & secs & Hp & _ & _ & Hs & Hc & _).
  exists p, n, secs. split; [exact Hp|]. split; [exact Hs|exact Hc].
Defined.
