(* ===== verification/RomFsRaw.v ===== *)
(** * RomFS structures: [raw/romfs.rs]

    The header that locates the tables, the directory and file entries whose names follow them, and
    the hash that chains the entries of a bucket. *)

From S2P Require Import Prelude Bytes Layout.
#[local] Open Scope Z_scope.

Definition NO_ENTRY : Z := 0xFFFFFFFF.

Record RomFsHeader := {
  header_size : Z;
  dir_hash_table_offset : Z;
  dir_hash_table_size : Z;
  dir_meta_table_offset : Z;
  dir_meta_table_size : Z;
  file_hash_table_offset : Z;
  file_hash_table_size : Z;
  file_meta_table_offset : Z;
  file_meta_table_size : Z;
  file_data_offset : Z;
}.
#[export] Instance RomFsHeader_layout : Layout RomFsHeader.
Proof.
  refine (L_struct (u64 ⊗ u64 ⊗ u64 ⊗ u64 ⊗ u64 ⊗ u64 ⊗ u64 ⊗ u64 ⊗ u64 ⊗ u64)%layout
    (λ '(a, b, c, d, e, f, g, h, i, j), Build_RomFsHeader a b c d e f g h i j)
    (λ x, (header_size x, dir_hash_table_offset x, dir_hash_table_size x, dir_meta_table_offset x,
           dir_meta_table_size x, file_hash_table_offset x, file_hash_table_size x,
           file_meta_table_offset x, file_meta_table_size x, file_data_offset x)) _ _); solve_struct.
Defined.

Record RomFsDirEntry := {
  de_parent_offset : Z;
  de_sibling_offset : Z;
  de_child_offset : Z;
  de_file_offset : Z;
  de_hash_sibling_offset : Z;
  de_name_len : Z;
}.
#[export] Instance RomFsDirEntry_layout : Layout RomFsDirEntry.
Proof.
  refine (L_struct (u32 ⊗ u32 ⊗ u32 ⊗ u32 ⊗ u32 ⊗ u32)%layout
    (λ '(a, b, c, d, e, f), Build_RomFsDirEntry a b c d e f)
    (λ x, (de_parent_offset x, de_sibling_offset x, de_child_offset x, de_file_offset x,
           de_hash_sibling_offset x, de_name_len x)) _ _); solve_struct.
Defined.

Record RomFsFileEntry := {
  fe_parent_offset : Z;
  fe_sibling_offset : Z;
  fe_data_offset : Z;
  fe_data_size : Z;
  fe_hash_sibling_offset : Z;
  fe_name_len : Z;
}.
#[export] Instance RomFsFileEntry_layout : Layout RomFsFileEntry.
Proof.
  refine (L_struct (u32 ⊗ u32 ⊗ u64 ⊗ u64 ⊗ u32 ⊗ u32)%layout
    (λ '(a, b, c, d, e, f), Build_RomFsFileEntry a b c d e f)
    (λ x, (fe_parent_offset x, fe_sibling_offset x, fe_data_offset x, fe_data_size x,
           fe_hash_sibling_offset x, fe_name_len x)) _ _); solve_struct.
Defined.

(** The sizes the source asserts. *)
Lemma romfs_sizes : size_of RomFsHeader = 0x50 ∧ size_of RomFsDirEntry = 0x18 ∧ size_of RomFsFileEntry = 0x20.
Proof. done. Qed.

(** [u32::rotate_right]. *)
Definition rotate_right (x n : Z) : Z := Z.lor (Z.shiftr x n) (as_u32 (Z.shiftl x (32 - n))).

Fixpoint path_hash_loop (hash : Z) (name : list byte) : Z :=
  match name with
  | [] => hash
  | b :: name => path_hash_loop (Z.lxor (rotate_right hash 5) (b2z b)) name
  end.
Definition path_hash (parent_offset : Z) (name : list byte) : Z :=
  path_hash_loop (Z.lxor parent_offset 123456789) name.

(** The constant the tests of the source pin: [ファイル] under the root. *)
Example path_hash_multi_byte :
  path_hash 0 [xe3; x83; x95; xe3; x82; xa1; xe3; x82; xa4; xe3; x83; xab] = 0xF3B584EB.
Proof. reflexivity. Qed.
Example path_hash_empty : path_hash 0 [] = 123456789.
Proof. reflexivity. Qed.

Lemma lxor_u32 a b : 0 ≤ a < 2 ^ 32 → 0 ≤ b < 2 ^ 32 → 0 ≤ Z.lxor a b < 2 ^ 32.
Proof.
  intros Ha Hb. assert (0 ≤ Z.lxor a b) as H0 by (apply Z.lxor_nonneg; lia). split; [done|].
  destruct (Z.eq_dec (Z.lxor a b) 0) as [->|]; [done|]. apply Z.log2_lt_pow2; [lia|].
  pose proof (Z.log2_lxor a b (proj1 Ha) (proj1 Hb)). assert (Z.log2 a < 32 ∧ Z.log2 b < 32); [|lia].
  split; (apply (Z.le_lt_trans _ (Z.log2 (2 ^ 32 - 1))); [apply Z.log2_le_mono; lia|done]).
Qed.

Lemma rotate_right_range x n : 0 ≤ x < 2 ^ 32 → 0 ≤ n ≤ 32 → 0 ≤ rotate_right x n < 2 ^ 32.
Proof.
  intros Hx Hn. unfold rotate_right, as_u32.
  set (b := Z.shiftl x (32 - n) mod 2 ^ 32). assert (0 ≤ b < 2 ^ 32) as Hb by (apply Z.mod_pos_bound; done).
  assert (0 ≤ Z.shiftr x n < 2 ^ 32) as Ha.
  { rewrite Z.shiftr_div_pow2 by lia. assert (0 < 2 ^ n) by (apply Z.pow_pos_nonneg; lia).
    split; [apply Z.div_pos; lia|]. apply Z.div_lt_upper_bound; nia. }
  split; [apply Z.lor_nonneg; lia|].
  destruct (Z.eq_dec (Z.lor (Z.shiftr x n) b) 0) as [->|]; [done|].
  apply Z.log2_lt_pow2; [pose proof (proj2 (Z.lor_nonneg (Z.shiftr x n) b) ltac:(lia)); lia|].
  rewrite Z.log2_lor by lia. apply Z.max_lub_lt;
    (apply (Z.le_lt_trans _ (Z.log2 (2 ^ 32 - 1))); [apply Z.log2_le_mono; lia|done]).
Qed.

(** The hash is a [u32], so its bucket is a slot of any table. *)
Lemma path_hash_range parent name : is_u32 parent → is_u32 (path_hash parent name).
Proof.
  intros Hp. unfold path_hash, is_u32, U32_MAX in *.
  assert (0 ≤ Z.lxor parent 123456789 < 2 ^ 32) as Hs by (apply lxor_u32; lia).
  enough (∀ h, 0 ≤ h < 2 ^ 32 → 0 ≤ path_hash_loop h name < 2 ^ 32) as H by (specialize (H _ Hs); lia).
  clear. induction name as [|b name IH]; intros h Hh; [done|]. cbn [path_hash_loop]. apply IH.
  apply lxor_u32; [by apply rotate_right_range|]. pose proof (b2z_range b). lia.
Qed.
