(* ===== verification/RomFsTree.v ===== *)
(** * The tree of a RomFS builder: [write/romfs.rs], [add_file]

    Directories and files in two vectors that refer to each other by index, grown one path at a time.
    [wf_tree] is the invariant the vectors keep. Seen from outside, the builder is a finite map from
    paths to contents: [add_file] refines the insertion of [Spec]. *)

From stdpp Require Import gmap.
From S2P Require Import Prelude Bytes Strs Fs.
#[local] Open Scope Z_scope.

(** ** Definitions *)

Record DirEntry := {
  d_path : list byte;
  d_name : list byte;
  d_entry_offset : Z;
  d_children : list nat;
  d_files : list nat;
  d_parent : nat;
}.
#[export] Instance eta_DirEntry : Eta DirEntry := λ d,
  Build_DirEntry (d_path d) (d_name d) (d_entry_offset d) (d_children d) (d_files d) (d_parent d).

Record FileEntry := {
  f_path : list byte;
  f_name : list byte;
  f_data : list byte;
  f_entry_offset : Z;
  f_data_offset : Z;
  f_parent : nat;
}.
#[export] Instance eta_FileEntry : Eta FileEntry := λ f,
  Build_FileEntry (f_path f) (f_name f) (f_data f) (f_entry_offset f) (f_data_offset f) (f_parent f).

Record RomFsBuilder := {
  rb_dirs : list DirEntry;
  rb_files : list FileEntry;
  rb_dir_hash_siblings : list Z;
  rb_file_hash_siblings : list Z;
}.
#[export] Instance eta_RomFsBuilder : Eta RomFsBuilder := λ b,
  Build_RomFsBuilder (rb_dirs b) (rb_files b) (rb_dir_hash_siblings b) (rb_file_hash_siblings b).

Inductive BuildError :=
| Empty
| InvalidPath (path : list byte)
| DuplicateEntry (path : list byte).

Definition RomFsBuilder_new : RomFsBuilder :=
  {| rb_dirs := [{| d_path := []; d_name := []; d_entry_offset := 0; d_children := []; d_files := [];
                    d_parent := 0%nat |}];
     rb_files := []; rb_dir_hash_siblings := []; rb_file_hash_siblings := [] |}.

(** [str::split('/')]. *)
Fixpoint split_slash (l : list byte) : list (list byte) :=
  match l with
  | [] => [[]]
  | x2f :: l => [] :: split_slash l
  | b :: l => match split_slash l with [] => [[b]] | c :: cs => (b :: c) :: cs end
  end.

Definition nonempty (l : list byte) : bool := match l with [] => false | _ => true end.

(** The components of an absolute path; [None] when it is not absolute. *)
Definition path_components (path : list byte) : option (list (list byte)) :=
  match path with
  | x2f :: rest => Some (filter (λ c, nonempty c = true) (split_slash rest))
  | _ => None
  end.

(** [children.iter().find(|&&idx| self.dirs[idx].name == name)]; the outer [None] is a panic. *)
Fixpoint find_child (dirs : list DirEntry) (children : list nat) (name : list byte)
    : option (option nat) :=
  match children with
  | [] => Some None
  | idx :: children =>
    dir ← dirs !! idx;
    if bool_decide (d_name dir = name) then Some (Some idx) else find_child dirs children name
  end.

(** One round of the loop over the directory components: the child of [current_dir] by that name,
    created when there is none. *)
Definition enter_dir (dirs : list DirEntry) (current_dir : nat) (dir_name : list byte)
    : option (list DirEntry * nat) :=
  current ← dirs !! current_dir;
  child_idx ← find_child dirs (d_children current) dir_name;
  match child_idx with
  | Some idx => Some (dirs, idx)
  | None =>
    let dir_path := d_path current ++ x2f :: dir_name in
    let new_idx := length dirs in
    let dirs := dirs ++ [{| d_path := dir_path; d_name := dir_name; d_entry_offset := 0;
                            d_children := []; d_files := []; d_parent := current_dir |}] in
    current ← dirs !! current_dir;
    Some (<[current_dir := current <| d_children := d_children current ++ [new_idx] |>]> dirs, new_idx)
  end.

Fixpoint enter_dirs (dirs : list DirEntry) (current_dir : nat) (components : list (list byte))
    : option (list DirEntry * nat) :=
  match components with
  | [] => Some (dirs, current_dir)
  | component :: components =>
    '(dirs, current_dir) ← enter_dir dirs current_dir component;
    enter_dirs dirs current_dir components
  end.

(** The duplicate check: does one of the files by index have the name? *)
Fixpoint has_file (files : list FileEntry) (indices : list nat) (name : list byte) : option bool :=
  match indices with
  | [] => Some false
  | idx :: indices =>
    file ← files !! idx;
    if bool_decide (f_name file = name) then Some true else has_file files indices name
  end.

Definition add_file (b : RomFsBuilder) (path data : list byte) : outcome BuildError RomFsBuilder :=
  components ← ok_or (path_components path) (InvalidPath path);
  file_name ← ok_or (last components) (InvalidPath path);
  let dir_components := take (length components - 1) components in
  '(dirs, current_dir) ← or_panic (enter_dirs (rb_dirs b) 0 dir_components);
  current ← or_panic (dirs !! current_dir);
  duplicate ← or_panic (has_file (rb_files b) (d_files current) file_name);
  _ ← guard_err duplicate (DuplicateEntry path);
  let file_path := d_path current ++ x2f :: file_name in
  let file_idx := length (rb_files b) in
  let files := rb_files b ++ [{| f_path := file_path; f_name := file_name; f_data := data;
                                 f_entry_offset := 0; f_data_offset := 0; f_parent := current_dir |}] in
  let dirs := <[current_dir := current <| d_files := d_files current ++ [file_idx] |>]> dirs in
  Ok (b <| rb_dirs := dirs |> <| rb_files := files |>).

(** ** The specification: a map from component lists to contents *)

#[export] Instance byte_countable : Countable byte :=
  inj_countable Strings.Byte.to_N Strings.Byte.of_N Strings.Byte.of_to_N.

Module Spec.
Notation state := (gmap (list (list byte)) (list byte)).
Definition new : state := ∅.
Definition add_file (m : state) (path data : list byte) : outcome BuildError state :=
  match path_components path with
  | None | Some [] => Err (InvalidPath path)
  | Some components =>
    match m !! components with
    | Some _ => Err (DuplicateEntry path)
    | None => Ok (<[components := data]> m)
    end
  end.
Fixpoint add_files (m : state) (additions : list (list byte * list byte)) : outcome BuildError state :=
  match additions with
  | [] => Ok m
  | (path, data) :: additions => m ← add_file m path data; add_files m additions
  end.
End Spec.

(** A chain of [add_file]s, each followed by [?]. *)
Fixpoint add_files (b : RomFsBuilder) (additions : list (list byte * list byte)) : outcome BuildError RomFsBuilder :=
  match additions with
  | [] => Ok b
  | (path, data) :: additions => b ← add_file b path data; add_files b additions
  end.

(** ** The invariant of the vectors *)

(** The text of a component list: [/a/b]. *)
Definition join (components : list (list byte)) : list byte := concat (map (cons x2f) components).

Record wf_tree (dirs : list DirEntry) (files : list FileEntry) : Prop := {
  wt_root : ∃ r, dirs !! 0%nat = Some r ∧ d_path r = [] ∧ d_name r = [] ∧ d_parent r = 0%nat;
  wt_dir : ∀ c e, dirs !! c = Some e → c ≠ 0%nat →
    ∃ p, dirs !! d_parent e = Some p ∧ d_path e = d_path p ++ x2f :: d_name e ∧ name_ok (d_name e);
  wt_file : ∀ i f, files !! i = Some f →
    ∃ p, dirs !! f_parent f = Some p ∧ f_path f = d_path p ++ x2f :: f_name f ∧ name_ok (f_name f);
  wt_children : ∀ d e, dirs !! d = Some e →
    NoDup (d_children e) ∧ ∀ c, c ∈ d_children e ↔ c ≠ 0%nat ∧ (d_parent <$> dirs) !! c = Some d;
  wt_files : ∀ d e, dirs !! d = Some e →
    NoDup (d_files e) ∧ ∀ i, i ∈ d_files e ↔ (f_parent <$> files) !! i = Some d;
  wt_dir_paths : NoDup (d_path <$> dirs);
  wt_file_paths : NoDup (f_path <$> files);
}.

(** The builder holds the map and the directories: its files are the map's entries. *)
Record represents (b : RomFsBuilder) (m : Spec.state) (D : list (list byte) → Prop) : Prop := {
  rp_wf : wf_tree (rb_dirs b) (rb_files b);
  rp_file : ∀ cs x, m !! cs = Some x ↔
    Forall name_ok cs ∧ ∃ f, f ∈ rb_files b ∧ f_path f = join cs ∧ f_data f = x;
  rp_dir : ∀ p, p ∈ d_path <$> rb_dirs b ↔ ∃ ds, D ds ∧ p = join ds;
  rp_names : ∀ ds, D ds → Forall name_ok ds;
}.

(** The directories the files of a map imply: the root, and the proper prefixes of the keys. *)
Definition is_dir (m : Spec.state) (ds : list (list byte)) : Prop :=
  ds = [] ∨ ∃ ds' x, ds' ≠ [] ∧ m !! (ds ++ ds') = Some x.

(** ** Lemmas: paths and components *)

Lemma path_split p q n m :
  x2f ∉ n → x2f ∉ m → p ++ x2f :: n = q ++ x2f :: m → p = q ∧ n = m.
Proof.
  intros Hn Hm H. apply app_eq_app in H as (k & [[-> H]|[-> H]]);
    (destruct k as [|b k]; [rewrite app_nil_r; cbn in H; by simplify_eq|]);
    cbn in H; simplify_eq; exfalso; set_solver.
Qed.

Lemma join_app cs ds : join (cs ++ ds) = join cs ++ join ds.
Proof. unfold join. by rewrite map_app, concat_app. Qed.
Lemma join_snoc cs n : join (cs ++ [n]) = join cs ++ x2f :: n.
Proof. rewrite join_app. unfold join. cbn. by rewrite app_nil_r. Qed.

(** Names determine the path, and the path the names. *)
Lemma join_inj cs ds :
  Forall (λ n, x2f ∉ n) cs → Forall (λ n, x2f ∉ n) ds → join cs = join ds → cs = ds.
Proof.
  revert ds. induction cs as [|n cs IH] using rev_ind; intros ds Hcs Hds H.
  { destruct ds as [|m ds]; [done|]. by cbn in H. }
  destruct ds as [|m ds _] using rev_ind.
  { rewrite join_snoc in H. by destruct (join cs). }
  rewrite !join_snoc in H. apply Forall_app in Hcs as [Hcs Hn], Hds as [Hds Hm].
  apply Forall_cons in Hn as [Hn _], Hm as [Hm _].
  apply path_split in H as [H ->]; [|done|done]. by rewrite (IH ds).
Qed.

Lemma name_ok_no_slash n : name_ok n → x2f ∉ n.
Proof. by intros (_ & H & _). Qed.
Lemma names_no_slash cs : Forall name_ok cs → Forall (λ n, x2f ∉ n) cs.
Proof. intros H. eapply Forall_impl; [exact H|apply name_ok_no_slash]. Qed.

Lemma split_slash_spec l :
  ∃ c cs, split_slash l = c :: cs ∧ l = c ++ join cs ∧ Forall (λ n, x2f ∉ n) (c :: cs).
Proof.
  induction l as [|b l (c & cs & Hs & -> & Hf)].
  { exists [], []. split_and!; [done|done|]. repeat constructor. set_solver. }
  destruct (decide (b = x2f)) as [->|Hb].
  - exists [], (c :: cs). cbn [split_slash]. rewrite Hs. split_and!; [done|done|].
    constructor; [set_solver|done].
  - exists (b :: c), cs. apply Forall_cons in Hf as [Hc Hf]. split_and!; [|done|].
    2: { constructor; [|done]. apply not_elem_of_cons. by split. }
    assert (split_slash (b :: c ++ join cs) =
      match split_slash (c ++ join cs) with [] => [[b]] | c :: cs => (b :: c) :: cs end) as -> by (by destruct b).
    by rewrite Hs.
Qed.

Lemma split_slash_join c cs :
  Forall (λ n, x2f ∉ n) (c :: cs) → split_slash (c ++ join cs) = c :: cs.
Proof.
  intros H. destruct (split_slash_spec (c ++ join cs)) as (d & ds & -> & He & Hd).
  apply (join_inj (d :: ds)); [done|done|]. change (x2f :: d ++ join ds = x2f :: c ++ join cs). by rewrite He.
Qed.

Lemma utf8_valid_join c cs :
  utf8_valid (c ++ join cs) = true → Forall (λ n, utf8_valid n = true) (c :: cs).
Proof.
  revert c. induction cs as [|d cs IH]; intros c H; cbn in H.
  { rewrite app_nil_r in H. by repeat constructor. }
  apply utf8_valid_split in H as [Hc H]; [|done]. constructor; [done|by apply IH].
Qed.

Lemma nonempty_ne n : nonempty n = true ↔ n ≠ [].
Proof. by destruct n. Qed.

(** The components of a path are names, and a name list is the components of its own path. *)
Lemma path_components_ok path cs :
  utf8_valid path = true → path_components path = Some cs → Forall name_ok cs.
Proof.
  intros Hu Hp. unfold path_components in Hp. destruct path as [|b rest]; [done|].
  destruct (decide (b = x2f)) as [->|Hb]; [|by destruct b].
  injection Hp as <-. destruct (split_slash_spec rest) as (c & cs & -> & -> & Hf).
  change (x2f :: c ++ join cs) with ([] ++ join (c :: cs)) in Hu.
  apply utf8_valid_join, Forall_cons in Hu as [_ Hu].
  apply Forall_forall. intros n [Hn%nonempty_ne Hin]%list_elem_of_filter.
  rewrite Forall_forall in Hf, Hu. split_and!; [done|by apply Hf|by apply Hu].
Qed.

Lemma path_components_join cs : Forall name_ok cs → cs ≠ [] → path_components (join cs) = Some cs.
Proof.
  intros Hcs Hne. destruct cs as [|c cs]; [done|]. cbn [join map concat app path_components].
  change (concat (map (cons x2f) cs)) with (join cs).
  rewrite split_slash_join by (by apply names_no_slash). f_equal.
  clear Hne. induction Hcs as [|n ns [Hn _] _ IH]; [done|].
  rewrite filter_cons_True by (by apply nonempty_ne). by rewrite IH.
Qed.

(** ** Lemmas: the invariant *)

Section wf.
Context {dirs : list DirEntry} {files : list FileEntry} (Hwf : wf_tree dirs files).

Lemma wf_dir_inj c c' e e' :
  dirs !! c = Some e → dirs !! c' = Some e' → d_path e = d_path e' → c = c'.
Proof using Hwf.
  intros Hc Hc' He. eapply NoDup_lookup; [apply (wt_dir_paths _ _ Hwf)| |];
    rewrite list_lookup_fmap; [by rewrite Hc|by rewrite Hc'; cbn; rewrite <-He].
Qed.

Lemma wf_file_inj i i' f f' :
  files !! i = Some f → files !! i' = Some f' → f_path f = f_path f' → i = i'.
Proof using Hwf.
  intros Hi Hi' He. eapply NoDup_lookup; [apply (wt_file_paths _ _ Hwf)| |];
    rewrite list_lookup_fmap; [by rewrite Hi|by rewrite Hi'; cbn; rewrite <-He].
Qed.

Lemma wf_child d e c :
  dirs !! d = Some e → c ∈ d_children e →
  ∃ e', dirs !! c = Some e' ∧ c ≠ 0%nat ∧ d_parent e' = d ∧
    d_path e' = d_path e ++ x2f :: d_name e' ∧ name_ok (d_name e').
Proof using Hwf.
  intros Hd Hc. apply (wt_children _ _ Hwf _ _ Hd) in Hc as [Hc0 Hc].
  rewrite list_lookup_fmap in Hc. destruct (dirs !! c) as [e'|] eqn:He; [|done]. injection Hc as <-.
  destruct (wt_dir _ _ Hwf _ _ He Hc0) as (p & Hp & Hpath). rewrite Hd in Hp. injection Hp as <-.
  by exists e'.
Qed.

Lemma wf_child_file d e i :
  dirs !! d = Some e → i ∈ d_files e →
  ∃ f, files !! i = Some f ∧ f_parent f = d ∧ f_path f = d_path e ++ x2f :: f_name f ∧ name_ok (f_name f).
Proof using Hwf.
  intros Hd Hi. apply (wt_files _ _ Hwf _ _ Hd) in Hi.
  rewrite list_lookup_fmap in Hi. destruct (files !! i) as [f|] eqn:Hf; [|done]. injection Hi as <-.
  destruct (wt_file _ _ Hwf _ _ Hf) as (p & Hp & Hpath). rewrite Hd in Hp. injection Hp as <-.
  by exists f.
Qed.

(** The directory whose path extends another's by a name is its child of that name. *)
Lemma wf_dir_child d p c e n :
  dirs !! d = Some p → dirs !! c = Some e → x2f ∉ n → d_path e = d_path p ++ x2f :: n →
  c ∈ d_children p ∧ d_name e = n.
Proof using Hwf.
  intros Hd Hc Hn He. destruct (decide (c = 0%nat)) as [->|Hc0].
  { destruct (wt_root _ _ Hwf) as (r & Hr & Hp & _). rewrite Hc in Hr. injection Hr as <-.
    rewrite Hp in He. by destruct (d_path p). }
  destruct (wt_dir _ _ Hwf _ _ Hc Hc0) as (q & Hq & Hpath & Hok).
  rewrite He in Hpath. apply path_split in Hpath as [Hpq ->]; [|done|by apply name_ok_no_slash].
  split; [|done]. apply (wt_children _ _ Hwf _ _ Hd). split; [done|].
  rewrite list_lookup_fmap, Hc. cbn. f_equal. eapply wf_dir_inj; [exact Hq|exact Hd|done].
Qed.

Lemma wf_file_child d p i f n :
  dirs !! d = Some p → files !! i = Some f → x2f ∉ n → f_path f = d_path p ++ x2f :: n →
  i ∈ d_files p ∧ f_name f = n.
Proof using Hwf.
  intros Hd Hi Hn Hf. destruct (wt_file _ _ Hwf _ _ Hi) as (q & Hq & Hpath & Hok).
  rewrite Hf in Hpath. apply path_split in Hpath as [Hpq ->]; [|done|by apply name_ok_no_slash].
  split; [|done]. apply (wt_files _ _ Hwf _ _ Hd).
  rewrite list_lookup_fmap, Hi. cbn. f_equal. eapply wf_dir_inj; [exact Hq|exact Hd|done].
Qed.

(** Every directory has a path of names: the parent's is shorter, so the chain of parents ends. *)
Lemma wf_dir_path c e : dirs !! c = Some e → ∃ cs, Forall name_ok cs ∧ d_path e = join cs.
Proof using Hwf.
  remember (length (d_path e)) as k eqn:Hk. revert c e Hk.
  induction k as [k IH] using lt_wf_ind. intros c e -> Hc.
  destruct (decide (c = 0%nat)) as [->|Hc0].
  { exists []. destruct (wt_root _ _ Hwf) as (r & Hr & Hp & _). split; [done|]. cbn. congruence. }
  destruct (wt_dir _ _ Hwf _ _ Hc Hc0) as (p & Hp & Hpath & Hok).
  destruct (IH (length (d_path p))) with (c := d_parent e) (e := p) as (cs & Hcs & Hj); [|done|done|].
  { rewrite Hpath, length_app. cbn. lia. }
  exists (cs ++ [d_name e]). split; [apply Forall_app; split; [done|]; by apply Forall_singleton|]. by rewrite join_snoc, <-Hj.
Qed.

Lemma wf_file_path i f :
  files !! i = Some f → ∃ cs, Forall name_ok cs ∧ f_path f = join (cs ++ [f_name f]).
Proof using Hwf.
  intros Hi. destruct (wt_file _ _ Hwf _ _ Hi) as (p & Hp & Hpath & Hok).
  destruct (wf_dir_path _ _ Hp) as (cs & Hcs & Hj). exists cs. split; [done|]. by rewrite join_snoc, <-Hj.
Qed.

Lemma find_child_spec d p n :
  dirs !! d = Some p →
  (∃ c e, find_child dirs (d_children p) n = Some (Some c) ∧ dirs !! c = Some e ∧ d_parent e = d ∧
     d_path e = d_path p ++ x2f :: n) ∨
  find_child dirs (d_children p) n = Some None ∧ (x2f ∉ n → d_path p ++ x2f :: n ∉ d_path <$> dirs).
Proof using Hwf.
  intros Hd.
  assert (∀ ch, (∀ c, c ∈ ch → c ∈ d_children p) →
    (∃ c e, find_child dirs ch n = Some (Some c) ∧ dirs !! c = Some e ∧ c ∈ d_children p ∧ d_name e = n) ∨
    find_child dirs ch n = Some None ∧ ∀ c e, c ∈ ch → dirs !! c = Some e → d_name e ≠ n) as Hch.
  { induction ch as [|c ch IH]; intros Hsub; [right; split; [done|set_solver]|].
    destruct (wf_child d p c Hd (Hsub c ltac:(left))) as (e & He & _). cbn [find_child]. rewrite He. cbn.
    case_bool_decide as Hn; [left; exists c, e; split_and!; [done|done|set_solver|done]|].
    destruct IH as [IH|[-> IH]]; [set_solver|by left|]. right. split; [done|].
    intros c' e' [->|Hc']%elem_of_cons; [intros; congruence|by apply IH]. }
  destruct (Hch (d_children p) ltac:(done)) as [(c & e & Hf & He & Hc & <-)|[Hf Hno]]; [left|right].
  - destruct (wf_child d p c Hd Hc) as (e' & He' & _ & Hpar & Hpath & _).
    rewrite He in He'. injection He' as <-. by exists c, e.
  - split; [done|]. intros Hn (e & Hpe & Hin)%list_elem_of_fmap.
    apply list_elem_of_lookup in Hin as (c & Hc).
    destruct (wf_dir_child d p c e n Hd Hc Hn) as [Hin Hname]; [done|]. by apply (Hno c e).
Qed.

Lemma has_file_spec d p n :
  dirs !! d = Some p → x2f ∉ n →
  ∃ r, has_file files (d_files p) n = Some r ∧ (r = true ↔ d_path p ++ x2f :: n ∈ f_path <$> files).
Proof using Hwf.
  intros Hd Hn.
  assert (∀ js, (∀ i, i ∈ js → i ∈ d_files p) →
    ∃ r, has_file files js n = Some r ∧ (r = true ↔ ∃ i f, i ∈ js ∧ files !! i = Some f ∧ f_name f = n)) as His.
  { induction js as [|i js IH]; intros Hsub; [exists false; split; [done|set_solver]|].
    destruct (wf_child_file d p i Hd (Hsub i ltac:(left))) as (f & Hf & _). cbn [has_file]. rewrite Hf. cbn.
    case_bool_decide as Hfn; [exists true; split; [done|]; split; [intros _; exists i, f; set_solver|done]|].
    destruct IH as (r & -> & IH); [set_solver|]. exists r. split; [done|]. rewrite IH.
    split; [intros (j & g & ?); exists j, g; set_solver|].
    intros (j & g & [->|Hj]%elem_of_cons & Hg & Hgn); [congruence|by exists j, g]. }
  destruct (His (d_files p) ltac:(done)) as (r & -> & Hr). exists r. split; [done|]. rewrite Hr.
  rewrite list_elem_of_fmap. split.
  - intros (i & f & Hi & Hf & <-). destruct (wf_child_file d p i Hd Hi) as (f' & Hf' & _ & Hpath & _).
    exists f. split; [congruence|]. by eapply list_elem_of_lookup_2.
  - intros (f & Hp & Hf). apply list_elem_of_lookup in Hf as (i & Hi).
    destruct (wf_file_child d p i f n Hd Hi Hn) as [Hin Hname]; [done|]. by exists i, f.
Qed.
End wf.

(** ** Lemmas: the operations keep the invariant *)

Definition add_dir (dirs : list DirEntry) (d : nat) (cur : DirEntry) (n : list byte) : list DirEntry :=
  <[d := cur <| d_children := d_children cur ++ [length dirs] |>]>
    (dirs ++ [{| d_path := d_path cur ++ x2f :: n; d_name := n; d_entry_offset := 0;
                 d_children := []; d_files := []; d_parent := d |}]).

Section add_dir.
Context {dirs : list DirEntry} {files : list FileEntry} (Hwf : wf_tree dirs files).
Context {d : nat} {cur : DirEntry} {n : list byte} (Hd : dirs !! d = Some cur).

Lemma add_dir_field {A} (field : DirEntry → A) :
  field (cur <| d_children := d_children cur ++ [length dirs] |>) = field cur →
  field <$> add_dir dirs d cur n =
  (field <$> dirs) ++ [field {| d_path := d_path cur ++ x2f :: n; d_name := n; d_entry_offset := 0;
                                d_children := []; d_files := []; d_parent := d |}].
Proof using Hd.
  intros Hf. unfold add_dir. rewrite list_fmap_insert, fmap_app, Hf. apply list_insert_id.
  rewrite lookup_app_l by (rewrite length_fmap; by eapply lookup_lt_Some).
  by rewrite list_lookup_fmap, Hd.
Qed.

(** The entries of the extended vector: the updated one, the new one, the others. *)
Lemma add_dir_lookup c e :
  add_dir dirs d cur n !! c = Some e →
  c = d ∧ e = cur <| d_children := d_children cur ++ [length dirs] |> ∨
  c = length dirs ∧ e = {| d_path := d_path cur ++ x2f :: n; d_name := n; d_entry_offset := 0;
                           d_children := []; d_files := []; d_parent := d |} ∨
  c ≠ d ∧ dirs !! c = Some e.
Proof using Hd.
  unfold add_dir. pose proof (lookup_lt_Some _ _ _ Hd). intros H1.
  destruct (decide (c = d)) as [->|Hne].
  - rewrite list_lookup_insert_eq in H1 by (rewrite length_app; cbn; lia). injection H1 as <-. by left.
  - right. rewrite list_lookup_insert_ne in H1 by done. apply lookup_app_Some in H1 as [H1|[Hle H1]]; [by right|].
    left. apply list_lookup_singleton_Some in H1 as [? <-]. split; [lia|done].
Qed.

Lemma add_dir_old c e :
  dirs !! c = Some e → ∃ e', add_dir dirs d cur n !! c = Some e' ∧ d_path e' = d_path e ∧ d_parent e' = d_parent e ∧
    d_name e' = d_name e ∧ d_files e' = d_files e.
Proof using Hd.
  intros Hc. unfold add_dir. destruct (decide (c = d)) as [->|Hne].
  - rewrite Hc in Hd. injection Hd as ->. apply lookup_lt_Some in Hc.
    eexists. split; [apply list_lookup_insert_eq; rewrite length_app; lia|done].
  - exists e. split; [|done]. rewrite list_lookup_insert_ne by done. by apply lookup_app_l_Some.
Qed.

Lemma wf_add_dir :
  name_ok n → d_path cur ++ x2f :: n ∉ d_path <$> dirs → wf_tree (add_dir dirs d cur n) files.
Proof using Hwf Hd.
  intros Hn Hfresh. pose proof (lookup_lt_Some _ _ _ Hd) as Hlt.
  assert (∀ i, (f_parent <$> files) !! i ≠ Some (length dirs)) as Hnofile.
  { intros i Hi. rewrite list_lookup_fmap in Hi. destruct (files !! i) as [f|] eqn:Hf; [|done]. injection Hi as Hi.
    destruct (wt_file _ _ Hwf _ _ Hf) as (p & Hp & _). apply lookup_lt_Some in Hp. lia. }
  assert (∀ c p, (d_parent <$> dirs) !! c = Some p → (p < length dirs)%nat) as Hpar.
  { intros c p Hc. rewrite list_lookup_fmap in Hc. destruct (dirs !! c) as [e|] eqn:He; [|done]. injection Hc as <-.
    destruct (decide (c = 0%nat)) as [->|Hc0].
    - destruct (wt_root _ _ Hwf) as (r & Hr & _ & _ & Hp). rewrite He in Hr. injection Hr as <-. lia.
    - destruct (wt_dir _ _ Hwf _ _ He Hc0) as (q & Hq & _). by eapply lookup_lt_Some. }
  assert (∀ c p, (d_parent <$> add_dir dirs d cur n) !! c = Some p ↔
    (d_parent <$> dirs) !! c = Some p ∨ c = length dirs ∧ p = d) as Hparents.
  { intros c p. rewrite (add_dir_field d_parent) by done. rewrite lookup_snoc_Some, length_fmap. cbn. split.
    - intros [[_ ?]|[? ?]]; [by left|by right].
    - intros [H|[-> ->]]; [|by right]. left. split; [|done]. apply lookup_lt_Some in H. by rewrite length_fmap in H. }
  split.
  - destruct (wt_root _ _ Hwf) as (r & Hr & Hp & Hrn & Hrp). destruct (add_dir_old 0 r Hr) as (e' & ? & ? & ? & ? & ?).
    exists e'. split_and!; congruence.
  - intros c e Hc Hc0. apply add_dir_lookup in Hc as [[-> ->]|[[-> ->]|[Hne Hc]]].
    + destruct (wt_dir _ _ Hwf _ _ Hd Hc0) as (p & Hp & Hpath & Hok).
      destruct (add_dir_old _ _ Hp) as (p' & Hp' & Hpp & _). exists p'. cbn. rewrite Hpp. by split_and!.
    + destruct (add_dir_old _ _ Hd) as (p' & Hp' & Hpp & _). exists p'. cbn. rewrite Hpp. by split_and!.
    + destruct (wt_dir _ _ Hwf _ _ Hc Hc0) as (p & Hp & Hpath & Hok).
      destruct (add_dir_old _ _ Hp) as (p' & Hp' & Hpp & _). exists p'. rewrite Hpp. by split_and!.
  - intros i f Hf. destruct (wt_file _ _ Hwf _ _ Hf) as (p & Hp & Hpath & Hok).
    destruct (add_dir_old _ _ Hp) as (p' & Hp' & Hpp & _). exists p'. rewrite Hpp. by split_and!.
  - intros c e Hc. setoid_rewrite Hparents. apply add_dir_lookup in Hc as [[-> ->]|[[-> ->]|[Hne Hc]]]; cbn.
    + destruct (wt_children _ _ Hwf _ _ Hd) as [Hnd Hch]. split.
      * apply NoDup_app. split_and!; [done| |apply NoDup_singleton].
        intros x Hx ->%list_elem_of_singleton. apply Hch in Hx as [_ Hx%lookup_lt_Some].
        rewrite length_fmap in Hx. lia.
      * intros x. rewrite elem_of_app, Hch, list_elem_of_singleton. split; [|naive_solver].
        intros [?| ->]; [naive_solver|]. split; [lia|by right].
    + split; [constructor|]. intros x. split; [by intros ?%elem_of_nil|]. intros [_ [Hx%Hpar|[_ ?]]]; lia.
    + destruct (wt_children _ _ Hwf _ _ Hc) as [Hnd Hch]. split; [done|]. intros x. rewrite Hch. naive_solver.
  - intros c e Hc. apply add_dir_lookup in Hc as [[-> ->]|[[-> ->]|[Hne Hc]]]; cbn.
    + apply (wt_files _ _ Hwf _ _ Hd).
    + split; [constructor|]. intros x. split; [by intros ?%elem_of_nil|]. intros Hx. by apply Hnofile in Hx.
    + apply (wt_files _ _ Hwf _ _ Hc).
  - rewrite (add_dir_field d_path) by done. apply NoDup_app. split_and!; [apply (wt_dir_paths _ _ Hwf)| |apply NoDup_singleton].
    intros x Hx ->%list_elem_of_singleton. by apply Hfresh.
  - apply (wt_file_paths _ _ Hwf).
Qed.
End add_dir.

Lemma enter_dir_spec dirs files d cur n :
  wf_tree dirs files → dirs !! d = Some cur → name_ok n →
  ∃ dirs' c e, enter_dir dirs d n = Some (dirs', c) ∧ wf_tree dirs' files ∧ dirs' !! c = Some e ∧
    d_path e = d_path cur ++ x2f :: n ∧
    ∀ p, p ∈ d_path <$> dirs' ↔ p ∈ d_path <$> dirs ∨ p = d_path cur ++ x2f :: n.
Proof.
  intros Hwf Hd Hn. unfold enter_dir. rewrite Hd. cbn [mbind option_bind].
  destruct (find_child_spec Hwf d cur n Hd) as [(c & e & -> & Hc & _ & Hpath)|[-> Hfresh]]; cbn [mbind option_bind].
  - exists dirs, c, e. split_and!; [done|done|done|done|]. intros p. split; [by left|].
    intros [?| ->]; [done|]. rewrite <-Hpath. apply list_elem_of_fmap_2. by eapply list_elem_of_lookup_2.
  - specialize (Hfresh (name_ok_no_slash _ Hn)). rewrite (lookup_app_l_Some _ _ _ _ Hd). cbn [mbind option_bind].
    fold (add_dir dirs d cur n).
    assert (d_path <$> add_dir dirs d cur n = (d_path <$> dirs) ++ [d_path cur ++ x2f :: n]) as Hpaths
      by (by rewrite (add_dir_field Hd d_path)).
    pose proof (lookup_lt_Some _ _ _ Hd).
    eexists _, _, _. split_and!; [done|by apply wf_add_dir| | |].
    + unfold add_dir. rewrite list_lookup_insert_ne by lia. by rewrite lookup_app_r, Nat.sub_diag by lia.
    + done.
    + intros p. rewrite Hpaths, elem_of_app, list_elem_of_singleton. done.
Qed.

Lemma enter_dirs_spec cs : ∀ dirs files d cur,
  wf_tree dirs files → dirs !! d = Some cur → Forall name_ok cs →
  ∃ dirs' c e, enter_dirs dirs d cs = Some (dirs', c) ∧ wf_tree dirs' files ∧ dirs' !! c = Some e ∧
    d_path e = d_path cur ++ join cs ∧
    ∀ p, p ∈ d_path <$> dirs' ↔
      p ∈ d_path <$> dirs ∨ ∃ ds ds', cs = ds ++ ds' ∧ ds ≠ [] ∧ p = d_path cur ++ join ds.
Proof.
  induction cs as [|n cs IH]; intros dirs files d cur Hwf Hd Hcs.
  { exists dirs, d, cur. split_and!; [done|done|done|by rewrite app_nil_r|].
    intros p. split; [by left|]. intros [?|(ds & ds' & H & Hne & _)]; [done|]. by destruct ds. }
  apply Forall_cons in Hcs as [Hn Hcs].
  destruct (enter_dir_spec dirs files d cur n Hwf Hd Hn) as (dirs1 & c1 & e1 & He & Hwf1 & Hc1 & Hp1 & Hps1).
  destruct (IH dirs1 files c1 e1 Hwf1 Hc1 Hcs) as (dirs2 & c2 & e2 & He2 & Hwf2 & Hc2 & Hp2 & Hps2).
  exists dirs2, c2, e2. cbn [enter_dirs]. rewrite He. cbn. rewrite He2.
  assert (∀ ds, d_path e1 ++ join ds = d_path cur ++ join (n :: ds)) as Hj by (intros ds; rewrite Hp1, <-app_assoc; done).
  split_and!; [done|done|done|by rewrite Hp2, Hj|].
  intros p. rewrite Hps2, Hps1. split.
  - intros [[?| ->]|(ds & ds' & -> & Hne & ->)]; [by left| |].
    + right. exists [n], cs. split_and!; [done|done|]. cbn. by rewrite app_nil_r.
    + right. exists (n :: ds), ds'. by rewrite Hj.
  - intros [?|([|m ds] & ds' & Heq & Hne & ->)]; [by left; left|done|]. injection Heq as <- ->.
    destruct ds as [|m' ds]; [left; right; cbn; by rewrite app_nil_r|]. right. exists (m' :: ds), ds'. by rewrite Hj.
Qed.

Lemma wf_add_file dirs files d cur n data :
  wf_tree dirs files → dirs !! d = Some cur → name_ok n → d_path cur ++ x2f :: n ∉ f_path <$> files →
  wf_tree (<[d := cur <| d_files := d_files cur ++ [length files] |>]> dirs)
    (files ++ [{| f_path := d_path cur ++ x2f :: n; f_name := n; f_data := data; f_entry_offset := 0;
                  f_data_offset := 0; f_parent := d |}]).
Proof.
  intros Hwf Hd Hn Hfresh. pose proof (lookup_lt_Some _ _ _ Hd) as Hlt.
  set (dirs' := <[d := _]> dirs). set (new := {| f_path := _ |}).
  assert (∀ {A} (g : DirEntry → A), g (cur <| d_files := d_files cur ++ [length files] |>) = g cur →
    g <$> dirs' = g <$> dirs) as Hsame.
  { intros A g Hg. unfold dirs'. rewrite list_fmap_insert, Hg. apply list_insert_id. by rewrite list_lookup_fmap, Hd. }
  assert (∀ c e, dirs' !! c = Some e → ∃ e0, dirs !! c = Some e0 ∧
    e = if decide (c = d) then e0 <| d_files := d_files e0 ++ [length files] |> else e0) as Hinv.
  { intros c e. unfold dirs'. destruct (decide (c = d)) as [->|Hne].
    - rewrite list_lookup_insert_eq by done. intros [= <-]. by exists cur.
    - rewrite list_lookup_insert_ne by done. by exists e. }
  assert (∀ c p, dirs !! c = Some p → ∃ p', dirs' !! c = Some p' ∧ d_path p' = d_path p ∧ d_name p' = d_name p ∧
    d_parent p' = d_parent p) as Hold.
  { intros c p Hc. unfold dirs'. destruct (decide (c = d)) as [->|Hne].
    - rewrite list_lookup_insert_eq by done. rewrite Hc in Hd. injection Hd as ->. by eexists.
    - rewrite list_lookup_insert_ne by done. by exists p. }
  split.
  - destruct (wt_root _ _ Hwf) as (r & Hr & Hp & Hrn & Hrp). destruct (Hold _ _ Hr) as (e' & ? & ? & ? & ?).
    exists e'. split_and!; congruence.
  - intros c e Hc Hc0. apply Hinv in Hc as (e0 & Hc & ->).
    destruct (wt_dir _ _ Hwf _ _ Hc Hc0) as (p & Hp & Hpath & Hok). destruct (Hold _ _ Hp) as (p' & Hp' & Hpp & _).
    exists p'. rewrite Hpp. by case_decide.
  - intros i f Hf. apply lookup_snoc_Some in Hf as [[_ Hf]|[_ <-]].
    + destruct (wt_file _ _ Hwf _ _ Hf) as (p & Hp & Hpath & Hok). destruct (Hold _ _ Hp) as (p' & Hp' & Hpp & _).
      exists p'. rewrite Hpp. by split_and!.
    + destruct (Hold _ _ Hd) as (p' & Hp' & Hpp & _). exists p'. cbn. rewrite Hpp. by split_and!.
  - intros c e Hc. rewrite (Hsame _ d_parent) by done. apply Hinv in Hc as (e0 & Hc & ->).
    case_decide; apply (wt_children _ _ Hwf _ _ Hc).
  - intros c e Hc. apply Hinv in Hc as (e0 & Hc & ->). destruct (wt_files _ _ Hwf _ _ Hc) as [Hnd Hin].
    assert (∀ i, (f_parent <$> files ++ [new]) !! i = Some c ↔ i ∈ d_files e0 ∨ i = length files ∧ c = d) as Hpar.
    { intros i. rewrite fmap_app, Hin. cbn. rewrite lookup_snoc_Some, length_fmap. split.
      - intros [[_ ?]|[? ->]]; [by left|by right].
      - intros [H|[-> ->]]; [|by right]. left. split; [|done]. apply lookup_lt_Some in H. by rewrite length_fmap in H. }
    setoid_rewrite Hpar. case_decide as Hcd; cbn.
    + split; [|intros i; rewrite elem_of_app, list_elem_of_singleton; naive_solver].
      apply NoDup_app. split_and!; [done| |apply NoDup_singleton].
      intros x Hx ->%list_elem_of_singleton. apply Hin, lookup_lt_Some in Hx. rewrite length_fmap in Hx. lia.
    + split; [done|]. naive_solver.
  - rewrite (Hsame _ d_path) by done. apply (wt_dir_paths _ _ Hwf).
  - rewrite fmap_app. apply NoDup_app. split_and!; [apply (wt_file_paths _ _ Hwf)| |apply NoDup_singleton].
    intros x Hx ->%list_elem_of_singleton. by apply Hfresh.
Qed.

(** ** The builder refines the map *)

Lemma RomFsBuilder_new_represents : represents RomFsBuilder_new Spec.new (is_dir Spec.new).
Proof.
  split; cbn.
  - split; cbn.
    + eexists. by split_and!.
    + intros [|c] e Hc Hc0; [done|]. by destruct c.
    + intros i f Hf. by destruct i.
    + intros [|d] e Hd; [|by destruct d]. injection Hd as <-. split; [constructor|]. intros c.
      split; [by intros ?%elem_of_nil|]. intros [Hc0 Hc]. destruct c as [|c]; [done|]. by destruct c.
    + intros [|d] e Hd; [|by destruct d]. injection Hd as <-. split; [constructor|]. intros c.
      split; [by intros ?%elem_of_nil|]. intros Hc. by destruct c.
    + apply NoDup_singleton.
    + constructor.
  - intros cs x. split; [done|]. intros (_ & f & Hf%elem_of_nil & _). done.
  - intros p. rewrite list_elem_of_singleton. split; [intros ->; exists []; by split; [left|]|].
    intros (ds & [->|(ds' & x & _ & H)] & ->); [done|]. destruct (lookup_empty_Some _ _ H).
  - intros ds [->|(ds' & x & _ & H)]; [constructor|]. destruct (lookup_empty_Some _ _ H).
Qed.

(** A file not in the map is not in the vector, and conversely. *)
Lemma represents_fresh b m D cs n :
  represents b m D → Forall name_ok (cs ++ [n]) →
  join (cs ++ [n]) ∈ f_path <$> rb_files b ↔ is_Some (m !! (cs ++ [n])).
Proof.
  intros Hr Hok. rewrite list_elem_of_fmap. split.
  - intros (f & Hp & Hf). exists (f_data f). apply (rp_file _ _ _ Hr). split; [done|]. by exists f.
  - intros [x Hx]. apply (rp_file _ _ _ Hr) in Hx as (_ & f & Hf & Hp & _). by exists f.
Qed.

Lemma join_names_inj cs ds : Forall name_ok cs → Forall name_ok ds → join cs = join ds → cs = ds.
Proof. intros ? ?. apply join_inj; by apply names_no_slash. Qed.

(** Pushing a file of a new name onto the vectors inserts it into the map. *)
Lemma represents_push_file b m D d e cs n data :
  represents b m D → rb_dirs b !! d = Some e → d_path e = join cs → Forall name_ok (cs ++ [n]) →
  m !! (cs ++ [n]) = None →
  represents
    (b <| rb_dirs := <[d := e <| d_files := d_files e ++ [length (rb_files b)] |>]> (rb_dirs b) |>
       <| rb_files := rb_files b ++ [{| f_path := d_path e ++ x2f :: n; f_name := n; f_data := data;
                                        f_entry_offset := 0; f_data_offset := 0; f_parent := d |}] |>)
    (<[cs ++ [n] := data]> m) D.
Proof.
  intros Hr Hd Hpath Hok Hm.
  assert (name_ok n) as Hn by (by apply Forall_app in Hok as [_ ?%Forall_inv]).
  assert (d_path e ++ x2f :: n = join (cs ++ [n])) as Hjoin by (by rewrite join_snoc, Hpath).
  split; cbn [rb_dirs rb_files].
  - apply wf_add_file; [apply Hr|done|done|]. rewrite Hjoin. intros H.
    apply (represents_fresh _ _ _ _ _ Hr Hok) in H as [x Hx]. congruence.
  - intros ks x. rewrite lookup_insert_Some, (rp_file _ _ _ Hr). setoid_rewrite elem_of_app.
    setoid_rewrite list_elem_of_singleton. split.
    + intros [[<- <-]|[Hne (Hks & f & Hf & Hp & Hx)]].
      * split; [done|]. eexists. split; [right; reflexivity|]. done.
      * split; [done|]. exists f. by split; [left|].
    + intros (Hks & f & [Hf| ->] & Hp & Hx).
      * right. split; [|split; [done|by exists f]]. intros <-.
        assert (is_Some (m !! (cs ++ [n]))) as [y Hy]; [|congruence].
        apply (represents_fresh _ _ _ _ _ Hr Hok). rewrite <-Hp. by apply list_elem_of_fmap_2.
      * left. cbn in Hp, Hx. split; [|done]. rewrite Hjoin in Hp. by apply join_names_inj.
  - intros p. unfold set_field at 1 2; cbn [rb_dirs]. rewrite list_fmap_insert, list_insert_id by (by rewrite list_lookup_fmap, Hd).
    apply (rp_dir _ _ _ Hr).
  - apply (rp_names _ _ _ Hr).
Qed.

(** Pushing a directory of a new name adds it to the directories. *)
Lemma represents_push_dir b m D d e cs n :
  represents b m D → rb_dirs b !! d = Some e → d_path e = join cs → Forall name_ok (cs ++ [n]) → ¬ D (cs ++ [n]) →
  represents (b <| rb_dirs := add_dir (rb_dirs b) d e n |>) m (λ ds, D ds ∨ ds = cs ++ [n]).
Proof.
  intros Hr Hd Hpath Hok Hnew.
  assert (d_path e ++ x2f :: n = join (cs ++ [n])) as Hjoin by (by rewrite join_snoc, Hpath).
  assert (d_path <$> add_dir (rb_dirs b) d e n = (d_path <$> rb_dirs b) ++ [join (cs ++ [n])]) as Hpaths
    by (by rewrite (add_dir_field Hd d_path), <-Hjoin).
  split; unfold set_field; cbn [rb_dirs rb_files].
  - apply wf_add_dir; [apply Hr|done|by apply Forall_app in Hok as [_ ?%Forall_inv]|].
    rewrite Hjoin, (rp_dir _ _ _ Hr). intros (ds & Hds & Heq).
    apply join_names_inj in Heq as <-; [done|done|by apply (rp_names _ _ _ Hr)].
  - apply (rp_file _ _ _ Hr).
  - intros p. rewrite Hpaths, elem_of_app, list_elem_of_singleton, (rp_dir _ _ _ Hr). naive_solver.
  - intros ds [Hds| ->]; [by apply (rp_names _ _ _ Hr)|done].
Qed.

#[export] Instance represents_proper b m : Proper (pointwise_relation _ iff ==> iff) (represents b m).
Proof.
  intros D D' HD. split; intros Hr; split; try (apply Hr).
  1: setoid_rewrite <-HD. 2: setoid_rewrite <-(HD _). 3: setoid_rewrite HD. 4: setoid_rewrite (HD _).
  all: apply Hr.
Qed.

(** The directories a new file adds. *)
Lemma is_dir_insert m cs n data ds :
  m !! (cs ++ [n]) = None →
  is_dir (<[cs ++ [n] := data]> m) ds ↔ is_dir m ds ∨ ∃ ds', cs = ds ++ ds'.
Proof.
  intros Hm. split.
  - intros [->|(ds' & x & Hne & Hx)]; [by left; left|].
    apply lookup_insert_Some in Hx as [[Heq <-]|[_ Hx]]; [|by left; right; exists ds', x].
    destruct ds' as [|k ds' _] using rev_ind; [done|].
    rewrite (assoc app) in Heq. apply app_inj_tail in Heq as [-> _]. right. by exists ds'.
  - intros [[->|(ds' & x & Hne & Hx)]|(ds' & ->)]; [by left| |].
    + right. exists ds', x. split; [done|]. rewrite lookup_insert_ne; [done|]. intros H. congruence.
    + right. exists (ds' ++ [n]), data. split; [by destruct ds'|]. rewrite (assoc app). by rewrite lookup_insert_eq.
Qed.

(** [add_file] does to the vectors what inserting does to the map. *)
Lemma represents_insert b m cs n data dirs d e :
  represents b m (is_dir m) → Forall name_ok (cs ++ [n]) → m !! (cs ++ [n]) = None →
  wf_tree dirs (rb_files b) → dirs !! d = Some e → d_path e = join cs →
  (∀ p, p ∈ d_path <$> dirs ↔
     p ∈ d_path <$> rb_dirs b ∨ ∃ ds ds', cs = ds ++ ds' ∧ ds ≠ [] ∧ p = join ds) →
  represents
    (b <| rb_dirs := <[d := e <| d_files := d_files e ++ [length (rb_files b)] |>]> dirs |>
       <| rb_files := rb_files b ++ [{| f_path := d_path e ++ x2f :: n; f_name := n; f_data := data;
                                        f_entry_offset := 0; f_data_offset := 0; f_parent := d |}] |>)
    (<[cs ++ [n] := data]> m) (is_dir (<[cs ++ [n] := data]> m)).
Proof.
  intros Hr Hok Hm Hwf Hd Hpath Hdirs.
  refine (represents_push_file (b <| rb_dirs := dirs |>) m _ d e cs n data _ Hd Hpath Hok Hm).
  pose proof Hok as [Hcs _]%Forall_app. setoid_rewrite (rp_dir _ _ _ Hr) in Hdirs.
  split; [done|apply (rp_file _ _ _ Hr)| |].
  - intros p. cbn [rb_dirs]. setoid_rewrite (is_dir_insert m cs n data _ Hm). rewrite Hdirs. split.
    + intros [(ds & Hds & ->)|(ds & ds' & -> & _ & ->)]; exists ds; eauto.
    + intros (ds & [Hds|(ds' & ->)] & ->); [by left; exists ds|].
      destruct ds as [|d0 ds]; [left; exists []; by split; [left|]|]. right. by exists (d0 :: ds), ds'.
  - intros ds [Hds|(ds' & ->)]%is_dir_insert; [by apply (rp_names _ _ _ Hr)| |done].
    by apply Forall_app in Hcs as [? _].
Qed.

(** One step of the simulation. *)
Lemma add_file_sim b m path data :
  represents b m (is_dir m) → utf8_valid path = true →
  match Spec.add_file m path data with
  | Ok m' => ∃ b', add_file b path data = Ok b' ∧ represents b' m' (is_dir m')
  | Err e => add_file b path data = Err e
  | Panic => False
  end.
Proof.
  intros Hr Hu. unfold Spec.add_file, add_file.
  destruct (path_components path) as [cs|] eqn:Hcs; [|done]. bind_cbn.
  pose proof (path_components_ok _ _ Hu Hcs) as Hok. clear Hcs.
  destruct cs as [|n cs _] using rev_ind; [done|]. rewrite last_snoc. bind_cbn.
  replace (take _ (cs ++ [n])) with cs
    by (rewrite length_app; cbn; rewrite Nat.add_sub; by rewrite take_app_length).
  destruct (wt_root _ _ (rp_wf _ _ _ Hr)) as (r & H0 & Hr0 & _).
  pose proof Hok as [Hcs Hn%Forall_inv]%Forall_app.
  destruct (enter_dirs_spec cs _ _ 0%nat r (rp_wf _ _ _ Hr) H0 Hcs) as (dirs & d & e & -> & Hwf & Hd & Hp & Hps).
  bind_cbn. rewrite Hd. bind_cbn. rewrite Hr0 in Hp, Hps. cbn [app] in Hp, Hps.
  destruct (has_file_spec Hwf d e n Hd (name_ok_no_slash _ Hn)) as (dup & -> & Hdup). bind_cbn.
  rewrite Hp, <-join_snoc, (represents_fresh _ _ _ _ _ Hr Hok) in Hdup.
  replace (match cs ++ [n] with [] => Err (InvalidPath path) | _ => _ end) with
    (match m !! (cs ++ [n]) with Some _ => Err (DuplicateEntry path) | None => Ok (<[cs ++ [n] := data]> m) end)
    by (by destruct cs).
  destruct (m !! (cs ++ [n])) as [x|] eqn:Hx.
  - rewrite (proj2 Hdup) by by eexists. done.
  - destruct dup; [by destruct (proj1 Hdup eq_refl)|]. bind_cbn. eexists. split; [done|].
    by apply represents_insert.
Qed.

Lemma add_files_sim additions : ∀ b m,
  represents b m (is_dir m) → Forall (λ a, utf8_valid a.1 = true) additions →
  match Spec.add_files m additions with
  | Ok m' => ∃ b', add_files b additions = Ok b' ∧ represents b' m' (is_dir m')
  | Err e => add_files b additions = Err e
  | Panic => False
  end.
Proof.
  induction additions as [|[path data] l IH]; intros b m Hr Hu; [by exists b|].
  apply Forall_cons in Hu as [Hp Hu]. pose proof (add_file_sim b m path data Hr Hp) as Hs. cbn [Spec.add_files add_files].
  destruct (Spec.add_file m path data) as [m'|e|]; [|by rewrite Hs|done].
  destruct Hs as (b' & -> & Hr'). by apply IH.
Qed.

(** C6. The builder refines the map of paths to contents: whatever files are added to a new builder, with
    paths that are text, the additions fail exactly when they do on the map, with the same error, and
    otherwise leave a builder whose vectors are a well-formed tree that holds the map; no addition
    panics on a vector index. *)
Theorem add_files_refines additions :
  Forall (λ a, utf8_valid a.1 = true) additions →
  match Spec.add_files Spec.new additions with
  | Ok m => ∃ b, add_files RomFsBuilder_new additions = Ok b ∧ represents b m (is_dir m)
  | Err e => add_files RomFsBuilder_new additions = Err e
  | Panic => False
  end.
Proof. apply add_files_sim, RomFsBuilder_new_represents. Qed.

(** [/a//b], [/a] and [/a/c]: a doubled slash, and a file beside the directory of its name. *)
Definition sample_additions : list (list byte * list byte) :=
  [([x2f; x61; x2f; x2f; x62], [x01]); ([x2f; x61], [x02; x03]); ([x2f; x61; x2f; x63], [])].

Definition sample_keys (r : outcome BuildError Spec.state) : list (option (list byte)) :=
  match r with Ok m => [m !! [[x61]; [x62]]; m !! [[x61]]; m !! [[x61]; [x63]]] | _ => [] end.

Lemma add_files_refines_witness :
  (∃ b m, add_files RomFsBuilder_new sample_additions = Ok b ∧ represents b m (is_dir m) ∧
     m !! [[x61]; [x62]] = Some [x01] ∧ m !! [[x61]] = Some [x02; x03] ∧ m !! [[x61]; [x63]] = Some []) ∧
  add_files RomFsBuilder_new (sample_additions ++ [([x2f; x61; x2f; x62], [])]) =
    Err (DuplicateEntry [x2f; x61; x2f; x62]).
Proof.
  split.
  - pose proof (add_files_refines sample_additions) as H.
    assert (sample_keys (Spec.add_files Spec.new sample_additions) = [Some [x01]; Some [x02; x03]; Some []]) as Hk
      by (vm_compute; reflexivity).
    destruct (Spec.add_files Spec.new sample_additions) as [m|e|]; [|discriminate Hk..].
    destruct H as (b & Hb & Hr); [repeat constructor|]. exists b, m. split; [exact Hb|]. split; [exact Hr|].
    cbn in Hk. injection Hk as H1 H2 H3. split; [exact H1|]. split; [exact H2|exact H3].
  - vm_compute. reflexivity.
Defined.

(** Builders for the examples of the other files. *)
Definition builder_of (additions : list (list byte * list byte)) : RomFsBuilder :=
  match add_files RomFsBuilder_new additions with Ok b => b | _ => RomFsBuilder_new end.

Lemma sample_represents :
  ∃ m, represents (builder_of sample_additions) m (is_dir m) ∧ m ≠ ∅ ∧ m !! [[x61]; [x62]] = Some [x01].
Proof.
  assert (sample_keys (Spec.add_files Spec.new sample_additions) = [Some [x01]; Some [x02; x03]; Some []]) as Hk
    by (vm_compute; reflexivity).
  pose proof (add_files_sim sample_additions _ _ RomFsBuilder_new_represents ltac:(repeat constructor)) as H.
  destruct (Spec.add_files Spec.new sample_additions) as [m|e|]; [|discriminate Hk..].
  destruct H as (b & Hb & Hr). cbn in Hk. injection Hk as H1 _ _. exists m. unfold builder_of. rewrite Hb.
  split; [done|]. split; [|done]. intros ->. rewrite lookup_empty in H1. done.
Qed.

(** Two files in either order. *)
Definition sample_pair : list (list byte * list byte) := [([x2f; x61; x2f; x62], [x01]); ([x2f; x63], [x02])].

Lemma spec_add_file m path data c cs :
  path_components path = Some (c :: cs) → m !! (c :: cs) = None → Spec.add_file m path data = Ok (<[c :: cs := data]> m).
Proof. intros Hp Hm. unfold Spec.add_file. by rewrite Hp, Hm. Qed.

Lemma sample_pair_represents :
  ∃ m, represents (builder_of sample_pair) m (is_dir m) ∧ represents (builder_of (reverse sample_pair)) m (is_dir m).
Proof.
  set (k1 := [[x61]; [x62]]). set (k2 := [[x63]]).
  assert (Spec.add_files Spec.new sample_pair = Ok (<[k2 := [x02]]> (<[k1 := [x01]]> ∅))) as H1.
  { cbn [Spec.add_files sample_pair]. rewrite (spec_add_file _ _ _ [x61] [[x62]]) by (reflexivity || apply lookup_empty).
    cbn [mbind outcome_bind]. rewrite (spec_add_file _ _ _ [x63] []); [done|reflexivity|].
    rewrite lookup_insert_ne by done. apply lookup_empty. }
  assert (Spec.add_files Spec.new (reverse sample_pair) = Ok (<[k1 := [x01]]> (<[k2 := [x02]]> ∅))) as H2.
  { change (reverse sample_pair) with [([x2f; x63], [x02]); ([x2f; x61; x2f; x62], [x01])].
    cbn [Spec.add_files]. rewrite (spec_add_file _ _ _ [x63] []) by (reflexivity || apply lookup_empty).
    cbn [mbind outcome_bind]. rewrite (spec_add_file _ _ _ [x61] [[x62]]); [done|reflexivity|].
    rewrite lookup_insert_ne by done. apply lookup_empty. }
  pose proof (add_files_sim sample_pair _ _ RomFsBuilder_new_represents ltac:(repeat constructor)) as Hs1.
  pose proof (add_files_sim (reverse sample_pair) _ _ RomFsBuilder_new_represents ltac:(repeat constructor)) as Hs2.
  rewrite H1 in Hs1. rewrite H2 in Hs2. destruct Hs1 as (b1 & Hb1 & Hr1), Hs2 as (b2 & Hb2 & Hr2).
  rewrite insert_insert_ne in Hr2 by done. exists (<[k2 := [x02]]> (<[k1 := [x01]]> ∅)).
  unfold builder_of. by rewrite Hb1, Hb2.
Qed.
