(* ===== verification/RomFsWrite.v ===== *)
(** * The RomFS image writer: [write/romfs.rs], [build]

    Sorts the two vectors by path, remaps the indices they hold, assigns the offsets, chains the hash
    tables and writes the image. Where a debug build panics (an index out of range, an arithmetic
    overflow, an allocation above [isize::MAX]) the definitions return [None]. *)

From S2P Require Import Prelude Bytes Strs Layout Loops RomFsRaw RomFsTree.
#[local] Open Scope Z_scope.

(** ** Helpers *)

Definition ROMFS_FILEPARTITION_OFS : Z := 0x200.

Definition align32 (value alignment : Z) : option Z :=
  let mask := alignment - 1 in
  sum ← checked_add_u32 value mask;
  Some (Z.land sum (Z.lnot mask)).

Definition align64 (value alignment : Z) : option Z :=
  let mask := alignment - 1 in
  sum ← checked_add value mask;
  Some (Z.land sum (Z.lnot mask)).

(** [usize::is_multiple_of] a positive constant. *)
Definition is_multiple_of (n d : Z) : bool := n mod d =? 0.

(** The [while] condition. *)
Definition has_small_factor (n : Z) : bool :=
  is_multiple_of n 2 || is_multiple_of n 3 || is_multiple_of n 5 || is_multiple_of n 7
  || is_multiple_of n 11 || is_multiple_of n 13 || is_multiple_of n 17.

(** One test of the [while] condition, and the [n += 1] when it holds. *)
Definition hash_table_count_step (n : Z) : Z + option Z :=
  if has_small_factor n
  then match checked_add n 1 with Some n => inl n | None => inr None end
  else inr (Some n).

Definition romfs_get_hash_table_count (num_entries : Z) : option Z :=
  if num_entries <? 3 then Some 3
  else if num_entries <? 19 then Some (Z.lor num_entries 1)
  else match run hash_table_count_step 19 num_entries with inr r => r | inl _ => None end.

(** ** Ordering *)

Definition path_at (paths : list (list byte)) (i : nat) : list byte := default [] (paths !! i).

(** The indices of the vector, sorted by the path at each. *)
Definition order_by_path (paths : list (list byte)) : list nat :=
  sort_by (λ a b, str_le (path_at paths a) (path_at paths b)) (seq 0 (length paths)).

(** [for (new, &old) in order.iter().enumerate() { index[old] = new; }]. *)
Fixpoint number (new : nat) (order : list nat) (index : list nat) : list nat :=
  match order with
  | [] => index
  | old :: order => number (S new) order (<[old := new]> index)
  end.
Definition new_index (paths : list (list byte)) : list nat :=
  number 0 (order_by_path paths) (replicate (length paths) 0%nat).

Definition sort_entries_by_path (dirs : list DirEntry) (files : list FileEntry)
    : option (list DirEntry * list FileEntry) :=
  let new_dir_index := new_index (d_path <$> dirs) in
  let new_file_index := new_index (f_path <$> files) in
  let dirs := sort_by (λ a b, str_le (d_path a) (d_path b)) dirs in
  let files := sort_by (λ a b, str_le (f_path a) (f_path b)) files in
  dirs ← mapM (λ dir,
    parent ← new_dir_index !! d_parent dir;
    children ← mapM (λ child, new_dir_index !! child) (d_children dir);
    dir_files ← mapM (λ file, new_file_index !! file) (d_files dir);
    Some (dir <| d_parent := parent |> <| d_children := children |> <| d_files := dir_files |>)) dirs;
  files ← mapM (λ file,
    parent ← new_dir_index !! f_parent file;
    Some (file <| f_parent := parent |>)) files;
  Some (dirs, files).

(** The indices sorted by the name each refers to. *)
Definition sort_by_name (names : list (list byte)) (indices : list nat) : option (list nat) :=
  named ← mapM (λ idx, name ← names !! idx; Some (idx, name)) indices;
  Some (fst <$> sort_by (λ a b, str_le (a.2) (b.2)) named).

Definition sort_children (dirs : list DirEntry) (files : list FileEntry) : option (list DirEntry) :=
  mapM (λ dir,
    children ← sort_by_name (d_name <$> dirs) (d_children dir);
    dir_files ← sort_by_name (f_name <$> files) (d_files dir);
    Some (dir <| d_children := children |> <| d_files := dir_files |>)) dirs.

(** ** Offsets *)

Fixpoint data_offsets (data_offset : Z) (files : list FileEntry) : option (list FileEntry) :=
  match files with
  | [] => Some []
  | file :: files =>
    data_offset ← align64 data_offset 0x10;
    next ← checked_add data_offset (len (f_data file));
    files ← data_offsets next files;
    Some (file <| f_data_offset := data_offset |> :: files)
  end.

Fixpoint file_entry_offsets (entry_offset : Z) (files : list FileEntry) : option (list FileEntry) :=
  match files with
  | [] => Some []
  | file :: files =>
    name_size ← align32 (as_u32 (len (f_name file))) 4;
    size ← checked_add_u32 (size_of RomFsFileEntry) name_size;
    next ← checked_add_u32 entry_offset size;
    files ← file_entry_offsets next files;
    Some (file <| f_entry_offset := entry_offset |> :: files)
  end.

Fixpoint dir_entry_offsets (entry_offset : Z) (dirs : list DirEntry) : option (list DirEntry) :=
  match dirs with
  | [] => Some []
  | dir :: dirs =>
    name_size ← align32 (as_u32 (len (d_name dir))) 4;
    size ← checked_add_u32 (size_of RomFsDirEntry) name_size;
    next ← checked_add_u32 entry_offset size;
    dirs ← dir_entry_offsets next dirs;
    Some (dir <| d_entry_offset := entry_offset |> :: dirs)
  end.

Definition calculate_offsets (dirs : list DirEntry) (files : list FileEntry)
    : option (list DirEntry * list FileEntry) :=
  files ← data_offsets 0 files;
  files ← file_entry_offsets 0 files;
  dirs ← dir_entry_offsets 0 dirs;
  Some (dirs, files).

Fixpoint file_partition_size (size : Z) (files : list FileEntry) : option Z :=
  match files with
  | [] => Some size
  | file :: files =>
    size ← align64 size 0x10;
    size ← checked_add size (len (f_data file));
    file_partition_size size files
  end.
Definition calculate_file_partition_size (files : list FileEntry) : option Z := file_partition_size 0 files.

(** ** Hash tables *)

(** The new entry becomes the head of its bucket and points to the old head. *)
Definition hash_insert (table_size : Z) (table siblings : list Z) (idx : nat)
    (parent_offset : Z) (name : list byte) (entry_offset : Z) : option (list Z * list Z) :=
  let hash := path_hash parent_offset name in
  let bucket := Z.to_nat (hash mod table_size) in
  old_head ← table !! bucket;
  Some (<[bucket := entry_offset]> table, <[idx := old_head]> siblings).

Fixpoint hash_dirs (all : list DirEntry) (table_size : Z) (idx : nat) (dirs : list DirEntry)
    (table siblings : list Z) : option (list Z * list Z) :=
  match dirs with
  | [] => Some (table, siblings)
  | dir :: dirs =>
    parent ← all !! d_parent dir;
    '(table, siblings) ← hash_insert table_size table siblings idx
      (d_entry_offset parent) (d_name dir) (d_entry_offset dir);
    hash_dirs all table_size (S idx) dirs table siblings
  end.
Definition generate_dir_hash_table (dirs : list DirEntry) (dir_hash_siblings : list Z)
    : option (list Z * list Z) :=
  table_size ← romfs_get_hash_table_count (len dirs);
  hash_dirs dirs table_size 0 dirs (zrep table_size NO_ENTRY) dir_hash_siblings.

Fixpoint hash_files (dirs : list DirEntry) (table_size : Z) (idx : nat) (files : list FileEntry)
    (table siblings : list Z) : option (list Z * list Z) :=
  match files with
  | [] => Some (table, siblings)
  | file :: files =>
    parent ← dirs !! f_parent file;
    '(table, siblings) ← hash_insert table_size table siblings idx
      (d_entry_offset parent) (f_name file) (f_entry_offset file);
    hash_files dirs table_size (S idx) files table siblings
  end.
Definition generate_file_hash_table (dirs : list DirEntry) (files : list FileEntry)
    (file_hash_siblings : list Z) : option (list Z * list Z) :=
  table_size ← romfs_get_hash_table_count (len files);
  hash_files dirs table_size 0 files (zrep table_size NO_ENTRY) file_hash_siblings.

(** ** Metadata tables *)

(** [windows(2).find(|w| offset(w[0]) == own).map(|w| offset(w[1])).unwrap_or(NO_ENTRY)], with the
    offsets of the entries by index. *)
Fixpoint find_sibling (offsets : list Z) (own : Z) (indices : list nat) : option Z :=
  match indices with
  | w0 :: (w1 :: _) as indices =>
    o0 ← offsets !! w0;
    if o0 =? own then offsets !! w1 else find_sibling offsets own indices
  | _ => Some NO_ENTRY
  end.
Definition find_sibling_dir (dirs : list DirEntry) (dir : DirEntry) : option Z :=
  parent ← dirs !! d_parent dir;
  find_sibling (d_entry_offset <$> dirs) (d_entry_offset dir) (d_children parent).
Definition find_sibling_file (dirs : list DirEntry) (files : list FileEntry) (file : FileEntry) : option Z :=
  parent ← dirs !! f_parent file;
  find_sibling (f_entry_offset <$> files) (f_entry_offset file) (d_files parent).

(** [first().map(|&idx| offset).unwrap_or(NO_ENTRY)]. *)
Definition first_offset (offsets : list Z) (indices : list nat) : option Z :=
  match indices with [] => Some NO_ENTRY | idx :: _ => offsets !! idx end.

(** The padding after a name: the table grows to a multiple of 4. *)
Definition pad_table (table : list byte) : option (list byte) :=
  padded_len ← align32 (as_u32 (len table)) 4;
  Some (vec_resize table padded_len x00).

Fixpoint write_dirs (all : list DirEntry) (files : list FileEntry) (siblings : list Z) (idx : nat)
    (dirs : list DirEntry) (table : list byte) : option (list byte) :=
  match dirs with
  | [] => Some table
  | dir :: dirs =>
    parent ← all !! d_parent dir;
    let parent_offset := d_entry_offset parent in
    sibling_offset ← find_sibling_dir all dir;
    first_child ← first_offset (d_entry_offset <$> all) (d_children dir);
    first_file ← first_offset (f_entry_offset <$> files) (d_files dir);
    hash_sibling ← siblings !! idx;
    let table := table ++ le_bytes 4 parent_offset ++ le_bytes 4 sibling_offset ++ le_bytes 4 first_child
      ++ le_bytes 4 first_file ++ le_bytes 4 hash_sibling ++ le_bytes 4 (as_u32 (len (d_name dir)))
      ++ d_name dir in
    table ← pad_table table;
    write_dirs all files siblings (S idx) dirs table
  end.
Definition build_dir_table (dirs : list DirEntry) (files : list FileEntry) (dir_hash_siblings : list Z)
    : option (list byte) :=
  write_dirs dirs files dir_hash_siblings 0 dirs [].

Fixpoint write_files (dirs : list DirEntry) (all : list FileEntry) (siblings : list Z) (idx : nat)
    (files : list FileEntry) (table : list byte) : option (list byte) :=
  match files with
  | [] => Some table
  | file :: files =>
    parent ← dirs !! f_parent file;
    let parent_offset := d_entry_offset parent in
    sibling_offset ← find_sibling_file dirs all file;
    hash_sibling ← siblings !! idx;
    let table := table ++ le_bytes 4 parent_offset ++ le_bytes 4 sibling_offset
      ++ le_bytes 8 (f_data_offset file) ++ le_bytes 8 (as_u64 (len (f_data file)))
      ++ le_bytes 4 hash_sibling ++ le_bytes 4 (as_u32 (len (f_name file))) ++ f_name file in
    table ← pad_table table;
    write_files dirs all siblings (S idx) files table
  end.
Definition build_file_table (dirs : list DirEntry) (files : list FileEntry) (file_hash_siblings : list Z)
    : option (list byte) :=
  write_files dirs files file_hash_siblings 0 files [].

(** ** The image *)

Definition write_header (buf : list byte) (dir_hash_table : list Z) (dir_table : list byte)
    (file_hash_table : list Z) (file_table : list byte) (file_partition_size : Z) : option (list byte) :=
  let header_size := 0x50 in
  file_data_end ← checked_add ROMFS_FILEPARTITION_OFS file_partition_size;
  dir_hash_offset ← align64 file_data_end 4;
  dir_hash_size ← checked_mul (len dir_hash_table) 4;
  dir_table_offset ← checked_add dir_hash_offset dir_hash_size;
  let dir_table_size := len dir_table in
  file_hash_offset ← checked_add dir_table_offset dir_table_size;
  file_hash_size ← checked_mul (len file_hash_table) 4;
  file_table_offset ← checked_add file_hash_offset file_hash_size;
  let file_table_size := len file_table in
  Some (buf ++ le_bytes 8 header_size ++ le_bytes 8 dir_hash_offset ++ le_bytes 8 dir_hash_size
    ++ le_bytes 8 dir_table_offset ++ le_bytes 8 dir_table_size ++ le_bytes 8 file_hash_offset
    ++ le_bytes 8 file_hash_size ++ le_bytes 8 file_table_offset ++ le_bytes 8 file_table_size
    ++ le_bytes 8 ROMFS_FILEPARTITION_OFS).

Fixpoint write_file_data (buf : list byte) (files : list FileEntry) : option (list byte) :=
  match files with
  | [] => Some buf
  | file :: files =>
    aligned_offset ← align64 (len buf) 0x10;
    write_file_data (vec_resize buf aligned_offset x00 ++ f_data file) files
  end.

Definition write_u32s (buf : list byte) (values : list Z) : list byte :=
  foldl (λ buf hash, buf ++ le_bytes 4 hash) buf values.

(** The second half of [build]: the sizes, the header, the contents and the tables. *)
Definition write_image (files : list FileEntry) (dir_hash_table file_hash_table : list Z)
    (dir_table file_table : list byte) : option (list byte) :=
  file_partition_size ← calculate_file_partition_size files;
  aligned_size ← align64 file_partition_size 4;
  total_size ← checked_add ROMFS_FILEPARTITION_OFS aligned_size;
  dir_hash_size ← checked_mul (len dir_hash_table) 4;
  total_size ← checked_add total_size dir_hash_size;
  total_size ← checked_add total_size (len dir_table);
  file_hash_size ← checked_mul (len file_hash_table) 4;
  total_size ← checked_add total_size file_hash_size;
  total_size ← checked_add total_size (len file_table);
  _ ← with_capacity total_size;
  buf ← write_header [] dir_hash_table dir_table file_hash_table file_table file_partition_size;
  let buf := vec_resize buf ROMFS_FILEPARTITION_OFS x00 in
  buf ← write_file_data buf files;
  aligned_offset ← align64 (len buf) 4;
  let buf := vec_resize buf aligned_offset x00 in
  let buf := write_u32s buf dir_hash_table in
  let buf := buf ++ dir_table in
  let buf := write_u32s buf file_hash_table in
  Some (buf ++ file_table).

(** [build] after the check for an empty builder; [None] is a panic. *)
Definition build_image (b : RomFsBuilder) : option (list byte) :=
  '(dirs, files) ← sort_entries_by_path (rb_dirs b) (rb_files b);
  dirs ← sort_children dirs files;
  '(dirs, files) ← calculate_offsets dirs files;
  let dir_hash_siblings := replicate (length dirs) NO_ENTRY in
  let file_hash_siblings := replicate (length files) NO_ENTRY in
  '(dir_hash_table, dir_hash_siblings) ← generate_dir_hash_table dirs dir_hash_siblings;
  '(file_hash_table, file_hash_siblings) ← generate_file_hash_table dirs files file_hash_siblings;
  dir_table ← build_dir_table dirs files dir_hash_siblings;
  file_table ← build_file_table dirs files file_hash_siblings;
  write_image files dir_hash_table file_hash_table dir_table file_table.

Definition build (b : RomFsBuilder) : outcome BuildError (list byte) :=
  _ ← guard_err (bool_decide (rb_files b = [])) Empty;
  or_panic (build_image b).

(** ** Lemmas: rounding and the table size *)

Lemma align32_ok v : 0 ≤ v → v + 3 ≤ U32_MAX → align32 v 4 = Some (align_up v 4).
Proof. intros. unfold align32. cbv zeta. by bind_step. Qed.

Lemma align64_ok v k : 0 ≤ v → v + 2 ^ k - 1 ≤ USIZE_MAX → align64 v (2 ^ k) = Some (align_up v (2 ^ k)).
Proof. intros. unfold align64. cbv zeta. rewrite checked_add_ok by mlia. done. Qed.

(** A number that is 1 modulo the product of the seven primes has none of them as a factor. *)
Lemma small_factor_mod n : has_small_factor n = true → n mod 510510 ≠ 1.
Proof.
  unfold has_small_factor, is_multiple_of. intros H H1.
  repeat (apply orb_true_iff in H as [H|H]); apply Z.eqb_eq in H;
    Z.div_mod_to_equations; lia.
Qed.

(** How far the next such number is. *)
Definition count_distance (n : Z) : Z := (1 - n) mod 510510.

Lemma count_distance_step n :
  has_small_factor n = true → count_distance (n + 1) = count_distance n - 1 ∧ 0 < count_distance n.
Proof.
  intros H%small_factor_mod. unfold count_distance.
  Z.div_mod_to_equations. lia.
Qed.

Lemma hash_table_count_run n :
  0 ≤ n → n + 510510 ≤ USIZE_MAX →
  ∃ c, run hash_table_count_step 19 n = inr (Some c) ∧ n ≤ c ≤ n + 510509 ∧
    has_small_factor c = false ∧ ∀ k, n ≤ k < c → has_small_factor k = true.
Proof.
  intros Hn Hmax.
  set (P s := n ≤ s ∧ s + count_distance s ≤ n + 510509 ∧ ∀ k, n ≤ k < s → has_small_factor k = true).
  assert (∀ s, 0 ≤ count_distance s < 510510) as Hdist by (intros s; apply Z.mod_pos_bound; done).
  assert (P n) as HP.
  { specialize (Hdist n). unfold P. split_and!; [lia|lia|]. intros k Hk. lia. }
  assert (∀ s, P s → match hash_table_count_step s with
    | inl s' => P s' ∧ (Z.to_nat (count_distance s') < Z.to_nat (count_distance s))%nat
    | inr r => ∃ c, r = Some c ∧ n ≤ c ≤ n + 510509 ∧ has_small_factor c = false ∧
        ∀ k, n ≤ k < c → has_small_factor k = true
    end) as Hstep.
  { intros s (Hs1 & Hs2 & Hs3). specialize (Hdist s). unfold hash_table_count_step.
    destruct (has_small_factor s) eqn:Hf.
    - destruct (count_distance_step s Hf). rewrite checked_add_ok by mlia. unfold P. split; [split_and!; [lia|lia|]|lia].
      intros k Hk. destruct (decide (k = s)) as [->|]; [done|]. apply Hs3. lia.
    - exists s. split_and!; [done|lia|lia|done|done]. }
  destruct (steps_measure hash_table_count_step (λ s, Z.to_nat (count_distance s)) P) with (s := n) as [r Hr]; [|done|].
  { intros s s' Hs Hst. specialize (Hstep s Hs). by rewrite Hst in Hstep. }
  pose proof (run_inv hash_table_count_step P (λ r, ∃ c, r = Some c ∧ n ≤ c ≤ n + 510509 ∧ has_small_factor c = false ∧
        ∀ k, n ≤ k < c → has_small_factor k = true) 19) as Hinv.
  apply (steps_mono _ _ (2 ^ 19)) in Hr.
  - rewrite run_steps. specialize (Hinv ltac:(intros s Hs; specialize (Hstep s Hs); destruct (hash_table_count_step s); naive_solver) n HP).
    rewrite run_steps, Hr in Hinv. destruct Hinv as (c & -> & Hc). by exists c.
  - specialize (Hdist n). assert (510510 ≤ Z.of_nat (2 ^ 19)); [|lia]. rewrite Nat2Z.inj_pow. done.
Qed.

(** Small counts round up to an odd number. *)
Lemma lor_1 n : 0 ≤ n → Z.lor n 1 = n ∨ Z.lor n 1 = n + 1.
Proof.
  intros Hn. destruct (Z.Even_or_Odd n) as [[m ->]|[m ->]]; [right|left].
  - pose proof (lor_shiftl m 1 1). rewrite Z.shiftl_mul_pow2 in * by lia.
    change (2 ^ 1) with 2 in *. rewrite (Z.mul_comm 2 m). lia.
  - apply Z.bits_inj'. intros i Hi. rewrite Z.lor_spec. destruct (decide (i = 0)) as [->|].
    + rewrite Z.testbit_odd_0. done.
    + replace (Z.testbit 1 i) with false; [by rewrite orb_false_r|]. symmetry. apply (Z.pow2_bits_false 0 i). lia.
Qed.

Lemma hash_table_count_ok n :
  0 ≤ n → n + 510510 ≤ USIZE_MAX → ∃ c, romfs_get_hash_table_count n = Some c ∧ 3 ≤ c ≤ n + 510509.
Proof.
  intros Hn Hmax. unfold romfs_get_hash_table_count. case_match; zify_bool; [exists 3; split_and!; (done || lia)|].
  case_match; zify_bool.
  - exists (Z.lor n 1). pose proof (lor_1 n Hn). split_and!; [done|lia|lia].
  - destruct (hash_table_count_run n Hn Hmax) as (c & -> & Hc & _). exists c. split_and!; [done|lia|lia].
Qed.

(** The search for the size of a hash table ends, well within the model's bound: for every count a
    vector can have, the size is at least the count and 3, it has none of the small prime factors
    when the search runs at all, and it is the first such number. *)
Theorem hash_table_count_terminates n :
  0 ≤ n → n + 510510 ≤ USIZE_MAX →
  ∃ c, romfs_get_hash_table_count n = Some c ∧ n ≤ c ∧ 3 ≤ c ≤ n + 510509 ∧
    (19 ≤ n → has_small_factor c = false ∧ ∀ k, n ≤ k < c → has_small_factor k = true).
Proof.
  intros Hn Hmax. unfold romfs_get_hash_table_count. case_match; zify_bool; [exists 3; split_and!; (done || lia)|].
  case_match; zify_bool.
  - exists (Z.lor n 1). pose proof (lor_1 n Hn). split_and!; [done|lia|lia|lia|lia].
  - destruct (hash_table_count_run n Hn Hmax) as (c & -> & Hc & Hcf & Hck). exists c. split_and!; [done|lia|lia|lia|done].
Qed.

Lemma hash_table_count_terminates_witness :
  0 ≤ 32 ∧ 32 + 510510 ≤ USIZE_MAX ∧ romfs_get_hash_table_count 32 = Some 37 ∧
  ∃ c, romfs_get_hash_table_count 510510 = Some c ∧ has_small_factor c = false.
Proof.
  split; [discriminate|]. split; [discriminate|]. split; [reflexivity|].
  destruct (hash_table_count_terminates 510510) as (c & Hc & _ & _ & Hfree); [discriminate|discriminate|].
  exists c. split; [exact Hc|]. apply Hfree. discriminate.
Defined.
