(* ===== verification/RomFsSort.v ===== *)
(** * Ordering the RomFS tables: the first half of [build]

    [sort_entries_by_path] permutes the two vectors and renames the indices they hold;
    [sort_children] orders each directory's lists by name. Both keep the invariant of the tree and the
    files it holds, and what they leave depends on the paths and contents alone. *)

From stdpp Require Import gmap.
From S2P Require Import Prelude Bytes Strs Fs RomFsTree RomFsWrite.
#[local] Open Scope Z_scope.

(** ** Definitions *)

(** Two vectors with the same tree, whose lists of children may be in another order. *)
Definition same_dir (e e' : DirEntry) : Prop :=
  d_path e' = d_path e ∧ d_name e' = d_name e ∧ d_parent e' = d_parent e ∧
  d_children e' ≡ₚ d_children e ∧ d_files e' ≡ₚ d_files e.
Definition same_file (f f' : FileEntry) : Prop :=
  f_path f' = f_path f ∧ f_name f' = f_name f ∧ f_parent f' = f_parent f ∧ f_data f' = f_data f.

(** [idx] inverts [ord], a list of the indices below [n]. *)
Record inverse (n : nat) (ord idx : list nat) : Prop := {
  inv_ord : length ord = n;
  inv_idx : length idx = n;
  inv_iff : ∀ o k, idx !! o = Some k ↔ ord !! k = Some o;
}.

(** The vectors with each entry moved to its new index and the indices it holds renamed. *)
Record renamed (dord didx ford fidx : list nat) (dirs : list DirEntry) (files : list FileEntry)
    (dirs' : list DirEntry) (files' : list FileEntry) : Prop := {
  rn_dirs : inverse (length dirs) dord didx;
  rn_files : inverse (length files) ford fidx;
  rn_dirs_len : length dirs' = length dirs;
  rn_files_len : length files' = length files;
  rn_root : didx !! 0%nat = Some 0%nat;
  rn_dir : ∀ o k e, didx !! o = Some k → dirs !! o = Some e →
    ∃ e', dirs' !! k = Some e' ∧ d_path e' = d_path e ∧ d_name e' = d_name e ∧
      didx !! d_parent e = Some (d_parent e') ∧
      mapM (λ c, didx !! c) (d_children e) = Some (d_children e') ∧
      mapM (λ f, fidx !! f) (d_files e) = Some (d_files e');
  rn_file : ∀ o k f, fidx !! o = Some k → files !! o = Some f →
    ∃ f', files' !! k = Some f' ∧ f_path f' = f_path f ∧ f_name f' = f_name f ∧ f_data f' = f_data f ∧
      didx !! f_parent f = Some (f_parent f');
}.

(** The lists a directory holds are sorted by the name each index refers to. *)
Definition name_le (names : list (list byte)) (i j : nat) : Prop :=
  str_le (path_at names i) (path_at names j) = true.
Definition children_sorted (dirs : list DirEntry) (files : list FileEntry) : Prop :=
  ∀ d e, dirs !! d = Some e →
    StronglySorted (name_le (d_name <$> dirs)) (d_children e) ∧
    StronglySorted (name_le (f_name <$> files)) (d_files e).

Definition paths_sorted (paths : list (list byte)) : Prop :=
  StronglySorted (λ p q, str_le p q = true) paths.

(** ** Lemmas: sorting by a key *)

Lemma insert_by_fmap {A B} (f : A → B) le x l :
  f <$> insert_by (λ a b, le (f a) (f b)) x l = insert_by le (f x) (f <$> l).
Proof. induction l as [|y l IH]; [done|]. cbn. case_match; [done|]. cbn. by rewrite <-IH. Qed.
Lemma sort_by_fmap {A B} (f : A → B) le l :
  f <$> sort_by (λ a b, le (f a) (f b)) l = sort_by le (f <$> l).
Proof. induction l as [|x l IH]; [done|]. cbn. fold (sort_by le (f <$> l)). rewrite <-IH. apply insert_by_fmap. Qed.

Lemma insert_by_ext {A} (le le' : A → A → bool) x l :
  (∀ a b, le a b = le' a b) → insert_by le x l = insert_by le' x l.
Proof. intros Hle. induction l as [|y l IH]; [done|]. cbn. by rewrite Hle, IH. Qed.
Lemma sort_by_ext {A} (le le' : A → A → bool) l : (∀ a b, le a b = le' a b) → sort_by le l = sort_by le' l.
Proof.
  intros Hle. induction l as [|x l IH]; [done|]. change (insert_by le x (sort_by le l) = insert_by le' x (sort_by le' l)).
  rewrite IH. by apply insert_by_ext.
Qed.

Lemma fmap_sort_by_sorted {A} (f : A → list byte) l :
  paths_sorted (f <$> sort_by (λ a b, str_le (f a) (f b)) l).
Proof. rewrite sort_by_fmap. apply sort_by_sorted; [apply str_le_total|apply str_le_trans]. Qed.

(** The order of the indices is the order of the entries. *)
Lemma fmap_lookup_seq {A} (x0 : A) (l : list A) : (λ i, default x0 (l !! i)) <$> seq 0 (length l) = l.
Proof.
  apply list_eq. intros i. rewrite list_lookup_fmap. destruct (decide (i < length l)%nat).
  - rewrite lookup_seq_lt by done. cbn. destruct (lookup_lt_is_Some_2 l i) as [x ->]; done.
  - rewrite lookup_seq_ge, lookup_ge_None_2 by lia. done.
Qed.

Lemma order_by_path_fmap {A} (x0 : A) (path : A → list byte) l :
  path x0 = [] →
  (λ i, default x0 (l !! i)) <$> order_by_path (path <$> l) = sort_by (λ a b, str_le (path a) (path b)) l.
Proof.
  intros H0. set (f i := default x0 (l !! i)).
  assert (∀ i, path_at (path <$> l) i = path (f i)) as Hp.
  { intros i. unfold path_at, f. rewrite list_lookup_fmap. by destruct (l !! i). }
  unfold order_by_path. rewrite length_fmap.
  replace (sort_by _ (seq 0 (length l))) with (sort_by (λ a b, str_le (path (f a)) (path (f b))) (seq 0 (length l))).
  - rewrite (sort_by_fmap f (λ a b, str_le (path a) (path b))). unfold f. by rewrite fmap_lookup_seq.
  - apply sort_by_ext. intros a b. by rewrite !Hp.
Qed.

Lemma order_by_path_perm paths : order_by_path paths ≡ₚ seq 0 (length paths).
Proof. apply sort_by_perm. Qed.

Lemma order_by_path_lookup {A} (x0 : A) (path : A → list byte) l k o :
  path x0 = [] → order_by_path (path <$> l) !! k = Some o →
  sort_by (λ a b, str_le (path a) (path b)) l !! k = l !! o.
Proof.
  intros H0 Hk. rewrite <-(order_by_path_fmap x0 path l H0), list_lookup_fmap, Hk. cbn.
  assert (o ∈ order_by_path (path <$> l)) as Ho by (by eapply list_elem_of_lookup_2).
  rewrite order_by_path_perm, length_fmap, elem_of_seq in Ho.
  destruct (lookup_lt_is_Some_2 l o) as [x ->]; [lia|done].
Qed.

(** ** Lemmas: the inverse permutation *)

Lemma number_lookup order : ∀ new index o,
  NoDup order → (∀ x, x ∈ order → (x < length index)%nat) →
  number new order index !! o =
  match list_find (λ x, x = o) order with Some (k, _) => Some (new + k)%nat | None => index !! o end.
Proof.
  induction order as [|x order IH]; intros new index o Hnd Hlt; [done|]. cbn [number].
  apply NoDup_cons in Hnd as [Hx Hnd].
  rewrite IH; [|done|intros y Hy; rewrite length_insert; apply Hlt; by right].
  cbn [list_find]. destruct (decide (x = o)) as [->|Hne].
  - destruct (list_find _ order) as [[k y]|] eqn:Hf; cbn.
    + apply list_find_Some in Hf as (Hk & -> & _). destruct Hx. by eapply list_elem_of_lookup_2.
    + rewrite list_lookup_insert_eq by (apply Hlt; left). f_equal. lia.
  - destruct (list_find _ order) as [[k y]|] eqn:Hf; cbn; [f_equal; lia|]. by rewrite list_lookup_insert_ne.
Qed.

Lemma length_number order : ∀ new index, length (number new order index) = length index.
Proof. induction order as [|x order IH]; intros new index; [done|]. cbn. by rewrite IH, length_insert. Qed.

Lemma new_index_inverse paths : inverse (length paths) (order_by_path paths) (new_index paths).
Proof.
  pose proof (order_by_path_perm paths) as Hp.
  assert (NoDup (order_by_path paths)) as Hnd by (rewrite Hp; apply NoDup_seq).
  assert (length (order_by_path paths) = length paths) as Hlen by (by rewrite Hp, length_seq).
  assert (∀ x, x ∈ order_by_path paths ↔ (x < length paths)%nat) as Hin.
  { intros x. rewrite Hp, elem_of_seq. lia. }
  split; [done|unfold new_index; by rewrite length_number, length_replicate|].
  intros o k. unfold new_index. rewrite number_lookup; [|done|intros x Hx; rewrite length_replicate; by apply Hin].
  split.
  - destruct (list_find _ _) as [[k' y]|] eqn:Hf.
    + intros [= <-]. by apply list_find_Some in Hf as (Hk & -> & _).
    + intros Ho%lookup_lt_Some. rewrite length_replicate in Ho. apply Hin in Ho.
      apply list_find_None in Hf. rewrite Forall_forall in Hf. by destruct (Hf o Ho).
  - intros Hk. destruct (list_find _ _) as [[k' y]|] eqn:Hf.
    + apply list_find_Some in Hf as (Hk' & -> & _). cbn. f_equal. by eapply NoDup_lookup.
    + apply list_find_None in Hf. rewrite Forall_forall in Hf.
      destruct (Hf o); [by eapply list_elem_of_lookup_2|done].
Qed.

Section inverse.
Context {n : nat} {ord idx : list nat} (Hi : inverse n ord idx).

Lemma inverse_inj o o' k : idx !! o = Some k → idx !! o' = Some k → o = o'.
Proof using Hi. rewrite !(inv_iff _ _ _ Hi). congruence. Qed.

Lemma inverse_total o : (o < n)%nat → ∃ k, idx !! o = Some k ∧ ord !! k = Some o.
Proof using Hi.
  intros Ho. destruct (lookup_lt_is_Some_2 idx o) as [k Hk]; [by rewrite (inv_idx _ _ _ Hi)|].
  exists k. split; [done|]. by apply (inv_iff _ _ _ Hi).
Qed.

(** Renaming a list of indices. *)
Lemma mapM_inverse l : (∀ x, x ∈ l → (x < n)%nat) → ∃ l', mapM (λ x, idx !! x) l = Some l'.
Proof using Hi.
  intros Hl. apply (mapM_is_Some (λ x, idx !! x)). apply Forall_forall. intros x Hx.
  destruct (inverse_total x (Hl x Hx)) as (k & Hk & _). by exists k.
Qed.

Lemma mapM_inverse_elem l l' k o :
  mapM (λ x, idx !! x) l = Some l' → idx !! o = Some k → k ∈ l' ↔ o ∈ l.
Proof using Hi.
  intros Hm%mapM_Some Ho. split.
  - intros (i & Hk)%list_elem_of_lookup. destruct (Forall2_lookup_r _ _ _ _ _ Hm Hk) as (x & Hx & Hxk).
    rewrite (inverse_inj o x k Ho Hxk). by eapply list_elem_of_lookup_2.
  - intros (i & Hx)%list_elem_of_lookup. destruct (Forall2_lookup_l _ _ _ _ _ Hm Hx) as (y & Hy & Hxy).
    rewrite Ho in Hxy. injection Hxy as ->. by eapply list_elem_of_lookup_2.
Qed.

Lemma mapM_inverse_NoDup l l' : mapM (λ x, idx !! x) l = Some l' → NoDup l → NoDup l'.
Proof using Hi.
  intros Hm%mapM_Some Hnd. apply NoDup_alt. intros i j k Hik Hjk.
  destruct (Forall2_lookup_r _ _ _ _ _ Hm Hik) as (x & Hx & Hxk).
  destruct (Forall2_lookup_r _ _ _ _ _ Hm Hjk) as (y & Hy & Hyk).
  rewrite (inverse_inj x y k Hxk Hyk) in Hx. by eapply NoDup_lookup.
Qed.
End inverse.

(** ** Lemmas: renaming keeps the tree *)

Section renamed.
Context {dord didx ford fidx : list nat}.
Context {dirs : list DirEntry} {files : list FileEntry} {dirs' : list DirEntry} {files' : list FileEntry}.
Context (Hr : renamed dord didx ford fidx dirs files dirs' files').

(** Every entry of the new vectors is an old one. *)
Lemma renamed_dir_inv k e' :
  dirs' !! k = Some e' →
  ∃ o e, didx !! o = Some k ∧ dirs !! o = Some e ∧ d_path e' = d_path e ∧ d_name e' = d_name e ∧
    didx !! d_parent e = Some (d_parent e') ∧
    mapM (λ c, didx !! c) (d_children e) = Some (d_children e') ∧
    mapM (λ f, fidx !! f) (d_files e) = Some (d_files e').
Proof using Hr.
  intros Hk. pose proof (lookup_lt_Some _ _ _ Hk) as Hlt. pose proof (rn_dirs _ _ _ _ _ _ _ _ Hr) as Hi.
  rewrite (rn_dirs_len _ _ _ _ _ _ _ _ Hr), <-(inv_ord _ _ _ Hi) in Hlt.
  apply lookup_lt_is_Some_2 in Hlt as [o Ho]. apply (inv_iff _ _ _ Hi) in Ho.
  pose proof (lookup_lt_Some _ _ _ Ho) as Hlt'. rewrite (inv_idx _ _ _ Hi) in Hlt'.
  apply lookup_lt_is_Some_2 in Hlt' as [e He]. destruct (rn_dir _ _ _ _ _ _ _ _ Hr o k e Ho He) as (e2 & He2 & H2).
  rewrite Hk in He2. injection He2 as <-. by exists o, e.
Qed.

Lemma renamed_file_inv k f' :
  files' !! k = Some f' →
  ∃ o f, fidx !! o = Some k ∧ files !! o = Some f ∧ f_path f' = f_path f ∧ f_name f' = f_name f ∧
    f_data f' = f_data f ∧ didx !! f_parent f = Some (f_parent f').
Proof using Hr.
  intros Hk. pose proof (lookup_lt_Some _ _ _ Hk) as Hlt. pose proof (rn_files _ _ _ _ _ _ _ _ Hr) as Hi.
  rewrite (rn_files_len _ _ _ _ _ _ _ _ Hr), <-(inv_ord _ _ _ Hi) in Hlt.
  apply lookup_lt_is_Some_2 in Hlt as [o Ho]. apply (inv_iff _ _ _ Hi) in Ho.
  pose proof (lookup_lt_Some _ _ _ Ho) as Hlt'. rewrite (inv_idx _ _ _ Hi) in Hlt'.
  apply lookup_lt_is_Some_2 in Hlt' as [f Hf]. destruct (rn_file _ _ _ _ _ _ _ _ Hr o k f Ho Hf) as (f2 & Hf2 & H2).
  rewrite Hk in Hf2. injection Hf2 as <-. by exists o, f.
Qed.

Lemma renamed_parent o k q :
  didx !! o = Some k → (d_parent <$> dirs') !! k = Some q ↔
  ∃ p, (d_parent <$> dirs) !! o = Some p ∧ didx !! p = Some q.
Proof using Hr.
  intros Ho. rewrite !list_lookup_fmap. split.
  - destruct (dirs' !! k) as [e'|] eqn:Hk; [|done]. intros [= <-].
    destruct (renamed_dir_inv k e' Hk) as (o' & e & Ho' & He & _ & _ & Hp & _).
    rewrite (inverse_inj (rn_dirs _ _ _ _ _ _ _ _ Hr) o o' k Ho Ho'). exists (d_parent e). by rewrite He.
  - destruct (dirs !! o) as [e|] eqn:He; [|by intros (p & ? & _)]. intros (p & [= <-] & Hp).
    destruct (rn_dir _ _ _ _ _ _ _ _ Hr o k e Ho He) as (e' & -> & _ & _ & Hp' & _). cbn. congruence.
Qed.

Lemma renamed_file_parent o k q :
  fidx !! o = Some k → (f_parent <$> files') !! k = Some q ↔
  ∃ p, (f_parent <$> files) !! o = Some p ∧ didx !! p = Some q.
Proof using Hr.
  intros Ho. rewrite !list_lookup_fmap. split.
  - destruct (files' !! k) as [f'|] eqn:Hk; [|done]. intros [= <-].
    destruct (renamed_file_inv k f' Hk) as (o' & f & Ho' & Hf & _ & _ & _ & Hp).
    rewrite (inverse_inj (rn_files _ _ _ _ _ _ _ _ Hr) o o' k Ho Ho'). exists (f_parent f). by rewrite Hf.
  - destruct (files !! o) as [f|] eqn:Hf; [|by intros (p & ? & _)]. intros (p & [= <-] & Hp).
    destruct (rn_file _ _ _ _ _ _ _ _ Hr o k f Ho Hf) as (f' & -> & _ & _ & _ & Hp'). cbn. congruence.
Qed.

(** An index of the new vectors that some entry refers to is the new index of an old one. *)
Lemma renamed_dir_index k : (k < length dirs')%nat → ∃ o, didx !! o = Some k.
Proof using Hr. intros [e' Hk]%lookup_lt_is_Some_2. destruct (renamed_dir_inv k e' Hk) as (o & e & Ho & _). by exists o. Qed.

Lemma renamed_children :
  wf_tree dirs files → ∀ d e, dirs' !! d = Some e →
  NoDup (d_children e) ∧ ∀ c, c ∈ d_children e ↔ c ≠ 0%nat ∧ (d_parent <$> dirs') !! c = Some d.
Proof using Hr.
  intros Hwf. pose proof (rn_dirs _ _ _ _ _ _ _ _ Hr) as Hdi. pose proof (rn_files _ _ _ _ _ _ _ _ Hr) as Hfi.
  intros k e' Hk. destruct (renamed_dir_inv k e' Hk) as (o & e & Ho & He & _ & _ & _ & Hch & _).
  destruct (wt_children _ _ Hwf _ _ He) as [Hnd Hin]. split; [by eapply (mapM_inverse_NoDup Hdi)|].
  intros c'. split.
  - intros Hc'. pose proof Hc' as (i & Hi)%list_elem_of_lookup.
    pose proof Hch as Hf2%mapM_Some. destruct (Forall2_lookup_r _ _ _ _ _ Hf2 Hi) as (c & Hc & Hcc).
    assert (c ∈ d_children e) as [Hc0 Hcp]%Hin by (by eapply list_elem_of_lookup_2). split.
    + intros ->. apply Hc0. eapply (inverse_inj Hdi); [exact Hcc|apply (rn_root _ _ _ _ _ _ _ _ Hr)].
    + apply (renamed_parent c c' k Hcc). by exists o.
  - intros [Hc0 Hcp]. pose proof (lookup_lt_Some _ _ _ Hcp) as Hlt. rewrite length_fmap in Hlt.
    destruct (renamed_dir_index c' Hlt) as [c Hcc]. apply (renamed_parent c c' k Hcc) in Hcp as (p & Hp & Hpk).
    rewrite (inverse_inj Hdi p o k Hpk Ho) in Hp. apply (mapM_inverse_elem Hdi _ _ _ _ Hch Hcc), Hin.
    split; [|done]. intros ->. apply Hc0. rewrite (rn_root _ _ _ _ _ _ _ _ Hr) in Hcc. congruence.
Qed.

Lemma renamed_files :
  wf_tree dirs files → ∀ d e, dirs' !! d = Some e →
  NoDup (d_files e) ∧ ∀ i, i ∈ d_files e ↔ (f_parent <$> files') !! i = Some d.
Proof using Hr.
  intros Hwf. pose proof (rn_dirs _ _ _ _ _ _ _ _ Hr) as Hdi. pose proof (rn_files _ _ _ _ _ _ _ _ Hr) as Hfi.
  intros k e' Hk. destruct (renamed_dir_inv k e' Hk) as (o & e & Ho & He & _ & _ & _ & _ & Hch).
  destruct (wt_files _ _ Hwf _ _ He) as [Hnd Hin]. split; [by eapply (mapM_inverse_NoDup Hfi)|].
  intros c'. split.
  - intros Hc'. pose proof Hc' as (i & Hi)%list_elem_of_lookup.
    pose proof Hch as Hf2%mapM_Some. destruct (Forall2_lookup_r _ _ _ _ _ Hf2 Hi) as (c & Hc & Hcc).
    assert (c ∈ d_files e) as Hcp%Hin by (by eapply list_elem_of_lookup_2).
    apply (renamed_file_parent c c' k Hcc). by exists o.
  - intros Hcp. pose proof (lookup_lt_Some _ _ _ Hcp) as Hlt. rewrite length_fmap in Hlt.
    apply lookup_lt_is_Some_2 in Hlt as [f' Hf']. destruct (renamed_file_inv c' f' Hf') as (c & f & Hcc & _).
    apply (renamed_file_parent c c' k Hcc) in Hcp as (p & Hp & Hpk).
    rewrite (inverse_inj Hdi p o k Hpk Ho) in Hp. by apply (mapM_inverse_elem Hfi _ _ _ _ Hch Hcc), Hin.
Qed.

Lemma renamed_dir_paths :
  wf_tree dirs files → NoDup (d_path <$> dirs').
Proof using Hr.
  intros Hwf. pose proof (rn_dirs _ _ _ _ _ _ _ _ Hr) as Hdi. pose proof (rn_files _ _ _ _ _ _ _ _ Hr) as Hfi.
  apply NoDup_alt. intros i j x Hx Hy. rewrite list_lookup_fmap in Hx, Hy.
  destruct (dirs' !! i) as [e1|] eqn:H1; [|done]. destruct (dirs' !! j) as [e2|] eqn:H2; [|done].
  injection Hx as <-. injection Hy as Hy.
  destruct (renamed_dir_inv i e1 H1) as (o1 & d1 & Ho1 & Hd1 & Hp1 & _).
  destruct (renamed_dir_inv j e2 H2) as (o2 & d2 & Ho2 & Hd2 & Hp2 & _).
  assert (o1 = o2) as -> by (eapply (wf_dir_inj Hwf); [exact Hd1|exact Hd2|congruence]). congruence.
Qed.

Lemma renamed_file_paths :
  wf_tree dirs files → NoDup (f_path <$> files').
Proof using Hr.
  intros Hwf. pose proof (rn_dirs _ _ _ _ _ _ _ _ Hr) as Hdi. pose proof (rn_files _ _ _ _ _ _ _ _ Hr) as Hfi.
  apply NoDup_alt. intros i j x Hx Hy. rewrite list_lookup_fmap in Hx, Hy.
  destruct (files' !! i) as [e1|] eqn:H1; [|done]. destruct (files' !! j) as [e2|] eqn:H2; [|done].
  injection Hx as <-. injection Hy as Hy.
  destruct (renamed_file_inv i e1 H1) as (o1 & d1 & Ho1 & Hd1 & Hp1 & _).
  destruct (renamed_file_inv j e2 H2) as (o2 & d2 & Ho2 & Hd2 & Hp2 & _).
  assert (o1 = o2) as -> by (eapply (wf_file_inj Hwf); [exact Hd1|exact Hd2|congruence]). congruence.
Qed.

Lemma wf_renamed : wf_tree dirs files → wf_tree dirs' files'.
Proof using Hr.
  intros Hwf. split.
  - destruct (wt_root _ _ Hwf) as (r & H0 & Hp & Hn & Hpar).
    destruct (rn_dir _ _ _ _ _ _ _ _ Hr _ _ _ (rn_root _ _ _ _ _ _ _ _ Hr) H0) as (r' & H0' & Hp' & Hn' & Hpar' & _).
    exists r'. rewrite Hpar, (rn_root _ _ _ _ _ _ _ _ Hr) in Hpar'. split_and!; congruence.
  - intros k e' Hk Hk0. destruct (renamed_dir_inv k e' Hk) as (o & e & Ho & He & Hp & Hn & Hpar & _).
    assert (o ≠ 0%nat) as Ho0 by (intros ->; rewrite (rn_root _ _ _ _ _ _ _ _ Hr) in Ho; congruence).
    destruct (wt_dir _ _ Hwf _ _ He Ho0) as (p & Hpp & Hpath & Hok).
    destruct (rn_dir _ _ _ _ _ _ _ _ Hr _ _ _ Hpar Hpp) as (p' & Hpp' & Hpp'' & _).
    exists p'. rewrite Hp, Hn, Hpp''. done.
  - intros k f' Hk. destruct (renamed_file_inv k f' Hk) as (o & f & Ho & Hf & Hp & Hn & _ & Hpar).
    destruct (wt_file _ _ Hwf _ _ Hf) as (p & Hpp & Hpath & Hok).
    destruct (rn_dir _ _ _ _ _ _ _ _ Hr _ _ _ Hpar Hpp) as (p' & Hpp' & Hpp'' & _).
    exists p'. rewrite Hp, Hn, Hpp''. done.
  - by apply renamed_children.
  - by apply renamed_files.
  - by apply renamed_dir_paths.
  - by apply renamed_file_paths.
Qed.
End renamed.

(** ** Lemmas: [sort_entries_by_path] *)

Lemma Forall2_fmap_eq {A B} (P : A → A → Prop) (g : A → B) l l' :
  Forall2 P l l' → (∀ x y, P x y → g y = g x) → g <$> l' = g <$> l.
Proof. intros H Hg. induction H as [|x y l l' Hxy _ IH]; [done|]. cbn. by rewrite IH, (Hg x y Hxy). Qed.

Section sort_entries.
Context {dirs : list DirEntry} {files : list FileEntry} (Hwf : wf_tree dirs files).
Let dord := order_by_path (d_path <$> dirs).
Let didx := new_index (d_path <$> dirs).
Let ford := order_by_path (f_path <$> files).
Let fidx := new_index (f_path <$> files).
Let sdirs := sort_by (λ a b, str_le (d_path a) (d_path b)) dirs.
Let sfiles := sort_by (λ a b, str_le (f_path a) (f_path b)) files.
Let d0 : DirEntry := {| d_path := []; d_name := []; d_entry_offset := 0; d_children := []; d_files := []; d_parent := 0 |}.
Let f0 : FileEntry :=
  {| f_path := []; f_name := []; f_data := []; f_entry_offset := 0; f_data_offset := 0; f_parent := 0 |}.

Lemma didx_inverse : inverse (length dirs) dord didx.
Proof. pose proof (new_index_inverse (d_path <$> dirs)) as H. by rewrite length_fmap in H. Qed.
Lemma fidx_inverse : inverse (length files) ford fidx.
Proof. pose proof (new_index_inverse (f_path <$> files)) as H. by rewrite length_fmap in H. Qed.

Lemma parent_lt c e : dirs !! c = Some e → (d_parent e < length dirs)%nat.
Proof using Hwf.
  intros Hc. destruct (decide (c = 0%nat)) as [->|Hc0].
  - destruct (wt_root _ _ Hwf) as (r & Hr & _ & _ & Hp). rewrite Hc in Hr. injection Hr as ->. rewrite Hp.
    by eapply lookup_lt_Some.
  - destruct (wt_dir _ _ Hwf _ _ Hc Hc0) as (p & Hp & _). by eapply lookup_lt_Some.
Qed.

(** The renaming of one entry of either vector succeeds. *)
Lemma rename_dir_ok e :
  e ∈ dirs → ∃ p ch fs, didx !! d_parent e = Some p ∧ mapM (λ c, didx !! c) (d_children e) = Some ch ∧
    mapM (λ f, fidx !! f) (d_files e) = Some fs.
Proof using Hwf.
  intros (c & Hc)%list_elem_of_lookup.
  destruct (inverse_total didx_inverse (d_parent e) (parent_lt c e Hc)) as (p & Hp & _).
  destruct (mapM_inverse didx_inverse (d_children e)) as [ch Hch].
  { intros x Hx. destruct (wf_child Hwf c e x Hc Hx) as (e' & He & _). by eapply lookup_lt_Some. }
  destruct (mapM_inverse fidx_inverse (d_files e)) as [fs Hfs].
  { intros x Hx. destruct (wf_child_file Hwf c e x Hc Hx) as (f & Hf & _). by eapply lookup_lt_Some. }
  by exists p, ch, fs.
Qed.

Lemma rename_file_ok f : f ∈ files → ∃ p, didx !! f_parent f = Some p.
Proof using Hwf.
  intros (c & Hc)%list_elem_of_lookup. destruct (wt_file _ _ Hwf _ _ Hc) as (p & Hp & _).
  destruct (inverse_total didx_inverse (f_parent f)) as (q & Hq & _); [by eapply lookup_lt_Some|]. by exists q.
Qed.

(** The root sorts first. *)
Lemma didx_root : didx !! 0%nat = Some 0%nat.
Proof using Hwf.
  destruct (wt_root _ _ Hwf) as (r & H0 & Hp & _). pose proof (lookup_lt_Some _ _ _ H0) as Hlt.
  destruct (inverse_total didx_inverse 0 Hlt) as (k & Hk & Ho). rewrite Hk. f_equal.
  destruct k as [|k]; [done|]. exfalso.
  assert (∃ o, dord !! 0%nat = Some o) as [o Ho0].
  { apply lookup_lt_is_Some_2. rewrite (inv_ord _ _ _ didx_inverse). lia. }
  pose proof (order_by_path_lookup d0 d_path dirs _ _ eq_refl Ho) as Hs.
  pose proof (order_by_path_lookup d0 d_path dirs _ _ eq_refl Ho0) as Hs0.
  fold sdirs in Hs, Hs0. pose proof (fmap_sort_by_sorted d_path dirs) as Hsort. fold sdirs in Hsort.
  rewrite H0 in Hs. destruct sdirs as [|x l]; [done|]. cbn in Hs, Hs0.
  apply StronglySorted_inv in Hsort as [_ Hle]. rewrite Forall_forall in Hle.
  specialize (Hle (d_path r)). rewrite Hp in Hle.
  assert (d_path x = []) as Hx.
  { apply str_le_antisymm; [apply Hle|done]. rewrite <-Hp. apply list_elem_of_fmap_2. by eapply list_elem_of_lookup_2. }
  assert (o = 0%nat) as -> by (eapply (wf_dir_inj Hwf); [by symmetry|exact H0|congruence]).
  assert (didx !! 0%nat = Some 0%nat) by (by apply (inv_iff _ _ _ didx_inverse)). congruence.
Qed.

Lemma sort_entries_spec :
  ∃ dirs' files', sort_entries_by_path dirs files = Some (dirs', files') ∧
    renamed dord didx ford fidx dirs files dirs' files' ∧
    d_path <$> dirs' = d_path <$> sdirs ∧ d_name <$> dirs' = d_name <$> sdirs ∧
    f_path <$> files' = f_path <$> sfiles ∧ f_name <$> files' = f_name <$> sfiles ∧
    f_data <$> files' = f_data <$> sfiles.
Proof using Hwf.
  unfold sort_entries_by_path. fold didx fidx sdirs sfiles.
  match goal with |- context [mapM ?g sdirs] => destruct (mapM g sdirs) as [dirs'|] eqn:Hd end.
  2: { exfalso. apply eq_None_not_Some in Hd. apply Hd, mapM_is_Some, Forall_forall.
       intros e He. unfold sdirs in He. rewrite sort_by_perm in He.
       destruct (rename_dir_ok e He) as (p & ch & fs & Hp & Hch & Hfs). unfold compose.
       rewrite Hp. cbn [mbind option_bind]. rewrite Hch. cbn [mbind option_bind]. rewrite Hfs. by eexists. }
  cbn [mbind option_bind].
  match goal with |- context [mapM ?g sfiles] => destruct (mapM g sfiles) as [files'|] eqn:Hf end.
  2: { exfalso. apply eq_None_not_Some in Hf. apply Hf, mapM_is_Some, Forall_forall.
       intros f Hff. unfold sfiles in Hff. rewrite sort_by_perm in Hff.
       destruct (rename_file_ok f Hff) as (p & Hp). unfold compose. rewrite Hp. by eexists. }
  cbn [mbind option_bind]. exists dirs', files'. apply mapM_Some in Hd, Hf. split; [done|]. split; [split|].
  - apply didx_inverse.
  - apply fidx_inverse.
  - rewrite <-(Forall2_length _ _ _ Hd). unfold sdirs. by rewrite sort_by_perm.
  - rewrite <-(Forall2_length _ _ _ Hf). unfold sfiles. by rewrite sort_by_perm.
  - apply didx_root.
  - intros o k e Hk He. apply (inv_iff _ _ _ didx_inverse) in Hk.
    pose proof (order_by_path_lookup d0 d_path dirs _ _ eq_refl Hk) as Hs. rewrite He in Hs.
    destruct (Forall2_lookup_l _ _ _ _ _ Hd Hs) as (e' & He' & Hm). exists e'. split; [done|].
    destruct (didx !! d_parent e); [|done]. destruct (mapM _ (d_children e)); [|done].
    destruct (mapM _ (d_files e)); [|done]. injection Hm as <-. done.
  - intros o k f Hk Hff. apply (inv_iff _ _ _ fidx_inverse) in Hk.
    pose proof (order_by_path_lookup f0 f_path files _ _ eq_refl Hk) as Hs. rewrite Hff in Hs.
    destruct (Forall2_lookup_l _ _ _ _ _ Hf Hs) as (f' & Hf' & Hm). exists f'. split; [done|].
    destruct (didx !! f_parent f); [|done]. injection Hm as <-. done.
  - assert (∀ {B} (g : FileEntry → B), (∀ f p, g (f <| f_parent := p |>) = g f) → g <$> files' = g <$> sfiles) as Hg.
    { intros B g Hgf. eapply Forall2_fmap_eq; [exact Hf|]. cbn. intros f f' Hff.
      destruct (didx !! f_parent f); [|done]. injection Hff as <-. apply Hgf. }
    assert (∀ {B} (g : DirEntry → B),
      (∀ e p ch fs, g (e <| d_parent := p |> <| d_children := ch |> <| d_files := fs |>) = g e) →
      g <$> dirs' = g <$> sdirs) as Hgd.
    { intros B g Hge. eapply Forall2_fmap_eq; [exact Hd|]. cbn. intros e e' He.
      destruct (didx !! d_parent e); [|done]. destruct (mapM _ (d_children e)); [|done].
      destruct (mapM _ (d_files e)); [|done]. injection He as <-. apply Hge. }
    split_and!; first [by apply Hgd | by apply Hg].
Qed.
End sort_entries.

(** ** Lemmas: [sort_children] *)

Lemma sort_by_name_spec names indices :
  (∀ i, i ∈ indices → (i < length names)%nat) →
  ∃ l, sort_by_name names indices = Some l ∧ l ≡ₚ indices ∧ StronglySorted (name_le names) l.
Proof.
  intros Hlt. unfold sort_by_name.
  assert (mapM (λ idx, name ← names !! idx; Some (idx, name)) indices = Some ((λ i, (i, path_at names i)) <$> indices)) as ->.
  { apply mapM_Some, Forall2_fmap_r, Forall_Forall2_diag, Forall_forall. intros i Hi.
    destruct (lookup_lt_is_Some_2 names i (Hlt i Hi)) as [n Hn]. unfold compose, path_at. by rewrite Hn. }
  cbn [mbind option_bind]. eexists. split; [done|].
  rewrite <-(sort_by_fmap (λ i, (i, path_at names i)) (λ a b, str_le (a.2) (b.2))).
  rewrite <-list_fmap_compose. cbn. rewrite list_fmap_id.
  split; [apply sort_by_perm|]. unfold name_le.
  apply (sort_by_sorted (λ i j, str_le (path_at names i) (path_at names j))).
  - intros. apply str_le_total.
  - intros x y z. apply str_le_trans.
Qed.

Lemma same_dir_refl dirs : Forall2 same_dir dirs dirs.
Proof. apply Forall_Forall2_diag, Forall_forall. by intros e _. Qed.
Lemma same_file_refl files : Forall2 same_file files files.
Proof. apply Forall_Forall2_diag, Forall_forall. by intros e _. Qed.

(** The order of the lists of children, and the offsets, do not matter to the tree. *)
Lemma wf_same dirs files dirs' files' :
  Forall2 same_dir dirs dirs' → Forall2 same_file files files' → wf_tree dirs files → wf_tree dirs' files'.
Proof.
  intros Hd Hf Hwf.
  assert (d_parent <$> dirs' = d_parent <$> dirs) as Hpar by (eapply Forall2_fmap_eq; [exact Hd|by intros ?? (?&?&?&_)]).
  assert (f_parent <$> files' = f_parent <$> files) as Hfpar by (eapply Forall2_fmap_eq; [exact Hf|by intros ?? (?&?&?&_)]).
  assert (∀ c e', dirs' !! c = Some e' → ∃ e, dirs !! c = Some e ∧ same_dir e e') as Hinv.
  { intros c e' Hc. destruct (Forall2_lookup_r _ _ _ _ _ Hd Hc) as (e & ? & ?). by exists e. }
  assert (∀ c e, dirs !! c = Some e → ∃ e', dirs' !! c = Some e' ∧ same_dir e e') as Hfwd.
  { intros c e Hc. destruct (Forall2_lookup_l _ _ _ _ _ Hd Hc) as (e' & ? & ?). by exists e'. }
  split.
  - destruct (wt_root _ _ Hwf) as (r & H0 & ? & ? & ?).
    destruct (Hfwd _ _ H0) as (r' & H0' & Hp & Hn & Hpp & _). exists r'. split_and!; congruence.
  - intros c e' Hc Hc0. destruct (Hinv _ _ Hc) as (e & He & Hp & Hn & Hpp & _).
    destruct (wt_dir _ _ Hwf _ _ He Hc0) as (p & Hp0 & Hpath & Hok).
    destruct (Hfwd _ _ Hp0) as (p' & Hp' & Hpp' & _). exists p'. rewrite Hp, Hn, Hpp, Hpp'. done.
  - intros i f' Hi. destruct (Forall2_lookup_r _ _ _ _ _ Hf Hi) as (f & Hff & Hp & Hn & Hpp & _).
    destruct (wt_file _ _ Hwf _ _ Hff) as (p & Hp0 & Hpath & Hok).
    destruct (Hfwd _ _ Hp0) as (p' & Hp' & Hpp' & _). exists p'. rewrite Hp, Hn, Hpp, Hpp'. done.
  - intros c e' Hc. destruct (Hinv _ _ Hc) as (e & He & _ & _ & _ & Hch & _). rewrite Hpar.
    destruct (wt_children _ _ Hwf _ _ He) as [Hnd Hin]. split; [by rewrite Hch|]. intros x. by rewrite Hch.
  - intros c e' Hc. destruct (Hinv _ _ Hc) as (e & He & _ & _ & _ & _ & Hch). rewrite Hfpar.
    destruct (wt_files _ _ Hwf _ _ He) as [Hnd Hin]. split; [by rewrite Hch|]. intros x. by rewrite Hch.
  - assert (d_path <$> dirs' = d_path <$> dirs) as -> by (eapply Forall2_fmap_eq; [exact Hd|by intros ?? (?&_)]).
    apply (wt_dir_paths _ _ Hwf).
  - assert (f_path <$> files' = f_path <$> files) as -> by (eapply Forall2_fmap_eq; [exact Hf|by intros ?? (?&_)]).
    apply (wt_file_paths _ _ Hwf).
Qed.

Lemma sort_children_spec dirs files :
  wf_tree dirs files →
  ∃ dirs', sort_children dirs files = Some dirs' ∧ Forall2 same_dir dirs dirs' ∧ children_sorted dirs' files ∧
    d_entry_offset <$> dirs' = d_entry_offset <$> dirs.
Proof.
  intros Hwf. unfold sort_children.
  assert (∀ c e, dirs !! c = Some e → ∃ ch fs,
    sort_by_name (d_name <$> dirs) (d_children e) = Some ch ∧ ch ≡ₚ d_children e ∧
    StronglySorted (name_le (d_name <$> dirs)) ch ∧
    sort_by_name (f_name <$> files) (d_files e) = Some fs ∧ fs ≡ₚ d_files e ∧
    StronglySorted (name_le (f_name <$> files)) fs) as Hone.
  { intros c e Hc.
    destruct (sort_by_name_spec (d_name <$> dirs) (d_children e)) as (ch & Hch & Hp & Hs).
    { intros x Hx. rewrite length_fmap. destruct (wf_child Hwf c e x Hc Hx) as (e' & He & _). by eapply lookup_lt_Some. }
    destruct (sort_by_name_spec (f_name <$> files) (d_files e)) as (fs & Hfs & Hpf & Hsf).
    { intros x Hx. rewrite length_fmap. destruct (wf_child_file Hwf c e x Hc Hx) as (f & Hf & _). by eapply lookup_lt_Some. }
    by exists ch, fs. }
  match goal with |- context [mapM ?g dirs] => destruct (mapM g dirs) as [dirs'|] eqn:Hd end.
  2: { exfalso. apply eq_None_not_Some in Hd. apply Hd, mapM_is_Some, Forall_forall. unfold compose.
       intros e (c & Hc)%list_elem_of_lookup. destruct (Hone c e Hc) as (ch & fs & -> & _ & _ & Hfs & _).
       cbn [mbind option_bind]. rewrite Hfs. by eexists. }
  apply mapM_Some in Hd. exists dirs'. split; [done|].
  assert (Forall2 (λ e e', ∃ ch fs, e' = e <| d_children := ch |> <| d_files := fs |> ∧
    ch ≡ₚ d_children e ∧ StronglySorted (name_le (d_name <$> dirs)) ch ∧
    fs ≡ₚ d_files e ∧ StronglySorted (name_le (f_name <$> files)) fs) dirs dirs') as Hall.
  { apply Forall2_same_length_lookup. split; [by eapply Forall2_length|]. intros c e e' He He'.
    pose proof (Forall2_lookup_lr _ _ _ _ _ _ Hd He He') as Hg. cbn in Hg.
    destruct (Hone c e He) as (ch & fs & Hch & Hp & Hs & Hfs & Hpf & Hsf).
    rewrite Hch in Hg. cbn [mbind option_bind] in Hg. rewrite Hfs in Hg. injection Hg as <-. by exists ch, fs. }
  assert (d_name <$> dirs' = d_name <$> dirs) as Hnames.
  { eapply Forall2_fmap_eq; [exact Hall|]. by intros e e' (ch & fs & -> & _). }
  split; [|split].
  - eapply Forall2_impl; [exact Hall|]. by intros e e' (ch & fs & -> & ? & _ & ? & _).
  - intros d e' He'. rewrite Hnames. destruct (Forall2_lookup_r _ _ _ _ _ Hall He') as (e & _ & ch & fs & -> & _ & ? & _ & ?).
    done.
  - eapply Forall2_fmap_eq; [exact Hall|]. by intros e e' (ch & fs & -> & _).
Qed.

(** ** Lemmas: the sorted vectors are determined by the paths *)

Lemma path_at_name_dir dirs c e : dirs !! c = Some e → path_at (d_name <$> dirs) c = d_name e.
Proof. intros Hc. unfold path_at. by rewrite list_lookup_fmap, Hc. Qed.
Lemma path_at_name_file files c f : files !! c = Some f → path_at (f_name <$> files) c = f_name f.
Proof. intros Hc. unfold path_at. by rewrite list_lookup_fmap, Hc. Qed.

(** Sorted by name, the children of a directory are one list: siblings have different names. *)
Lemma children_unique dirs files d e l :
  wf_tree dirs files → dirs !! d = Some e →
  StronglySorted (name_le (d_name <$> dirs)) (d_children e) →
  StronglySorted (name_le (d_name <$> dirs)) l → l ≡ₚ d_children e → l = d_children e.
Proof.
  intros Hwf Hd Hs Hl Hp. symmetry.
  apply (sorted_perm_eq (λ i j, str_le (path_at (d_name <$> dirs) i) (path_at (d_name <$> dirs) j))); [|done|done|done].
  intros x y Hx Hy Hxy Hyx. pose proof (str_le_antisymm _ _ Hxy Hyx) as Heq.
  destruct (wf_child Hwf d e x Hd Hx) as (ex & Hex & _ & _ & Hpx & _).
  destruct (wf_child Hwf d e y Hd Hy) as (ey & Hey & _ & _ & Hpy & _).
  rewrite (path_at_name_dir _ _ _ Hex), (path_at_name_dir _ _ _ Hey) in Heq.
  eapply (wf_dir_inj Hwf); [exact Hex|exact Hey|]. by rewrite Hpx, Hpy, Heq.
Qed.

Lemma child_files_unique dirs files d e l :
  wf_tree dirs files → dirs !! d = Some e →
  StronglySorted (name_le (f_name <$> files)) (d_files e) →
  StronglySorted (name_le (f_name <$> files)) l → l ≡ₚ d_files e → l = d_files e.
Proof.
  intros Hwf Hd Hs Hl Hp. symmetry.
  apply (sorted_perm_eq (λ i j, str_le (path_at (f_name <$> files) i) (path_at (f_name <$> files) j))); [|done|done|done].
  intros x y Hx Hy Hxy Hyx. pose proof (str_le_antisymm _ _ Hxy Hyx) as Heq.
  destruct (wf_child_file Hwf d e x Hd Hx) as (ex & Hex & _ & Hpx & _).
  destruct (wf_child_file Hwf d e y Hd Hy) as (ey & Hey & _ & Hpy & _).
  rewrite (path_at_name_file _ _ _ Hex), (path_at_name_file _ _ _ Hey) in Heq.
  eapply (wf_file_inj Hwf); [exact Hex|exact Hey|]. by rewrite Hpx, Hpy, Heq.
Qed.

Section unique.
Context {dirs : list DirEntry} {files : list FileEntry} {dirs' : list DirEntry} {files' : list FileEntry}.
Context (Hwf : wf_tree dirs files) (Hwf' : wf_tree dirs' files').
Context (Hdp : d_path <$> dirs' = d_path <$> dirs) (Hfp : f_path <$> files' = f_path <$> files).

Lemma same_path_dir c e : dirs !! c = Some e → ∃ e', dirs' !! c = Some e' ∧ d_path e' = d_path e.
Proof using Hdp.
  intros Hc. assert ((d_path <$> dirs') !! c = Some (d_path e)) as H by (by rewrite Hdp, list_lookup_fmap, Hc).
  rewrite list_lookup_fmap in H. destruct (dirs' !! c) as [e'|]; [|done]. injection H as H. by exists e'.
Qed.

(** Entries at one path have the same parent and name. *)
Lemma unique_dir c e e' :
  dirs !! c = Some e → dirs' !! c = Some e' → d_name e' = d_name e ∧ d_parent e' = d_parent e ∧ d_path e' = d_path e.
Proof using Hwf Hwf' Hdp.
  intros Hc Hc'. destruct (same_path_dir c e Hc) as (e2 & He2 & Hp). rewrite Hc' in He2. injection He2 as <-.
  destruct (decide (c = 0%nat)) as [->|Hc0].
  - destruct (wt_root _ _ Hwf) as (r & Hr & _ & Hn & Hpar). destruct (wt_root _ _ Hwf') as (r' & Hr' & _ & Hn' & Hpar').
    split_and!; congruence.
  - destruct (wt_dir _ _ Hwf _ _ Hc Hc0) as (p & Hpp & Hpath & Hok).
    destruct (wt_dir _ _ Hwf' _ _ Hc' Hc0) as (p' & Hpp' & Hpath' & Hok').
    pose proof Hp as Hq. rewrite Hpath, Hpath' in Hq. apply path_split in Hq as [Hq Hn]; [|by apply name_ok_no_slash..].
    split_and!; [done| |done]. destruct (same_path_dir _ _ Hpp) as (p2 & Hp2 & Hpe).
    eapply (wf_dir_inj Hwf'); [exact Hpp'|exact Hp2|congruence].
Qed.

Lemma unique_file i f f' :
  files !! i = Some f → files' !! i = Some f' → f_name f' = f_name f ∧ f_parent f' = f_parent f ∧ f_path f' = f_path f.
Proof using Hwf Hwf' Hdp Hfp.
  intros Hc Hc'. assert (f_path f' = f_path f) as Hp.
  { assert ((f_path <$> files') !! i = (f_path <$> files) !! i) as H by (by rewrite Hfp).
    rewrite !list_lookup_fmap, Hc, Hc' in H. by injection H. }
  destruct (wt_file _ _ Hwf _ _ Hc) as (p & Hpp & Hpath & Hok).
  destruct (wt_file _ _ Hwf' _ _ Hc') as (p' & Hpp' & Hpath' & Hok').
  pose proof Hp as Hq. rewrite Hpath, Hpath' in Hq. apply path_split in Hq as [Hq Hn]; [|by apply name_ok_no_slash..].
  split_and!; [done| |done]. destruct (same_path_dir _ _ Hpp) as (p2 & Hp2 & Hpe).
  eapply (wf_dir_inj Hwf'); [exact Hpp'|exact Hp2|congruence].
Qed.

Lemma fmap_eq_lookup {A B} (g : A → B) (l l' : list A) :
  length l' = length l → (∀ i x x', l !! i = Some x → l' !! i = Some x' → g x' = g x) → g <$> l' = g <$> l.
Proof.
  intros Hlen Hg. eapply Forall2_fmap_eq; [|exact (λ x y H, H)].
  apply Forall2_same_length_lookup. split; [done|]. exact Hg.
Qed.

Context (Hfd : f_data <$> files' = f_data <$> files).
Context (Hcs : children_sorted dirs files) (Hcs' : children_sorted dirs' files').

Lemma sorted_unique :
  Forall2 (λ e e', e <| d_entry_offset := d_entry_offset e' |> = e') dirs dirs' ∧
  Forall2 (λ f f', f <| f_entry_offset := f_entry_offset f' |> <| f_data_offset := f_data_offset f' |> = f') files files'.
Proof using Hwf Hwf' Hdp Hfp Hfd Hcs Hcs'.
  assert (length dirs' = length dirs) as Hdl by (by rewrite <-(length_fmap d_path dirs'), Hdp, length_fmap).
  assert (length files' = length files) as Hfl by (by rewrite <-(length_fmap f_path files'), Hfp, length_fmap).
  assert (d_name <$> dirs' = d_name <$> dirs) as Hdn by (apply fmap_eq_lookup; [done|]; intros; by eapply unique_dir).
  assert (d_parent <$> dirs' = d_parent <$> dirs) as Hdpar by (apply fmap_eq_lookup; [done|]; intros; by eapply unique_dir).
  assert (f_name <$> files' = f_name <$> files) as Hfn by (apply fmap_eq_lookup; [done|]; intros; by eapply unique_file).
  assert (f_parent <$> files' = f_parent <$> files) as Hfpar by (apply fmap_eq_lookup; [done|]; intros; by eapply unique_file).
  split; apply Forall2_same_length_lookup; (split; [done|]).
  - intros c e e' Hc Hc'. destruct (unique_dir c e e' Hc Hc') as (Hn & Hpar & Hp).
    destruct (Hcs c e Hc) as [Hs Hsf]. destruct (Hcs' c e' Hc') as [Hs' Hsf'].
    rewrite Hdn in Hs'. rewrite Hfn in Hsf'.
    destruct (wt_children _ _ Hwf _ _ Hc) as [Hnd Hin]. destruct (wt_children _ _ Hwf' _ _ Hc') as [Hnd' Hin'].
    destruct (wt_files _ _ Hwf _ _ Hc) as [Hndf Hinf]. destruct (wt_files _ _ Hwf' _ _ Hc') as [Hndf' Hinf'].
    rewrite Hdpar in Hin'. rewrite Hfpar in Hinf'.
    assert (d_children e' = d_children e) as Hch.
    { eapply children_unique; [exact Hwf|exact Hc|done|done|]. apply NoDup_Permutation; [done|done|]. intros x. by rewrite Hin, Hin'. }
    assert (d_files e' = d_files e) as Hfs.
    { eapply child_files_unique; [exact Hwf|exact Hc|done|done|]. apply NoDup_Permutation; [done|done|]. intros x. by rewrite Hinf, Hinf'. }
    destruct e, e'. cbn in *. by subst.
  - intros i f f' Hi Hi'. destruct (unique_file i f f' Hi Hi') as (Hn & Hpar & Hp).
    assert (f_data f' = f_data f) as Hd.
    { assert ((f_data <$> files') !! i = (f_data <$> files) !! i) as H by (by rewrite Hfd).
      rewrite !list_lookup_fmap, Hi, Hi' in H. by injection H. }
    destruct f, f'. cbn in *. by subst.
Qed.
End unique.

(** ** The first half of [build] *)

Lemma represents_same b b' m D :
  represents b m D → wf_tree (rb_dirs b') (rb_files b') →
  d_path <$> rb_dirs b' ≡ₚ d_path <$> rb_dirs b →
  (λ f, (f_path f, f_data f)) <$> rb_files b' ≡ₚ (λ f, (f_path f, f_data f)) <$> rb_files b → represents b' m D.
Proof.
  intros Hr Hwf Hd Hf. split; [done| | |apply (rp_names _ _ _ Hr)].
  - intros cs x. rewrite (rp_file _ _ _ Hr).
    assert (∀ l : list FileEntry, (∃ f, f ∈ l ∧ f_path f = join cs ∧ f_data f = x) ↔ (join cs, x) ∈ (λ f, (f_path f, f_data f)) <$> l) as Hl.
    { intros l. rewrite list_elem_of_fmap. split.
      - intros (f & ? & <- & <-). by exists f.
      - intros (f & [= -> ->] & ?). by exists f. }
    by rewrite !Hl, Hf.
  - intros p. by rewrite Hd, (rp_dir _ _ _ Hr).
Qed.

Definition sorted_builder (dirs : list DirEntry) (files : list FileEntry) : RomFsBuilder :=
  {| rb_dirs := dirs; rb_files := files; rb_dir_hash_siblings := []; rb_file_hash_siblings := [] |}.

Lemma zip_with_fmap {A B C} (g : A → B) (h : A → C) (l l' : list A) :
  g <$> l = g <$> l' → h <$> l = h <$> l' → (λ x, (g x, h x)) <$> l = (λ x, (g x, h x)) <$> l'.
Proof.
  revert l'. induction l as [|x l IH]; intros [|y l']; [done..|]. cbn. intros [= Hg Hgs] [= Hh Hhs].
  by rewrite Hg, Hh, (IH l').
Qed.

(** Sorting leaves the same tree in path order, each directory's lists in name order. *)
Lemma sorted_spec b m D :
  represents b m D →
  ∃ dirs0 files dirs, sort_entries_by_path (rb_dirs b) (rb_files b) = Some (dirs0, files) ∧
    sort_children dirs0 files = Some dirs ∧ represents (sorted_builder dirs files) m D ∧
    children_sorted dirs files ∧ paths_sorted (d_path <$> dirs) ∧ paths_sorted (f_path <$> files) ∧
    d_name <$> dirs ≡ₚ d_name <$> rb_dirs b ∧ f_name <$> files ≡ₚ f_name <$> rb_files b ∧
    f_data <$> files ≡ₚ f_data <$> rb_files b.
Proof.
  intros Hr. pose proof (rp_wf _ _ _ Hr) as Hwf.
  destruct (sort_entries_spec Hwf) as (dirs0 & files & Hs & Hren & Hdp & Hdn & Hfp & Hfn & Hfd).
  pose proof (wf_renamed Hren Hwf) as Hwf0.
  destruct (sort_children_spec dirs0 files Hwf0) as (dirs & Hc & Hsame & Hcs & _).
  assert (d_path <$> dirs = d_path <$> dirs0) as Hdp0 by (eapply Forall2_fmap_eq; [exact Hsame|by intros ?? (?&_)]).
  exists dirs0, files, dirs. split_and!; [done|done| |done| | | | |].
  - eapply represents_same; [exact Hr| | |].
    + eapply wf_same; [exact Hsame|apply same_file_refl|done].
    + cbn. rewrite Hdp0, Hdp. by rewrite sort_by_perm.
    + cbn. rewrite (zip_with_fmap f_path f_data _ _ Hfp Hfd). by rewrite sort_by_perm.
  - rewrite Hdp0, Hdp. apply fmap_sort_by_sorted.
  - rewrite Hfp. apply fmap_sort_by_sorted.
  - assert (d_name <$> dirs = d_name <$> dirs0) as -> by (eapply Forall2_fmap_eq; [exact Hsame|by intros ?? (?&?&_)]).
    rewrite Hdn. by rewrite sort_by_perm.
  - rewrite Hfn. by rewrite sort_by_perm.
  - rewrite Hfd. by rewrite sort_by_perm.
Qed.

(** ** Determinism *)

Lemma paths_sorted_unique l k : paths_sorted l → paths_sorted k → NoDup l → NoDup k → (∀ p, p ∈ l ↔ p ∈ k) → l = k.
Proof.
  intros Hl Hk Hnl Hnk Hin. apply (sorted_perm_eq str_le); [|done|done|by apply NoDup_Permutation].
  intros x y _ _. apply str_le_antisymm.
Qed.

Lemma represents_file_paths b m D p :
  represents b m D → p ∈ f_path <$> rb_files b ↔ ∃ cs, is_Some (m !! cs) ∧ p = join cs.
Proof.
  intros Hr. rewrite list_elem_of_fmap. split.
  - intros (f & -> & Hf). pose proof Hf as (i & Hi)%list_elem_of_lookup.
    destruct (wf_file_path (rp_wf _ _ _ Hr) i f Hi) as (cs & Hcs & Hp).
    destruct (wt_file _ _ (rp_wf _ _ _ Hr) _ _ Hi) as (_ & _ & _ & Hn).
    exists (cs ++ [f_name f]). split; [|done]. exists (f_data f). apply (rp_file _ _ _ Hr). split; [|by exists f].
    apply Forall_app. split; [done|]. by apply Forall_singleton.
  - intros (cs & [x Hx] & ->). apply (rp_file _ _ _ Hr) in Hx as (_ & f & Hf & Hp & _). by exists f.
Qed.

Definition erase_data (f : FileEntry) : FileEntry := f <| f_data_offset := 0 |>.
Definition erase_entry (f : FileEntry) : FileEntry := f <| f_entry_offset := 0 |>.
Definition erase_dir (e : DirEntry) : DirEntry := e <| d_entry_offset := 0 |>.

Lemma data_offsets_erase files : ∀ off, data_offsets off (erase_data <$> files) = data_offsets off files.
Proof.
  induction files as [|f fs IH]; intros off; [done|]. cbn [fmap list_fmap data_offsets].
  repeat (match goal with |- mbind _ ?o = mbind _ ?o' => change o' with o; destruct o; [|done] end; cbn [mbind option_bind]).
  by rewrite IH.
Qed.
Lemma data_offsets_erase_entry (files : list FileEntry) :
  ∀ off, data_offsets off (erase_entry <$> files) = (λ fs : list FileEntry, erase_entry <$> fs) <$> data_offsets off files.
Proof.
  induction files as [|f fs IH]; intros off; [done|]. cbn [fmap list_fmap data_offsets].
  destruct (align64 off 0x10) as [o|]; [|done]. cbn. destruct (checked_add _ _) as [n|]; [|done]. cbn.
  rewrite IH. by destruct (data_offsets n fs).
Qed.
Lemma file_entry_offsets_erase files : ∀ off, file_entry_offsets off (erase_entry <$> files) = file_entry_offsets off files.
Proof.
  induction files as [|f fs IH]; intros off; [done|]. cbn [fmap list_fmap file_entry_offsets].
  repeat (match goal with |- mbind _ ?o = mbind _ ?o' => change o' with o; destruct o; [|done] end; cbn [mbind option_bind]).
  by rewrite IH.
Qed.
Lemma dir_entry_offsets_erase dirs : ∀ off, dir_entry_offsets off (erase_dir <$> dirs) = dir_entry_offsets off dirs.
Proof.
  induction dirs as [|f fs IH]; intros off; [done|]. cbn [fmap list_fmap dir_entry_offsets].
  repeat (match goal with |- mbind _ ?o = mbind _ ?o' => change o' with o; destruct o; [|done] end; cbn [mbind option_bind]).
  by rewrite IH.
Qed.

(** The offsets are overwritten, whatever they were. *)
Lemma calculate_offsets_erase dirs files :
  calculate_offsets (erase_dir <$> dirs) (erase_entry <$> (erase_data <$> files)) = calculate_offsets dirs files.
Proof.
  unfold calculate_offsets. rewrite data_offsets_erase_entry, data_offsets_erase.
  destruct (data_offsets 0 files) as [fs|]; [|done]. cbn. by rewrite file_entry_offsets_erase, dir_entry_offsets_erase.
Qed.

Lemma calculate_offsets_ext dirs files dirs' files' :
  Forall2 (λ e e', e <| d_entry_offset := d_entry_offset e' |> = e') dirs dirs' →
  Forall2 (λ f f', f <| f_entry_offset := f_entry_offset f' |> <| f_data_offset := f_data_offset f' |> = f') files files' →
  calculate_offsets dirs' files' = calculate_offsets dirs files.
Proof.
  intros Hd Hf. rewrite <-(calculate_offsets_erase dirs), <-(calculate_offsets_erase dirs'). f_equal.
  - eapply Forall2_fmap_eq; [exact Hd|]. by intros e e' <-.
  - rewrite <-!list_fmap_compose. eapply Forall2_fmap_eq; [exact Hf|]. by intros f f' <-.
Qed.

Lemma sorted_offsets_unique b b' m D :
  represents b m D → represents b' m D →
  ('(dirs, files) ← sort_entries_by_path (rb_dirs b) (rb_files b);
   dirs ← sort_children dirs files; calculate_offsets dirs files) =
  ('(dirs, files) ← sort_entries_by_path (rb_dirs b') (rb_files b');
   dirs ← sort_children dirs files; calculate_offsets dirs files).
Proof.
  intros Hr Hr'.
  destruct (sorted_spec b m D Hr) as (d0 & files & dirs & -> & Hc & Hs & Hcs & Hsd & Hsf & _).
  destruct (sorted_spec b' m D Hr') as (d0' & files' & dirs' & -> & Hc' & Hs' & Hcs' & Hsd' & Hsf' & _).
  cbn [mbind option_bind]. rewrite Hc, Hc'. cbn [mbind option_bind].
  pose proof (rp_wf _ _ _ Hs) as Hwf. pose proof (rp_wf _ _ _ Hs') as Hwf'. cbn in Hwf, Hwf'.
  assert (d_path <$> dirs = d_path <$> dirs') as Hdp.
  { apply paths_sorted_unique; [done|done|apply (wt_dir_paths _ _ Hwf)|apply (wt_dir_paths _ _ Hwf')|].
    intros p. rewrite (rp_dir _ _ _ Hs p), (rp_dir _ _ _ Hs' p). done. }
  assert (f_path <$> files = f_path <$> files') as Hfp.
  { apply paths_sorted_unique; [done|done|apply (wt_file_paths _ _ Hwf)|apply (wt_file_paths _ _ Hwf')|].
    intros p. rewrite (represents_file_paths _ _ _ p Hs), (represents_file_paths _ _ _ p Hs'). done. }
  assert (f_data <$> files = f_data <$> files') as Hfd.
  { apply fmap_eq_lookup; [by rewrite <-(length_fmap f_path files), Hfp, length_fmap|].
    intros i f' f Hi' Hi. assert (f_path f = f_path f') as Hpe.
    { assert ((f_path <$> files) !! i = (f_path <$> files') !! i) as He by (by rewrite Hfp).
      rewrite !list_lookup_fmap, Hi, Hi' in He. by injection He. }
    assert (f_path f ∈ f_path <$> rb_files (sorted_builder dirs files)) as Hin
      by (apply list_elem_of_fmap_2; exact (list_elem_of_lookup_2 _ _ _ Hi)).
    apply (represents_file_paths _ _ _ _ Hs) in Hin as (cs & [x Hx] & Hpj).
    pose proof (proj1 (rp_file _ _ _ Hs cs x) Hx) as (Hok & g & Hg & Hgp & <-).
    pose proof (proj1 (rp_file _ _ _ Hs' cs _) Hx) as (_ & g' & Hg' & Hgp' & Hgd).
    apply list_elem_of_lookup in Hg as (j & Hj), Hg' as (j' & Hj').
    assert (j = i) as -> by (eapply (wf_file_inj Hwf); [exact Hj|exact Hi|congruence]).
    assert (j' = i) as -> by (eapply (wf_file_inj Hwf'); [exact Hj'|exact Hi'|congruence]).
    cbn in Hj, Hj'. congruence. }
  destruct (sorted_unique Hwf Hwf' (eq_sym Hdp) (eq_sym Hfp) (eq_sym Hfd) Hcs Hcs') as [Hd Hf].
  symmetry. by apply calculate_offsets_ext.
Qed.

(** Two builders of one map agree on being empty, and on the image. *)
Lemma represents_empty b b' m D : represents b m D → represents b' m D → rb_files b = [] → rb_files b' = [].
Proof.
  intros Hr Hr' H. apply (fmap_nil_inv f_path), elem_of_nil_inv. intros p Hp.
  apply (represents_file_paths _ _ _ _ Hr'), (represents_file_paths _ _ _ _ Hr) in Hp. rewrite H in Hp. by apply elem_of_nil in Hp.
Qed.

Lemma build_image_unique b b' m D : represents b m D → represents b' m D → build_image b = build_image b'.
Proof.
  intros Hr Hr'. pose proof (sorted_offsets_unique b b' m D Hr Hr') as H. unfold build_image.
  destruct (sort_entries_by_path (rb_dirs b) (rb_files b)) as [[d f]|],
    (sort_entries_by_path (rb_dirs b') (rb_files b')) as [[d' f']|]; cbn [mbind option_bind] in H |- *; [| | |done];
    repeat match goal with |- context [sort_children ?x ?y] => destruct (sort_children x y) end;
    cbn [mbind option_bind] in H |- *; first [done | by rewrite H | by rewrite <-H].
Qed.

Lemma build_unique b b' m D : represents b m D → represents b' m D → build b = build b'.
Proof.
  intros Hr Hr'. unfold build. rewrite (build_image_unique b b' m D Hr Hr').
  by rewrite (bool_decide_ext (rb_files b = []) (rb_files b' = [])) by (split; by eapply represents_empty).
Qed.

(** The image is a function of the map of paths to contents and of the set of directories: two builders
    that hold the same, whatever the order the files were added in, build the same bytes, or both panic. *)
Theorem romfs_build_deterministic b b' m D : represents b m D → represents b' m D → build b = build b'.
Proof. apply build_unique. Qed.

Lemma romfs_build_deterministic_witness :
  build (builder_of sample_pair) = build (builder_of (reverse sample_pair)) ∧
  d_path <$> rb_dirs (builder_of sample_pair) ≠ [] ∧
  f_path <$> rb_files (builder_of sample_pair) ≠ f_path <$> rb_files (builder_of (reverse sample_pair)).
Proof.
  split.
  - destruct sample_pair_represents as (m & H1 & H2).
    exact (romfs_build_deterministic (builder_of sample_pair) (builder_of (reverse sample_pair)) m (is_dir m) H1 H2).
  - split; vm_compute; discriminate.
Defined.
