(* ===== verification/RomFsLayout.v ===== *)
(** * Laying out a RomFS image: the second half of [build]

    What the offsets, the tables and the data region of [build_image] are, for a builder whose
    metadata a 32-bit offset can address: every entry sits at its offset, every sibling chain follows
    the sorted list, every file's bytes sit at their place. *)

From stdpp Require Import gmap.
From S2P Require Import Prelude Bytes Strs Fs Layout Loops RomFsRaw RomFsTree RomFsWrite RomFsSort.
#[local] Open Scope Z_scope.

(** ** Definitions *)

(** The bytes an entry takes in its table. *)
Definition dir_size (e : DirEntry) : Z := 0x18 + align_up (len (d_name e)) 4.
Definition file_size (f : FileEntry) : Z := 0x20 + align_up (len (f_name f)) 4.

(** What the format can express: both metadata tables end below the largest [u32], and the contents,
    each rounded up, stay well below the size of the address space. *)
Record fits (dirs : list DirEntry) (files : list FileEntry) : Prop := {
  fit_dirs : zsum (dir_size <$> dirs) ≤ U32_MAX;
  fit_files : zsum (file_size <$> files) ≤ U32_MAX;
  fit_data : zsum ((λ f, len (f_data f) + 0xf) <$> files) ≤ 2 ^ 62;
}.

(** Consecutive offsets. *)
Fixpoint offsets (from : Z) (sizes : list Z) : list Z :=
  match sizes with [] => [] | s :: sizes => from :: offsets (from + s) sizes end.

(** Every file's data starts at the next multiple of 16. *)
Fixpoint data_laid (from : Z) (files : list FileEntry) : Prop :=
  match files with
  | [] => True
  | f :: files => f_data_offset f = align_up from 0x10 ∧ data_laid (f_data_offset f + len (f_data f)) files
  end.
Fixpoint data_end (from : Z) (files : list FileEntry) : Z :=
  match files with [] => from | f :: files => data_end (align_up from 0x10 + len (f_data f)) files end.

(** The entry and the padded name of one record of a table. *)
Definition chunk (record name : list byte) : list byte :=
  record ++ name ++ zeros (align_up (len name) 4 - len name).

(** ** Lemmas: rounding up *)

Lemma align4_spec v : align_up v 4 mod 4 = 0 ∧ v ≤ align_up v 4 < v + 4.
Proof. by apply (align_up_spec v 4 2). Qed.
Lemma align16_spec v : align_up v 0x10 mod 0x10 = 0 ∧ v ≤ align_up v 0x10 < v + 0x10.
Proof. by apply (align_up_spec v 0x10 4). Qed.

Lemma align64_16 v : 0 ≤ v → v + 0xf ≤ USIZE_MAX → align64 v 0x10 = Some (align_up v 0x10).
Proof. intros ? ?. apply (align64_ok v 4); lia. Qed.
Lemma align64_4 v : 0 ≤ v → v + 3 ≤ USIZE_MAX → align64 v 4 = Some (align_up v 4).
Proof. intros ? ?. apply (align64_ok v 2); lia. Qed.

(** An aligned number is left alone, and is a shift of the rounding. *)
Lemma align_up_add k v : k mod 0x10 = 0 → align_up (k + v) 0x10 = k + align_up v 0x10.
Proof.
  intros Hk. rewrite !(align_up_pow2 _ 4) by done. change (2 ^ 4) with 16 in *.
  apply Z.div_exact in Hk; [|done]. rewrite Hk at 1.
  replace (16 * (k / 16) + v + (16 - 1)) with (v + (16 - 1) + (k / 16) * 16) by lia.
  rewrite Z.div_add by done. lia.
Qed.
Lemma align4_add k v : k mod 4 = 0 → align_up (k + v) 4 = k + align_up v 4.
Proof.
  intros Hk. rewrite !(align_up_pow2 _ 2) by done. change (2 ^ 2) with 4 in *.
  apply Z.div_exact in Hk; [|done]. rewrite Hk at 1.
  replace (4 * (k / 4) + v + (4 - 1)) with (v + (4 - 1) + (k / 4) * 4) by lia.
  rewrite Z.div_add by done. lia.
Qed.

(** ** Lemmas: offsets *)

Lemma zsum_cons a l : zsum (a :: l) = a + zsum l.
Proof. done. Qed.

Lemma zsum_perm l l' : l ≡ₚ l' → zsum l = zsum l'.
Proof. induction 1; rewrite ?zsum_cons in *; lia. Qed.

Lemma length_offsets sizes : ∀ from, length (offsets from sizes) = length sizes.
Proof. induction sizes as [|s l IH]; intros from; [done|]. cbn. by rewrite IH. Qed.

Lemma offsets_lookup sizes : ∀ from i o,
  offsets from sizes !! i = Some o → o = from + zsum (take i sizes) ∧ (i < length sizes)%nat.
Proof.
  induction sizes as [|s l IH]; intros from [|i] o; [done|done| |].
  - cbn [offsets lookup list_lookup take]. intros [= <-]. unfold zsum. cbn. lia.
  - cbn [offsets lookup list_lookup take]. intros [-> Hi]%IH. rewrite zsum_cons. cbn. lia.
Qed.

(** With positive sizes the offsets increase, so they tell the entries apart. *)
Lemma offsets_mono sizes from i j o o' :
  Forall (λ s, 0 < s) sizes → offsets from sizes !! i = Some o → offsets from sizes !! j = Some o' →
  (i < j)%nat → o < o'.
Proof.
  intros Hpos. revert from i j. induction Hpos as [|s l Hs Hl IH]; intros from [|i] [|j] Hi Hj Hij; try done; try lia.
  - cbn in Hi. injection Hi as <-. apply offsets_lookup in Hj as [-> _]. cbn [take]. rewrite zsum_cons.
    pose proof (zsum_nonneg (take j l)). rewrite <-(firstn_skipn j l), Forall_app in Hl. destruct Hl as [Hl _].
    assert (0 ≤ zsum (take j l)) by (apply zsum_nonneg; eapply Forall_impl; [exact Hl|cbn; lia]). lia.
  - cbn in Hi, Hj. by eapply IH; [exact Hi|exact Hj|lia].
Qed.

Lemma offsets_inj sizes from i j o :
  Forall (λ s, 0 < s) sizes → offsets from sizes !! i = Some o → offsets from sizes !! j = Some o → i = j.
Proof.
  intros Hpos Hi Hj. destruct (lt_eq_lt_dec i j) as [[H|H]|H]; [|done|].
  - pose proof (offsets_mono sizes from i j o o Hpos Hi Hj H). lia.
  - pose proof (offsets_mono sizes from j i o o Hpos Hj Hi H). lia.
Qed.

Lemma dir_size_pos e : 0 < dir_size e.
Proof. unfold dir_size. pose proof (align4_spec (len (d_name e))). len_pos. lia. Qed.
Lemma file_size_pos f : 0 < file_size f.
Proof. unfold file_size. pose proof (align4_spec (len (f_name f))). len_pos. lia. Qed.
Lemma zsum_fmap_nonneg {A} (g : A → Z) (l : list A) : (∀ x, 0 ≤ g x) → 0 ≤ zsum (g <$> l).
Proof. intros Hg. apply zsum_nonneg, Forall_fmap, Forall_forall. intros x _. apply Hg. Qed.
Lemma dir_sizes_pos (dirs : list DirEntry) : Forall (λ s, 0 < s) (dir_size <$> dirs).
Proof. apply Forall_fmap, Forall_forall. intros e _. apply dir_size_pos. Qed.
Lemma file_sizes_pos (files : list FileEntry) : Forall (λ s, 0 < s) (file_size <$> files).
Proof. apply Forall_fmap, Forall_forall. intros e _. apply file_size_pos. Qed.

(** Offsets of entries in a table that fits stay below its end, and are multiples of 4. *)
Lemma offsets_bound sizes i o s :
  Forall (λ s, 0 < s) sizes → offsets 0 sizes !! i = Some o → sizes !! i = Some s → 0 ≤ o ∧ o + s ≤ zsum sizes.
Proof.
  intros Hpos Ho Hs. apply offsets_lookup in Ho as [-> _].
  assert (zsum sizes = zsum (take i sizes) + s + zsum (drop (S i) sizes)) as He.
  { clear Hpos. revert i Hs. induction sizes as [|x l IH]; intros [|i] Hs; [done|done| |].
    - injection Hs as ->. cbn [take drop]. rewrite zsum_cons. unfold zsum at 2. cbn [foldr]. rewrite drop_0. lia.
    - cbn [take drop]. rewrite !zsum_cons. rewrite (IH i Hs) at 1. lia. }
  assert (∀ l, Forall (λ s, 0 < s) l → 0 ≤ zsum l) as Hnn.
  { intros l Hl. apply zsum_nonneg. eapply Forall_impl; [exact Hl|cbn; lia]. }
  pose proof (Hnn _ (Forall_take _ i _ Hpos)). pose proof (Hnn _ (Forall_drop _ (S i) _ Hpos)). lia.
Qed.

(** ** Lemmas: [calculate_offsets] *)

Lemma Forall2_compose {A} (P Q R : A → A → Prop) l l1 l2 :
  (∀ x y z, P x y → Q y z → R x z) → Forall2 P l l1 → Forall2 Q l1 l2 → Forall2 R l l2.
Proof.
  intros HPQR H. revert l2. induction H as [|x y l l1 Hxy _ IH]; intros l2 H2; [by inversion H2|].
  inversion H2; subst. constructor; [by eapply HPQR|by apply IH].
Qed.

Definition moved_dir (e e' : DirEntry) : Prop := e <| d_entry_offset := d_entry_offset e' |> = e'.
Definition moved_file (f f' : FileEntry) : Prop :=
  f <| f_entry_offset := f_entry_offset f' |> <| f_data_offset := f_data_offset f' |> = f'.

Lemma dir_entry_offsets_spec dirs : ∀ off,
  0 ≤ off → off + zsum (dir_size <$> dirs) ≤ U32_MAX →
  ∃ dirs', dir_entry_offsets off dirs = Some dirs' ∧ Forall2 moved_dir dirs dirs' ∧
    d_entry_offset <$> dirs' = offsets off (dir_size <$> dirs).
Proof.
  induction dirs as [|e es IH]; intros off Hoff Hs; [exists []; by split_and!|].
  rewrite fmap_cons, zsum_cons in Hs. unfold dir_size at 1 in Hs.
  pose proof (align4_spec (len (d_name e))). pose proof (len_nonneg (d_name e)).
  assert (0 ≤ zsum (dir_size <$> es)) by (apply zsum_fmap_nonneg; intros; pose proof (dir_size_pos x); lia).
  cbn [dir_entry_offsets]. rewrite as_u32_small by mlia. rewrite align32_ok by mlia. bind_cbn.
  change (size_of RomFsDirEntry) with 0x18. do 2 bind_step.
  destruct (IH (off + (0x18 + align_up (len (d_name e)) 4))) as (es' & -> & Hm & Ho); [lia|lia|].
  cbn. eexists. split; [done|]. split; [by constructor|]. rewrite !fmap_cons. cbn [offsets]. by rewrite Ho.
Qed.

Lemma file_entry_offsets_spec files : ∀ off,
  0 ≤ off → off + zsum (file_size <$> files) ≤ U32_MAX →
  ∃ files', file_entry_offsets off files = Some files' ∧
    Forall2 (λ f f', f <| f_entry_offset := f_entry_offset f' |> = f') files files' ∧
    f_entry_offset <$> files' = offsets off (file_size <$> files).
Proof.
  induction files as [|e es IH]; intros off Hoff Hs; [exists []; by split_and!|].
  rewrite fmap_cons, zsum_cons in Hs. unfold file_size at 1 in Hs.
  pose proof (align4_spec (len (f_name e))). pose proof (len_nonneg (f_name e)).
  assert (0 ≤ zsum (file_size <$> es)) by (apply zsum_fmap_nonneg; intros; pose proof (file_size_pos x); lia).
  cbn [file_entry_offsets]. rewrite as_u32_small by mlia. rewrite align32_ok by mlia. bind_cbn.
  change (size_of RomFsFileEntry) with 0x20. do 2 bind_step.
  destruct (IH (off + (0x20 + align_up (len (f_name e)) 4))) as (es' & -> & Hm & Ho); [lia|lia|].
  cbn. eexists. split; [done|]. split; [by constructor|]. rewrite !fmap_cons. cbn [offsets]. by rewrite Ho.
Qed.

(** The padded contents, and what bounds their end. *)
Definition data_room (files : list FileEntry) : Z := zsum ((λ f, len (f_data f) + 0xf) <$> files).
Lemma data_room_cons f files : data_room (f :: files) = len (f_data f) + 0xf + data_room files.
Proof. done. Qed.
Lemma data_room_nonneg files : 0 ≤ data_room files.
Proof. apply zsum_fmap_nonneg. intros f. len_pos. lia. Qed.

Lemma data_end_bound files : ∀ from, 0 ≤ from → from ≤ data_end from files ≤ from + data_room files.
Proof.
  induction files as [|f fs IH]; intros from Hfrom; [cbn [data_end]; unfold data_room; cbn; lia|].
  cbn [data_end]. rewrite data_room_cons. pose proof (align16_spec from). len_pos.
  specialize (IH (align_up from 0x10 + len (f_data f))). lia.
Qed.

Lemma data_offsets_spec files : ∀ from,
  0 ≤ from → from + data_room files ≤ 2 ^ 62 →
  ∃ files', data_offsets from files = Some files' ∧
    Forall2 (λ f f', f <| f_data_offset := f_data_offset f' |> = f') files files' ∧ data_laid from files'.
Proof.
  induction files as [|f fs IH]; intros from Hfrom Hs; [exists []; by split_and!|].
  rewrite data_room_cons in Hs. pose proof (data_room_nonneg fs). pose proof (align16_spec from).
  pose proof (len_nonneg (f_data f)). cbn [data_offsets].
  rewrite align64_16 by mlia. bind_cbn. bind_step.
  destruct (IH (align_up from 0x10 + len (f_data f))) as (fs' & -> & Hm & Hl); [lia|lia|].
  cbn. eexists. split; [done|]. split; [by constructor|]. done.
Qed.

Lemma data_laid_ext files files' : ∀ from,
  Forall2 (λ f f', f_data_offset f' = f_data_offset f ∧ f_data f' = f_data f) files files' →
  data_laid from files → data_laid from files'.
Proof.
  intros from H. revert from. induction H as [|f f' fs fs' [Ho Hd] _ IH]; intros from; [done|].
  cbn [data_laid]. rewrite Ho, Hd. intros [? ?]. split; [done|by apply IH].
Qed.

Lemma data_end_ext files files' : ∀ from, f_data <$> files' = f_data <$> files → data_end from files' = data_end from files.
Proof.
  revert files'. induction files as [|f fs IH]; intros [|f' fs'] from; [done..|]. cbn [fmap list_fmap data_end].
  intros [= -> Hfs]. by apply IH.
Qed.

Lemma calculate_offsets_spec dirs files :
  fits dirs files →
  ∃ dirs' files', calculate_offsets dirs files = Some (dirs', files') ∧
    Forall2 moved_dir dirs dirs' ∧ Forall2 moved_file files files' ∧
    d_entry_offset <$> dirs' = offsets 0 (dir_size <$> dirs) ∧
    f_entry_offset <$> files' = offsets 0 (file_size <$> files) ∧ data_laid 0 files'.
Proof.
  intros [Hd Hf Hdata]. unfold calculate_offsets.
  destruct (data_offsets_spec files 0) as (f1 & -> & Hm1 & Hl); [lia|unfold data_room; lia|]. bind_cbn.
  assert (file_size <$> f1 = file_size <$> files) as Hfs.
  { eapply Forall2_fmap_eq; [exact Hm1|]. by intros f f' <-. }
  destruct (file_entry_offsets_spec f1 0) as (f2 & -> & Hm2 & Ho2); [lia|rewrite Hfs; lia|]. bind_cbn.
  destruct (dir_entry_offsets_spec dirs 0) as (dirs' & -> & Hmd & Hod); [lia|lia|]. bind_cbn.
  exists dirs', f2. rewrite Hfs in Ho2. split_and!; [done|done| |done|done|].
  - eapply Forall2_compose; [|exact Hm1|exact Hm2]. intros f f' f'' <- <-. done.
  - eapply data_laid_ext; [|exact Hl]. eapply Forall2_impl; [exact Hm2|]. by intros f f' <-.
Qed.

(** ** Lemmas: the hash tables *)

Definition hash_state_ok (size : Z) (n : nat) (table siblings : list Z) : Prop :=
  len table = size ∧ length siblings = n ∧ Forall is_u32 table ∧ Forall is_u32 siblings.

Lemma hash_insert_ok size n table siblings idx parent name off :
  0 < size → is_u32 parent → is_u32 off → hash_state_ok size n table siblings →
  ∃ table' siblings', hash_insert size table siblings idx parent name off = Some (table', siblings') ∧
    hash_state_ok size n table' siblings'.
Proof.
  intros Hsize Hp Ho (Ht & Hs & Htu & Hsu). unfold hash_insert.
  pose proof (Z.mod_pos_bound (path_hash parent name) size Hsize) as Hb.
  destruct (lookup_lt_is_Some_2 table (Z.to_nat (path_hash parent name mod size))) as [old Hold].
  { unfold len in Ht. lia. }
  rewrite Hold. cbn. eexists _, _. split; [done|]. split_and!.
  - unfold len in *. by rewrite length_insert.
  - by rewrite length_insert.
  - by apply Forall_insert.
  - apply Forall_insert; [done|]. rewrite Forall_lookup in Htu. by eapply Htu.
Qed.

Lemma hash_dirs_ok all size n dirs : ∀ idx table siblings,
  0 < size → hash_state_ok size n table siblings →
  (∀ e, e ∈ dirs → is_u32 (d_entry_offset e) ∧ ∃ p, all !! d_parent e = Some p ∧ is_u32 (d_entry_offset p)) →
  ∃ table' siblings', hash_dirs all size idx dirs table siblings = Some (table', siblings') ∧
    hash_state_ok size n table' siblings'.
Proof.
  induction dirs as [|e es IH]; intros idx table siblings Hsize Hok Hall; [by exists table, siblings|].
  destruct (Hall e ltac:(left)) as (He & p & Hp & Hpo). cbn [hash_dirs]. rewrite Hp. cbn [mbind option_bind].
  destruct (hash_insert_ok size n table siblings idx _ (d_name e) _ Hsize Hpo He Hok) as (t & s & -> & Hts).
  cbn [mbind option_bind]. apply IH; [done|done|]. intros e' He'. apply Hall. by right.
Qed.

Lemma hash_files_ok all size n files : ∀ idx table siblings,
  0 < size → hash_state_ok size n table siblings →
  (∀ e, e ∈ files → is_u32 (f_entry_offset e) ∧ ∃ p, all !! f_parent e = Some p ∧ is_u32 (d_entry_offset p)) →
  ∃ table' siblings', hash_files all size idx files table siblings = Some (table', siblings') ∧
    hash_state_ok size n table' siblings'.
Proof.
  induction files as [|e es IH]; intros idx table siblings Hsize Hok Hall; [by exists table, siblings|].
  destruct (Hall e ltac:(left)) as (He & p & Hp & Hpo). cbn [hash_files]. rewrite Hp. cbn [mbind option_bind].
  destruct (hash_insert_ok size n table siblings idx _ (f_name e) _ Hsize Hpo He Hok) as (t & s & -> & Hts).
  cbn [mbind option_bind]. apply IH; [done|done|]. intros e' He'. apply Hall. by right.
Qed.

Lemma hash_state_init size n : 0 ≤ size → hash_state_ok size n (zrep size NO_ENTRY) (replicate n NO_ENTRY).
Proof.
  intros Hs. split_and!; [by apply len_zrep|by rewrite length_replicate|by apply Forall_replicate|by apply Forall_replicate].
Qed.

(** ** Lemmas: the tables *)

(** A region laid out as consecutive pieces: piece [i] is found at the offset of [i]. *)
Lemma concat_lookup (pieces : list (list byte)) sizes i p :
  Forall2 (λ p s, len p = s) pieces sizes → pieces !! i = Some p →
  ∃ pre post, concat pieces = pre ++ p ++ post ∧ len pre = zsum (take i sizes).
Proof.
  intros H. revert i. induction H as [|x s ps ss Hx _ IH]; intros [|i] Hi; [done|done| |].
  - injection Hi as ->. exists [], (concat ps). done.
  - destruct (IH i Hi) as (pre & post & He & Hl). exists (x ++ pre), post. cbn [concat take].
    rewrite He, zsum_cons, len_app, <-app_assoc. split; [done|lia].
Qed.

Lemma len_concat_sizes (pieces : list (list byte)) sizes :
  Forall2 (λ p s, len p = s) pieces sizes → len (concat pieces) = zsum sizes.
Proof. induction 1 as [|x s ps ss Hx _ IH]; [done|]. cbn [concat]. rewrite len_app, zsum_cons. lia. Qed.

(** Padding a table after an entry. *)
Lemma pad_table_ok table record name :
  len table mod 4 = 0 → len record mod 4 = 0 → len table + len record + align_up (len name) 4 ≤ U32_MAX →
  pad_table (table ++ record ++ name) = Some (table ++ chunk record name).
Proof.
  intros Ht Hr Hsize. len_pos. pose proof (align4_spec (len name)) as [Hal Hle].
  assert (len table + len record + len name + 3 ≤ U32_MAX) as Hmax by (unfold_max; div_lia).
  unfold pad_table, chunk. len_simpl.
  rewrite as_u32_small by mlia. rewrite align32_ok by mlia. bind_cbn. do 2 f_equal.
  assert (align_up (len table + (len record + len name)) 4 = len table + len record + align_up (len name) 4) as ->.
  { rewrite Z.add_assoc. apply align4_add. rewrite Z.add_mod, Ht, Hr by done. done. }
  unfold vec_resize. rewrite ztake_all by len_lia.
  len_simpl. rewrite <-!app_assoc. do 3 f_equal. unfold zeros. f_equal. lia.
Qed.

Definition dir_record (all : list DirEntry) (files : list FileEntry) (siblings : list Z) (idx : nat)
    (dir : DirEntry) : option RomFsDirEntry :=
  parent ← all !! d_parent dir;
  sibling_offset ← find_sibling_dir all dir;
  first_child ← first_offset (d_entry_offset <$> all) (d_children dir);
  first_file ← first_offset (f_entry_offset <$> files) (d_files dir);
  hash_sibling ← siblings !! idx;
  Some {| de_parent_offset := d_entry_offset parent; de_sibling_offset := sibling_offset;
          de_child_offset := first_child; de_file_offset := first_file;
          de_hash_sibling_offset := hash_sibling; de_name_len := as_u32 (len (d_name dir)) |}.

Definition file_record (dirs : list DirEntry) (all : list FileEntry) (siblings : list Z) (idx : nat)
    (file : FileEntry) : option RomFsFileEntry :=
  parent ← dirs !! f_parent file;
  sibling_offset ← find_sibling_file dirs all file;
  hash_sibling ← siblings !! idx;
  Some {| fe_parent_offset := d_entry_offset parent; fe_sibling_offset := sibling_offset;
          fe_data_offset := f_data_offset file; fe_data_size := as_u64 (len (f_data file));
          fe_hash_sibling_offset := hash_sibling; fe_name_len := as_u32 (len (f_name file)) |}.

Lemma align4_sum v : v mod 4 = 0 → ∀ n, (v + align_up n 4) mod 4 = 0.
Proof. intros Hv n. rewrite Z.add_mod, Hv, (proj1 (align4_spec n)) by done. done. Qed.

Lemma len_chunk record name : len (chunk record name) = len record + align_up (len name) 4.
Proof. unfold chunk. pose proof (align4_spec (len name)). len_simpl. rewrite len_zeros by lia. lia. Qed.

Lemma write_dirs_spec all files siblings dirs : ∀ idx records table,
  length records = length dirs →
  (∀ i e r, dirs !! i = Some e → records !! i = Some r → dir_record all files siblings (idx + i) e = Some r ∧ wf r) →
  len table mod 4 = 0 → len table + zsum (dir_size <$> dirs) ≤ U32_MAX →
  write_dirs all files siblings idx dirs table =
    Some (table ++ concat (zip_with (λ r e, chunk (to_bytes r) (d_name e)) records dirs)).
Proof.
  induction dirs as [|e es IH]; intros idx [|r rs] table Hlen Hrec Hmod Hmax; [by rewrite app_nil_r|done|done|].
  rewrite fmap_cons, zsum_cons in Hmax. unfold dir_size at 1 in Hmax.
  assert (0 ≤ zsum (dir_size <$> es)) by (apply zsum_fmap_nonneg; intros x; pose proof (dir_size_pos x); lia).
  pose proof (align4_spec (len (d_name e))) as [Hal Hle]. len_pos.
  destruct (Hrec 0%nat e r eq_refl eq_refl) as [Hr Hwf]. rewrite Nat.add_0_r in Hr. unfold dir_record in Hr. cbn [write_dirs].
  destruct (all !! d_parent e) as [p|]; [|done]. cbn [mbind option_bind] in Hr |- *.
  destruct (find_sibling_dir all e) as [sib|]; [|done]. cbn [mbind option_bind] in Hr |- *.
  destruct (first_offset _ (d_children e)) as [ch|]; [|done]. cbn [mbind option_bind] in Hr |- *.
  destruct (first_offset _ (d_files e)) as [fi|]; [|done]. cbn [mbind option_bind] in Hr |- *.
  destruct (siblings !! idx) as [hs|]; [|done]. cbn [mbind option_bind] in Hr |- *.
  injection Hr as <-. set (r := {| de_parent_offset := _ |}) in *.
  match goal with |- context [pad_table (table ++ ?l)] => replace l with (to_bytes r ++ d_name e) end.
  2: { reflexivity. }
  pose proof (len_to_bytes r Hwf) as Hrl. change (size_of RomFsDirEntry) with 0x18 in Hrl.
  rewrite pad_table_ok; [|done|by rewrite Hrl|rewrite Hrl; mlia]. cbn [mbind option_bind].
  rewrite (IH (S idx) rs).
  - cbn [zip_with concat]. by rewrite <-app_assoc.
  - by injection Hlen.
  - intros i e' r' He' Hr'. specialize (Hrec (S i) e' r' He' Hr'). by rewrite Nat.add_succ_r in Hrec.
  - rewrite len_app, len_chunk, Hrl, Z.add_assoc. apply align4_sum. rewrite Z.add_mod, Hmod by done. done.
  - rewrite len_app, len_chunk, Hrl. lia.
Qed.

Lemma write_file_records_spec dirs all siblings files : ∀ idx records table,
  length records = length files →
  (∀ i e r, files !! i = Some e → records !! i = Some r → file_record dirs all siblings (idx + i) e = Some r ∧ wf r) →
  len table mod 4 = 0 → len table + zsum (file_size <$> files) ≤ U32_MAX →
  write_files dirs all siblings idx files table =
    Some (table ++ concat (zip_with (λ r e, chunk (to_bytes r) (f_name e)) records files)).
Proof.
  induction files as [|e es IH]; intros idx [|r rs] table Hlen Hrec Hmod Hmax; [by rewrite app_nil_r|done|done|].
  rewrite fmap_cons, zsum_cons in Hmax. unfold file_size at 1 in Hmax.
  assert (0 ≤ zsum (file_size <$> es)) by (apply zsum_fmap_nonneg; intros x; pose proof (file_size_pos x); lia).
  pose proof (align4_spec (len (f_name e))) as [Hal Hle]. len_pos.
  destruct (Hrec 0%nat e r eq_refl eq_refl) as [Hr Hwf]. rewrite Nat.add_0_r in Hr. unfold file_record in Hr. cbn [write_files].
  destruct (dirs !! f_parent e) as [p|]; [|done]. cbn [mbind option_bind] in Hr |- *.
  destruct (find_sibling_file dirs all e) as [sib|]; [|done]. cbn [mbind option_bind] in Hr |- *.
  destruct (siblings !! idx) as [hs|]; [|done]. cbn [mbind option_bind] in Hr |- *.
  injection Hr as <-. set (r := {| fe_parent_offset := _ |}) in *.
  match goal with |- context [pad_table (table ++ ?l)] => replace l with (to_bytes r ++ f_name e) end.
  2: { reflexivity. }
  pose proof (len_to_bytes r Hwf) as Hrl. change (size_of RomFsFileEntry) with 0x20 in Hrl.
  rewrite pad_table_ok; [|done|by rewrite Hrl|rewrite Hrl; mlia]. cbn [mbind option_bind].
  rewrite (IH (S idx) rs).
  - cbn [zip_with concat]. by rewrite <-app_assoc.
  - by injection Hlen.
  - intros i e' r' He' Hr'. specialize (Hrec (S i) e' r' He' Hr'). by rewrite Nat.add_succ_r in Hrec.
  - rewrite len_app, len_chunk, Hrl, Z.add_assoc. apply align4_sum. rewrite Z.add_mod, Hmod by done. done.
  - rewrite len_app, len_chunk, Hrl. lia.
Qed.

Lemma list_choice {A B} (P : nat → A → B → Prop) (l : list A) :
  (∀ i x, l !! i = Some x → ∃ y, P i x y) →
  ∃ k, length k = length l ∧ ∀ i x y, l !! i = Some x → k !! i = Some y → P i x y.
Proof.
  revert P. induction l as [|x l IH]; intros P HP; [by exists []|].
  destruct (HP 0%nat x eq_refl) as [y Hy].
  destruct (IH (λ i, P (S i))) as (k & Hk & Hall); [intros i z Hz; by apply (HP (S i))|].
  exists (y :: k). split; [cbn; lia|]. intros [|i] x' y' Hx Hy'; [cbn in *; congruence|by apply (Hall i)].
Qed.

(** ** Lemmas: sibling chains *)

Lemma first_offset_ok offs indices :
  Forall is_u32 offs → (∀ x, x ∈ indices → (x < length offs)%nat) →
  ∃ o, first_offset offs indices = Some o ∧ is_u32 o.
Proof.
  intros Hu Hin. destruct indices as [|x l]; [by exists NO_ENTRY|]. cbn.
  destruct (lookup_lt_is_Some_2 offs x (Hin x ltac:(left))) as [o Ho]. exists o. split; [done|].
  rewrite Forall_lookup in Hu. by eapply Hu.
Qed.

(** The sibling of an entry of a list is the entry after it. *)
Lemma find_sibling_next offs own pre w post :
  (∀ i j o, offs !! i = Some o → offs !! j = Some o → i = j) →
  (∀ x, x ∈ pre → (x < length offs)%nat) → w ∉ pre → offs !! w = Some own →
  find_sibling offs own (pre ++ w :: post) = first_offset offs post.
Proof.
  intros Hinj Hin Hw Ho. induction pre as [|x pre IH]; cbn [app].
  - destruct post as [|y post]; [done|]. cbn [find_sibling]. rewrite Ho. cbn. by rewrite Z.eqb_refl.
  - apply not_elem_of_cons in Hw as [Hne Hw].
    destruct (lookup_lt_is_Some_2 offs x (Hin x ltac:(left))) as [o Hx].
    assert (find_sibling offs own (x :: pre ++ w :: post) =
      (o0 ← offs !! x; if o0 =? own then match pre ++ w :: post with y :: _ => offs !! y | [] => None end
       else find_sibling offs own (pre ++ w :: post))) as -> by (by destruct pre).
    rewrite Hx. cbn [mbind option_bind]. destruct (Z.eqb_spec o own) as [->|]; [by destruct Hne; eapply Hinj|].
    apply IH; [|done]. intros y Hy. apply Hin. by right.
Qed.

Lemma find_sibling_none offs own indices :
  (∀ x, x ∈ indices → ∃ o, offs !! x = Some o ∧ o ≠ own) → find_sibling offs own indices = Some NO_ENTRY.
Proof.
  induction indices as [|x [|y l] IH]; intros Hin; [done|done|]. cbn [find_sibling].
  destruct (Hin x ltac:(left)) as (o & -> & Ho). cbn [mbind option_bind].
  rewrite (proj2 (Z.eqb_neq _ _) Ho). apply IH. intros z Hz. apply Hin. by right.
Qed.

(** A directory vector whose entries sit one after the other. *)
Record placed (dirs : list DirEntry) (files : list FileEntry) : Prop := {
  pl_wf : wf_tree dirs files;
  pl_fits : fits dirs files;
  pl_dirs : d_entry_offset <$> dirs = offsets 0 (dir_size <$> dirs);
  pl_files : f_entry_offset <$> files = offsets 0 (file_size <$> files);
  pl_data : data_laid 0 files;
}.

Section placed.
Context {dirs : list DirEntry} {files : list FileEntry} (Hp : placed dirs files).
Let offs := d_entry_offset <$> dirs.
Let foffs := f_entry_offset <$> files.

Lemma dir_offset_inj i j o : offs !! i = Some o → offs !! j = Some o → i = j.
Proof using Hp. unfold offs. rewrite (pl_dirs _ _ Hp). apply offsets_inj, dir_sizes_pos. Qed.
Lemma file_offset_inj i j o : foffs !! i = Some o → foffs !! j = Some o → i = j.
Proof using Hp. unfold foffs. rewrite (pl_files _ _ Hp). apply offsets_inj, file_sizes_pos. Qed.

Lemma dir_offset_bound c e :
  dirs !! c = Some e → 0 ≤ d_entry_offset e ∧ d_entry_offset e + dir_size e ≤ zsum (dir_size <$> dirs) ∧
    d_entry_offset e = zsum (take c (dir_size <$> dirs)).
Proof using Hp.
  intros Hc. assert (offs !! c = Some (d_entry_offset e)) as Ho by (unfold offs; by rewrite list_lookup_fmap, Hc).
  unfold offs in Ho. rewrite (pl_dirs _ _ Hp) in Ho.
  destruct (offsets_bound _ _ _ (dir_size e) (dir_sizes_pos dirs) Ho); [by rewrite list_lookup_fmap, Hc|].
  apply offsets_lookup in Ho as [Ho _]. split_and!; [done|done|lia].
Qed.
Lemma file_offset_bound c e :
  files !! c = Some e → 0 ≤ f_entry_offset e ∧ f_entry_offset e + file_size e ≤ zsum (file_size <$> files) ∧
    f_entry_offset e = zsum (take c (file_size <$> files)).
Proof using Hp.
  intros Hc. assert (foffs !! c = Some (f_entry_offset e)) as Ho by (unfold foffs; by rewrite list_lookup_fmap, Hc).
  unfold foffs in Ho. rewrite (pl_files _ _ Hp) in Ho.
  destruct (offsets_bound _ _ _ (file_size e) (file_sizes_pos files) Ho); [by rewrite list_lookup_fmap, Hc|].
  apply offsets_lookup in Ho as [Ho _]. split_and!; [done|done|lia].
Qed.

(** Offsets of entries are [u32]s below [NO_ENTRY]. *)
Lemma dir_offset_u32 c e : dirs !! c = Some e → 0 ≤ d_entry_offset e < NO_ENTRY.
Proof using Hp.
  intros Hc. destruct (dir_offset_bound c e Hc) as (? & ? & _). pose proof (dir_size_pos e).
  pose proof (fit_dirs _ _ (pl_fits _ _ Hp)). unfold NO_ENTRY. mlia.
Qed.
Lemma file_offset_u32 c e : files !! c = Some e → 0 ≤ f_entry_offset e < NO_ENTRY.
Proof using Hp.
  intros Hc. destruct (file_offset_bound c e Hc) as (? & ? & _). pose proof (file_size_pos e).
  pose proof (fit_files _ _ (pl_fits _ _ Hp)). unfold NO_ENTRY. mlia.
Qed.

Lemma offs_u32 : Forall is_u32 offs.
Proof using Hp.
  apply Forall_lookup. intros i o Hi. unfold offs in Hi. rewrite list_lookup_fmap in Hi.
  destruct (dirs !! i) as [e|] eqn:He; [|done]. injection Hi as <-. pose proof (dir_offset_u32 i e He).
  unfold NO_ENTRY in *. mlia.
Qed.
Lemma foffs_u32 : Forall is_u32 foffs.
Proof using Hp.
  apply Forall_lookup. intros i o Hi. unfold foffs in Hi. rewrite list_lookup_fmap in Hi.
  destruct (files !! i) as [e|] eqn:He; [|done]. injection Hi as <-. pose proof (file_offset_u32 i e He).
  unfold NO_ENTRY in *. mlia.
Qed.

Lemma children_in_range c e x : dirs !! c = Some e → x ∈ d_children e → (x < length offs)%nat.
Proof using Hp.
  intros Hc Hx. unfold offs. rewrite length_fmap.
  destruct (wf_child (pl_wf _ _ Hp) c e x Hc Hx) as (e' & He & _). by eapply lookup_lt_Some.
Qed.
Lemma files_in_range c e x : dirs !! c = Some e → x ∈ d_files e → (x < length foffs)%nat.
Proof using Hp.
  intros Hc Hx. unfold foffs. rewrite length_fmap.
  destruct (wf_child_file (pl_wf _ _ Hp) c e x Hc Hx) as (e' & He & _). by eapply lookup_lt_Some.
Qed.

Lemma offs_lookup c e : dirs !! c = Some e → offs !! c = Some (d_entry_offset e).
Proof. intros Hc. unfold offs. by rewrite list_lookup_fmap, Hc. Qed.
Lemma foffs_lookup c e : files !! c = Some e → foffs !! c = Some (f_entry_offset e).
Proof. intros Hc. unfold foffs. by rewrite list_lookup_fmap, Hc. Qed.

(** The sibling fields link each list of children in order. *)
Lemma sibling_dir_next d p pre c post e :
  dirs !! d = Some p → d_children p = pre ++ c :: post → dirs !! c = Some e →
  find_sibling_dir dirs e = first_offset offs post.
Proof using Hp.
  intros Hd Hch Hc. assert (c ∈ d_children p) as Hin by (rewrite Hch; apply elem_of_app; right; left).
  destruct (wf_child (pl_wf _ _ Hp) d p c Hd Hin) as (e' & He' & _ & Hpar & _).
  rewrite Hc in He'. injection He' as <-. unfold find_sibling_dir. rewrite Hpar, Hd. cbn [mbind option_bind].
  rewrite Hch. destruct (wt_children _ _ (pl_wf _ _ Hp) _ _ Hd) as [Hnd _]. rewrite Hch in Hnd.
  apply NoDup_app in Hnd as (_ & Hdis & _).
  apply find_sibling_next; [apply dir_offset_inj| | |by apply offs_lookup].
  - intros x Hx. eapply (children_in_range d p); [done|]. rewrite Hch. apply elem_of_app. by left.
  - intros Hx. by apply (Hdis c Hx); left.
Qed.

Lemma sibling_file_next d p pre c post e :
  dirs !! d = Some p → d_files p = pre ++ c :: post → files !! c = Some e →
  find_sibling_file dirs files e = first_offset foffs post.
Proof using Hp.
  intros Hd Hch Hc. assert (c ∈ d_files p) as Hin by (rewrite Hch; apply elem_of_app; right; left).
  destruct (wf_child_file (pl_wf _ _ Hp) d p c Hd Hin) as (e' & He' & Hpar & _).
  rewrite Hc in He'. injection He' as <-. unfold find_sibling_file. rewrite Hpar, Hd. cbn [mbind option_bind].
  rewrite Hch. destruct (wt_files _ _ (pl_wf _ _ Hp) _ _ Hd) as [Hnd _]. rewrite Hch in Hnd.
  apply NoDup_app in Hnd as (_ & Hdis & _).
  apply find_sibling_next; [apply file_offset_inj| | |by apply foffs_lookup].
  - intros x Hx. eapply (files_in_range d p); [done|]. rewrite Hch. apply elem_of_app. by left.
  - intros Hx. by apply (Hdis c Hx); left.
Qed.

(** The root is nobody's child, so its sibling field ends the chain. *)
Lemma sibling_root e : dirs !! 0%nat = Some e → find_sibling_dir dirs e = Some NO_ENTRY.
Proof using Hp.
  intros H0. destruct (wt_root _ _ (pl_wf _ _ Hp)) as (r & Hr & _ & _ & Hpar). rewrite H0 in Hr. injection Hr as <-.
  unfold find_sibling_dir. rewrite Hpar, H0. cbn [mbind option_bind]. apply find_sibling_none. intros x Hx.
  destruct (wf_child (pl_wf _ _ Hp) 0 e x H0 Hx) as (e' & He' & Hx0 & _). exists (d_entry_offset e').
  split; [by apply offs_lookup|]. intros Heq. apply Hx0. eapply dir_offset_inj; [by apply offs_lookup|].
  rewrite Heq. by apply offs_lookup.
Qed.

Lemma sibling_dir_ok c e : dirs !! c = Some e → ∃ s, find_sibling_dir dirs e = Some s ∧ is_u32 s.
Proof using Hp.
  intros Hc. destruct (decide (c = 0%nat)) as [->|Hc0]; [exists NO_ENTRY; by rewrite (sibling_root e Hc)|].
  destruct (wt_dir _ _ (pl_wf _ _ Hp) _ _ Hc Hc0) as (p & Hpp & Hpath & Hok).
  destruct (wf_dir_child (pl_wf _ _ Hp) _ p c e (d_name e) Hpp Hc (name_ok_no_slash _ Hok) Hpath) as [Hin _].
  apply list_elem_of_split in Hin as (pre & post & Hch). rewrite (sibling_dir_next _ p pre c post e Hpp Hch Hc).
  apply first_offset_ok; [apply offs_u32|]. intros x Hx. eapply children_in_range; [exact Hpp|].
  rewrite Hch. apply elem_of_app. right. by right.
Qed.

Lemma sibling_file_ok c e : files !! c = Some e → ∃ s, find_sibling_file dirs files e = Some s ∧ is_u32 s.
Proof using Hp.
  intros Hc. destruct (wt_file _ _ (pl_wf _ _ Hp) _ _ Hc) as (p & Hpp & Hpath & Hok).
  destruct (wf_file_child (pl_wf _ _ Hp) _ p c e (f_name e) Hpp Hc (name_ok_no_slash _ Hok) Hpath) as [Hin _].
  apply list_elem_of_split in Hin as (pre & post & Hch). rewrite (sibling_file_next _ p pre c post e Hpp Hch Hc).
  apply first_offset_ok; [apply foffs_u32|]. intros x Hx. eapply files_in_range; [exact Hpp|].
  rewrite Hch. apply elem_of_app. right. by right.
Qed.

Lemma dir_record_ok siblings c e :
  length siblings = length dirs → Forall is_u32 siblings → dirs !! c = Some e →
  ∃ r, dir_record dirs files siblings c e = Some r ∧ wf r.
Proof using Hp.
  intros Hl Hs Hc. unfold dir_record.
  destruct (lookup_lt_is_Some_2 dirs (d_parent e) (parent_lt (pl_wf _ _ Hp) c e Hc)) as [p Hpp]. rewrite Hpp. cbn [mbind option_bind].
  destruct (sibling_dir_ok c e Hc) as (s & -> & Hsu). cbn [mbind option_bind].
  destruct (first_offset_ok offs (d_children e) offs_u32) as (ch & Hch & Hchu); [intros x; by apply (children_in_range c)|].
  destruct (first_offset_ok foffs (d_files e) foffs_u32) as (fi & Hfi & Hfiu); [intros x; by apply (files_in_range c)|].
  fold offs foffs. rewrite Hch. cbn [mbind option_bind]. rewrite Hfi. cbn [mbind option_bind].
  destruct (lookup_lt_is_Some_2 siblings c) as [h Hh]; [rewrite Hl; by eapply lookup_lt_Some|]. rewrite Hh. cbn [mbind option_bind].
  eexists. split; [done|]. rewrite Forall_lookup in Hs. specialize (Hs _ _ Hh).
  pose proof (dir_offset_u32 _ _ Hpp). pose proof (Z.mod_pos_bound (len (d_name e)) (2 ^ 32) eq_refl).
  cbn. unfold NO_ENTRY, as_u32 in *. split_and!; mlia.
Qed.

Lemma data_laid_bound from i f :
  0 ≤ from → data_laid from files → files !! i = Some f →
  from ≤ f_data_offset f ∧ f_data_offset f + len (f_data f) ≤ data_end from files.
Proof.
  clear Hp offs foffs. revert from i. induction files as [|g gs IH]; intros from i Hfrom Hl Hi; [done|].
  destruct Hl as [Ho Hl]. pose proof (align16_spec from). pose proof (len_nonneg (f_data g)). cbn [data_end]. rewrite <-Ho.
  destruct i as [|i].
  - injection Hi as ->. pose proof (data_end_bound gs (f_data_offset f + len (f_data f))). lia.
  - destruct (IH (f_data_offset g + len (f_data g)) i) as [? ?]; [lia|done|done|]. lia.
Qed.

Lemma data_end_fits : data_end 0 files ≤ 2 ^ 62.
Proof using Hp.
  pose proof (data_end_bound files 0). pose proof (fit_data _ _ (pl_fits _ _ Hp)) as Hd.
  change (data_room files ≤ 2 ^ 62) in Hd. lia.
Qed.

Lemma file_record_ok siblings c e :
  length siblings = length files → Forall is_u32 siblings → files !! c = Some e →
  ∃ r, file_record dirs files siblings c e = Some r ∧ wf r.
Proof using Hp.
  intros Hl Hs Hc. unfold file_record. destruct (wt_file _ _ (pl_wf _ _ Hp) _ _ Hc) as (p & Hpp & _).
  rewrite Hpp. cbn [mbind option_bind].
  destruct (sibling_file_ok c e Hc) as (s & -> & Hsu). cbn [mbind option_bind].
  destruct (lookup_lt_is_Some_2 siblings c) as [h Hh]; [rewrite Hl; by eapply lookup_lt_Some|]. rewrite Hh. cbn [mbind option_bind].
  eexists. split; [done|]. rewrite Forall_lookup in Hs. specialize (Hs _ _ Hh).
  pose proof (dir_offset_u32 _ _ Hpp). pose proof (Z.mod_pos_bound (len (f_name e)) (2 ^ 32) eq_refl).
  pose proof (Z.mod_pos_bound (len (f_data e)) (2 ^ 64) eq_refl).
  destruct (data_laid_bound 0 c e ltac:(lia) (pl_data _ _ Hp) Hc). pose proof data_end_fits.
  pose proof (len_nonneg (f_data e)). cbn. unfold NO_ENTRY, as_u32, as_u64 in *. split_and!; mlia.
Qed.

Lemma build_dir_table_spec siblings :
  length siblings = length dirs → Forall is_u32 siblings →
  ∃ table, build_dir_table dirs files siblings = Some table ∧ len table = zsum (dir_size <$> dirs) ∧
    ∀ c e, dirs !! c = Some e → ∃ r pre post, dir_record dirs files siblings c e = Some r ∧ wf r ∧
      table = pre ++ to_bytes r ++ d_name e ++ post ∧ len pre = d_entry_offset e.
Proof using Hp.
  intros Hl Hs.
  destruct (list_choice (λ c e r, dir_record dirs files siblings c e = Some r ∧ wf r) dirs) as (rs & Hrl & Hrs).
  { intros c e. by apply dir_record_ok. }
  unfold build_dir_table.
  rewrite (write_dirs_spec dirs files siblings dirs 0 rs []); [|done|exact Hrs|done|apply (fit_dirs _ _ (pl_fits _ _ Hp))].
  set (pieces := zip_with _ rs dirs). eexists. split; [done|]. cbn [app].
  assert (Forall2 (λ p s, len p = s) pieces (dir_size <$> dirs)) as Hsizes.
  { apply Forall2_fmap_r, Forall2_same_length_lookup. unfold pieces. rewrite length_zip_with. split; [lia|].
    intros i p e Hpi He. apply lookup_zip_with_Some in Hpi as (r & e' & -> & Hr & He').
    rewrite He in He'. injection He' as <-. destruct (Hrs i e r He Hr) as [_ Hwf].
    rewrite len_chunk, (len_to_bytes r Hwf). done. }
  split; [by apply len_concat_sizes|]. intros c e Hc.
  destruct (lookup_lt_is_Some_2 rs c) as [r Hr]; [rewrite Hrl; by eapply lookup_lt_Some|].
  destruct (Hrs c e r Hc Hr) as [Hrec Hwf].
  destruct (concat_lookup pieces _ c (chunk (to_bytes r) (d_name e)) Hsizes) as (pre & post & Heq & Hlp).
  { unfold pieces. apply lookup_zip_with_Some. by exists r, e. }
  eexists r, pre, _. split; [done|]. split; [done|]. split.
  - rewrite Heq. unfold chunk. by rewrite <-!app_assoc.
  - destruct (dir_offset_bound c e Hc) as (_ & _ & ->). done.
Qed.

Lemma build_file_table_spec siblings :
  length siblings = length files → Forall is_u32 siblings →
  ∃ table, build_file_table dirs files siblings = Some table ∧ len table = zsum (file_size <$> files) ∧
    ∀ c e, files !! c = Some e → ∃ r pre post, file_record dirs files siblings c e = Some r ∧ wf r ∧
      table = pre ++ to_bytes r ++ f_name e ++ post ∧ len pre = f_entry_offset e.
Proof using Hp.
  intros Hl Hs.
  destruct (list_choice (λ c e r, file_record dirs files siblings c e = Some r ∧ wf r) files) as (rs & Hrl & Hrs).
  { intros c e. by apply file_record_ok. }
  unfold build_file_table.
  rewrite (write_file_records_spec dirs files siblings files 0 rs []); [|done|exact Hrs|done|apply (fit_files _ _ (pl_fits _ _ Hp))].
  set (pieces := zip_with _ rs files). eexists. split; [done|]. cbn [app].
  assert (Forall2 (λ p s, len p = s) pieces (file_size <$> files)) as Hsizes.
  { apply Forall2_fmap_r, Forall2_same_length_lookup. unfold pieces. rewrite length_zip_with. split; [lia|].
    intros i p e Hpi He. apply lookup_zip_with_Some in Hpi as (r & e' & -> & Hr & He').
    rewrite He in He'. injection He' as <-. destruct (Hrs i e r He Hr) as [_ Hwf].
    rewrite len_chunk, (len_to_bytes r Hwf). done. }
  split; [by apply len_concat_sizes|]. intros c e Hc.
  destruct (lookup_lt_is_Some_2 rs c) as [r Hr]; [rewrite Hrl; by eapply lookup_lt_Some|].
  destruct (Hrs c e r Hc Hr) as [Hrec Hwf].
  destruct (concat_lookup pieces _ c (chunk (to_bytes r) (f_name e)) Hsizes) as (pre & post & Heq & Hlp).
  { unfold pieces. apply lookup_zip_with_Some. by exists r, e. }
  eexists r, pre, _. split; [done|]. split; [done|]. split.
  - rewrite Heq. unfold chunk. by rewrite <-!app_assoc.
  - destruct (file_offset_bound c e Hc) as (_ & _ & ->). done.
Qed.
End placed.
