(* ===== verification/RomFsImage.v ===== *)
(** * The RomFS image as a whole

    [build_image_ok]: a builder that holds a map, and whose metadata the format can address, builds an
    image; [image_holds] says what is where in it, which is all the reader needs. *)

From stdpp Require Import gmap.
From S2P Require Import Prelude Bytes Strs Layout RomFsRaw RomFsTree RomFsWrite RomFsSort RomFsLayout.
#[local] Open Scope Z_scope.

(** ** Definitions *)

(** A byte list sits at an offset. *)
Definition at_offset (image : list byte) (offset : Z) (l : list byte) : Prop :=
  ∃ pre post, image = pre ++ l ++ post ∧ len pre = offset.

(** The image: its header, the two metadata tables with a record for each entry, the contents. *)
Record image_holds (dirs : list DirEntry) (files : list FileEntry) (image : list byte) (h : RomFsHeader)
    (dt ft : list byte) : Prop := {
  im_wf : wf h;
  im_header : ∃ rest, image = to_bytes h ++ rest;
  im_header_size : header_size h = 0x50;
  im_len : len image ≤ ISIZE_MAX;
  im_data_offset : file_data_offset h = 0x200;
  im_data_bound : file_data_offset h ≤ len image;
  im_dir_hash : dir_hash_table_offset h + dir_hash_table_size h ≤ len image;
  im_file_hash : file_hash_table_offset h + file_hash_table_size h ≤ len image;
  im_dt : at_offset image (dir_meta_table_offset h) dt ∧ dir_meta_table_size h = len dt;
  im_ft : at_offset image (file_meta_table_offset h) ft ∧ file_meta_table_size h = len ft;
  im_dirs : ∃ siblings, ∀ c e, dirs !! c = Some e → ∃ r,
    dir_record dirs files siblings c e = Some r ∧ wf r ∧ at_offset dt (d_entry_offset e) (to_bytes r ++ d_name e);
  im_files : ∃ siblings, ∀ c e, files !! c = Some e → ∃ r,
    file_record dirs files siblings c e = Some r ∧ wf r ∧ at_offset ft (f_entry_offset e) (to_bytes r ++ f_name e);
  im_data : ∀ c e, files !! c = Some e → at_offset image (0x200 + f_data_offset e) (f_data e);
}.

(** The header of an image with the given regions. *)
Definition header_of (e : Z) (dh : list Z) (dt : list byte) (fh : list Z) (ft : list byte) : RomFsHeader :=
  let dho := 0x200 + align_up e 4 in let dto := dho + 4 * len dh in
  let fho := dto + len dt in let fto := fho + 4 * len fh in
  {| header_size := 0x50; dir_hash_table_offset := dho; dir_hash_table_size := 4 * len dh;
     dir_meta_table_offset := dto; dir_meta_table_size := len dt;
     file_hash_table_offset := fho; file_hash_table_size := 4 * len fh;
     file_meta_table_offset := fto; file_meta_table_size := len ft; file_data_offset := 0x200 |}.

(** ** Lemmas: regions *)

Lemma at_offset_bound l o k : at_offset l o k → 0 ≤ o ∧ o + len k ≤ len l.
Proof. intros (pre & post & -> & <-). len_lia. Qed.

Lemma at_offset_app_r l k o m : at_offset l o m → at_offset (l ++ k) o m.
Proof. intros (pre & post & -> & <-). exists pre, (post ++ k). by rewrite <-!app_assoc. Qed.

Lemma at_offset_mid pre l post o : o = len pre → at_offset (pre ++ l ++ post) o l.
Proof. intros ->. by exists pre, post. Qed.

Lemma at_offset_range l o k : at_offset l o k → get_range l o (o + len k) = Some k.
Proof. intros (pre & post & -> & <-). by apply get_range_mid. Qed.

Lemma vec_resize_grow (l : list byte) n : len l ≤ n → vec_resize l n x00 = l ++ zeros (n - len l).
Proof. intros H. unfold vec_resize. by rewrite ztake_all. Qed.

Lemma write_u32s_app buf values : write_u32s buf values = buf ++ write_u32s [] values.
Proof.
  unfold write_u32s. revert buf. induction values as [|v l IH] using rev_ind; intros buf; [by rewrite app_nil_r|].
  rewrite !foldl_app. cbn [foldl]. by rewrite IH, <-app_assoc.
Qed.
Lemma len_write_u32s values : len (write_u32s [] values) = 4 * len values.
Proof.
  unfold write_u32s. induction values as [|v l IH] using rev_ind; [done|].
  rewrite foldl_app, len_app. cbn [foldl]. len_simpl. rewrite IH. lia.
Qed.

(** ** Lemmas: the data region *)

Lemma file_partition_size_spec files : ∀ from,
  0 ≤ from → data_end from files + 0xf ≤ USIZE_MAX → file_partition_size from files = Some (data_end from files).
Proof.
  induction files as [|f fs IH]; intros from Hfrom Hmax; [done|]. cbn [file_partition_size data_end] in *.
  pose proof (align16_spec from). pose proof (len_nonneg (f_data f)).
  pose proof (data_end_bound fs (align_up from 0x10 + len (f_data f))).
  rewrite align64_16 by mlia. bind_cbn. bind_step. apply IH; mlia.
Qed.

Lemma write_file_data_spec files : ∀ from buf,
  0 ≤ from → data_laid from files → len buf = 0x200 + from → 0x200 + data_end from files + 0xf ≤ USIZE_MAX →
  ∃ region, write_file_data buf files = Some (buf ++ region) ∧ len region = data_end from files - from ∧
    ∀ i f, files !! i = Some f → at_offset (buf ++ region) (0x200 + f_data_offset f) (f_data f).
Proof.
  induction files as [|f fs IH]; intros from buf Hfrom Hl Hlen Hmax.
  { exists []. split_and!; [by rewrite app_nil_r|cbn [data_end]; len_lia|done]. }
  destruct Hl as [Ho Hl]. cbn [write_file_data data_end] in *. rewrite <-Ho in *.
  pose proof (align16_spec from) as Hal. pose proof (len_nonneg (f_data f)) as Hdl. rewrite <-Ho in Hal.
  pose proof (data_end_bound fs (f_data_offset f + len (f_data f))) as Hend.
  rewrite Hlen, align64_16 by mlia. bind_cbn. rewrite align_up_add, <-Ho by done.
  rewrite vec_resize_grow by lia. rewrite Hlen.
  replace (0x200 + f_data_offset f - (0x200 + from)) with (f_data_offset f - from) by lia.
  set (pad := zeros (f_data_offset f - from)).
  assert (len pad = f_data_offset f - from) as Hpad by (apply len_zeros; lia).
  destruct (IH (f_data_offset f + len (f_data f)) ((buf ++ pad) ++ f_data f)) as (region & -> & Hr & Hall);
    [lia|done|len_lia|lia|].
  exists (pad ++ f_data f ++ region). rewrite <-!app_assoc. split; [done|]. split; [len_lia|].
  intros [|i] g Hi.
  - injection Hi as <-. rewrite (assoc app buf pad). apply at_offset_mid. len_lia.
  - specialize (Hall i g Hi). by rewrite <-!app_assoc in Hall.
Qed.

(** ** Lemmas: the header *)

Section header.
Context (dh : list Z) (dt : list byte) (fh : list Z) (ft : list byte) (e : Z) (He : 0 ≤ e).
Context (Hmax : 0x200 + align_up e 4 + 4 * len dh + len dt + 4 * len fh + len ft + 3 ≤ ISIZE_MAX).

Lemma header_of_wf : wf (header_of e dh dt fh ft).
Proof using He Hmax. pose proof (align4_spec e). len_pos. cbn. split_and!; mlia. Qed.

Lemma write_header_spec : write_header [] dh dt fh ft e = Some (to_bytes (header_of e dh dt fh ft)).
Proof using He Hmax.
  pose proof (align4_spec e). len_pos.
  unfold write_header. cbv zeta. unfold ROMFS_FILEPARTITION_OFS. bind_step. rewrite align64_4 by mlia. bind_cbn.
  rewrite align4_add by done. set (dho := 0x200 + align_up e 4) in *.
  rewrite (checked_mul_ok (len dh) 4) by mlia. bind_cbn. rewrite (Z.mul_comm (len dh)).
  do 2 bind_step. rewrite (checked_mul_ok (len fh) 4) by mlia. bind_cbn. rewrite (Z.mul_comm (len fh)).
  bind_step. reflexivity.
Qed.
End header.

(** ** Lemmas: the sorted vectors, placed *)

Lemma fits_perm dirs files dirs' files' :
  d_name <$> dirs' ≡ₚ d_name <$> dirs → f_name <$> files' ≡ₚ f_name <$> files →
  f_data <$> files' ≡ₚ f_data <$> files → fits dirs files → fits dirs' files'.
Proof.
  intros Hd Hf Hdata [H1 H2 H3].
  assert (∀ l, dir_size <$> l = (λ n, 0x18 + align_up (len n) 4) <$> (d_name <$> l)) as Eds
    by (intros l; by rewrite <-list_fmap_compose).
  assert (∀ l, file_size <$> l = (λ n, 0x20 + align_up (len n) 4) <$> (f_name <$> l)) as Efs
    by (intros l; by rewrite <-list_fmap_compose).
  assert (∀ l : list FileEntry, (λ f, len (f_data f) + 0xf) <$> l = (λ n, len n + 0xf) <$> (f_data <$> l)) as Eda
    by (intros l; by rewrite <-list_fmap_compose).
  split.
  - rewrite Eds in *. by rewrite (zsum_perm _ _ (fmap_Permutation _ _ _ Hd)).
  - rewrite Efs in *. by rewrite (zsum_perm _ _ (fmap_Permutation _ _ _ Hf)).
  - rewrite Eda in *. by rewrite (zsum_perm _ _ (fmap_Permutation _ _ _ Hdata)).
Qed.

Lemma children_sorted_same dirs files dirs' files' :
  Forall2 moved_dir dirs dirs' → Forall2 moved_file files files' →
  children_sorted dirs files → children_sorted dirs' files'.
Proof.
  intros Hd Hf Hcs d e' He'. destruct (Forall2_lookup_r _ _ _ _ _ Hd He') as (e & He & Hm).
  assert (d_name <$> dirs' = d_name <$> dirs) as -> by (eapply Forall2_fmap_eq; [exact Hd|by intros ?? <-]).
  assert (f_name <$> files' = f_name <$> files) as -> by (eapply Forall2_fmap_eq; [exact Hf|by intros ?? <-]).
  specialize (Hcs d e He). rewrite <-Hm. done.
Qed.

Lemma sorted_placed b m D :
  represents b m D → fits (rb_dirs b) (rb_files b) →
  ∃ d0 f0 d1 dirs files, sort_entries_by_path (rb_dirs b) (rb_files b) = Some (d0, f0) ∧
    sort_children d0 f0 = Some d1 ∧ calculate_offsets d1 f0 = Some (dirs, files) ∧
    placed dirs files ∧ children_sorted dirs files ∧ represents (sorted_builder dirs files) m D.
Proof.
  intros Hr Hfit. destruct (sorted_spec b m D Hr) as (d0 & f0 & d1 & Hs & Hc & Hr1 & Hcs & _ & _ & Hdn & Hfn & Hfd).
  pose proof (fits_perm _ _ _ _ Hdn Hfn Hfd Hfit) as Hfit1.
  destruct (calculate_offsets_spec d1 f0 Hfit1) as (dirs & files & Ho & Hmd & Hmf & Hod & Hof & Hl).
  exists d0, f0, d1, dirs, files. split_and!; [done|done|done| |by eapply children_sorted_same|].
  - split.
    + eapply wf_same; [| |exact (rp_wf _ _ _ Hr1)].
      * eapply Forall2_impl; [exact Hmd|]. by intros e e' <-.
      * eapply Forall2_impl; [exact Hmf|]. by intros e e' <-.
    + eapply fits_perm; [..|exact Hfit1]; apply reflexive_eq; (eapply Forall2_fmap_eq; [eassumption|by intros ?? <-]).
    + assert (dir_size <$> dirs = dir_size <$> d1) as ->; [|done]. eapply Forall2_fmap_eq; [exact Hmd|by intros ?? <-].
    + assert (file_size <$> files = file_size <$> f0) as ->; [|done]. eapply Forall2_fmap_eq; [exact Hmf|by intros ?? <-].
    + done.
  - eapply represents_same; [exact Hr1| | |]; cbn [rb_dirs rb_files sorted_builder].
    + eapply wf_same; [| |exact (rp_wf _ _ _ Hr1)].
      * eapply Forall2_impl; [exact Hmd|]. by intros e e' <-.
      * eapply Forall2_impl; [exact Hmf|]. by intros e e' <-.
    + apply reflexive_eq. eapply Forall2_fmap_eq; [exact Hmd|by intros ?? <-].
    + apply reflexive_eq. eapply Forall2_fmap_eq; [exact Hmf|by intros ?? <-].
Qed.

(** ** Lemmas: the number of entries, and the hash tables *)

Section placed.
Context {dirs : list DirEntry} {files : list FileEntry} (Hp : placed dirs files).

Lemma dirs_count : len dirs * 0x18 ≤ U32_MAX.
Proof using Hp.
  etransitivity; [|exact (fit_dirs _ _ (pl_fits _ _ Hp))]. clear Hp. induction dirs as [|e es IH]; [done|].
  rewrite fmap_cons, zsum_cons. unfold dir_size at 1. pose proof (align4_spec (len (d_name e))). len_lia.
Qed.
Lemma files_count : len files * 0x20 ≤ U32_MAX.
Proof using Hp.
  etransitivity; [|exact (fit_files _ _ (pl_fits _ _ Hp))]. clear Hp. induction files as [|e es IH]; [done|].
  rewrite fmap_cons, zsum_cons. unfold file_size at 1. pose proof (align4_spec (len (f_name e))). len_lia.
Qed.

Lemma generate_dir_hash_table_ok :
  ∃ t s, generate_dir_hash_table dirs (replicate (length dirs) NO_ENTRY) = Some (t, s) ∧
    0 < len t ≤ 2 ^ 28 ∧ length s = length dirs ∧ Forall is_u32 s.
Proof using Hp.
  unfold generate_dir_hash_table. pose proof dirs_count as Hc. pose proof (len_nonneg dirs).
  destruct (hash_table_count_ok (len dirs)) as (size & -> & Hsize); [done|mlia|]. cbn [mbind option_bind].
  destruct (hash_dirs_ok dirs size (length dirs) dirs 0 (zrep size NO_ENTRY) (replicate (length dirs) NO_ENTRY))
    as (t & s & -> & Ht & Hs & _ & Hsu); [lia|apply hash_state_init; lia| |].
  - intros e (c & Hce)%list_elem_of_lookup. pose proof (dir_offset_u32 Hp c e Hce) as Ho. unfold NO_ENTRY in *.
    split; [mlia|]. destruct (lookup_lt_is_Some_2 dirs (d_parent e) (parent_lt (pl_wf _ _ Hp) c e Hce)) as [p Hpp].
    exists p. split; [done|]. pose proof (dir_offset_u32 Hp _ _ Hpp). unfold NO_ENTRY in *. mlia.
  - exists t, s. split; [done|]. split; [mlia|done].
Qed.

Lemma generate_file_hash_table_ok :
  ∃ t s, generate_file_hash_table dirs files (replicate (length files) NO_ENTRY) = Some (t, s) ∧
    0 < len t ≤ 2 ^ 28 ∧ length s = length files ∧ Forall is_u32 s.
Proof using Hp.
  unfold generate_file_hash_table. pose proof files_count as Hc. pose proof (len_nonneg files).
  destruct (hash_table_count_ok (len files)) as (size & -> & Hsize); [done|mlia|]. cbn [mbind option_bind].
  destruct (hash_files_ok dirs size (length files) files 0 (zrep size NO_ENTRY) (replicate (length files) NO_ENTRY))
    as (t & s & -> & Ht & Hs & _ & Hsu); [lia|apply hash_state_init; lia| |].
  - intros e (c & Hce)%list_elem_of_lookup. pose proof (file_offset_u32 Hp c e Hce) as Ho. unfold NO_ENTRY in *.
    split; [mlia|]. destruct (wt_file _ _ (pl_wf _ _ Hp) _ _ Hce) as (p & Hpp & _).
    exists p. split; [done|]. pose proof (dir_offset_u32 Hp _ _ Hpp). unfold NO_ENTRY in *. mlia.
  - exists t, s. split; [done|]. split; [mlia|done].
Qed.
End placed.

(** ** The image *)

(** The regions in order, [e] the size of the data. *)
Definition image_of (e : Z) (dh : list Z) (dt : list byte) (fh : list Z) (ft region : list byte) : list byte :=
  ((((((to_bytes (header_of e dh dt fh ft) ++ zeros 0x1b0) ++ region) ++ zeros (align_up e 4 - e)) ++ write_u32s [] dh)
    ++ dt) ++ write_u32s [] fh) ++ ft.

Section image_of.
Context {e : Z} {dh : list Z} {dt : list byte} {fh : list Z} {ft region : list byte}.
Context (He : 0 ≤ e) (Hregion : len region = e).
Context (Hmax : 0x200 + align_up e 4 + 4 * len dh + len dt + 4 * len fh + len ft + 3 ≤ ISIZE_MAX).
Let h := header_of e dh dt fh ft.
Let image := image_of e dh dt fh ft region.

Lemma len_header_of : len (to_bytes h) = 0x50.
Proof using He Hmax. exact (len_to_bytes h (header_of_wf dh dt fh ft e He Hmax)). Qed.

Lemma len_data_region : len ((to_bytes h ++ zeros 0x1b0) ++ region) = 0x200 + e.
Proof using He Hmax Hregion. rewrite !len_app, len_header_of, len_zeros, Hregion; lia. Qed.

Lemma len_romfs_image : len image = 0x200 + align_up e 4 + 4 * len dh + len dt + 4 * len fh + len ft.
Proof using He Hmax Hregion.
  unfold image, image_of. rewrite !(len_app _ ft), !(len_app _ (write_u32s [] fh)), (len_app _ dt), (len_app _ (write_u32s [] dh)).
  fold h. rewrite (len_app _ (zeros (align_up e 4 - e))), len_data_region, !len_write_u32s.
  pose proof (align4_spec e). rewrite len_zeros; lia.
Qed.

Lemma image_dir_table : at_offset image (dir_meta_table_offset h) dt.
Proof using He Hmax Hregion.
  unfold image, image_of. fold h. do 2 apply at_offset_app_r. eexists _, []. rewrite app_nil_r. split; [done|].
  rewrite (len_app _ (write_u32s [] dh)), (len_app _ (zeros (align_up e 4 - e))), len_data_region, len_write_u32s.
  pose proof (align4_spec e). rewrite len_zeros by lia. cbn [h header_of dir_meta_table_offset]. lia.
Qed.

Lemma image_file_table : at_offset image (file_meta_table_offset h) ft.
Proof using He Hmax Hregion.
  eexists _, []. rewrite app_nil_r. split; [done|]. fold h.
  rewrite (len_app _ (write_u32s [] fh)), (len_app _ dt), (len_app _ (write_u32s [] dh)), (len_app _ (zeros (align_up e 4 - e))),
    len_data_region, !len_write_u32s.
  pose proof (align4_spec e). rewrite len_zeros by lia. cbn [h header_of file_meta_table_offset]. lia.
Qed.

Lemma image_data o l :
  at_offset ((to_bytes h ++ zeros 0x1b0) ++ region) o l → at_offset image o l.
Proof. intros H. unfold image, image_of. fold h. by do 5 apply at_offset_app_r. Qed.
End image_of.

Lemma bind_some {A B} (x : A) (f : A → option B) : (y ← Some x; f y) = f x.
Proof. done. Qed.

Lemma write_image_ok files dh dt fh ft :
  data_laid 0 files → data_end 0 files ≤ 2 ^ 62 → len dh ≤ 2 ^ 28 → len fh ≤ 2 ^ 28 →
  len dt ≤ U32_MAX → len ft ≤ U32_MAX →
  ∃ region, write_image files dh fh dt ft = Some (image_of (data_end 0 files) dh dt fh ft region) ∧
    len region = data_end 0 files ∧
    ∀ c f, files !! c = Some f →
      at_offset ((to_bytes (header_of (data_end 0 files) dh dt fh ft) ++ zeros 0x1b0) ++ region)
        (0x200 + f_data_offset f) (f_data f).
Proof.
  intros Hl HE Hdh Hfh Hdt Hft. pose proof (data_end_bound files 0 ltac:(lia)) as [HE0 _].
  pose proof (file_partition_size_spec files 0 ltac:(lia) ltac:(mlia)) as Hps.
  pose proof (write_file_data_spec files 0) as Hdata.
  remember (data_end 0 files) as e eqn:He. clear He. pose proof (align4_spec e) as Hal. len_pos.
  assert (0x200 + align_up e 4 + 4 * len dh + len dt + 4 * len fh + len ft + 3 ≤ ISIZE_MAX) as Hmax by mlia.
  pose proof (len_header_of HE0 Hmax) as Hhl.
  pose proof (write_header_spec dh dt fh ft e HE0 Hmax) as Hh.
  remember (to_bytes (header_of e dh dt fh ft)) as hb eqn:Ehb.
  destruct (Hdata (hb ++ zeros 0x1b0)) as (region & Hw & Hrl & Hall); [lia|done|rewrite len_app, Hhl, len_zeros; lia|mlia|].
  rewrite Z.sub_0_r in Hrl. exists region. split; [|done].
  unfold write_image, calculate_file_partition_size. rewrite Hps. cbn [mbind option_bind].
  rewrite align64_4 by mlia. cbn [mbind option_bind]. unfold ROMFS_FILEPARTITION_OFS.
  rewrite (checked_mul_ok (len dh) 4), (checked_mul_ok (len fh) 4) by mlia.
  repeat (bind_step || cbn [mbind option_bind]). rewrite with_capacity_ok by mlia. cbn [mbind option_bind].
  rewrite Hh. cbn [mbind option_bind]. rewrite vec_resize_grow by lia. rewrite Hhl.
  replace (0x200 - 0x50) with 0x1b0 by lia. rewrite Hw, bind_some.
  assert (len ((hb ++ zeros 0x1b0) ++ region) = 0x200 + e) as Hpl by (rewrite !len_app, Hhl, len_zeros; lia).
  rewrite Hpl, align64_4 by mlia. rewrite bind_some, align4_add by done.
  rewrite vec_resize_grow by lia. rewrite Hpl.
  replace (0x200 + align_up e 4 - (0x200 + e)) with (align_up e 4 - e) by lia.
  rewrite (write_u32s_app _ fh), (write_u32s_app _ dh). unfold image_of. by rewrite <-Ehb.
Qed.

Lemma build_image_ok b m D :
  represents b m D → fits (rb_dirs b) (rb_files b) →
  ∃ dirs files image h dt ft, build_image b = Some image ∧ placed dirs files ∧ children_sorted dirs files ∧
    represents (sorted_builder dirs files) m D ∧ image_holds dirs files image h dt ft.
Proof.
  intros Hr Hfit. destruct (sorted_placed b m D Hr Hfit) as (d0 & f0 & d1 & dirs & files & Hs & Hc & Ho & Hp & Hcs & Hr').
  exists dirs, files. unfold build_image. rewrite Hs. cbn [mbind option_bind]. rewrite Hc, bind_some, Ho. cbn [mbind option_bind].
  destruct (generate_dir_hash_table_ok Hp) as (dh & ds & -> & Hdh & Hdsl & Hdsu). rewrite bind_some.
  destruct (generate_file_hash_table_ok Hp) as (fh & fs & -> & Hfh & Hfsl & Hfsu). rewrite bind_some.
  destruct (build_dir_table_spec Hp ds Hdsl Hdsu) as (dt & -> & Hdt & Hdirs). rewrite bind_some.
  destruct (build_file_table_spec Hp fs Hfsl Hfsu) as (ft & -> & Hft & Hfiles). rewrite bind_some.
  pose proof (data_end_fits Hp) as Hend. pose proof (data_end_bound files 0 ltac:(lia)) as [Hend0 _].
  pose proof (fit_dirs _ _ (pl_fits _ _ Hp)) as Hdmax. pose proof (fit_files _ _ (pl_fits _ _ Hp)) as Hfmax.
  destruct (write_image_ok files dh dt fh ft) as (region & -> & Hrl & Hdata); [apply (pl_data _ _ Hp)|lia..|].
  remember (data_end 0 files) as e eqn:He. clear He. pose proof (align4_spec e) as Hal. len_pos.
  assert (0x200 + align_up e 4 + 4 * len dh + len dt + 4 * len fh + len ft + 3 ≤ ISIZE_MAX) as Hmax by mlia.
  pose proof (len_romfs_image (region := region) Hend0 Hrl Hmax) as Hlen.
  exists (image_of e dh dt fh ft region), (header_of e dh dt fh ft), dt, ft.
  split_and!; [done|done|done|done|]. split.
  - by apply header_of_wf.
  - unfold image_of. eexists. by rewrite <-!app_assoc.
  - done.
  - rewrite Hlen. mlia.
  - done.
  - rewrite Hlen. cbn [header_of file_data_offset]. lia.
  - rewrite Hlen. cbn [header_of dir_hash_table_offset dir_hash_table_size]. lia.
  - rewrite Hlen. cbn [header_of file_hash_table_offset file_hash_table_size]. lia.
  - split; [|done]. by apply image_dir_table.
  - split; [|done]. by apply image_file_table.
  - exists ds. intros c x Hce. destruct (Hdirs c x Hce) as (r & p & q & Hrec & Hwf & -> & Hlp). exists r.
    split_and!; [done|done|]. exists p, q. by rewrite <-app_assoc.
  - exists fs. intros c x Hce. destruct (Hfiles c x Hce) as (r & p & q & Hrec & Hwf & -> & Hlp). exists r.
    split_and!; [done|done|]. exists p, q. by rewrite <-app_assoc.
  - intros c x Hce. apply image_data. by apply (Hdata c x).
Qed.
