(* ===== verification/RomFsRead.v ===== *)
(** * The RomFS reader: [read/romfs.rs]

    [try_from_bytes] checks the header and the extents of the tables; the entries are read as a
    traversal meets them. A lookup follows sibling offsets the image gives, with nothing to bound the
    walk, so its result is an [option]: [None] is a lookup that never returns
    ([find_returns_or_loops]). An [Ok], [Err] or [Panic] is what a lookup that returns gives. *)

From S2P Require Import Prelude Bytes Strs Layout Loops RomFsRaw RomFsTree.
#[local] Open Scope Z_scope.

Record RomFs := {
  rf_bytes : list byte;
  rf_header : RomFsHeader;
}.

Inductive FromBytesError :=
| BufferTooSmall (required available : Z)
| InvalidHeaderSize (found : Z)
| DirMetaTableBoundsOverflow (offset size : Z)
| DirMetaTableOutOfBounds (offset size available : Z)
| DirHashTableBoundsOverflow (offset size : Z)
| DirHashTableOutOfBounds (offset size available : Z)
| FileMetaTableBoundsOverflow (offset size : Z)
| FileMetaTableOutOfBounds (offset size available : Z)
| FileHashTableBoundsOverflow (offset size : Z)
| FileHashTableOutOfBounds (offset size available : Z)
| FileDataOffsetOutOfBounds (offset available : Z)
| FileDataBoundsOverflow (file_data_offset data_offset data_size : Z)
| FileDataOutOfBounds (data_offset data_size available : Z).

Record RootDirError := {
  required : Z;
  available : Z;
}.

Module Open.
Inductive OpenError :=
| BufferTooSmall (required available : Z)
| PathNotFound
| DirNotFound
| FileNotFound.
End Open.

Record RomFsDir := {
  rd_entry : RomFsDirEntry;
  rd_name : list byte;
}.
Record RomFsFile := {
  rl_entry : RomFsFileEntry;
  rl_name : list byte;
}.
Inductive RomFsEntry :=
| File (f : RomFsFile)
| Dir (d : RomFsDir).

Record DirIterator := {
  next_dir_offset : Z;
  next_file_offset : Z;
  dir_table_base : Z;
  file_table_base : Z;
}.
#[export] Instance eta_DirIterator : Eta DirIterator := λ i,
  Build_DirIterator (next_dir_offset i) (next_file_offset i) (dir_table_base i) (file_table_base i).

(** [str::trim_start_matches('/')]. *)
Fixpoint trim_slashes (path : list byte) : list byte :=
  match path with x2f :: path => trim_slashes path | _ => path end.

Section read.
Context `{Zerocopy}.

(** ** Construction *)

(** One of the four extent checks. *)
Definition check_table (overflow : Z → Z → FromBytesError) (out : Z → Z → Z → FromBytesError)
    (offset size avail : Z) : outcome FromBytesError unit :=
  end_ ← ok_or (checked_add offset size) (overflow offset size);
  guard_err (avail <? end_) (out offset size avail).

Definition try_from_bytes (bytes : list byte) : outcome FromBytesError RomFs :=
  _ ← guard_err (len bytes <? size_of RomFsHeader) (BufferTooSmall (size_of RomFsHeader) (len bytes));
  '(header, _) ← ok_or (ref_from_prefix RomFsHeader bytes) (BufferTooSmall 0x50 (len bytes));
  _ ← guard_err (negb (header_size header =? size_of RomFsHeader)) (InvalidHeaderSize (header_size header));
  _ ← check_table DirMetaTableBoundsOverflow DirMetaTableOutOfBounds
        (dir_meta_table_offset header) (dir_meta_table_size header) (len bytes);
  _ ← check_table DirHashTableBoundsOverflow DirHashTableOutOfBounds
        (dir_hash_table_offset header) (dir_hash_table_size header) (len bytes);
  _ ← check_table FileMetaTableBoundsOverflow FileMetaTableOutOfBounds
        (file_meta_table_offset header) (file_meta_table_size header) (len bytes);
  _ ← check_table FileHashTableBoundsOverflow FileHashTableOutOfBounds
        (file_hash_table_offset header) (file_hash_table_size header) (len bytes);
  let data_off := file_data_offset header in
  _ ← guard_err (len bytes <? data_off) (FileDataOffsetOutOfBounds data_off (len bytes));
  Ok {| rf_bytes := bytes; rf_header := header |}.

(** ** The regions; [None] is a panic *)

Definition dir_meta_table (romfs : RomFs) : option (list byte) :=
  let offset := dir_meta_table_offset (rf_header romfs) in
  let size := dir_meta_table_size (rf_header romfs) in
  end_ ← checked_add offset size;
  get_range (rf_bytes romfs) offset end_.

Definition file_meta_table (romfs : RomFs) : option (list byte) :=
  let offset := file_meta_table_offset (rf_header romfs) in
  let size := file_meta_table_size (rf_header romfs) in
  end_ ← checked_add offset size;
  get_range (rf_bytes romfs) offset end_.

Definition file_data (romfs : RomFs) (offset size : Z) : option (list byte) :=
  let data_offset := file_data_offset (rf_header romfs) in
  start ← checked_add data_offset offset;
  end_ ← checked_add start size;
  get_range (rf_bytes romfs) start end_.

(** ** Entries *)

(** The common body of the three [from_offset] functions: the entry at [offset] of [table] and the
    name that follows it. *)
Definition entry_at {E} (T : Type) `{Layout T} (name_len : T → Z) (too_small : Z → Z → E)
    (table : list byte) (offset table_base : Z) : outcome E (T * list byte) :=
  let error (required : option Z) : E + unit :=
    match required, checked_add table_base (len table) with
    | Some required, Some available => inl (too_small required available)
    | _, _ => inr tt
    end in
  let fail {A} (required : option Z) : outcome E A :=
    match error required with inl e => Err e | inr _ => Panic end in
  if len table <=? offset then fail (checked_add offset (size_of T)) else
  entry_bytes ← or_panic (get_from table offset);
  match ref_from_prefix T entry_bytes with
  | None => fail (checked_add offset (size_of T))
  | Some (entry, _) =>
    let name_len := name_len entry in
    name_offset ← or_panic (checked_add offset (size_of T));
    _ ← or_panic (checked_add table_base (len table));
    match checked_add name_offset name_len with
    | None => fail (Some USIZE_MAX)
    | Some name_end =>
      if len table <? name_end then fail (checked_add table_base name_end) else
      name_bytes ← or_panic (get_range table name_offset name_end);
      Ok (entry, utf8_or_empty name_bytes)
    end
  end.

Definition from_offset_for_root (romfs : RomFs) (offset table_base : Z) : outcome RootDirError RomFsDir :=
  table ← or_panic (dir_meta_table romfs);
  '(entry, name) ← entry_at RomFsDirEntry de_name_len Build_RootDirError table offset table_base;
  Ok {| rd_entry := entry; rd_name := name |}.

Definition dir_from_offset (romfs : RomFs) (offset table_base : Z) : outcome Open.OpenError RomFsDir :=
  table ← or_panic (dir_meta_table romfs);
  '(entry, name) ← entry_at RomFsDirEntry de_name_len Open.BufferTooSmall table offset table_base;
  Ok {| rd_entry := entry; rd_name := name |}.

Definition file_from_offset (romfs : RomFs) (offset table_base : Z) : outcome Open.OpenError RomFsFile :=
  table ← or_panic (file_meta_table romfs);
  '(entry, name) ← entry_at RomFsFileEntry fe_name_len Open.BufferTooSmall table offset table_base;
  Ok {| rl_entry := entry; rl_name := name |}.

Definition root_dir (romfs : RomFs) : outcome RootDirError RomFsDir :=
  from_offset_for_root romfs 0 (dir_meta_table_offset (rf_header romfs)).

(** ** Lookups *)

(** One round of the [while] loop of [find_dir]. *)
Definition find_dir_step (romfs : RomFs) (name : list byte) (child_offset : Z)
    : Z + outcome Open.OpenError RomFsDir :=
  if child_offset =? NO_ENTRY then inr (Err Open.DirNotFound) else
  match dir_from_offset romfs child_offset (dir_meta_table_offset (rf_header romfs)) with
  | Ok child =>
    if bool_decide (rd_name child = name) then inr (Ok child) else inl (de_sibling_offset (rd_entry child))
  | Err e => inr (Err e)
  | Panic => inr Panic
  end.

Definition find_file_step (romfs : RomFs) (name : list byte) (file_offset : Z)
    : Z + outcome Open.OpenError RomFsFile :=
  if file_offset =? NO_ENTRY then inr (Err Open.FileNotFound) else
  match file_from_offset romfs file_offset (file_meta_table_offset (rf_header romfs)) with
  | Ok file =>
    if bool_decide (rl_name file = name) then inr (Ok file) else inl (fe_sibling_offset (rl_entry file))
  | Err e => inr (Err e)
  | Panic => inr Panic
  end.

(** The loops over [u32] offsets: one that has not ended after [2 ^ 32] rounds never does. *)
Definition find_dir (romfs : RomFs) (dir : RomFsDir) (name : list byte) : option (outcome Open.OpenError RomFsDir) :=
  match run (find_dir_step romfs name) 32 (de_child_offset (rd_entry dir)) with
  | inr r => Some r
  | inl _ => None
  end.

Definition find_file (romfs : RomFs) (dir : RomFsDir) (name : list byte) : option (outcome Open.OpenError RomFsFile) :=
  match run (find_file_step romfs name) 32 (de_file_offset (rd_entry dir)) with
  | inr r => Some r
  | inl _ => None
  end.

(** [m?] followed by [f], for a computation that may not return. *)
Definition and_then {E A B} (m : option (outcome E A)) (f : A → option (outcome E B)) : option (outcome E B) :=
  match m with
  | Some (Ok a) => f a
  | Some (Err e) => Some (Err e)
  | Some Panic => Some Panic
  | None => None
  end.

(** The loop of [open]: every component but the last is a directory. *)
Fixpoint open_from (romfs : RomFs) (current_dir : RomFsDir) (component : list byte)
    (components : list (list byte)) : option (outcome Open.OpenError RomFsFile) :=
  match components with
  | [] => find_file romfs current_dir component
  | next :: components =>
    and_then (find_dir romfs current_dir component) (λ dir, open_from romfs dir next components)
  end.

Definition open (romfs : RomFs) (path : list byte) : option (outcome Open.OpenError RomFsFile) :=
  let path := trim_slashes path in
  if bool_decide (path = []) then Some (Err Open.PathNotFound) else
  and_then (Some (map_err (λ err, Open.BufferTooSmall (required err) (available err)) (root_dir romfs)))
    (λ current_dir,
      match split_slash path with
      | [] => Some (Err Open.PathNotFound)
      | component :: components => open_from romfs current_dir component components
      end).

(** ** Contents *)

Definition size (file : RomFsFile) : Z := fe_data_size (rl_entry file).

Definition data (romfs : RomFs) (file : RomFsFile) : outcome FromBytesError (list byte) :=
  let offset := fe_data_offset (rl_entry file) in
  let size := fe_data_size (rl_entry file) in
  let data_base := file_data_offset (rf_header romfs) in
  abs_start ← ok_or (checked_add data_base offset) (FileDataBoundsOverflow data_base offset size);
  abs_end ← ok_or (checked_add abs_start size) (FileDataBoundsOverflow data_base offset size);
  _ ← guard_err (len (rf_bytes romfs) <? abs_end) (FileDataOutOfBounds offset size (len (rf_bytes romfs)));
  or_panic (file_data romfs offset size).

(** ** The directory iterator *)

Definition entries (romfs : RomFs) (dir : RomFsDir) : DirIterator :=
  {| next_dir_offset := de_child_offset (rd_entry dir);
     next_file_offset := de_file_offset (rd_entry dir);
     dir_table_base := dir_meta_table_offset (rf_header romfs);
     file_table_base := file_meta_table_offset (rf_header romfs) |}.

Definition next_file (romfs : RomFs) (it : DirIterator) : option (option RomFsEntry * DirIterator) :=
  if negb (next_file_offset it =? NO_ENTRY) then
    match file_from_offset romfs (next_file_offset it) (file_table_base it) with
    | Ok file => Some (Some (File file), it <| next_file_offset := fe_sibling_offset (rl_entry file) |>)
    | Err _ => Some (None, it)
    | Panic => None
    end
  else Some (None, it).

(** [next]; the outer [None] is a panic. *)
Definition next (romfs : RomFs) (it : DirIterator) : option (option RomFsEntry * DirIterator) :=
  if negb (next_dir_offset it =? NO_ENTRY) then
    match dir_from_offset romfs (next_dir_offset it) (dir_table_base it) with
    | Ok dir => Some (Some (Dir dir), it <| next_dir_offset := de_sibling_offset (rd_entry dir) |>)
    | Err _ => next_file romfs it
    | Panic => None
    end
  else next_file romfs it.

(** What [n] calls of [next] yield, or as many as there are entries. *)
Fixpoint collect (romfs : RomFs) (n : nat) (it : DirIterator) : option (list RomFsEntry) :=
  match n with
  | O => Some []
  | S n =>
    '(entry, it) ← next romfs it;
    match entry with
    | Some entry => rest ← collect romfs n it; Some (entry :: rest)
    | None => Some []
    end
  end.
End read.

(** ** Safety *)

(** What [try_from_bytes] establishes, for a buffer a slice can have. *)
Record romfs_ok (romfs : RomFs) : Prop := {
  ok_header : wf (rf_header romfs);
  ok_bytes : len (rf_bytes romfs) ≤ ISIZE_MAX;
  ok_dirs : dir_meta_table_offset (rf_header romfs) + dir_meta_table_size (rf_header romfs) ≤ len (rf_bytes romfs);
  ok_files : file_meta_table_offset (rf_header romfs) + file_meta_table_size (rf_header romfs) ≤ len (rf_bytes romfs);
  ok_data : file_data_offset (rf_header romfs) ≤ len (rf_bytes romfs);
}.
Definition dir_ok (dir : RomFsDir) : Prop := wf (rd_entry dir).
Definition file_ok (file : RomFsFile) : Prop := wf (rl_entry file).

(** What the reader may return of an image: the entries its tables hold, along its own links. *)
Section views.
Context `{Zerocopy}.

(** The entry at an offset of a table is the slice of its own size, followed by its name. *)
Definition entry_in {T : Type} `{Layout T} (name_len : T → Z) (table : list byte) (offset : Z)
    (p : T * list byte) : Prop :=
  wf p.1 ∧ get_range table offset (offset + size_of T) = Some (as_bytes p.1) ∧
  ∃ name, get_range table (offset + size_of T) (offset + size_of T + name_len p.1) = Some name ∧
          p.2 = utf8_or_empty name.

Variable romfs : RomFs.
Let h := rf_header romfs.

Definition dir_at (offset : Z) (d : RomFsDir) : Prop :=
  ∃ table, get_range (rf_bytes romfs) (dir_meta_table_offset h)
             (dir_meta_table_offset h + dir_meta_table_size h) = Some table ∧
           entry_in de_name_len table offset (rd_entry d, rd_name d).
Definition file_at (offset : Z) (f : RomFsFile) : Prop :=
  ∃ table, get_range (rf_bytes romfs) (file_meta_table_offset h)
             (file_meta_table_offset h + file_meta_table_size h) = Some table ∧
           entry_in fe_name_len table offset (rl_entry f, rl_name f).

(** An entry of the chain of siblings that starts at an offset. *)
Inductive dir_chain : Z → RomFsDir → Prop :=
| dir_here off d : off ≠ NO_ENTRY → dir_at off d → dir_chain off d
| dir_later off d d' :
    off ≠ NO_ENTRY → dir_at off d → dir_chain (de_sibling_offset (rd_entry d)) d' → dir_chain off d'.
Inductive file_chain : Z → RomFsFile → Prop :=
| file_here off f : off ≠ NO_ENTRY → file_at off f → file_chain off f
| file_later off f f' :
    off ≠ NO_ENTRY → file_at off f → file_chain (fe_sibling_offset (rl_entry f)) f' → file_chain off f'.

(** A directory of the image: the root, or a child of one. *)
Inductive reached : RomFsDir → Prop :=
| reached_root d : dir_at 0 d → reached d
| reached_child d d' : reached d → dir_chain (de_child_offset (rd_entry d)) d' → reached d'.

(** The file that a path names, component by component. *)
Fixpoint names (d : RomFsDir) (component : list byte) (components : list (list byte)) (f : RomFsFile) : Prop :=
  match components with
  | [] => file_chain (de_file_offset (rd_entry d)) f ∧ rl_name f = component
  | next :: components =>
    ∃ d', dir_chain (de_child_offset (rd_entry d)) d' ∧ rd_name d' = component ∧ names d' next components f
  end.

(** An entry a directory lists. *)
Definition listed (d : RomFsDir) (e : RomFsEntry) : Prop :=
  match e with
  | Dir d' => dir_chain (de_child_offset (rd_entry d)) d'
  | File f => file_chain (de_file_offset (rd_entry d)) f
  end.
End views.

Section safety.
Context `{Zerocopy}.

Lemma check_table_safe overflow out offset size avail :
  safe (λ _, offset + size ≤ avail) (check_table overflow out offset size avail).
Proof.
  unfold check_table. safe_step e He. apply checked_add_inv in He as [-> _].
  eapply safe_mono; [apply safe_guard|]. intros ? Hg. cbn in Hg. zify_bool. lia.
Qed.

Lemma try_from_bytes_romfs_safe bytes :
  len bytes ≤ ISIZE_MAX → safe (λ r, romfs_ok r ∧ rf_bytes r = bytes ∧ ∃ rest, bytes = as_bytes (rf_header r) ++ rest) (try_from_bytes bytes).
Proof.
  intros Hlen. unfold try_from_bytes. safe_step ? Hl. safe_step [h r] Hh.
  apply ref_from_prefix_inv in Hh as (_ & Hwf & Hpre & _). safe_step ? Hs.
  eapply safe_bind; [apply check_table_safe|]. intros ? Hd.
  eapply safe_bind; [apply check_table_safe|]. intros ? Hdh.
  eapply safe_bind; [apply check_table_safe|]. intros ? Hf.
  eapply safe_bind; [apply check_table_safe|]. intros ? Hfh.
  cbv zeta. safe_step ? Hdata. cbn [safe]. split; [|by eauto]. split; cbn [rf_bytes rf_header]; (done || lia).
Qed.

(** A table entry is read without panic when the table ends inside the address space. *)
Lemma entry_at_safe {E} (T : Type) `{Layout T} (name_len : T → Z) (too_small : Z → Z → E) table offset base :
  size_of T ≤ 0x20 → (∀ x : T, wf x → is_u32 (name_len x)) →
  0 ≤ base → base + len table ≤ ISIZE_MAX → is_u32 offset →
  safe (entry_in name_len table offset) (entry_at T name_len too_small table offset base).
Proof.
  intros Hsize Hname Hb Hbt Hoff. pose proof (@size_of_nonneg T _). len_pos. unfold entry_at.
  rewrite (checked_add_ok base (len table)), (checked_add_ok offset (size_of T)) by mlia.
  case_match; [done|]. zify_bool. rewrite get_from_ok by mlia. bind_cbn.
  case_match eqn:Hr; [|done]. case_match. subst. apply ref_from_prefix_inv in Hr as (Hlen & Hwf & Heq & _).
  rewrite len_zdrop in Hlen by mlia.
  pose proof (Hname _ Hwf). rewrite checked_add_ok by mlia. case_match; zify_bool.
  - by rewrite checked_add_ok by mlia.
  - destruct (get_range table (offset + size_of T) (offset + size_of T + name_len t)) as [name|] eqn:Hn;
      [|by rewrite get_range_ok in Hn by mlia].
    cbn. split; [done|]. split; [|by exists name].
    rewrite <-(ztake_zdrop offset table), Heq. apply get_range_mid; cbn [fst]; rewrite ?len_ztake by mlia; [done|].
    by rewrite len_as_bytes.
Qed.

Lemma dir_wf_u32 (x : RomFsDirEntry) : wf x →
  is_u32 (de_name_len x) ∧ is_u32 (de_sibling_offset x) ∧ is_u32 (de_child_offset x) ∧ is_u32 (de_file_offset x).
Proof. intros Hx. cbn in Hx. mlia. Qed.
Lemma file_wf_u32 (x : RomFsFileEntry) : wf x → is_u32 (fe_name_len x) ∧ is_u32 (fe_sibling_offset x).
Proof. intros Hx. cbn in Hx. mlia. Qed.

Context {romfs : RomFs} (Hok : romfs_ok romfs).

Lemma dir_meta_table_safe :
  ∃ t, dir_meta_table romfs = Some t ∧ len t = dir_meta_table_size (rf_header romfs) ∧
    ∀ off d, entry_in de_name_len t off (rd_entry d, rd_name d) → dir_at romfs off d.
Proof using Hok.
  destruct Hok as [Hh ?? _ _]. cbn in Hh. unfold dir_meta_table, dir_at. bind_step. rewrite get_range_ok by mlia.
  eexists. split; [done|]. split; [rewrite len_ztake; rewrite ?len_zdrop; mlia|]. by eauto.
Qed.
Lemma file_meta_table_safe :
  ∃ t, file_meta_table romfs = Some t ∧ len t = file_meta_table_size (rf_header romfs) ∧
    ∀ off f, entry_in fe_name_len t off (rl_entry f, rl_name f) → file_at romfs off f.
Proof using Hok.
  destruct Hok as [Hh ? _ ? _]. cbn in Hh. unfold file_meta_table, file_at. bind_step. rewrite get_range_ok by mlia.
  eexists. split; [done|]. split; [rewrite len_ztake; rewrite ?len_zdrop; mlia|]. by eauto.
Qed.

Lemma dir_at_ok off d : dir_at romfs off d → dir_ok d.
Proof. by intros (t & _ & Hw & _). Qed.
Lemma file_at_ok off f : file_at romfs off f → file_ok f.
Proof. by intros (t & _ & Hw & _). Qed.
Lemma dir_chain_ok off d : dir_chain romfs off d → dir_ok d.
Proof. induction 1; [by eapply dir_at_ok|done]. Qed.
Lemma file_chain_ok off f : file_chain romfs off f → file_ok f.
Proof. induction 1; [by eapply file_at_ok|done]. Qed.
Lemma reached_ok d : reached romfs d → dir_ok d.
Proof. destruct 1; [by eapply dir_at_ok|by eapply dir_chain_ok]. Qed.

Lemma root_dir_safe : safe (dir_at romfs 0) (root_dir romfs).
Proof using Hok.
  unfold root_dir, from_offset_for_root. destruct dir_meta_table_safe as (t & -> & Ht & Hat).
  destruct Hok as [Hh ?? _ _]. cbn in Hh.
  eapply safe_bind; [apply (safe_or_panic (λ x, x = t) _ t); done|]. intros ? ->.
  eapply safe_bind; [apply entry_at_safe; [done|intros x Hx; apply (dir_wf_u32 x Hx)|mlia|mlia|mlia]|].
  intros [e n] He. by apply Hat.
Qed.

Lemma dir_from_offset_safe offset :
  is_u32 offset → safe (dir_at romfs offset) (dir_from_offset romfs offset (dir_meta_table_offset (rf_header romfs))).
Proof using Hok.
  intros Ho. unfold dir_from_offset. destruct dir_meta_table_safe as (t & -> & Ht & Hat).
  destruct Hok as [Hh ?? _ _]. cbn in Hh.
  eapply safe_bind; [apply (safe_or_panic (λ x, x = t) _ t); done|]. intros ? ->.
  eapply safe_bind; [apply entry_at_safe; [done|intros x Hx; apply (dir_wf_u32 x Hx)|mlia|mlia|mlia]|].
  intros [e n] He. by apply Hat.
Qed.

Lemma file_from_offset_safe offset :
  is_u32 offset → safe (file_at romfs offset) (file_from_offset romfs offset (file_meta_table_offset (rf_header romfs))).
Proof using Hok.
  intros Ho. unfold file_from_offset. destruct file_meta_table_safe as (t & -> & Ht & Hat).
  destruct Hok as [Hh ? _ ? _]. cbn in Hh.
  eapply safe_bind; [apply (safe_or_panic (λ x, x = t) _ t); done|]. intros ? ->.
  eapply safe_bind; [apply entry_at_safe; [done|intros x Hx; apply (file_wf_u32 x Hx)|mlia|mlia|mlia]|].
  intros [e n] He. by apply Hat.
Qed.

(** A lookup's loop: the offsets stay [u32]s that continue the chain it started from, and a round
    that ends it does not panic and gives an entry of that chain with the name. *)
Definition continues {A} (chain : Z → A → Prop) (start off : Z) : Prop :=
  is_u32 off ∧ ∀ a, chain off a → chain start a.
Lemma continues_refl {A} (chain : Z → A → Prop) off : is_u32 off → continues chain off off.
Proof. by split. Qed.

Lemma find_dir_step_safe name start off :
  continues (dir_chain romfs) start off →
  match find_dir_step romfs name off with
  | inl off' => continues (dir_chain romfs) start off'
  | inr r => safe (λ d, dir_chain romfs start d ∧ rd_name d = name) r
  end.
Proof using Hok.
  intros [Ho Hc]. unfold find_dir_step. destruct (Z.eqb_spec off NO_ENTRY); [done|].
  pose proof (dir_from_offset_safe off Ho) as Hs.
  destruct (dir_from_offset _ _ _) as [d| |]; [|done|done]. cbn in Hs. case_bool_decide.
  - split; [by apply Hc, dir_here|done].
  - split; [apply (dir_wf_u32 (rd_entry d)); by eapply dir_at_ok|]. intros. by eapply Hc, dir_later.
Qed.
Lemma find_file_step_safe name start off :
  continues (file_chain romfs) start off →
  match find_file_step romfs name off with
  | inl off' => continues (file_chain romfs) start off'
  | inr r => safe (λ f, file_chain romfs start f ∧ rl_name f = name) r
  end.
Proof using Hok.
  intros [Ho Hc]. unfold find_file_step. destruct (Z.eqb_spec off NO_ENTRY); [done|].
  pose proof (file_from_offset_safe off Ho) as Hs.
  destruct (file_from_offset _ _ _) as [f| |]; [|done|done]. cbn in Hs. case_bool_decide.
  - split; [by apply Hc, file_here|done].
  - split; [apply (file_wf_u32 (rl_entry f)); by eapply file_at_ok|]. intros. by eapply Hc, file_later.
Qed.

Lemma find_dir_run dir name :
  find_dir romfs dir name =
  match run (find_dir_step romfs name) 32 (de_child_offset (rd_entry dir)) with inr r => Some r | inl _ => None end.
Proof. done. Qed.
Lemma find_file_run dir name :
  find_file romfs dir name =
  match run (find_file_step romfs name) 32 (de_file_offset (rd_entry dir)) with inr r => Some r | inl _ => None end.
Proof. done. Qed.

Lemma find_dir_safe dir name r :
  dir_ok dir → find_dir romfs dir name = Some r →
  safe (λ d, dir_chain romfs (de_child_offset (rd_entry dir)) d ∧ rd_name d = name) r.
Proof using Hok.
  intros (_ & _ & Hu & _)%dir_wf_u32. unfold find_dir.
  pose proof (run_inv _ _ _ 32 (find_dir_step_safe name (de_child_offset (rd_entry dir))) _ (continues_refl _ _ Hu)) as Hrun.
  destruct (run _ 32%nat _); [done|]. by intros [= <-].
Qed.
Lemma find_file_safe dir name r :
  dir_ok dir → find_file romfs dir name = Some r →
  safe (λ f, file_chain romfs (de_file_offset (rd_entry dir)) f ∧ rl_name f = name) r.
Proof using Hok.
  intros (_ & _ & _ & Hu)%dir_wf_u32. unfold find_file.
  pose proof (run_inv _ _ _ 32 (find_file_step_safe name (de_file_offset (rd_entry dir))) _ (continues_refl _ _ Hu)) as Hrun.
  destruct (run _ 32%nat _); [done|]. by intros [= <-].
Qed.

Lemma open_from_safe comps : ∀ dir comp r,
  dir_ok dir → open_from romfs dir comp comps = Some r → safe (names romfs dir comp comps) r.
Proof using Hok.
  induction comps as [|c comps IH]; intros dir comp r Hd; cbn [open_from names]; [by apply find_file_safe|].
  destruct (find_dir romfs dir comp) as [[d|e|]|] eqn:Hf; cbn [and_then]; [|by intros [= <-]| |done];
    apply find_dir_safe in Hf; [|done..].
  destruct Hf as [Hc Hn]. intros Ho. eapply safe_mono; [eapply IH; [by eapply dir_chain_ok|exact Ho]|]. by eauto.
Qed.

Lemma open_safe path r :
  open romfs path = Some r →
  safe (λ f, ∃ root comp comps, split_slash (trim_slashes path) = comp :: comps ∧ dir_at romfs 0 root ∧
                                names romfs root comp comps f) r.
Proof using Hok.
  unfold open. case_bool_decide; [by intros [= <-]|]. pose proof root_dir_safe as Hr.
  destruct (root_dir romfs) as [d|e|]; cbn in Hr |- *; [|by intros [= <-]|done].
  destruct (split_slash _) as [|comp comps]; [by intros [= <-]|]. intros Ho.
  eapply safe_mono; [eapply open_from_safe; [by eapply dir_at_ok|exact Ho]|]. by eauto 6.
Qed.

(** The contents: the slice of the image that the entry claims, or the error. *)
Lemma data_spec file :
  file_ok file →
  let base := file_data_offset (rf_header romfs) in
  let offset := fe_data_offset (rl_entry file) in
  let bytes := rf_bytes romfs in
  data romfs file
    = if USIZE_MAX <? base + offset + size file then Err (FileDataBoundsOverflow base offset (size file))
      else if len bytes <? base + offset + size file then Err (FileDataOutOfBounds offset (size file) (len bytes))
      else Ok (ztake (size file) (zdrop (base + offset) bytes)).
Proof using Hok.
  intros Hf. cbv zeta. unfold data, size. cbn in Hf. destruct Hok as [Hh Hb _ _ Hd]. cbn in Hh.
  destruct (Z.ltb_spec USIZE_MAX (file_data_offset (rf_header romfs) + fe_data_offset (rl_entry file)
    + fe_data_size (rl_entry file))) as [Hov|Hov].
  - destruct (Z.le_gt_cases (file_data_offset (rf_header romfs) + fe_data_offset (rl_entry file)) USIZE_MAX).
    + rewrite checked_add_ok by mlia. bind_cbn. by rewrite checked_add_overflow by mlia.
    + by rewrite checked_add_overflow by mlia.
  - do 2 (rewrite checked_add_ok by mlia; bind_cbn).
    destruct (Z.ltb_spec (len (rf_bytes romfs)) (file_data_offset (rf_header romfs)
      + fe_data_offset (rl_entry file) + fe_data_size (rl_entry file))) as [Hg|Hg]; bind_cbn; [done|].
    unfold file_data. do 2 (rewrite checked_add_ok by mlia; bind_cbn).
    rewrite get_range_ok by mlia. bind_cbn. do 2 f_equal. lia.
Qed.

(** An iterator over the children of a directory, and what it yields. *)
Definition iterator_ok (dir : RomFsDir) (it : DirIterator) : Prop :=
  continues (dir_chain romfs) (de_child_offset (rd_entry dir)) (next_dir_offset it) ∧
  continues (file_chain romfs) (de_file_offset (rd_entry dir)) (next_file_offset it) ∧
  dir_table_base it = dir_meta_table_offset (rf_header romfs) ∧
  file_table_base it = file_meta_table_offset (rf_header romfs).

Lemma entries_ok dir : dir_ok dir → iterator_ok dir (entries romfs dir).
Proof. intros (? & ? & ? & ?)%dir_wf_u32. split_and!; [by apply continues_refl..|done|done]. Qed.

Lemma next_file_safe dir it :
  iterator_ok dir it →
  ∃ e it', next_file romfs it = Some (e, it') ∧ iterator_ok dir it' ∧ ∀ x, e = Some x → listed romfs dir x.
Proof using Hok.
  intros (Hd & [Hf Hc] & Hdb & Hfb). unfold next_file. destruct (Z.eqb_spec (next_file_offset it) NO_ENTRY); cbn [negb].
  { by exists None, it. }
  rewrite Hfb. pose proof (file_from_offset_safe _ Hf) as Hs.
  destruct (file_from_offset _ _ _) as [f|e|]; [|by exists None, it|done].
  eexists _, _. split; [done|]. split; [|intros ? [= <-]; by apply Hc, file_here].
  split_and!; [done| |done|done]. split; [apply (file_wf_u32 (rl_entry f)); by eapply file_at_ok|].
  intros. by eapply Hc, file_later.
Qed.

Lemma next_safe dir it :
  iterator_ok dir it →
  ∃ e it', next romfs it = Some (e, it') ∧ iterator_ok dir it' ∧ ∀ x, e = Some x → listed romfs dir x.
Proof using Hok.
  intros Hit. pose proof (next_file_safe dir it Hit) as Hfile. destruct Hit as ([Hd Hc] & Hf & Hdb & Hfb).
  unfold next. destruct (Z.eqb_spec (next_dir_offset it) NO_ENTRY); cbn [negb]; [done|].
  rewrite Hdb. pose proof (dir_from_offset_safe _ Hd) as Hs. destruct (dir_from_offset _ _ _) as [d|e|]; [|done|done].
  eexists _, _. split; [done|]. split; [|intros ? [= <-]; by apply Hc, dir_here].
  split_and!; [|done|done|done]. split; [apply (dir_wf_u32 (rd_entry d)); by eapply dir_at_ok|].
  intros. by eapply Hc, dir_later.
Qed.

Lemma collect_safe dir n it :
  iterator_ok dir it → ∃ es, collect romfs n it = Some es ∧ Forall (listed romfs dir) es.
Proof using Hok.
  revert it. induction n as [|n IH]; intros it Hit; [by exists []|]. cbn [collect].
  destruct (next_safe dir it Hit) as (e & it' & -> & Hit' & He). cbn. destruct e as [x|]; [|by exists []].
  destruct (IH it' Hit') as (es & -> & Hes). exists (x :: es). split; [done|]. constructor; [by apply He|done].
Qed.
End safety.

(** C26. Reading an untrusted RomFS is safe, and what it returns is what the image holds. [try_from_bytes]
    never panics on a buffer. In an image it accepts no operation of the reader panics, on the root or
    on any directory reached from it: [root_dir] is the entry at offset 0 of the directory table; a
    resolved path is a file of that name in the chain of siblings its directory heads, each directory
    on the way being a child with its component's name; the lookups and the iterator of every reachable directory give
    entries of its own chains; an entry is the slice of its table at the offset that leads to it,
    with the name that follows; and the contents of a file are exactly the slice of the image at the
    data offset of the header plus its own, of its own size, or the error that says they do not fit. *)
Theorem romfs_reader_safe `{Zerocopy} bytes :
  len bytes ≤ ISIZE_MAX →
  try_from_bytes bytes ≠ Panic ∧
  ∀ romfs, try_from_bytes bytes = Ok romfs →
    rf_bytes romfs = bytes ∧ (∃ rest, bytes = as_bytes (rf_header romfs) ++ rest) ∧
    safe (dir_at romfs 0) (root_dir romfs) ∧
    (∀ path r, open romfs path = Some r →
       safe (λ f, ∃ root comp comps, split_slash (trim_slashes path) = comp :: comps ∧ dir_at romfs 0 root ∧
                                     names romfs root comp comps f) r) ∧
    (∀ d, reached romfs d →
       (∀ name r, find_dir romfs d name = Some r →
          safe (λ d', dir_chain romfs (de_child_offset (rd_entry d)) d' ∧ rd_name d' = name) r) ∧
       (∀ name r, find_file romfs d name = Some r →
          safe (λ f, file_chain romfs (de_file_offset (rd_entry d)) f ∧ rl_name f = name) r) ∧
       (∀ n, ∃ es, collect romfs n (entries romfs d) = Some es ∧ Forall (listed romfs d) es)) ∧
    (∀ off f, file_chain romfs off f →
       let start := file_data_offset (rf_header romfs) + fe_data_offset (rl_entry f) in
       data romfs f
         = if USIZE_MAX <? start + size f
           then Err (FileDataBoundsOverflow (file_data_offset (rf_header romfs)) (fe_data_offset (rl_entry f)) (size f))
           else if len bytes <? start + size f
           then Err (FileDataOutOfBounds (fe_data_offset (rl_entry f)) (size f) (len bytes))
           else Ok (ztake (size f) (zdrop start bytes))).
Proof.
  intros Hlen. pose proof (try_from_bytes_romfs_safe bytes Hlen) as Hs. split; [by eapply safe_no_panic|].
  intros romfs Hr. rewrite Hr in Hs. destruct Hs as (Hok & Hb & Hh). split_and!; [done|done| | | |].
  - apply (root_dir_safe Hok).
  - intros path r. apply (open_safe Hok).
  - intros d Hd%reached_ok. split_and!; [intros; by eapply (find_dir_safe Hok)|intros; by eapply (find_file_safe Hok)|].
    intros n. by apply (collect_safe Hok), entries_ok.
  - intros off f Hf%file_chain_ok. rewrite <-Hb. by apply (data_spec Hok).
Qed.

(** ** Lookups return, or go round a cycle of siblings *)

(** C23. A lookup in an accepted image either returns, without a panic, or its chain of siblings comes back
    to an offset it has visited and the loop never ends; the model's [None] is exactly that. *)
Theorem find_returns_or_loops `{Zerocopy} bytes romfs dir name :
  len bytes ≤ ISIZE_MAX → try_from_bytes bytes = Ok romfs → dir_ok dir →
  match find_dir romfs dir name with
  | Some r => returns (find_dir_step romfs name) (de_child_offset (rd_entry dir)) r ∧ r ≠ Panic
  | None => diverges (find_dir_step romfs name) (de_child_offset (rd_entry dir))
  end ∧
  match find_file romfs dir name with
  | Some r => returns (find_file_step romfs name) (de_file_offset (rd_entry dir)) r ∧ r ≠ Panic
  | None => diverges (find_file_step romfs name) (de_file_offset (rd_entry dir))
  end.
Proof.
  intros Hlen Hr Hd. pose proof (try_from_bytes_romfs_safe bytes Hlen) as Hs. rewrite Hr in Hs.
  destruct Hs as [Hok _].
  pose proof (dir_wf_u32 _ Hd) as (_ & _ & Hc & Hf).
  split.
  - pose proof (find_dir_safe Hok dir name) as Hs. pose proof (find_dir_run (romfs := romfs) dir name) as Hrun.
    pose proof (run_decides (find_dir_step romfs name) (2 ^ 32) 32 (de_child_offset (rd_entry dir))) as Hdec.
    assert (∀ a b, 0 ≤ a < 2 ^ 32 → find_dir_step romfs name a = inl b → 0 ≤ b < 2 ^ 32) as Hstep.
    { intros a b Ha Hb. assert (is_u32 a) as Hu by mlia.
      pose proof (find_dir_step_safe Hok name a a (continues_refl _ _ Hu)) as Hst.
      rewrite Hb in Hst. destruct Hst. mlia. }
    specialize (Hdec ltac:(done) Hstep ltac:(mlia)).
    destruct (run _ 32%nat _) as [s|r]; rewrite Hrun in *; [done|]. split; [done|]. by eapply safe_no_panic, Hs.
  - pose proof (find_file_safe Hok dir name) as Hs. pose proof (find_file_run (romfs := romfs) dir name) as Hrun.
    pose proof (run_decides (find_file_step romfs name) (2 ^ 32) 32 (de_file_offset (rd_entry dir))) as Hdec.
    assert (∀ a b, 0 ≤ a < 2 ^ 32 → find_file_step romfs name a = inl b → 0 ≤ b < 2 ^ 32) as Hstep.
    { intros a b Ha Hb. assert (is_u32 a) as Hu by mlia.
      pose proof (find_file_step_safe Hok name a a (continues_refl _ _ Hu)) as Hst.
      rewrite Hb in Hst. destruct Hst. mlia. }
    specialize (Hdec ltac:(done) Hstep ltac:(mlia)).
    destruct (run _ 32%nat _) as [s|r]; rewrite Hrun in *; [done|]. split; [done|]. by eapply safe_no_panic, Hs.
Qed.

(** An image whose only file is its own sibling. *)
Definition cyclic_image : list byte :=
  to_bytes {| header_size := 0x50; dir_hash_table_offset := 0; dir_hash_table_size := 0;
              dir_meta_table_offset := 0x50; dir_meta_table_size := 0x18;
              file_hash_table_offset := 0; file_hash_table_size := 0;
              file_meta_table_offset := 0x68; file_meta_table_size := 0x24; file_data_offset := 0x8c |}
  ++ to_bytes {| de_parent_offset := 0; de_sibling_offset := NO_ENTRY; de_child_offset := NO_ENTRY;
                 de_file_offset := 0; de_hash_sibling_offset := NO_ENTRY; de_name_len := 0 |}
  ++ to_bytes {| fe_parent_offset := 0; fe_sibling_offset := 0; fe_data_offset := 0; fe_data_size := 0;
                 fe_hash_sibling_offset := NO_ENTRY; fe_name_len := 1 |} ++ [x61; x00; x00; x00].
Definition cyclic_romfs : RomFs :=
  {| rf_bytes := cyclic_image; rf_header := of_bytes (ztake 0x50 cyclic_image) |}.
Definition cyclic_root : RomFsDir :=
  {| rd_entry := of_bytes (ztake 0x18 (zdrop 0x50 cyclic_image)); rd_name := [] |}.

(** The search of that image for another name. *)
Lemma cyclic_diverges : diverges (@find_file_step zerocopy_reference cyclic_romfs [x62]) 0.
Proof. apply (cycle_diverges _ 0 0 0 1); [lia|done|]. cbn [steps]. vm_compute. reflexivity. Qed.

Lemma find_returns_or_loops_witness :
  @try_from_bytes zerocopy_reference cyclic_image = Ok cyclic_romfs ∧
  @root_dir zerocopy_reference cyclic_romfs = Ok cyclic_root ∧
  @find_dir zerocopy_reference cyclic_romfs cyclic_root [x62] = Some (Err Open.DirNotFound) ∧
  @find_file zerocopy_reference cyclic_romfs cyclic_root [x62] = None.
Proof.
  assert (@try_from_bytes zerocopy_reference cyclic_image = Ok cyclic_romfs) as Hr by (vm_compute; reflexivity).
  assert (@root_dir zerocopy_reference cyclic_romfs = Ok cyclic_root) as Hd by (vm_compute; reflexivity).
  assert (len cyclic_image ≤ ISIZE_MAX) as Hl by (vm_compute; discriminate).
  assert (dir_ok cyclic_root) as Hok by (unfold dir_ok; vm_compute; repeat split; discriminate).
  split; [exact Hr|]. split; [exact Hd|].
  destruct (@find_returns_or_loops zerocopy_reference cyclic_image cyclic_romfs cyclic_root [x62] Hl Hr Hok) as [_ Hf].
  split; [rewrite find_dir_run; vm_compute; reflexivity|].
  destruct (find_file cyclic_romfs cyclic_root [x62]) as [r|]; [|reflexivity].
  destruct Hf as [Hret _]. destruct (returns_not_diverges _ _ _ Hret cyclic_diverges).
Defined.

(** An image with a file [f] in a directory [d]. *)
Definition small_image : list byte :=
  to_bytes {| header_size := 0x50; dir_hash_table_offset := 0; dir_hash_table_size := 0;
              dir_meta_table_offset := 0x50; dir_meta_table_size := 0x34;
              file_hash_table_offset := 0; file_hash_table_size := 0;
              file_meta_table_offset := 0x84; file_meta_table_size := 0x24; file_data_offset := 0xa8 |}
  ++ to_bytes {| de_parent_offset := 0; de_sibling_offset := NO_ENTRY; de_child_offset := 0x18;
                 de_file_offset := NO_ENTRY; de_hash_sibling_offset := NO_ENTRY; de_name_len := 0 |}
  ++ to_bytes {| de_parent_offset := 0; de_sibling_offset := NO_ENTRY; de_child_offset := NO_ENTRY;
                 de_file_offset := 0; de_hash_sibling_offset := NO_ENTRY; de_name_len := 1 |} ++ [x64; x00; x00; x00]
  ++ to_bytes {| fe_parent_offset := 0x18; fe_sibling_offset := NO_ENTRY; fe_data_offset := 1; fe_data_size := 2;
                 fe_hash_sibling_offset := NO_ENTRY; fe_name_len := 1 |} ++ [x66; x00; x00; x00]
  ++ [x00; x2a; x2b].
Definition small_romfs : RomFs := {| rf_bytes := small_image; rf_header := of_bytes (ztake 0x50 small_image) |}.
Definition small_file : RomFsFile :=
  {| rl_entry := {| fe_parent_offset := 0x18; fe_sibling_offset := NO_ENTRY; fe_data_offset := 1; fe_data_size := 2;
                    fe_hash_sibling_offset := NO_ENTRY; fe_name_len := 1 |}; rl_name := [x66] |}.

Lemma romfs_reader_safe_witness :
  @open zerocopy_reference small_romfs [x64; x2f; x66] = Some (Ok small_file) ∧
  (∃ root, @names zerocopy_reference small_romfs root [x64] [[x66]] small_file) ∧
  @data small_romfs small_file = Ok [x2a; x2b] ∧
  ∃ root es, @root_dir zerocopy_reference small_romfs = Ok root ∧
    @collect zerocopy_reference small_romfs 2 (entries small_romfs root) = Some es ∧
    Forall (@listed zerocopy_reference small_romfs root) es.
Proof.
  assert (len small_image ≤ ISIZE_MAX) as Hl by (vm_compute; discriminate).
  assert (@open zerocopy_reference small_romfs [x64; x2f; x66] = Some (Ok small_file)) as Ho by (vm_compute; reflexivity).
  destruct (@romfs_reader_safe zerocopy_reference small_image Hl) as [_ Hs].
  destruct (Hs small_romfs ltac:(vm_compute; reflexivity)) as (_ & _ & Hroot & Hopen & Hall & Hdata).
  split; [exact Ho|]. destruct (Hopen _ _ Ho) as (root & comp & comps & Hp & _ & Hn). vm_compute in Hp.
  injection Hp as <- <-. split; [by exists root|]. destruct Hn as (d & _ & _ & Hf & _). split.
  - rewrite (Hdata _ _ Hf). vm_compute. reflexivity.
  - destruct (@root_dir zerocopy_reference small_romfs) as [d0|e|] eqn:Hr; [|vm_compute in Hr; discriminate..].
    destruct (Hall d0 (reached_root _ _ Hroot)) as (_ & _ & Hc). destruct (Hc 2%nat) as (es & He & Hes).
    exists d0, es. split; [reflexivity|]. split; [exact He|exact Hes].
Defined.
