(* ===== verification/RomFsRoundTrip.v ===== *)
(** * RomFS round trip: what [build] writes, the reader finds

    The entry at every offset, the sibling chains as the lists of children, and from them the result
    of [open] on every path of a built image: exactly the file of the map, or the error that tells
    what is missing. *)

From stdpp Require Import gmap.
From S2P Require Import Prelude Bytes Strs Fs Layout Loops RomFsRaw RomFsTree.
From S2P Require Import RomFsWrite RomFsSort RomFsLayout RomFsImage RomFsRead.
#[local] Open Scope Z_scope.

(** ** Definitions *)

(** What a reader's handle shows of an entry of the vectors. *)
Definition views (dirs : list DirEntry) (files : list FileEntry) (e : DirEntry) (v : RomFsDir) : Prop :=
  rd_name v = d_name e ∧
  first_offset (d_entry_offset <$> dirs) (d_children e) = Some (de_child_offset (rd_entry v)) ∧
  first_offset (f_entry_offset <$> files) (d_files e) = Some (de_file_offset (rd_entry v)).
Definition views_file (f : FileEntry) (v : RomFsFile) : Prop :=
  rl_name v = f_name f ∧ fe_data_offset (rl_entry v) = f_data_offset f ∧ fe_data_size (rl_entry v) = len (f_data f).

(** The result of opening a path, given as its components, of a map and its directories. *)
Definition opens `{Zerocopy} (m : Spec.state) (D : list (list byte) → Prop) (romfs : RomFs) (components : list (list byte))
    (r : option (outcome Open.OpenError RomFsFile)) : Prop :=
  match m !! components with
  | Some x => ∃ file, r = Some (Ok file) ∧ last components = Some (rl_name file) ∧ size file = len x ∧
      data romfs file = Ok x
  | None => (D (removelast components) ∧ r = Some (Err Open.FileNotFound)) ∨
      (¬ D (removelast components) ∧ r = Some (Err Open.DirNotFound))
  end.

(** ** Lemmas: reading a record back *)

Lemma run_bounded {St R} (step : St → St + R) k n s r :
  Z.of_nat n ≤ 2 ^ Z.of_nat k → steps step n s = inr r → run step k s = inr r.
Proof.
  intros Hn Hs. rewrite run_steps. eapply steps_mono; [|exact Hs].
  apply Nat2Z.inj_le. by rewrite Nat2Z.inj_pow.
Qed.

Lemma check_table_ok overflow out offset size avail :
  offset + size ≤ avail → avail ≤ ISIZE_MAX → check_table overflow out offset size avail = Ok tt.
Proof. intros. unfold check_table. rewrite checked_add_ok by mlia. bind_cbn. by settle. Qed.

Section read.
Context `{Zerocopy}.

Lemma entry_at_ok {E} (T : Type) `{Layout T} (name_len : T → Z) (too_small : Z → Z → E) table offset base (r : T) name :
  at_offset table offset (to_bytes r ++ name) → wf r → name_len r = len name → utf8_valid name = true →
  0 < size_of T ≤ 0x20 → 0 ≤ base → base + len table ≤ ISIZE_MAX →
  entry_at T name_len too_small table offset base = Ok (r, name).
Proof.
  intros Hat Hwf Hn Hu Hsize Hb Hbt. pose proof (at_offset_bound _ _ _ Hat) as [Ho Hol].
  destruct Hat as (pre & post & Heq & Hpre). rewrite len_app, (len_to_bytes r Hwf) in Hol.
  pose proof (len_nonneg name). unfold entry_at.
  rewrite (checked_add_ok base (len table)), (checked_add_ok offset (size_of T)) by mlia.
  settle. rewrite get_from_ok by lia. bind_cbn.
  assert (zdrop offset table = as_bytes r ++ name ++ post) as ->.
  { rewrite Heq, zdrop_app_eq by done. rewrite as_bytes_spec. by rewrite <-app_assoc. }
  rewrite ref_from_prefix_as_bytes by done. rewrite Hn, (checked_add_ok (offset + size_of T)) by mlia. settle.
  assert (get_range table (offset + size_of T) (offset + size_of T + len name) = Some name) as ->.
  { apply at_offset_range. exists (pre ++ to_bytes r), post. rewrite Heq, len_app, (len_to_bytes r Hwf), Hpre.
    by rewrite <-!app_assoc. }
  bind_cbn. by rewrite utf8_or_empty_valid.
Qed.

Context {dirs : list DirEntry} {files : list FileEntry} {image : list byte} {h : RomFsHeader} {dt ft : list byte}.
Context (Hp : placed dirs files) (Hcs : children_sorted dirs files) (Him : image_holds dirs files image h dt ft).
Let romfs : RomFs := {| rf_bytes := image; rf_header := h |}.
Let offs := d_entry_offset <$> dirs.
Let foffs := f_entry_offset <$> files.

Lemma read_header : try_from_bytes image = Ok romfs.
Proof using Him.
  destruct (im_header _ _ _ _ _ _ Him) as [rest Hi]. pose proof (im_wf _ _ _ _ _ _ Him) as Hwf.
  pose proof (len_to_bytes h Hwf) as Hhl. pose proof (im_len _ _ _ _ _ _ Him) as Hlen.
  pose proof (im_dir_hash _ _ _ _ _ _ Him). pose proof (im_file_hash _ _ _ _ _ _ Him).
  destruct (im_dt _ _ _ _ _ _ Him) as [Hdt Hdl]. destruct (im_ft _ _ _ _ _ _ Him) as [Hft Hfl].
  apply at_offset_bound in Hdt, Hft. pose proof (im_data_offset _ _ _ _ _ _ Him) as Hdo.
  assert (size_of RomFsHeader ≤ len image) as Hl by (rewrite Hi, len_app, Hhl; len_pos; lia).
  change (size_of RomFsHeader) with 0x50 in *. unfold try_from_bytes.
  change (size_of RomFsHeader) with 0x50. settle. bind_cbn.
  assert (ref_from_prefix RomFsHeader image = Some (h, rest)) as ->.
  { rewrite Hi, <-as_bytes_spec. by apply ref_from_prefix_as_bytes. }
  bind_cbn. rewrite (im_header_size _ _ _ _ _ _ Him). cbn [Z.eqb Pos.eqb negb]. bind_cbn.
  pose proof (im_data_bound _ _ _ _ _ _ Him).
  do 4 (rewrite check_table_ok by mlia; bind_cbn). settle. done.
Qed.

Lemma read_dir_table : dir_meta_table romfs = Some dt.
Proof using Him.
  destruct (im_dt _ _ _ _ _ _ Him) as [Hat Hl]. pose proof (at_offset_bound _ _ _ Hat).
  pose proof (im_len _ _ _ _ _ _ Him). unfold dir_meta_table. cbn [romfs rf_header rf_bytes].
  rewrite Hl, checked_add_ok by mlia. bind_cbn. by apply at_offset_range.
Qed.
Lemma read_file_table : file_meta_table romfs = Some ft.
Proof using Him.
  destruct (im_ft _ _ _ _ _ _ Him) as [Hat Hl]. pose proof (at_offset_bound _ _ _ Hat).
  pose proof (im_len _ _ _ _ _ _ Him). unfold file_meta_table. cbn [romfs rf_header rf_bytes].
  rewrite Hl, checked_add_ok by mlia. bind_cbn. by apply at_offset_range.
Qed.

Lemma dir_name_utf8 c e : dirs !! c = Some e → utf8_valid (d_name e) = true.
Proof using Hp.
  intros Hc. destruct (decide (c = 0%nat)) as [->|Hc0].
  - destruct (wt_root _ _ (pl_wf _ _ Hp)) as (r & Hr & _ & Hn & _). rewrite Hc in Hr. injection Hr as ->. by rewrite Hn.
  - by destruct (wt_dir _ _ (pl_wf _ _ Hp) _ _ Hc Hc0) as (p & _ & _ & _ & _ & Hu).
Qed.

Lemma dir_name_small c e : dirs !! c = Some e → len (d_name e) ≤ U32_MAX.
Proof using Hp.
  intros Hc. destruct (dir_offset_bound Hp c e Hc) as (? & Hb & _). unfold dir_size at 1 in Hb.
  pose proof (align4_spec (len (d_name e))). pose proof (fit_dirs _ _ (pl_fits _ _ Hp)). lia.
Qed.
Lemma file_name_small c e : files !! c = Some e → len (f_name e) ≤ U32_MAX.
Proof using Hp.
  intros Hc. destruct (file_offset_bound Hp c e Hc) as (? & Hb & _). unfold file_size at 1 in Hb.
  pose proof (align4_spec (len (f_name e))). pose proof (fit_files _ _ (pl_fits _ _ Hp)). lia.
Qed.

(** At its offset, an entry reads back as a view of it, linked to its next sibling. *)
Lemma read_dir c e :
  dirs !! c = Some e →
  ∃ v, views dirs files e v ∧ find_sibling_dir dirs e = Some (de_sibling_offset (rd_entry v)) ∧
    dir_from_offset romfs (d_entry_offset e) (dir_meta_table_offset h) = Ok v ∧
    entry_at RomFsDirEntry de_name_len Build_RootDirError dt (d_entry_offset e) (dir_meta_table_offset h)
      = Ok (rd_entry v, rd_name v).
Proof using Hp Him.
  intros Hc. destruct (im_dirs _ _ _ _ _ _ Him) as [siblings Hall]. destruct (Hall c e Hc) as (r & Hrec & Hwf & Hat).
  destruct (im_dt _ _ _ _ _ _ Him) as [Hdt _]. apply at_offset_bound in Hdt. pose proof (im_len _ _ _ _ _ _ Him).
  pose proof (dir_name_small c e Hc) as Hnl. pose proof (len_nonneg (d_name e)).
  assert (de_name_len r = len (d_name e) ∧ find_sibling_dir dirs e = Some (de_sibling_offset r) ∧
    first_offset offs (d_children e) = Some (de_child_offset r) ∧
    first_offset foffs (d_files e) = Some (de_file_offset r)) as (Hn & Hsib & Hch & Hfi).
  { unfold dir_record in Hrec. destruct (dirs !! d_parent e); [|done]. rewrite bind_some in Hrec.
    destruct (find_sibling_dir dirs e); [|done]. rewrite bind_some in Hrec. unfold offs, foffs.
    destruct (first_offset _ (d_children e)); [|done]. rewrite bind_some in Hrec.
    destruct (first_offset _ (d_files e)); [|done]. rewrite bind_some in Hrec.
    destruct (siblings !! c); [|done]. injection Hrec as <-. cbn. rewrite as_u32_small; [done|mlia]. }
  exists {| rd_entry := r; rd_name := d_name e |}. split; [done|]. split; [done|].
  unfold dir_from_offset. rewrite read_dir_table. bind_cbn.
  split; [|apply entry_at_ok; [done|done|done|by eapply dir_name_utf8|done|lia|lia]].
  rewrite (entry_at_ok RomFsDirEntry de_name_len Open.BufferTooSmall dt (d_entry_offset e)
    (dir_meta_table_offset h) r (d_name e)); [done|done|done|done|by eapply dir_name_utf8|done|lia|lia].
Qed.

Lemma read_file c e :
  files !! c = Some e →
  ∃ v, views_file e v ∧ find_sibling_file dirs files e = Some (fe_sibling_offset (rl_entry v)) ∧
    file_from_offset romfs (f_entry_offset e) (file_meta_table_offset h) = Ok v.
Proof using Hp Him.
  intros Hc. destruct (im_files _ _ _ _ _ _ Him) as [siblings Hall]. destruct (Hall c e Hc) as (r & Hrec & Hwf & Hat).
  destruct (im_ft _ _ _ _ _ _ Him) as [Hft _]. apply at_offset_bound in Hft. pose proof (im_len _ _ _ _ _ _ Him).
  pose proof (file_name_small c e Hc) as Hnl. pose proof (len_nonneg (f_name e)). pose proof (len_nonneg (f_data e)).
  destruct (data_laid_bound 0 c e ltac:(lia) (pl_data _ _ Hp) Hc). pose proof (data_end_fits Hp).
  assert (fe_name_len r = len (f_name e) ∧ find_sibling_file dirs files e = Some (fe_sibling_offset r) ∧
    fe_data_offset r = f_data_offset e ∧ fe_data_size r = len (f_data e)) as (Hn & Hsib & Ho & Hs).
  { unfold file_record in Hrec. destruct (dirs !! f_parent e); [|done]. rewrite bind_some in Hrec.
    destruct (find_sibling_file dirs files e); [|done]. rewrite bind_some in Hrec.
    destruct (siblings !! c); [|done]. injection Hrec as <-. cbn [fe_name_len fe_sibling_offset fe_data_offset fe_data_size].
    rewrite as_u32_small, as_u64_small by mlia. done. }
  exists {| rl_entry := r; rl_name := f_name e |}. split; [done|]. split; [done|].
  unfold file_from_offset. rewrite read_file_table. bind_cbn.
  destruct (wt_file _ _ (pl_wf _ _ Hp) _ _ Hc) as (p & _ & _ & _ & _ & Hu).
  rewrite (entry_at_ok RomFsFileEntry fe_name_len Open.BufferTooSmall ft (f_entry_offset e)
    (file_meta_table_offset h) r (f_name e)); [done|done|done|done|done|done|lia|lia].
Qed.

(** The contents of a file. *)
Lemma read_data c e v : files !! c = Some e → views_file e v → data romfs v = Ok (f_data e) ∧ size v = len (f_data e).
Proof using Him.
  intros Hc (_ & Ho & Hs). split; [|done]. pose proof (im_data _ _ _ _ _ _ Him c e Hc) as Hat.
  pose proof (at_offset_bound _ _ _ Hat) as Hb. pose proof (im_len _ _ _ _ _ _ Him). pose proof (len_nonneg (f_data e)).
  unfold data, file_data. cbn [romfs rf_header rf_bytes]. rewrite Ho, Hs, (im_data_offset _ _ _ _ _ _ Him).
  rewrite (checked_add_ok 0x200) by mlia. bind_cbn. rewrite checked_add_ok by mlia. bind_cbn. settle. bind_cbn.
  by rewrite (at_offset_range _ _ _ Hat).
Qed.

(** ** Lemmas: following a sibling chain *)

(** The first offset of a list, when there is one, is an entry's. *)
Lemma first_offset_cons_dir c post o :
  first_offset offs (c :: post) = Some o → ∃ e, dirs !! c = Some e ∧ o = d_entry_offset e.
Proof using.
  cbn. unfold offs. rewrite list_lookup_fmap. destruct (dirs !! c) as [e|]; [|done]. intros [= <-]. by exists e.
Qed.
Lemma first_offset_cons_file c post o :
  first_offset foffs (c :: post) = Some o → ∃ e, files !! c = Some e ∧ o = f_entry_offset e.
Proof using.
  cbn. unfold foffs. rewrite list_lookup_fmap. destruct (files !! c) as [e|]; [|done]. intros [= <-]. by exists e.
Qed.

Lemma find_dir_chain d p n post : ∀ pre o,
  dirs !! d = Some p → d_children p = pre ++ post → first_offset offs post = Some o →
  (∃ c e v, c ∈ post ∧ dirs !! c = Some e ∧ d_name e = n ∧ views dirs files e v ∧
     steps (find_dir_step romfs n) (S (length post)) o = inr (Ok v)) ∨
  (∀ c e, c ∈ post → dirs !! c = Some e → d_name e ≠ n) ∧
    steps (find_dir_step romfs n) (S (length post)) o = inr (Err Open.DirNotFound).
Proof using Hp Him.
  induction post as [|c post IH]; intros pre o Hd Hch Ho.
  { injection Ho as <-. right. split; [by intros c e ?%elem_of_nil|done]. }
  destruct (first_offset_cons_dir c post o Ho) as (e & Hc & ->).
  destruct (read_dir c e Hc) as (v & Hv & Hsib & Hread & _).
  pose proof (dir_offset_u32 Hp c e Hc) as Hu.
  assert (find_dir_step romfs n (d_entry_offset e) =
    if bool_decide (d_name e = n) then inr (Ok v) else inl (de_sibling_offset (rd_entry v))) as Hstep.
  { unfold find_dir_step. rewrite (proj2 (Z.eqb_neq _ _)) by lia. cbn [romfs rf_header]. rewrite Hread.
    destruct Hv as (-> & _). done. }
  cbn [length]. change (steps ?f (S ?k) ?s) with (match f s with inl s' => steps f k s' | inr r => inr r end).
  rewrite Hstep. case_bool_decide as Hn.
  - left. exists c, e, v. split_and!; [left|done|done|done|done].
  - rewrite (sibling_dir_next Hp d p pre c post e Hd Hch Hc) in Hsib.
    destruct (IH (pre ++ [c]) (de_sibling_offset (rd_entry v)) Hd) as [(c' & e' & v' & Hin & ?)|[Hno Hs]];
      [by rewrite <-app_assoc|done| |].
    + left. exists c', e', v'. split; [by right|done].
    + right. split; [|done]. intros c' e' [->|Hin]%elem_of_cons He'; [congruence|by eapply Hno].
Qed.

Lemma find_file_chain d p n post : ∀ pre o,
  dirs !! d = Some p → d_files p = pre ++ post → first_offset foffs post = Some o →
  (∃ c e v, c ∈ post ∧ files !! c = Some e ∧ f_name e = n ∧ views_file e v ∧
     steps (find_file_step romfs n) (S (length post)) o = inr (Ok v)) ∨
  (∀ c e, c ∈ post → files !! c = Some e → f_name e ≠ n) ∧
    steps (find_file_step romfs n) (S (length post)) o = inr (Err Open.FileNotFound).
Proof using Hp Him.
  induction post as [|c post IH]; intros pre o Hd Hch Ho.
  { injection Ho as <-. right. split; [by intros c e ?%elem_of_nil|done]. }
  destruct (first_offset_cons_file c post o Ho) as (e & Hc & ->).
  destruct (read_file c e Hc) as (v & Hv & Hsib & Hread).
  pose proof (file_offset_u32 Hp c e Hc) as Hu.
  assert (find_file_step romfs n (f_entry_offset e) =
    if bool_decide (f_name e = n) then inr (Ok v) else inl (fe_sibling_offset (rl_entry v))) as Hstep.
  { unfold find_file_step. rewrite (proj2 (Z.eqb_neq _ _)) by lia. cbn [romfs rf_header]. rewrite Hread.
    destruct Hv as (-> & _). done. }
  cbn [length]. change (steps ?f (S ?k) ?s) with (match f s with inl s' => steps f k s' | inr r => inr r end).
  rewrite Hstep. case_bool_decide as Hn.
  - left. exists c, e, v. split_and!; [left|done|done|done|done].
  - rewrite (sibling_file_next Hp d p pre c post e Hd Hch Hc) in Hsib.
    destruct (IH (pre ++ [c]) (fe_sibling_offset (rl_entry v)) Hd) as [(c' & e' & v' & Hin & ?)|[Hno Hs]];
      [by rewrite <-app_assoc|done| |].
    + left. exists c', e', v'. split; [by right|done].
    + right. split; [|done]. intros c' e' [->|Hin]%elem_of_cons He'; [congruence|by eapply Hno].
Qed.

(** A list of distinct indices is no longer than the vector, so a lookup ends within its bound. *)
Lemma index_list_short (l : list nat) n : NoDup l → (∀ x, x ∈ l → (x < n)%nat) → (length l ≤ n)%nat.
Proof using.
  intros Hnd Hin. rewrite <-(length_seq n 0). apply submseteq_length, NoDup_submseteq; [done|].
  intros x Hx. apply elem_of_seq. specialize (Hin x Hx). lia.
Qed.

Lemma find_dir_spec d p v n :
  dirs !! d = Some p → views dirs files p v →
  (∃ c e v', c ∈ d_children p ∧ dirs !! c = Some e ∧ d_name e = n ∧ views dirs files e v' ∧
     find_dir romfs v n = Some (Ok v')) ∨
  (∀ c e, c ∈ d_children p → dirs !! c = Some e → d_name e ≠ n) ∧ find_dir romfs v n = Some (Err Open.DirNotFound).
Proof using Hp Him.
  intros Hd (_ & Hch & _). rewrite find_dir_run.
  assert (Z.of_nat (S (length (d_children p))) ≤ 2 ^ Z.of_nat 32) as Hlen.
  { pose proof (dirs_count Hp). destruct (wt_children _ _ (pl_wf _ _ Hp) _ _ Hd) as [Hnd _].
    pose proof (index_list_short (d_children p) (length dirs) Hnd) as Hl. unfold len in *.
    assert (length (d_children p) ≤ length dirs)%nat; [|mlia]. apply Hl. intros x Hx.
    destruct (wf_child (pl_wf _ _ Hp) d p x Hd Hx) as (e & He & _). by eapply lookup_lt_Some. }
  destruct (find_dir_chain d p n (d_children p) [] _ Hd eq_refl Hch) as [(c & e & v' & Hin & Hc & Hn & Hv & Hs)|[Hno Hs]].
  - left. exists c, e, v'. split_and!; [done|done|done|done|]. by rewrite (run_bounded _ 32 _ _ _ Hlen Hs).
  - right. split; [done|]. by rewrite (run_bounded _ 32 _ _ _ Hlen Hs).
Qed.

Lemma find_file_spec d p v n :
  dirs !! d = Some p → views dirs files p v →
  (∃ c e v', c ∈ d_files p ∧ files !! c = Some e ∧ f_name e = n ∧ views_file e v' ∧
     find_file romfs v n = Some (Ok v')) ∨
  (∀ c e, c ∈ d_files p → files !! c = Some e → f_name e ≠ n) ∧ find_file romfs v n = Some (Err Open.FileNotFound).
Proof using Hp Him.
  intros Hd (_ & _ & Hch). rewrite find_file_run.
  assert (Z.of_nat (S (length (d_files p))) ≤ 2 ^ Z.of_nat 32) as Hlen.
  { pose proof (files_count Hp). destruct (wt_files _ _ (pl_wf _ _ Hp) _ _ Hd) as [Hnd _].
    pose proof (index_list_short (d_files p) (length files) Hnd) as Hl. unfold len in *.
    assert (length (d_files p) ≤ length files)%nat; [|mlia]. apply Hl. intros x Hx.
    destruct (wf_child_file (pl_wf _ _ Hp) d p x Hd Hx) as (e & He & _). by eapply lookup_lt_Some. }
  destruct (find_file_chain d p n (d_files p) [] _ Hd eq_refl Hch) as [(c & e & v' & Hin & Hc & Hn & Hv & Hs)|[Hno Hs]].
  - left. exists c, e, v'. split_and!; [done|done|done|done|]. by rewrite (run_bounded _ 32 _ _ _ Hlen Hs).
  - right. split; [done|]. by rewrite (run_bounded _ 32 _ _ _ Hlen Hs).
Qed.

(** ** Lemmas: opening a path *)

Context {m : Spec.state} {D : list (list byte) → Prop} (Hr : represents (sorted_builder dirs files) m D).

Lemma key_names cs x : m !! cs = Some x → Forall name_ok cs.
Proof using Hr. intros Hx. by apply (rp_file _ _ _ Hr) in Hx as [Hok _]. Qed.

Lemma is_dir_lookup ds : D ds → ∃ c e, dirs !! c = Some e ∧ d_path e = join ds.
Proof using Hr.
  intros Hd. assert (join ds ∈ d_path <$> rb_dirs (sorted_builder dirs files)) as Hin.
  { apply (rp_dir _ _ _ Hr). by exists ds. }
  apply list_elem_of_fmap in Hin as (e & Hp' & Hin). apply list_elem_of_lookup in Hin as (c & Hc). by exists c, e.
Qed.

Lemma lookup_is_dir ds c e : Forall name_ok ds → dirs !! c = Some e → d_path e = join ds → D ds.
Proof using Hr.
  intros Hds Hc Hp'. assert (join ds ∈ d_path <$> rb_dirs (sorted_builder dirs files)) as Hin.
  { rewrite <-Hp'. apply list_elem_of_fmap_2. exact (list_elem_of_lookup_2 _ _ _ Hc). }
  apply (rp_dir _ _ _ Hr) in Hin as (k & Hk & Hj).
  apply join_names_inj in Hj as ->; [done|done|by apply (rp_names _ _ _ Hr)].
Qed.

Lemma is_dir_prefix ds ds' : D (ds ++ ds') → D ds.
Proof using Hr.
  induction ds' as [|n ds' IH] using rev_ind; [by rewrite app_nil_r|]. rewrite (assoc app). intros Hd. apply IH.
  pose proof (rp_names _ _ _ Hr _ Hd) as [Hok [Hn _]%Forall_cons]%Forall_app.
  destruct (is_dir_lookup _ Hd) as (c & e & Hc & Hpe). rewrite join_snoc in Hpe.
  destruct (decide (c = 0%nat)) as [->|Hc0].
  { destruct (wt_root _ _ (rp_wf _ _ _ Hr)) as (r & Hr0 & Hrp & _). cbn in Hr0. rewrite Hc in Hr0.
    injection Hr0 as <-. rewrite Hrp in Hpe. by destruct (join (ds ++ ds')). }
  destruct (wt_dir _ _ (rp_wf _ _ _ Hr) c e Hc Hc0) as (p & Hp' & Hpath & Hne).
  rewrite Hpe in Hpath. apply path_split in Hpath as [Hpath _]; [|by apply name_ok_no_slash..].
  by eapply lookup_is_dir.
Qed.

Lemma file_key c e cs : files !! c = Some e → f_path e = join cs → Forall name_ok cs → m !! cs = Some (f_data e).
Proof using Hr.
  intros Hc Hp' Hcs'. apply (rp_file _ _ _ Hr). split; [done|]. exists e. split; [|done]. exact (list_elem_of_lookup_2 _ _ _ Hc).
Qed.
Lemma key_file cs x : m !! cs = Some x → ∃ c e, files !! c = Some e ∧ f_path e = join cs ∧ f_data e = x.
Proof using Hr.
  intros Hx. apply (rp_file _ _ _ Hr) in Hx as (_ & f & Hf & Hpf & Hd). apply list_elem_of_lookup in Hf as (c & Hc). by exists c, f.
Qed.

(** What lies above a file is a directory. *)
Lemma key_dir ds ds' x : ds' ≠ [] → m !! (ds ++ ds') = Some x → D ds.
Proof using Hr.
  intros Hne Hx. destruct ds' as [|n ds' _] using rev_ind; [done|]. rewrite (assoc app) in Hx.
  apply (is_dir_prefix ds ds'). pose proof (key_names _ _ Hx) as [Hok [Hn _]%Forall_cons]%Forall_app.
  destruct (key_file _ _ Hx) as (c & e & Hc & Hpe & _). rewrite join_snoc in Hpe.
  destruct (wt_file _ _ (rp_wf _ _ _ Hr) c e Hc) as (p & Hp' & Hpath & Hne').
  rewrite Hpe in Hpath. apply path_split in Hpath as [Hpath _]; [|by apply name_ok_no_slash..].
  by eapply lookup_is_dir.
Qed.

Lemma open_from_spec comps : ∀ d p v cs n,
  dirs !! d = Some p → views dirs files p v → d_path p = join cs → Forall name_ok cs →
  Forall (λ n, x2f ∉ n) (n :: comps) → opens m D romfs (cs ++ n :: comps) (open_from romfs v n comps).
Proof using Hp Him Hr.
  pose proof (pl_wf _ _ Hp) as Hwf.
  induction comps as [|n' comps IH]; intros d p v cs n Hd Hv Hpath Hok Hslash; cbn [open_from];
    apply Forall_cons in Hslash as [Hn Hslash]; unfold opens.
  - rewrite last_snoc, removelast_last.
    destruct (find_file_spec d p v n Hd Hv) as [(c & e & v' & Hin & Hc & <- & Hv' & ->)|[Hno ->]].
    + destruct (wf_child_file Hwf d p c Hd Hin) as (e' & He' & _ & Hpe & Hne). rewrite Hc in He'. injection He' as <-.
      rewrite (file_key c e); [|done|by rewrite join_snoc, <-Hpath|apply Forall_app; split; [done|by apply Forall_singleton]].
      destruct (read_data c e v' Hc Hv') as [Hdata Hsize]. exists v'. destruct Hv' as (-> & _). done.
    + destruct (m !! (cs ++ [n])) as [x|] eqn:Hx; [exfalso|left; split; [by eapply lookup_is_dir|done]].
      apply key_file in Hx as (c & e & Hc & Hpe & _).
      rewrite join_snoc, <-Hpath in Hpe. destruct (wf_file_child Hwf d p c e n Hd Hc Hn Hpe) as [Hin Hname].
      by apply (Hno c e Hin Hc).
  - destruct (find_dir_spec d p v n Hd Hv) as [(c & e & v' & Hin & Hc & <- & Hv' & ->)|[Hno ->]]; cbn [and_then].
    + destruct (wf_child Hwf d p c Hd Hin) as (e' & He' & _ & _ & Hpe & Hne). rewrite Hc in He'. injection He' as <-.
      specialize (IH c e v' (cs ++ [d_name e]) n' Hc Hv'). rewrite <-app_assoc in IH. apply IH; [|by apply Forall_app; split; [|apply Forall_singleton]|done].
      by rewrite join_snoc, <-Hpath.
    + assert (¬ D (cs ++ [n])) as Hnd.
      { intros Hdir. destruct (is_dir_lookup _ Hdir) as (c & e & Hc & Hpe). rewrite join_snoc, <-Hpath in Hpe.
        destruct (wf_dir_child Hwf d p c e n Hd Hc Hn Hpe) as [Hin Hname]. by apply (Hno c e Hin Hc). }
      destruct (m !! (cs ++ n :: n' :: comps)) as [x|] eqn:Hx.
      * exfalso. apply Hnd. apply (key_dir _ (n' :: comps) x); [done|]. by rewrite <-app_assoc.
      * right. split; [|done]. intros Hdir. apply Hnd. rewrite removelast_app in Hdir by done.
        cbn [removelast] in Hdir. apply (is_dir_prefix (cs ++ [n]) (removelast (n' :: comps))). by rewrite <-app_assoc.
Qed.

Lemma read_root : ∃ v r, root_dir romfs = Ok v ∧ dirs !! 0%nat = Some r ∧ views dirs files r v ∧ d_path r = [].
Proof using Hp Him.
  destruct (wt_root _ _ (pl_wf _ _ Hp)) as (r & Hr0 & Hp0 & _). destruct (read_dir 0 r Hr0) as (v & Hv & _ & _ & Hat).
  exists v, r. split_and!; [|done|done|done]. unfold root_dir, from_offset_for_root. rewrite read_dir_table. bind_cbn.
  cbn [romfs rf_header]. destruct (dir_offset_bound Hp 0 r Hr0) as (_ & _ & H0).
  change (d_entry_offset r = 0) in H0. rewrite H0 in Hat. rewrite Hat. bind_cbn. by destruct v.
Qed.

Lemma open_spec path :
  trim_slashes path ≠ [] → opens m D romfs (split_slash (trim_slashes path)) (open romfs path).
Proof using Hp Him Hr.
  intros Hne. unfold open. rewrite bool_decide_false by done.
  destruct read_root as (v & r & -> & Hr0 & Hv & Hp0). cbn [map_err and_then].
  destruct (split_slash_spec (trim_slashes path)) as (c & cs & -> & _ & Hslash).
  by apply (open_from_spec cs 0%nat r v [] c).
Qed.
End read.

(** ** The round trip *)

(** A builder that holds something is not refused as empty. *)
Lemma build_nonempty b m D : represents b m D → m ≠ ∅ → build b = or_panic (build_image b).
Proof.
  intros Hr Hm. unfold build. rewrite bool_decide_false; [done|]. intros Hf. apply Hm, map_empty. intros cs.
  apply eq_None_not_Some. intros [x Hx]. apply (rp_file _ _ _ Hr) in Hx as (_ & f & Hin & _). rewrite Hf in Hin.
  by apply elem_of_nil in Hin.
Qed.

(** C2. The builder and the reader agree: a builder that holds a map of paths to contents and a set of
    directories, and fits the format, builds an image that [try_from_bytes] accepts, and in which [open], given any path, finds
    exactly the map's file for the path's components, with its name, size and contents; for any other
    path it tells a missing directory from a missing file. *)
Theorem romfs_round_trip `{Zerocopy} b m D :
  represents b m D → m ≠ ∅ → fits (rb_dirs b) (rb_files b) →
  ∃ image romfs, build b = Ok image ∧ try_from_bytes image = Ok romfs ∧
    ∀ path, trim_slashes path ≠ [] → opens m D romfs (split_slash (trim_slashes path)) (open romfs path).
Proof.
  intros Hr Hm Hfit. destruct (build_image_ok b m D Hr Hfit) as (dirs & files & image & h & dt & ft & Hb & Hp & Hcs & Hr' & Him).
  exists image, {| rf_bytes := image; rf_header := h |}. split_and!.
  - by rewrite (build_nonempty b m D Hr Hm), Hb.
  - by apply (read_header Him).
  - intros path Hne. by apply (open_spec Hp Him Hr').
Qed.

Lemma sample_fits : fits (rb_dirs (builder_of sample_additions)) (rb_files (builder_of sample_additions)).
Proof. split; vm_compute; discriminate. Qed.

Lemma romfs_round_trip_witness :
  ∃ image romfs file, build (builder_of sample_additions) = Ok image ∧
    @try_from_bytes zerocopy_reference image = Ok romfs ∧
    @open zerocopy_reference romfs [x2f; x61; x2f; x62] = Some (Ok file) ∧
    data romfs file = Ok [x01] ∧
    @open zerocopy_reference romfs [x2f; x61; x2f; x2f; x62] ≠ Some (Ok file).
Proof.
  destruct sample_represents as (m & Hr & Hm & Hx).
  destruct (@romfs_round_trip zerocopy_reference _ m (is_dir m) Hr Hm sample_fits) as (image & romfs & Hb & Ht & Hopen).
  pose proof (Hopen [x2f; x61; x2f; x62] ltac:(discriminate)) as Ho.
  pose proof (Hopen [x2f; x61; x2f; x2f; x62] ltac:(discriminate)) as Ho2.
  unfold opens in Ho, Ho2. change (split_slash (trim_slashes [x2f; x61; x2f; x62])) with [[x61]; [x62]] in Ho.
  change (split_slash (trim_slashes [x2f; x61; x2f; x2f; x62])) with [[x61]; []; [x62]] in Ho2.
  rewrite Hx in Ho. destruct Ho as (file & Ho & _ & _ & Hd).
  exists image, romfs, file. split; [exact Hb|]. split; [exact Ht|]. split; [exact Ho|]. split; [exact Hd|].
  destruct (m !! [[x61]; []; [x62]]) as [y|] eqn:Hy.
  - pose proof (proj1 (rp_file _ _ _ Hr _ _) Hy) as [Hok _]. inversion Hok as [|? ? _ Hok2]; subst.
    inversion Hok2 as [|? ? Hn _]; subst. destruct Hn as [Hn _]. destruct (Hn eq_refl).
  - destruct Ho2 as [[_ Ho2]|[_ Ho2]]; intros H; rewrite Ho2 in H; discriminate H.
Defined.
