(* ===== verification/RomFsHash.v ===== *)
(** * The hash tables of a RomFS

    The console finds an entry through its hash: the bucket of the table gives the offset of the newest
    entry of the bucket, whose [hash_sibling_offset] gives the next one. The reader of this crate does
    not use the tables; [hash_chains_complete] says that what [build] writes serves one that does. *)

From Stdlib Require Import Sorted.
From stdpp Require Import gmap.
From S2P Require Import Prelude Bytes Layout RomFsRaw RomFsTree RomFsWrite.
#[local] Open Scope Z_scope.

(** ** Definitions *)

(** From [offset], following the hash siblings visits the entries [l] and ends. *)
Inductive chain (offsets siblings : list Z) : Z → list nat → Prop :=
| chain_end : chain offsets siblings NO_ENTRY []
| chain_entry i offset next l :
    offsets !! i = Some offset → siblings !! i = Some next →
    chain offsets siblings next l → chain offsets siblings offset (i :: l).

(** The bucket of an entry, from the offset of its parent and its name. *)
Definition dir_bucket (dirs : list DirEntry) (size : Z) (i : nat) : option Z :=
  e ← dirs !! i; p ← dirs !! d_parent e; Some (path_hash (d_entry_offset p) (d_name e) mod size).
Definition file_bucket (dirs : list DirEntry) (files : list FileEntry) (size : Z) (i : nat) : option Z :=
  e ← files !! i; p ← dirs !! f_parent e; Some (path_hash (d_entry_offset p) (f_name e) mod size).

(** The first [n] entries of a bucket, newest first. *)
Definition bucket_entries (bucket : nat → option Z) (b : Z) (n : nat) : list nat :=
  reverse (filter (λ i, bucket i = Some b) (seq 0 n)).

(** The table and siblings after [n] entries: every bucket chains its entries. *)
Definition chained (bucket : nat → option Z) (offsets : list Z) (size : Z) (n : nat) (table siblings : list Z) : Prop :=
  len table = size ∧ length siblings = length offsets ∧
  ∀ b, 0 ≤ b < size → ∃ head, table !! Z.to_nat b = Some head ∧
    chain offsets siblings head (bucket_entries bucket b n).

(** ** Lemmas *)

Lemma bucket_entries_S bucket b n :
  bucket_entries bucket b (S n) =
  if decide (bucket n = Some b) then n :: bucket_entries bucket b n else bucket_entries bucket b n.
Proof.
  unfold bucket_entries. rewrite seq_S, filter_app, reverse_app. cbn [Nat.add].
  case_decide as H; [rewrite filter_cons_True by done|rewrite filter_cons_False by done]; done.
Qed.

Lemma bucket_entries_elem bucket b n i : i ∈ bucket_entries bucket b n ↔ (i < n)%nat ∧ bucket i = Some b.
Proof. unfold bucket_entries. rewrite elem_of_reverse, list_elem_of_filter, elem_of_seq. naive_solver lia. Qed.

(** An entry that is not on a chain yet can be given any sibling. *)
Lemma chain_insert offsets siblings head l i x :
  i ∉ l → chain offsets siblings head l → chain offsets (<[i := x]> siblings) head l.
Proof.
  intros Hi Hc. induction Hc as [|j o next l Ho Hs _ IH]; [constructor|].
  apply not_elem_of_cons in Hi as [Hne Hi]. econstructor; [done| |by apply IH]. by rewrite list_lookup_insert_ne.
Qed.

Lemma chained_init bucket offsets size n :
  0 ≤ size → n = length offsets → chained bucket offsets size 0 (zrep size NO_ENTRY) (replicate n NO_ENTRY).
Proof.
  intros Hs ->. split_and!; [by apply len_zrep|by rewrite length_replicate|]. intros b Hb. exists NO_ENTRY.
  split; [|constructor]. unfold zrep. apply lookup_replicate. split; [done|lia].
Qed.

(** One [hash_insert] chains one more entry. *)
Lemma chained_insert bucket offsets size n table siblings parent name off table' siblings' :
  0 < size → chained bucket offsets size n table siblings → offsets !! n = Some off →
  bucket n = Some (path_hash parent name mod size) →
  hash_insert size table siblings n parent name off = Some (table', siblings') →
  chained bucket offsets size (S n) table' siblings'.
Proof.
  intros Hsize (Ht & Hs & Hall) Hoff Hb Hins. unfold hash_insert in Hins.
  set (b0 := path_hash parent name mod size) in *. assert (0 ≤ b0 < size) as Hb0 by (by apply Z.mod_pos_bound).
  destruct (Hall b0 Hb0) as (old & Hold & Hchain). rewrite Hold in Hins. injection Hins as <- <-.
  pose proof (lookup_lt_Some _ _ _ Hoff) as Hn.
  split_and!; [unfold len in *; by rewrite length_insert|by rewrite length_insert|].
  intros b Hbr. rewrite bucket_entries_S.
  assert (∀ b', n ∉ bucket_entries bucket b' n) as Hfresh by (intros b' [? _]%bucket_entries_elem; lia).
  destruct (decide (bucket n = Some b)) as [Heq|Hne].
  - assert (b = b0) as -> by congruence. exists off. split.
    + apply list_lookup_insert_eq. unfold len in Ht. lia.
    + econstructor; [done|apply list_lookup_insert_eq; lia|by apply chain_insert].
  - destruct (Hall b Hbr) as (head & Hhead & Hc). exists head. split; [|by apply chain_insert].
    rewrite list_lookup_insert_ne; [done|]. intros Heq. apply Hne. rewrite Hb. f_equal. lia.
Qed.

Lemma hash_dirs_chained dirs size rest : ∀ n table siblings table' siblings',
  0 < size → drop n dirs = rest → chained (dir_bucket dirs size) (d_entry_offset <$> dirs) size n table siblings →
  hash_dirs dirs size n rest table siblings = Some (table', siblings') →
  chained (dir_bucket dirs size) (d_entry_offset <$> dirs) size (length dirs) table' siblings' ∧
  ∀ i, (n ≤ i < length dirs)%nat → is_Some (dir_bucket dirs size i).
Proof.
  induction rest as [|e rest IH]; intros n table siblings table' siblings' Hsize Hdrop Hch Hh.
  - injection Hh as <- <-. destruct Hch as (Ht & Hs & Hall). 
    assert (length dirs ≤ n)%nat as Hle by (apply (f_equal length) in Hdrop; rewrite length_drop in Hdrop; cbn in Hdrop; lia).
    split; [|lia]. split_and!; [done|done|]. intros b Hb.
    destruct (Hall b Hb) as (head & Hhead & Hc). exists head. split; [done|].
    assert (bucket_entries (dir_bucket dirs size) b n = bucket_entries (dir_bucket dirs size) b (length dirs)) as <-; [|done].
    clear -Hle. induction n as [|n IH]; [by replace (length dirs) with 0%nat by lia|].
    destruct (decide (length dirs = S n)) as [->|]; [done|]. rewrite bucket_entries_S, IH by lia.
    rewrite decide_False; [done|]. unfold dir_bucket. by rewrite lookup_ge_None_2 by lia.
  - assert (dirs !! n = Some e) as He.
    { pose proof (lookup_drop dirs n 0) as Hl. by rewrite Hdrop, Nat.add_0_r in Hl. }
    cbn [hash_dirs] in Hh. destruct (dirs !! d_parent e) as [p|] eqn:Hp; [|done]. cbn [mbind option_bind] in Hh.
    destruct (hash_insert _ _ _ _ _ _ _) as [[t s]|] eqn:Hins; [|done]. cbn [mbind option_bind] in Hh.
    assert (dir_bucket dirs size n = Some (path_hash (d_entry_offset p) (d_name e) mod size)) as Hb
      by (unfold dir_bucket; rewrite He; cbn; by rewrite Hp).
    apply (IH (S n)) in Hh as [Hfin Hrest]; [|done| |].
    + split; [done|]. intros i Hi. destruct (decide (i = n)) as [->|]; [by rewrite Hb|apply Hrest; lia].
    + replace (S n) with (n + 1)%nat by lia. by rewrite <-drop_drop, Hdrop.
    + eapply chained_insert; [done|exact Hch| |exact Hb|exact Hins]. by rewrite list_lookup_fmap, He.
Qed.

Lemma hash_files_chained dirs files size rest : ∀ n table siblings table' siblings',
  0 < size → drop n files = rest → chained (file_bucket dirs files size) (f_entry_offset <$> files) size n table siblings →
  hash_files dirs size n rest table siblings = Some (table', siblings') →
  chained (file_bucket dirs files size) (f_entry_offset <$> files) size (length files) table' siblings' ∧
  ∀ i, (n ≤ i < length files)%nat → is_Some (file_bucket dirs files size i).
Proof.
  induction rest as [|e rest IH]; intros n table siblings table' siblings' Hsize Hdrop Hch Hh.
  - injection Hh as <- <-. destruct Hch as (Ht & Hs & Hall). 
    assert (length files ≤ n)%nat as Hle by (apply (f_equal length) in Hdrop; rewrite length_drop in Hdrop; cbn in Hdrop; lia).
    split; [|lia]. split_and!; [done|done|]. intros b Hb.
    destruct (Hall b Hb) as (head & Hhead & Hc). exists head. split; [done|].
    assert (bucket_entries (file_bucket dirs files size) b n = bucket_entries (file_bucket dirs files size) b (length files)) as <-; [|done].
    clear -Hle. induction n as [|n IH]; [by replace (length files) with 0%nat by lia|].
    destruct (decide (length files = S n)) as [->|]; [done|]. rewrite bucket_entries_S, IH by lia.
    rewrite decide_False; [done|]. unfold file_bucket. by rewrite lookup_ge_None_2 by lia.
  - assert (files !! n = Some e) as He.
    { pose proof (lookup_drop files n 0) as Hl. by rewrite Hdrop, Nat.add_0_r in Hl. }
    cbn [hash_files] in Hh. destruct (dirs !! f_parent e) as [p|] eqn:Hp; [|done]. cbn [mbind option_bind] in Hh.
    destruct (hash_insert _ _ _ _ _ _ _) as [[t s]|] eqn:Hins; [|done]. cbn [mbind option_bind] in Hh.
    assert (file_bucket dirs files size n = Some (path_hash (d_entry_offset p) (f_name e) mod size)) as Hb
      by (unfold file_bucket; rewrite He; cbn; by rewrite Hp).
    apply (IH (S n)) in Hh as [Hfin Hrest]; [|done| |].
    + split; [done|]. intros i Hi. destruct (decide (i = n)) as [->|]; [by rewrite Hb|apply Hrest; lia].
    + replace (S n) with (n + 1)%nat by lia. by rewrite <-drop_drop, Hdrop.
    + eapply chained_insert; [done|exact Hch| |exact Hb|exact Hins]. by rewrite list_lookup_fmap, He.
Qed.

(** The buckets of a finished table: every entry has one, and the slot of each is the newest of its
    entries, followed by the older ones in order, or [NO_ENTRY] when it has none. *)
Definition serves (bucket : nat → option Z) (n : nat) (offsets table siblings : list Z) : Prop :=
  (∀ i, (i < n)%nat → ∃ b, bucket i = Some b ∧ 0 ≤ b < len table) ∧
  ∀ b, 0 ≤ b < len table →
    ∃ head l, table !! Z.to_nat b = Some head ∧ chain offsets siblings head l ∧
      (∀ i, i ∈ l ↔ bucket i = Some b) ∧ StronglySorted (λ i j, (j < i)%nat) l ∧ (l = [] → head = NO_ENTRY).

Lemma bucket_entries_sorted bucket b n : StronglySorted (λ i j, (j < i)%nat) (bucket_entries bucket b n).
Proof.
  induction n as [|n IH]; [constructor|]. rewrite bucket_entries_S. case_decide; [|done]. constructor; [done|].
  apply Forall_forall. by intros i [? _]%bucket_entries_elem.
Qed.

Lemma chained_serves bucket offsets size n table siblings :
  chained bucket offsets size n table siblings → (∀ i, (0 ≤ i < n)%nat → is_Some (bucket i)) →
  (∀ i b, bucket i = Some b → 0 ≤ b < size ∧ (i < n)%nat) → serves bucket n offsets table siblings.
Proof.
  intros (Ht & _ & Hall) Hsome Hrange. split; rewrite Ht.
  - intros i Hi. destruct (Hsome i) as [b Hb]; [lia|]. exists b. split; [done|]. by apply (Hrange i).
  - intros b Hb. destruct (Hall b Hb) as (head & Hhead & Hc). exists head, (bucket_entries bucket b n).
    split_and!; [done|done| |apply bucket_entries_sorted|].
    + intros i. rewrite bucket_entries_elem. split; [naive_solver|]. intros Hi. by destruct (Hrange i b Hi).
    + intros He. rewrite He in Hc. by inversion Hc.
Qed.

Lemma dir_bucket_range dirs size i b : 0 < size → dir_bucket dirs size i = Some b → 0 ≤ b < size ∧ (i < length dirs)%nat.
Proof.
  intros Hs (e & He & (p & _ & [= <-])%bind_Some)%bind_Some. split; [by apply Z.mod_pos_bound|by eapply lookup_lt_Some].
Qed.
Lemma file_bucket_range dirs files size i b :
  0 < size → file_bucket dirs files size i = Some b → 0 ≤ b < size ∧ (i < length files)%nat.
Proof.
  intros Hs (e & He & (p & _ & [= <-])%bind_Some)%bind_Some. split; [by apply Z.mod_pos_bound|by eapply lookup_lt_Some].
Qed.

(** C29. A reader that looks entries up by hash misses none: in the tables and siblings that [build]
    computes, of the size the count of entries asks for, every directory and every file hashes, by its
    parent's offset and its name, to a bucket of the table, and the chain of every bucket starts at the
    table's slot, ends, and visits exactly the entries that hash to the bucket, each once and the last
    inserted first; the slot of a bucket without entries holds [NO_ENTRY]. *)
Theorem hash_chains_complete dirs files dh ds fh fs :
  len dirs + 510510 ≤ USIZE_MAX → len files + 510510 ≤ USIZE_MAX →
  generate_dir_hash_table dirs (replicate (length dirs) NO_ENTRY) = Some (dh, ds) →
  generate_file_hash_table dirs files (replicate (length files) NO_ENTRY) = Some (fh, fs) →
  romfs_get_hash_table_count (len dirs) = Some (len dh) ∧ romfs_get_hash_table_count (len files) = Some (len fh) ∧
  serves (dir_bucket dirs (len dh)) (length dirs) (d_entry_offset <$> dirs) dh ds ∧
  serves (file_bucket dirs files (len fh)) (length files) (f_entry_offset <$> files) fh fs.
Proof.
  intros Hdl Hfl Hd Hf. len_pos. unfold generate_dir_hash_table in Hd. unfold generate_file_hash_table in Hf.
  destruct (hash_table_count_ok (len dirs)) as (dsize & Hds & Hdsz); [done|done|].
  destruct (hash_table_count_ok (len files)) as (fsize & Hfs & Hfsz); [done|done|].
  rewrite Hds in Hd. rewrite Hfs in Hf. cbn [mbind option_bind] in Hd, Hf.
  apply (hash_dirs_chained dirs dsize dirs 0%nat) in Hd as [Hd Hdb]; [|lia|done|apply chained_init; [lia|by rewrite length_fmap]].
  apply (hash_files_chained dirs files fsize files 0%nat) in Hf as [Hf Hfb]; [|lia|done|apply chained_init; [lia|by rewrite length_fmap]].
  pose proof Hd as (Hdh & _). pose proof Hf as (Hfh & _). rewrite Hds, Hfs, Hdh, Hfh. split_and!; [done|done| |].
  - eapply chained_serves; [exact Hd|done|]. intros i b. apply dir_bucket_range. lia.
  - eapply chained_serves; [exact Hf|done|]. intros i b. apply file_bucket_range. lia.
Qed.

(** Two directories and two files whose entries share buckets of the smallest tables. *)
Definition sample_dirs : list DirEntry :=
  [{| d_path := []; d_name := []; d_entry_offset := 0; d_children := [1%nat]; d_files := []; d_parent := 0 |};
   {| d_path := [x2f; x61]; d_name := [x61]; d_entry_offset := 0x18; d_children := []; d_files := [0; 1]%nat; d_parent := 0 |}].
Definition sample_files : list FileEntry :=
  [{| f_path := [x2f; x61; x2f; x62]; f_name := [x62]; f_data := [x01]; f_entry_offset := 0; f_data_offset := 0; f_parent := 1 |};
   {| f_path := [x2f; x61; x2f; x63]; f_name := [x63]; f_data := []; f_entry_offset := 0x24; f_data_offset := 0x10; f_parent := 1 |}].

Lemma hash_chains_complete_witness :
  ∃ dh ds fh fs,
    generate_dir_hash_table sample_dirs (replicate (length sample_dirs) NO_ENTRY) = Some (dh, ds) ∧
    generate_file_hash_table sample_dirs sample_files (replicate (length sample_files) NO_ENTRY) = Some (fh, fs) ∧
    len dh = 3 ∧ len fh = 3 ∧
    serves (dir_bucket sample_dirs 3) 2 [0; 0x18] dh ds ∧ serves (file_bucket sample_dirs sample_files 3) 2 [0; 0x24] fh fs.
Proof.
  assert (∃ p, generate_dir_hash_table sample_dirs (replicate (length sample_dirs) NO_ENTRY) = Some p) as [[dh ds] Hd]
    by (eexists; vm_compute; reflexivity).
  destruct (generate_file_hash_table sample_dirs sample_files (replicate (length sample_files) NO_ENTRY)) as [[fh fs]|] eqn:Hf;
    [|vm_compute in Hf; discriminate Hf].
  destruct (hash_chains_complete sample_dirs sample_files dh ds fh fs) as (Hdn & Hfn & Hsd & Hsf);
    [vm_compute; discriminate|vm_compute; discriminate|exact Hd|exact Hf|].
  injection Hdn as Hdn. injection Hfn as Hfn. rewrite <-Hdn in Hsd. rewrite <-Hfn in Hsf.
  exists dh, ds, fh, fs. split; [exact Hd|]. split; [reflexivity|]. split; [by rewrite <-Hdn|]. split; [by rewrite <-Hfn|].
  split; [exact Hsd|exact Hsf].
Defined.
