(* ===== verification/RomFsExtract.v ===== *)
(** * Walking a built RomFS: the directory iterator

    Unpacking an image with [root_dir], [entries] and [data], as a client of the reader does, gives back
    exactly the files of the map the builder held, each once. *)

From stdpp Require Import gmap.
From S2P Require Import Prelude Bytes Strs Fs Layout Loops RomFsRaw RomFsTree.
From S2P Require Import RomFsWrite RomFsSort RomFsLayout RomFsImage RomFsRead RomFsRoundTrip.
#[local] Open Scope Z_scope.

(** ** Definitions *)

Notation contents := (list (list (list byte) * list byte)).

(** The files below a directory with their paths: [calls] bounds the calls of [next] in a directory,
    [depth] the nesting. *)
Fixpoint extract `{Zerocopy} (calls depth : nat) (romfs : RomFs) (path : list (list byte)) (dir : RomFsDir)
    : option contents :=
  match depth with
  | O => None
  | S depth =>
    children ← collect romfs calls (entries romfs dir);
    pieces ← mapM (λ entry,
      match entry with
      | Dir d => extract calls depth romfs (path ++ [rd_name d]) d
      | File f => match data romfs f with Ok x => Some [(path ++ [rl_name f], x)] | _ => None end
      end) children;
    Some (concat pieces)
  end.

(** ** Lemmas: lists *)

Lemma elem_of_concat {A} (x : A) (ls : list (list A)) : x ∈ concat ls ↔ ∃ i l, ls !! i = Some l ∧ x ∈ l.
Proof.
  induction ls as [|l ls IH]; cbn [concat].
  - split; [by intros ?%elem_of_nil|]. by intros (i & l & ? & _).
  - rewrite elem_of_app, IH. split.
    + intros [Hx|(i & k & Hi & Hx)]; [by exists 0%nat, l|by exists (S i), k].
    + intros ([|i] & k & Hi & Hx); [left; cbn in Hi; congruence|right; by exists i, k].
Qed.

Lemma NoDup_concat {A} (ls : list (list A)) :
  Forall NoDup ls →
  (∀ i j x y z, ls !! i = Some x → ls !! j = Some y → z ∈ x → z ∈ y → i = j) → NoDup (concat ls).
Proof.
  induction 1 as [|l ls Hl _ IH]; intros Hdis; [constructor|]. cbn. apply NoDup_app. split_and!; [done| |].
  - intros z Hz Hin. apply elem_of_concat in Hin as (j & k & Hj & Hzk).
    by pose proof (Hdis 0%nat (S j) l k z eq_refl Hj Hz Hzk).
  - apply IH. intros i j x y z Hi Hj Hx Hy. by pose proof (Hdis (S i) (S j) x y z Hi Hj Hx Hy) as [= ->].
Qed.

Lemma Forall2_choice {A B C} (P : A → B → Prop) (Q : A → B → C → Prop) l k :
  Forall2 P l k → (∀ a b, a ∈ l → P a b → ∃ c, Q a b c) →
  ∃ cs, Forall2 (λ b c, ∃ a, Q a b c) k cs ∧ Forall2 (λ a c, ∃ b, Q a b c) l cs.
Proof.
  induction 1 as [|a b l k Hab _ IH]; intros HQ; [by exists []|].
  destruct (HQ a b ltac:(left) Hab) as [c Hc]. destruct IH as (cs & H1 & H2); [intros; apply HQ; [by right|done]|].
  exists (c :: cs). split; constructor; [by exists a|done|by exists b|done].
Qed.

Section walk.
Context `{Zerocopy}.
Context {dirs : list DirEntry} {files : list FileEntry} {image : list byte} {h : RomFsHeader} {dt ft : list byte}.
Context (Hp : placed dirs files) (Him : image_holds dirs files image h dt ft).
Let romfs : RomFs := {| rf_bytes := image; rf_header := h |}.
Let offs := d_entry_offset <$> dirs.
Let foffs := f_entry_offset <$> files.

(** ** Lemmas: the iterator *)

Definition views_dir_at (c : nat) (v : RomFsDir) : Prop := ∃ e, dirs !! c = Some e ∧ views dirs files e v.
Definition views_file_at (c : nat) (v : RomFsFile) : Prop := ∃ e, files !! c = Some e ∧ views_file e v.

Lemma collect_files d p post : ∀ pre o n o',
  dirs !! d = Some p → d_files p = pre ++ post → first_offset foffs post = Some o → (length post < n)%nat → o' = NO_ENTRY →
  ∃ vs, collect romfs n {| next_dir_offset := o'; next_file_offset := o; dir_table_base := dir_meta_table_offset h;
                           file_table_base := file_meta_table_offset h |} = Some (File <$> vs) ∧
    Forall2 views_file_at post vs.
Proof using Hp Him.
  induction post as [|c post IH]; intros pre o n o' Hd Hch Ho Hn ->; (destruct n as [|n]; [lia|]).
  { injection Ho as <-. by exists []. }
  destruct (first_offset_cons_file c post o Ho) as (e & Hc & ->).
  destruct (read_file Hp Him c e Hc) as (v & Hv & Hsib & Hread). pose proof (file_offset_u32 Hp c e Hc).
  rewrite (sibling_file_next Hp d p pre c post e Hd Hch Hc) in Hsib.
  destruct (IH (pre ++ [c]) (fe_sibling_offset (rl_entry v)) n NO_ENTRY Hd) as (vs & Hvs & Hall);
    [by rewrite <-app_assoc|done|cbn in Hn; lia|done|].
  exists (v :: vs). split; [|constructor; [by exists e|done]].
  cbn [collect]. unfold next, next_file. cbn [next_dir_offset next_file_offset dir_table_base file_table_base].
  rewrite Z.eqb_refl. cbn [negb]. rewrite (proj2 (Z.eqb_neq _ _)) by lia. cbn [negb]. fold romfs in Hread. rewrite Hread.
  cbn [mbind option_bind]. unfold set_field. cbn [next_dir_offset next_file_offset dir_table_base file_table_base].
  rewrite Hvs. done.
Qed.

Lemma collect_dirs d p post : ∀ pre o fo n,
  dirs !! d = Some p → d_children p = pre ++ post → first_offset offs post = Some o →
  first_offset foffs (d_files p) = Some fo → (length post + length (d_files p) < n)%nat →
  ∃ vs fvs, collect romfs n {| next_dir_offset := o; next_file_offset := fo; dir_table_base := dir_meta_table_offset h;
                               file_table_base := file_meta_table_offset h |} = Some ((Dir <$> vs) ++ (File <$> fvs)) ∧
    Forall2 views_dir_at post vs ∧ Forall2 views_file_at (d_files p) fvs.
Proof using Hp Him.
  induction post as [|c post IH]; intros pre o fo n Hd Hch Ho Hfo Hn.
  { injection Ho as <-. destruct (collect_files d p (d_files p) [] fo n NO_ENTRY Hd eq_refl Hfo) as (vs & -> & Hvs);
      [cbn in Hn; lia|done|]. by exists [], vs. }
  destruct n as [|n]; [lia|].
  destruct (first_offset_cons_dir c post o Ho) as (e & Hc & ->).
  destruct (read_dir Hp Him c e Hc) as (v & Hv & Hsib & Hread & _). pose proof (dir_offset_u32 Hp c e Hc).
  rewrite (sibling_dir_next Hp d p pre c post e Hd Hch Hc) in Hsib.
  destruct (IH (pre ++ [c]) (de_sibling_offset (rd_entry v)) fo n Hd) as (vs & fvs & Hvs & Hall & Hfall);
    [by rewrite <-app_assoc|done|done|cbn in Hn; lia|].
  exists (v :: vs), fvs. split; [|split; [constructor; [by exists e|done]|done]].
  cbn [collect]. unfold next. cbn [next_dir_offset next_file_offset dir_table_base file_table_base].
  rewrite (proj2 (Z.eqb_neq _ _)) by lia. cbn [negb]. fold romfs in Hread. rewrite Hread.
  cbn [mbind option_bind]. unfold set_field. cbn [next_dir_offset next_file_offset dir_table_base file_table_base].
  rewrite Hvs. done.
Qed.

(** The iterator yields a directory's children in the order of its lists. *)
Lemma collect_entries d p v n :
  dirs !! d = Some p → views dirs files p v → (length (d_children p) + length (d_files p) < n)%nat →
  ∃ vs fvs, collect romfs n (entries romfs v) = Some ((Dir <$> vs) ++ (File <$> fvs)) ∧
    Forall2 views_dir_at (d_children p) vs ∧ Forall2 views_file_at (d_files p) fvs.
Proof using Hp Him.
  intros Hd (_ & Hch & Hfi) Hn. unfold entries. cbn [romfs rf_header].
  by eapply (collect_dirs d p (d_children p) []).
Qed.

(** ** Lemmas: unpacking *)

Context {m : Spec.state} {D : list (list byte) → Prop} (Hr : represents (sorted_builder dirs files) m D).

(** What a piece of a directory's contents holds: a subdirectory's files, or one file. *)
Definition dir_piece (cs : list (list byte)) (c : nat) (l : contents) : Prop :=
  ∃ e, dirs !! c = Some e ∧ NoDup l ∧
    ∀ key x, (key, x) ∈ l ↔ m !! key = Some x ∧ ∃ rest, rest ≠ [] ∧ key = (cs ++ [d_name e]) ++ rest.
Definition file_piece (cs : list (list byte)) (c : nat) (l : contents) : Prop :=
  ∃ e, files !! c = Some e ∧ l = [(cs ++ [f_name e], f_data e)].

Section pieces.
Context {d : nat} {p : DirEntry} {cs : list (list byte)} {lds lfs : list contents}.
Context (Hd : dirs !! d = Some p) (Hpath : d_path p = join cs) (Hok : Forall name_ok cs).
Context (Hlds : Forall2 (dir_piece cs) (d_children p) lds) (Hlfs : Forall2 (file_piece cs) (d_files p) lfs).

Lemma file_piece_key c e : c ∈ d_files p → files !! c = Some e → m !! (cs ++ [f_name e]) = Some (f_data e).
Proof using Hp Hr Hd Hpath Hok.
  intros Hc He. destruct (wf_child_file (pl_wf _ _ Hp) d p c Hd Hc) as (e' & He' & _ & Hpe & Hn).
  rewrite He in He'. injection He' as <-. apply (file_key Hr c e _ He).
  - by rewrite join_snoc, <-Hpath.
  - apply Forall_app. split; [done|]. by apply Forall_singleton.
Qed.

Lemma pieces_elem key x :
  (key, x) ∈ concat (lds ++ lfs) ↔ m !! key = Some x ∧ ∃ rest, rest ≠ [] ∧ key = cs ++ rest.
Proof using Hp Hr Hd Hpath Hok Hlds Hlfs.
  rewrite concat_app, elem_of_app, !elem_of_concat. split.
  - intros [(i & l & Hi & Hin)|(i & l & Hi & Hin)].
    + destruct (Forall2_lookup_r _ _ _ _ _ Hlds Hi) as (c & Hc & e & He & _ & Hl).
      apply Hl in Hin as [Hm (rest & Hne & ->)]. split; [done|]. exists (d_name e :: rest). by rewrite <-app_assoc.
    + destruct (Forall2_lookup_r _ _ _ _ _ Hlfs Hi) as (c & Hc & e & He & ->).
      apply list_elem_of_singleton in Hin. injection Hin as -> ->.
      split; [|by exists [f_name e]]. eapply file_piece_key; [|exact He]. by eapply list_elem_of_lookup_2.
  - intros [Hm (rest & Hne & ->)]. destruct rest as [|n rest]; [done|].
    pose proof (key_names Hr _ _ Hm) as [_ [Hn _]%Forall_cons]%Forall_app. pose proof (name_ok_no_slash _ Hn) as Hns.
    destruct rest as [|n' rest]; [right|left].
    + destruct (key_file Hr _ _ Hm) as (c & e & Hc & Hpe & <-). rewrite join_snoc, <-Hpath in Hpe.
      destruct (wf_file_child (pl_wf _ _ Hp) d p c e n Hd Hc Hns Hpe) as [Hin <-].
      apply list_elem_of_lookup in Hin as (i & Hi). destruct (Forall2_lookup_l _ _ _ _ _ Hlfs Hi) as (l & Hl & e' & He' & ->).
      rewrite Hc in He'. injection He' as <-. exists i, [(cs ++ [f_name e], f_data e)]. split; [done|left].
    + assert (D (cs ++ [n])) as Hdir by (apply (key_dir Hr _ (n' :: rest) x); [done|by rewrite <-app_assoc]).
      destruct (is_dir_lookup Hr _ Hdir) as (c & e & Hc & Hpe). rewrite join_snoc, <-Hpath in Hpe.
      destruct (wf_dir_child (pl_wf _ _ Hp) d p c e n Hd Hc Hns Hpe) as [Hin <-].
      apply list_elem_of_lookup in Hin as (i & Hi). destruct (Forall2_lookup_l _ _ _ _ _ Hlds Hi) as (l & Hl & e' & He' & _ & Hin).
      rewrite Hc in He'. injection He' as <-. exists i, l. split; [done|]. apply Hin. split; [done|].
      exists (n' :: rest). by rewrite <-app_assoc.
Qed.

Lemma pieces_NoDup : NoDup (concat (lds ++ lfs)).
Proof using Hp Hr Hd Hpath Hok Hlds Hlfs.
  pose proof (pl_wf _ _ Hp) as Hwf.
  rewrite concat_app. apply NoDup_app. split_and!.
  - apply NoDup_concat.
    + apply Forall_lookup. intros i l Hi. by destruct (Forall2_lookup_r _ _ _ _ _ Hlds Hi) as (c & _ & e & _ & ? & _).
    + intros i j l k [key x] Hi Hj Hin Hin'.
      destruct (Forall2_lookup_r _ _ _ _ _ Hlds Hi) as (c & Hc & e & He & _ & Hl).
      destruct (Forall2_lookup_r _ _ _ _ _ Hlds Hj) as (c' & Hc' & e' & He' & _ & Hl').
      apply Hl in Hin as [_ (rest & _ & ->)]. apply Hl' in Hin' as [_ (rest' & _ & Heq)].
      rewrite <-!app_assoc in Heq. apply app_inv_head in Heq. injection Heq as Hn _.
      destruct (wf_child Hwf d p c Hd) as (e1 & He1 & _ & _ & Hp1 & _); [by eapply list_elem_of_lookup_2|].
      destruct (wf_child Hwf d p c' Hd) as (e2 & He2 & _ & _ & Hp2 & _); [by eapply list_elem_of_lookup_2|].
      assert (c = c') as <- by (eapply (wf_dir_inj Hwf); [exact He1|exact He2|congruence]).
      destruct (wt_children _ _ Hwf _ _ Hd) as [Hnd _]. by eapply NoDup_lookup.
  - intros [key x] Hin Hin'. apply elem_of_concat in Hin as (i & l & Hi & Hin), Hin' as (j & l' & Hj & Hin').
    destruct (Forall2_lookup_r _ _ _ _ _ Hlds Hi) as (c & _ & e & _ & _ & Hl).
    destruct (Forall2_lookup_r _ _ _ _ _ Hlfs Hj) as (c' & _ & e' & _ & ->).
    apply Hl in Hin as [_ (rest & Hne & ->)]. apply list_elem_of_singleton in Hin'. injection Hin' as Heq _.
    rewrite <-app_assoc in Heq. apply app_inv_head in Heq. injection Heq as _ ->. done.
  - apply NoDup_concat.
    + apply Forall_lookup. intros i l Hi. destruct (Forall2_lookup_r _ _ _ _ _ Hlfs Hi) as (c & _ & e & _ & ->). apply NoDup_singleton.
    + intros i j l k z Hi Hj Hin Hin'.
      destruct (Forall2_lookup_r _ _ _ _ _ Hlfs Hi) as (c & Hc & e & He & ->).
      destruct (Forall2_lookup_r _ _ _ _ _ Hlfs Hj) as (c' & Hc' & e' & He' & ->).
      apply list_elem_of_singleton in Hin, Hin'. subst z. injection Hin' as Heq _. apply app_inv_head in Heq. injection Heq as Hn.
      destruct (wf_child_file Hwf d p c Hd) as (e1 & He1 & _ & Hp1 & _); [by eapply list_elem_of_lookup_2|].
      destruct (wf_child_file Hwf d p c' Hd) as (e2 & He2 & _ & Hp2 & _); [by eapply list_elem_of_lookup_2|].
      assert (c = c') as <- by (eapply (wf_file_inj Hwf); [exact He1|exact He2|congruence]).
      destruct (wt_files _ _ Hwf _ _ Hd) as [Hnd _]. by eapply NoDup_lookup.
Qed.
End pieces.

Lemma extract_spec calls longest depth : ∀ d p v cs,
  (length dirs + length files < calls)%nat → (∀ c e, dirs !! c = Some e → length (d_path e) ≤ longest)%nat →
  dirs !! d = Some p → views dirs files p v → d_path p = join cs → Forall name_ok cs →
  (longest < length (d_path p) + depth)%nat →
  ∃ l, extract calls depth romfs cs v = Some l ∧ NoDup l ∧
    ∀ key x, (key, x) ∈ l ↔ m !! key = Some x ∧ ∃ rest, rest ≠ [] ∧ key = cs ++ rest.
Proof using Hp Him Hr.
  pose proof (pl_wf _ _ Hp) as Hwf.
  induction depth as [|depth IH]; intros d p v cs Hcalls Hlong Hd Hv Hpath Hok Hdepth; [specialize (Hlong d p Hd); lia|].
  destruct (wt_children _ _ Hwf _ _ Hd) as [Hndc _]. destruct (wt_files _ _ Hwf _ _ Hd) as [Hndf _].
  pose proof (index_list_short (d_children p) (length dirs) Hndc) as Hlc.
  pose proof (index_list_short (d_files p) (length files) Hndf) as Hlf.
  destruct (collect_entries d p v calls Hd Hv) as (vs & fvs & Hcol & Hvs & Hfvs).
  { assert (length (d_children p) ≤ length dirs ∧ length (d_files p) ≤ length files)%nat; [split|lia].
    - apply Hlc. intros x Hx. destruct (wf_child Hwf d p x Hd Hx) as (e & He & _). by eapply lookup_lt_Some.
    - apply Hlf. intros x Hx. destruct (wf_child_file Hwf d p x Hd Hx) as (e & He & _). by eapply lookup_lt_Some. }
  cbn [extract]. rewrite Hcol. cbn [mbind option_bind].
  destruct (Forall2_choice _ (λ c (v : RomFsDir) l,
    extract calls depth romfs (cs ++ [rd_name v]) v = Some l ∧ dir_piece cs c l) _ _ Hvs) as (lds & Hl1 & Hl2).
  { intros c v' Hc (e & He & Hv'). destruct (wf_child Hwf d p c Hd Hc) as (e' & He' & _ & _ & Hpe & Hn).
    rewrite He in He'. injection He' as <-. destruct Hv' as (Hvn & Hrest).
    destruct (IH c e v' (cs ++ [rd_name v']) Hcalls Hlong He) as (l & Hl & Hnd & Hin); [done| | | |].
    - by rewrite Hvn, join_snoc, <-Hpath.
    - apply Forall_app. split; [done|]. rewrite Hvn. by apply Forall_singleton.
    - rewrite Hpe, length_app. cbn. lia.
    - exists l. split; [done|]. exists e. split_and!; [done|done|]. intros key x. by rewrite Hin, Hvn. }
  destruct (Forall2_choice _ (λ c (v : RomFsFile) l,
    match data romfs v with Ok x => Some [(cs ++ [rl_name v], x)] | _ => None end = Some l ∧ file_piece cs c l) _ _ Hfvs)
    as (lfs & Hf1 & Hf2).
  { intros c v' Hc (e & He & Hv'). destruct (read_data Him c e v' He Hv') as [Hdata _]. destruct Hv' as (Hvn & _).
    fold romfs in Hdata. rewrite Hdata, Hvn. eexists. split; [done|]. by exists e. }
  match goal with |- context [mapM ?g ?es] => assert (mapM g es = Some (lds ++ lfs)) as -> end.
  { apply mapM_Some, Forall2_app; apply Forall2_fmap_l.
    - eapply Forall2_impl; [exact Hl1|]. by intros v' l (c & Hl & _).
    - eapply Forall2_impl; [exact Hf1|]. by intros v' l (c & Hl & _). }
  cbn [mbind option_bind]. exists (concat (lds ++ lfs)).
  assert (Forall2 (dir_piece cs) (d_children p) lds) as Hlds by (eapply Forall2_impl; [exact Hl2|]; by intros c l (v' & _ & ?)).
  assert (Forall2 (file_piece cs) (d_files p) lfs) as Hlfs by (eapply Forall2_impl; [exact Hf2|]; by intros c l (v' & _ & ?)).
  split; [done|]. split; [by eapply pieces_NoDup|]. intros key x. by eapply pieces_elem.
Qed.
(** The walk from the root, with bounds above the numbers of entries and the lengths of paths. *)
Lemma extract_root v r :
  dirs !! 0%nat = Some r → views dirs files r v → d_path r = [] →
  ∃ calls depth l, extract calls depth romfs [] v = Some l ∧ NoDup l ∧ ∀ key x, (key, x) ∈ l ↔ m !! key = Some x.
Proof using Hp Him Hr.
  intros Hr0 Hv Hp0.
  set (longest := max_list (length <$> (d_path <$> dirs))). set (calls := S (length dirs + length files)).
  destruct (extract_spec calls longest (S longest) 0%nat r v []) as (l & Hl & Hnd & Hin); [lia| |done|done|done|done|lia|].
  - intros c e Hc. apply max_list_elem_of_le. apply list_elem_of_fmap_2, list_elem_of_fmap_2. by eapply list_elem_of_lookup_2.
  - exists calls, (S longest), l. split_and!; [done|done|]. intros key x.
    rewrite Hin. split; [by intros [? _]|]. intros Hx. split; [done|].
    exists key. split; [|done]. intros ->. destruct (key_file Hr _ _ Hx) as (i & f & Hi & Hpf & _).
    destruct (wt_file _ _ (rp_wf _ _ _ Hr) _ _ Hi) as (q & _ & Hpq & _). rewrite Hpf in Hpq. by destruct (d_path q).
Qed.
End walk.

(** A built image, read and walked from the root, lists each file of the model once. *)
Lemma extract_built `{Zerocopy} b m D :
  represents b m D → m ≠ ∅ → fits (rb_dirs b) (rb_files b) →
  ∃ image romfs root calls depth l, build b = Ok image ∧ try_from_bytes image = Ok romfs ∧
    root_dir romfs = Ok root ∧ extract calls depth romfs [] root = Some l ∧ NoDup l ∧
    ∀ cs x, (cs, x) ∈ l ↔ m !! cs = Some x.
Proof.
  intros Hr Hm Hfit. destruct (build_image_ok b m D Hr Hfit) as (dirs & files & image & h & dt & ft & Hb & Hp & Hcs & Hr' & Him).
  destruct (read_root Hp Him) as (v & r & Hroot & Hr0 & Hv & Hp0).
  destruct (extract_root Hp Him Hr' v r Hr0 Hv Hp0) as (calls & depth & l & Hl & Hnd & Hin).
  exists image, {| rf_bytes := image; rf_header := h |}, v, calls, depth, l.
  split_and!; [by rewrite (build_nonempty b m D Hr Hm), Hb|by apply (read_header Him)|done..].
Qed.

(** C17. Unpacking gives the map back: in the image a builder writes, walking the directories from the root
    with the iterator and reading every file yields each file of the map once, under its path and with
    its contents, and nothing else. *)
Theorem romfs_extract `{Zerocopy} b m D :
  represents b m D → m ≠ ∅ → fits (rb_dirs b) (rb_files b) →
  ∃ image romfs root, build b = Ok image ∧ try_from_bytes image = Ok romfs ∧ root_dir romfs = Ok root ∧
    ∃ calls depth l, extract calls depth romfs [] root = Some l ∧ l ≡ₚ map_to_list m.
Proof.
  intros Hr Hm Hfit. destruct (extract_built b m D Hr Hm Hfit) as (image & romfs & root & calls & depth & l & Hb & Ht & Hroot & Hl & Hnd & Hin).
  exists image, romfs, root. split_and!; [done..|]. exists calls, depth, l. split; [done|].
  apply NoDup_Permutation; [done|apply NoDup_map_to_list|]. intros [key x]. by rewrite Hin, elem_of_map_to_list.
Qed.

Lemma romfs_extract_witness :
  ∃ m image romfs root calls depth l, represents (builder_of sample_additions) m (is_dir m) ∧
    build (builder_of sample_additions) = Ok image ∧ @try_from_bytes zerocopy_reference image = Ok romfs ∧
    @root_dir zerocopy_reference romfs = Ok root ∧ @extract zerocopy_reference calls depth romfs [] root = Some l ∧
    ([[x61]; [x62]], [x01]) ∈ l.
Proof.
  destruct sample_represents as (m & Hr & Hm & Hx).
  destruct (@romfs_extract zerocopy_reference _ m (is_dir m) Hr Hm sample_fits) as (image & romfs & root & Hb & Ht & Hroot & calls & depth & l & Hl & Hp).
  exists m, image, romfs, root, calls, depth, l. split; [exact Hr|]. split; [exact Hb|]. split; [exact Ht|].
  split; [exact Hroot|]. split; [exact Hl|]. rewrite Hp. apply elem_of_map_to_list. exact Hx.
Defined.
