(* ===== verification/RomFsDirectory.v ===== *)
(** * Packing a directory: [write/romfs.rs], [from_directory]

    The walk over a directory tree with a stack of directories still to list. On a tree of distinct
    names it ends with a builder that represents the tree: its files, and its directories, empty ones
    included. *)

From stdpp Require Import gmap.
From S2P Require Import Prelude Bytes Strs Fs Layout Loops RomFsRaw RomFsTree.
#[local] Open Scope Z_scope.

(** ** Definitions *)

Section walk.
Context {FS : FileSystem}.

Inductive FromDirectoryError :=
| Io (path : fs_path) (source : io_error)
| Symlink (path : fs_path)
| InvalidFileName (path : fs_path).

(** Directories still to be listed, the next one first: the end of the code's vector is the head here. *)
Notation stack := (list (nat * fs_path)).

(** One round of the [for] loop over the entries of [fs_path]. *)
Definition process_entry (b : RomFsBuilder) (todo : stack) (dir_idx : nat) (path : fs_path)
    (entry : io_error + OsEntry fs_path io_error) : outcome FromDirectoryError (RomFsBuilder * stack) :=
  entry ← try_io (Io path) entry;
  file_type ← try_io (Io (os_path entry)) (os_file_type entry);
  name ← ok_or (to_str (os_file_name entry)) (InvalidFileName (os_path entry));
  dir ← or_panic (rb_dirs b !! dir_idx);
  let entry_path := d_path dir ++ x2f :: name in
  match file_type with
  | IsDir =>
    let new_idx := length (rb_dirs b) in
    let dirs := rb_dirs b ++ [{| d_path := entry_path; d_name := name; d_entry_offset := 0;
                                 d_children := []; d_files := []; d_parent := dir_idx |}] in
    dir ← or_panic (dirs !! dir_idx);
    Ok (b <| rb_dirs := <[dir_idx := dir <| d_children := d_children dir ++ [new_idx] |>]> dirs |>,
        (new_idx, os_path entry) :: todo)
  | IsFile =>
    data ← try_io (Io (os_path entry)) (fs_read (os_path entry));
    let file_idx := length (rb_files b) in
    let files := rb_files b ++ [{| f_path := entry_path; f_name := name; f_data := data; f_entry_offset := 0;
                                   f_data_offset := 0; f_parent := dir_idx |}] in
    dir ← or_panic (rb_dirs b !! dir_idx);
    Ok (b <| rb_dirs := <[dir_idx := dir <| d_files := d_files dir ++ [file_idx] |>]> (rb_dirs b) |>
          <| rb_files := files |>, todo)
  | IsSymlink => Err (Symlink (os_path entry))
  | IsOther => Ok (b, todo)
  end.

Fixpoint process_entries (b : RomFsBuilder) (todo : stack) (dir_idx : nat) (path : fs_path)
    (entries : list (io_error + OsEntry fs_path io_error)) : outcome FromDirectoryError (RomFsBuilder * stack) :=
  match entries with
  | [] => Ok (b, todo)
  | entry :: entries =>
    '(b, todo) ← process_entry b todo dir_idx path entry;
    process_entries b todo dir_idx path entries
  end.

(** One round of [while let Some(..) = stack.pop()]. *)
Definition from_directory_step (s : RomFsBuilder * stack) :
    (RomFsBuilder * stack) + outcome FromDirectoryError RomFsBuilder :=
  match s.2 with
  | [] => inr (Ok s.1)
  | (dir_idx, path) :: todo =>
    match (entries ← try_io (Io path) (fs_read_dir path); process_entries s.1 todo dir_idx path entries) with
    | Ok s => inl s
    | Err e => inr (Err e)
    | Panic => inr Panic
    end
  end.

(** [None]: more than [2 ^ k] directories were listed. *)
Definition from_directory (k : nat) (path : fs_path) : option (outcome FromDirectoryError RomFsBuilder) :=
  match run from_directory_step k (RomFsBuilder_new, [(0%nat, path)]) with inl _ => None | inr r => Some r end.
End walk.

(** ** What the walk keeps *)

Notation key := (list (list byte)).

(** The tree holds a directory at a path, or a file. *)
Definition tree_dir (root : node) (ds : key) : Prop := ∃ es, node_at root ds = Some (NDir es).
Definition tree_file (root : node) (cs : key) (x : list byte) : Prop := node_at root cs = Some (NFile x).
Definition tree_links (root : node) : Prop := ∃ cs, node_at root cs = Some NSymlink.

(** The builder represents a tree: its files, and all its directories. *)
Definition represents_tree (b : RomFsBuilder) (root : node) : Prop :=
  ∃ m, represents b m (tree_dir root) ∧ ∀ cs x, m !! cs = Some x ↔ tree_file root cs x.

(** The entries [seen] so far, and the directories still [todo], the one being listed included. *)
Record explored (root : node) (b : RomFsBuilder) (seen : key → Prop) (todo : list key) : Prop := {
  ex_represents : ∃ m, represents b m (λ ds, ds = [] ∨ seen ds ∧ tree_dir root ds) ∧
    ∀ cs x, m !! cs = Some x ↔ seen cs ∧ tree_file root cs x;
  ex_parent : ∀ ds name, seen (ds ++ [name]) → ds = [] ∨ seen ds;
  ex_node : ∀ cs, seen cs → cs ≠ [] ∧ ∃ n, node_at root cs = Some n ∧ n ≠ NSymlink;
  ex_closed : ∀ ds name n, ds ∉ todo → ds = [] ∨ seen ds → node_at root (ds ++ [name]) = Some n → seen (ds ++ [name]);
  ex_todo : ∀ ds, ds ∈ todo → ds = [] ∨ seen ds;
  ex_distinct : NoDup todo;
}.

(** A directory of the stack, with where it is in the tree and its entries. *)
Definition pending {FS : FileSystem} (root : node) (b : RomFsBuilder) (item : nat * fs_path)
    (d : key * list (list byte * node)) : Prop :=
  (d_path <$> rb_dirs b) !! item.1 = Some (join d.1) ∧ node_at root d.1 = Some (NDir d.2) ∧ on_disk item.2 (NDir d.2).

(** The directories below the pending ones, themselves included. *)
Definition work (ts : list (key * list (list byte * node))) : nat := list_sum (map (λ t, ndirs (NDir t.2)) ts).

(** ** Lemmas: the walk, abstractly *)

Lemma work_cons t ts : work (t :: ts) = (ndirs (NDir t.2) + work ts)%nat.
Proof. done. Qed.

Lemma represents_ext b m D D' : (∀ ds, D ds ↔ D' ds) → represents b m D → represents b m D'.
Proof. intros HD. by apply represents_proper. Qed.

Section explored.
Context {root : node} (Hroot : node_ok root).

(** Seeing one more entry of a directory that is being listed; a directory is added to those to do. *)
Lemma explored_add b b' seen todo todo' ds name n m :
  explored root b seen todo → ds ∈ todo → node_at root (ds ++ [name]) = Some n → n ≠ NSymlink → NoDup todo' →
  (∀ x, x ∈ todo' ↔ x ∈ todo ∨ x = ds ++ [name] ∧ tree_dir root (ds ++ [name])) →
  represents b' m (λ x, x = [] ∨ (seen x ∨ x = ds ++ [name]) ∧ tree_dir root x) →
  (∀ cs x, m !! cs = Some x ↔ (seen cs ∨ cs = ds ++ [name]) ∧ tree_file root cs x) →
  explored root b' (λ cs, seen cs ∨ cs = ds ++ [name]) todo'.
Proof.
  intros He Hds Hn Hlink Hnd Htodo Hr Hm. split.
  - by exists m.
  - intros ds' name' [H|[-> ->]%app_inj_tail].
    + destruct (ex_parent _ _ _ _ He _ _ H); [by left|by right; left].
    + destruct (ex_todo _ _ _ _ He _ Hds); [by left|by right; left].
  - intros cs [H| ->]; [by apply (ex_node _ _ _ _ He)|]. split; [by destruct ds|]. by exists n.
  - intros ds' name' n' Hout Hds' Hn'. rewrite Htodo in Hout.
    assert (ds' ≠ ds ++ [name]) as Hne.
    { intros ->. apply Hout. right. split; [done|]. apply node_at_snoc in Hn' as (es & Hes & _). by exists es. }
    left. apply (ex_closed _ _ _ _ He ds' name' n'); [naive_solver|naive_solver|done].
  - intros ds' [H|[-> _]]%Htodo; [|by right; right]. destruct (ex_todo _ _ _ _ He _ H); [by left|by right; left].
  - done.
Qed.

(** The last entry of a directory seen, it is no longer to do. *)
Lemma explored_close b seen ds todo es :
  explored root b seen (ds :: todo) → node_at root ds = Some (NDir es) →
  (∀ name n, (name, n) ∈ es → seen (ds ++ [name])) → explored root b seen todo.
Proof.
  intros He Hds Hall. pose proof (ex_distinct _ _ _ _ He) as [Hnin Hnd]%NoDup_cons. split.
  - apply (ex_represents _ _ _ _ He).
  - apply (ex_parent _ _ _ _ He).
  - apply (ex_node _ _ _ _ He).
  - intros ds' name n Hout Hds' Hn. destruct (decide (ds' = ds)) as [->|Hne].
    + apply node_at_snoc in Hn as (es' & Hes & Hin). rewrite Hds in Hes. injection Hes as <-. by eapply Hall.
    + eapply (ex_closed _ _ _ _ He); [|done|done]. intros [|]%elem_of_cons; done.
  - intros ds' Hin. apply (ex_todo _ _ _ _ He). by right.
  - done.
Qed.

(** With nothing left to do, every node of the tree has been seen. *)
Lemma explored_all b seen : explored root b seen [] → ∀ cs n, node_at root cs = Some n → cs = [] ∨ seen cs.
Proof.
  intros He cs. induction cs as [|name cs IH] using rev_ind; intros n Hn; [by left|]. right.
  pose proof (node_at_snoc _ _ _ _ Hn) as (es & Hes & _).
  eapply (ex_closed _ _ _ _ He); [apply not_elem_of_nil| |exact Hn]. by eapply IH.
Qed.

Lemma explored_done b seen :
  tree_dir root [] → explored root b seen [] → represents_tree b root ∧ ¬ tree_links root.
Proof.
  intros [es0 H0] He. pose proof (explored_all b seen He) as Hall.
  destruct (ex_represents _ _ _ _ He) as (m & Hr & Hm). split.
  - exists m. split.
    + refine (represents_ext _ _ _ _ _ Hr). intros ds. split.
      * intros [->|[_ ?]]; [by exists es0|done].
      * intros [es Hes]. destruct (Hall _ _ Hes); [by left|right]. split; [done|by exists es].
    + intros cs x. rewrite Hm. split; [by intros [_ ?]|]. intros Hf. split; [|done].
      destruct (Hall _ _ Hf) as [->|]; [|done]. unfold tree_file in Hf. congruence.
  - intros [cs Hcs]. destruct (Hall _ _ Hcs) as [->|Hs]; [congruence|].
    destruct (ex_node _ _ _ _ He _ Hs) as (_ & n & Hn & Hne). congruence.
Qed.

Lemma explored_new : tree_dir root [] → explored root RomFsBuilder_new (λ _, False) [[]].
Proof.
  intros H0. split.
  - exists ∅. split.
    + pose proof RomFsBuilder_new_represents as Hr. unfold Spec.new in Hr.
      refine (represents_ext _ _ _ _ _ Hr). intros ds. split.
      * intros [->|(ds' & x & _ & H)]; [by left|]. destruct (lookup_empty_Some _ _ H).
      * intros [->|[[] _]]. by left.
    + intros cs x. rewrite lookup_empty. naive_solver.
  - naive_solver.
  - naive_solver.
  - intros ds name n Hout [->|[]] _. destruct Hout. by left.
  - intros ds ->%list_elem_of_singleton. by left.
  - apply NoDup_singleton.
Qed.
End explored.

(** ** Lemmas: one entry, one directory *)

Section steps.
Context {FS : FileSystem} {root : node} (Hroot : node_ok root).

(** Where the loop over a directory's entries stands. *)
Record listing (b : RomFsBuilder) (seen : key → Prop) (ds : key) (dir_idx : nat) (todo : list (nat * fs_path))
    (ts : list (key * list (list byte * node))) : Prop := {
  li_explored : explored root b seen (ds :: ts.*1);
  li_pending : Forall2 (pending root b) todo ts;
  li_dir : (d_path <$> rb_dirs b) !! dir_idx = Some (join ds);
  li_unlisted : ∀ t name, t ∈ ts → ¬ seen (t.1 ++ [name]);
}.

Lemma pending_grow b b' item t l :
  d_path <$> rb_dirs b' = (d_path <$> rb_dirs b) ++ l → pending root b item t → pending root b' item t.
Proof. intros Hd (Hi & Ht & Hdisk). split_and!; [|done|done]. rewrite Hd. by apply lookup_app_l_Some. Qed.

Section entry.
Context {b : RomFsBuilder} {seen : key → Prop} {ds : key} {dir_idx : nat} {todo : list (nat * fs_path)}.
Context {ts : list (key * list (list byte * node))} (Hl : listing b seen ds dir_idx todo ts).
Context {name : list byte} {n : node} (Hn : node_at root (ds ++ [name]) = Some n) (Hnew : ¬ seen (ds ++ [name])).

(** What [process_entry] leaves of an entry it accepts. *)
Definition entry_done (b' : RomFsBuilder) (todo' : list (nat * fs_path)) : Prop :=
  ∃ ts', listing b' (λ cs, seen cs ∨ cs = ds ++ [name]) ds dir_idx todo' ts' ∧ work ts' = (work ts + ndirs n)%nat.

Lemma entry_distinct t name' : t ∈ ts → t.1 ++ [name'] ≠ ds ++ [name].
Proof using Hl.
  intros Ht [Heq _]%app_inj_tail. pose proof (ex_distinct _ _ _ _ (li_explored _ _ _ _ _ _ Hl)) as [Hd _]%NoDup_cons.
  apply Hd. rewrite <-Heq. by apply list_elem_of_fmap_2.
Qed.

(** A node that is no directory leaves the stack as it is. *)
Lemma entry_leaf b' m :
  n ≠ NSymlink → ¬ tree_dir root (ds ++ [name]) → d_path <$> rb_dirs b' = d_path <$> rb_dirs b →
  represents b' m (λ x, x = [] ∨ seen x ∧ tree_dir root x) →
  (∀ cs x, m !! cs = Some x ↔ (seen cs ∨ cs = ds ++ [name]) ∧ tree_file root cs x) →
  ndirs n = 0%nat → entry_done b' todo.
Proof using Hl Hn Hnew.
  intros Hlink Hnd Hpaths Hr Hm Hz. exists ts. split; [|lia]. split.
  - apply (explored_add b b' seen (ds :: ts.*1) _ ds name n m);
      [apply Hl|by left|done|done|apply (ex_distinct _ _ _ _ (li_explored _ _ _ _ _ _ Hl))|naive_solver| |done].
    refine (represents_ext _ _ _ _ _ Hr). naive_solver.
  - eapply Forall2_impl; [apply Hl|]. intros item t. apply (pending_grow b b' item t []). by rewrite app_nil_r.
  - rewrite Hpaths. apply Hl.
  - intros t name' Ht [H|H]; [by apply (li_unlisted _ _ _ _ _ _ Hl) in H|]. by apply (entry_distinct t name').
Qed.

(** A directory is pushed on the builder and on the stack. *)
Lemma entry_dir d es path :
  rb_dirs b !! dir_idx = Some d → n = NDir es → on_disk path n →
  entry_done (b <| rb_dirs := add_dir (rb_dirs b) dir_idx d name |>) ((length (rb_dirs b), path) :: todo).
Proof using Hroot Hl Hn Hnew.
  intros Hd Hes Hdisk. rewrite Hes in Hdisk. pose proof Hn as Hn'. rewrite Hes in Hn'. pose proof (li_explored _ _ _ _ _ _ Hl) as He.
  destruct (ex_represents _ _ _ _ He) as (m & Hr & Hm).
  assert (d_path d = join ds) as Hpath.
  { pose proof (li_dir _ _ _ _ _ _ Hl) as Hld. rewrite list_lookup_fmap, Hd in Hld. by injection Hld. }
  pose proof (node_at_names _ _ _ Hroot Hn) as Hnames.
  assert (d_path <$> add_dir (rb_dirs b) dir_idx d name = (d_path <$> rb_dirs b) ++ [join (ds ++ [name])]) as Hpaths
    by (rewrite (add_dir_field Hd d_path) by done; cbn; by rewrite Hpath, join_snoc).
  assert (ds ++ [name] ∉ ds :: ts.*1) as Hfresh.
  { intros Hin. by destruct (ex_todo _ _ _ _ He _ Hin) as [?%app_nil|]; [naive_solver|]. }
  assert (tree_dir root (ds ++ [name])) as Htd by (by exists es).
  exists ((ds ++ [name], es) :: ts). split; [|rewrite Hes; apply Nat.add_comm]. split.
  - apply (explored_add b _ seen (ds :: ts.*1) _ ds name (NDir es) m); [done|by left|done|done| | | |].
    + pose proof (ex_distinct _ _ _ _ He) as [Hx Hnd]%NoDup_cons. cbn. apply not_elem_of_cons in Hfresh as [? ?].
      repeat constructor; [|done|done]. by apply not_elem_of_cons.
    + intros x. cbn. rewrite !elem_of_cons. naive_solver.
    + pose proof (represents_push_dir b m _ dir_idx d ds name Hr Hd Hpath Hnames) as Hpush.
      refine (represents_ext _ _ _ _ _ (Hpush _)).
      * naive_solver.
      * intros [?%app_nil|[? _]]; [naive_solver|done].
    + intros cs x. rewrite Hm. split; [naive_solver|]. intros [[Hs| ->] Hf]; [done|]. unfold tree_file in Hf. congruence.
  - constructor.
    + split_and!; [|done|done]. unfold set_field. cbn [rb_dirs fst]. rewrite Hpaths.
      rewrite lookup_app_r by (by rewrite length_fmap). by rewrite length_fmap, Nat.sub_diag.
    + eapply Forall2_impl; [apply Hl|]. intros item t. by apply (pending_grow b _ item t [join (ds ++ [name])]).
  - unfold set_field. cbn [rb_dirs]. rewrite Hpaths. apply lookup_app_l_Some. apply Hl.
  - intros t name' [->|Ht]%elem_of_cons [H|H].
    + apply (ex_parent _ _ _ _ He) in H as [?%app_nil|]; [naive_solver|done].
    + cbn in H. apply app_inj_tail in H as [H _]. apply (f_equal length) in H. rewrite length_app in H. cbn in H. lia.
    + by apply (li_unlisted _ _ _ _ _ _ Hl) in H.
    + by apply (entry_distinct t name').
Qed.

(** A file is pushed on the builder. *)
Lemma entry_file d x :
  rb_dirs b !! dir_idx = Some d → n = NFile x →
  entry_done (b <| rb_dirs := <[dir_idx := d <| d_files := d_files d ++ [length (rb_files b)] |>]> (rb_dirs b) |>
     <| rb_files := rb_files b ++ [{| f_path := d_path d ++ x2f :: name; f_name := name; f_data := x;
                                      f_entry_offset := 0; f_data_offset := 0; f_parent := dir_idx |}] |>) todo.
Proof using Hroot Hl Hn Hnew.
  intros Hd Hx. pose proof Hn as Hn'. rewrite Hx in Hn'. pose proof (li_explored _ _ _ _ _ _ Hl) as He.
  destruct (ex_represents _ _ _ _ He) as (m & Hr & Hm).
  assert (d_path d = join ds) as Hpath.
  { pose proof (li_dir _ _ _ _ _ _ Hl) as Hld. rewrite list_lookup_fmap, Hd in Hld. by injection Hld. }
  pose proof (node_at_names _ _ _ Hroot Hn) as Hnames.
  assert (m !! (ds ++ [name]) = None) as Hfresh.
  { apply eq_None_not_Some. intros [y Hy]. by apply Hm in Hy as [? _]. }
  apply (entry_leaf _ (<[ds ++ [name] := x]> m)); [by rewrite Hx| | |by apply represents_push_file| |by rewrite Hx].
  - intros [es Hes]. congruence.
  - unfold set_field at 1 2. cbn [rb_dirs]. rewrite list_fmap_insert, list_insert_id; [done|]. by rewrite list_lookup_fmap, Hd.
  - intros cs y. rewrite lookup_insert_Some, Hm. unfold tree_file. split; [naive_solver|].
    intros [[Hs| ->] Hf]; [|left; split; congruence]. right. split; [|done]. intros <-. done.
Qed.

End entry.

Lemma process_entry_spec b seen ds dir_idx todo ts name n path e :
  listing b seen ds dir_idx todo ts → node_at root (ds ++ [name]) = Some n → ¬ seen (ds ++ [name]) →
  entry_on_disk e (name, n) →
  match process_entry b todo dir_idx path (inr e) with
  | Ok (b', todo') => @entry_done seen ds dir_idx ts name n b' todo'
  | Err (Symlink _) => tree_links root
  | _ => False
  end.
Proof using Hroot.
  intros Hl Hn Hnew (Hname & Htype & _ & Hdisk). cbn in Hname, Htype, Hdisk. unfold process_entry, try_io. bind_cbn. rewrite Htype. bind_cbn.
  pose proof (node_at_names _ _ _ Hroot Hn) as [_ (_ & _ & Hutf)%Forall_inv]%Forall_app.
  unfold to_str. rewrite Hname, Hutf. bind_cbn.
  pose proof (li_dir _ _ _ _ _ _ Hl) as Hdir. rewrite list_lookup_fmap in Hdir.
  destruct (rb_dirs b !! dir_idx) as [d|] eqn:Hd; [|done]. bind_cbn.
  destruct n as [x|es| |] eqn:En; cbn [node_type].
  - inversion Hdisk as [? ? Hread| | |]; subst. rewrite Hread. bind_cbn. by eapply entry_file.
  - rewrite (lookup_app_l_Some _ _ _ _ Hd). bind_cbn. by eapply entry_dir.
  - by exists (ds ++ [name]).
  - destruct (ex_represents _ _ _ _ (li_explored _ _ _ _ _ _ Hl)) as (m & Hr & Hm).
    apply (entry_leaf Hl Hn Hnew b m); [done| |done|done| |done].
    + intros [es Hes]. congruence.
    + intros cs y. rewrite Hm. split; [naive_solver|]. intros [[Hs| ->] Hf]; [done|]. unfold tree_file in Hf. congruence.
Qed.
(** All the entries of a directory: each is seen, each subdirectory pushed. *)
Lemma process_entries_spec ds dir_idx path entries rest :
  Forall2 entry_on_disk entries rest → NoDup rest.*1 → ∀ b seen todo ts,
  listing b seen ds dir_idx todo ts →
  (∀ name n, (name, n) ∈ rest → node_at root (ds ++ [name]) = Some n ∧ ¬ seen (ds ++ [name])) →
  match process_entries b todo dir_idx path (inr <$> entries) with
  | Ok (b', todo') => ∃ seen' ts', listing b' seen' ds dir_idx todo' ts' ∧ (∀ cs, seen cs → seen' cs) ∧
      (∀ name n, (name, n) ∈ rest → seen' (ds ++ [name])) ∧
      work ts' = (work ts + list_sum (map (λ e, ndirs e.2) rest))%nat
  | Err (Symlink _) => tree_links root
  | _ => False
  end.
Proof using Hroot.
  induction 1 as [|e [name n] entries rest He _ IH]; intros Hnd b seen todo ts Hl Hrest.
  { exists seen, ts. split_and!; [done|done|by intros ? ? ?%elem_of_nil|]. cbn. lia. }
  apply NoDup_cons in Hnd as [Hname Hnd]. destruct (Hrest name n) as [Hn Hnew]; [by left|].
  pose proof (process_entry_spec b seen ds dir_idx todo ts name n path e Hl Hn Hnew He) as H1.
  rewrite fmap_cons. cbn [process_entries].
  destruct (process_entry b todo dir_idx path (inr e)) as [[b1 todo1]|[]|]; try done.
  destruct H1 as (ts1 & Hl1 & Hw1). bind_cbn.
  specialize (IH Hnd b1 _ todo1 ts1 Hl1).
  destruct (process_entries b1 todo1 dir_idx path (inr <$> entries)) as [[b2 todo2]|[]|];
    try (apply IH; intros name' n' Hin; destruct (Hrest name' n') as [Hn' Hnew']; [by right|]; split; [done|];
         intros [?|[_ ->]%app_inj_tail]; [done|]; apply Hname; by apply (list_elem_of_fmap_2 fst) in Hin).
  destruct IH as (seen' & ts' & Hl' & Hmono & Hall & Hw).
  { intros name' n' Hin. destruct (Hrest name' n') as [Hn' Hnew']; [by right|]. split; [done|].
    intros [?|[_ ->]%app_inj_tail]; [done|]. apply Hname. by apply (list_elem_of_fmap_2 fst) in Hin. }
  exists seen', ts'. split_and!; [done|naive_solver| |].
  - intros name' n' [[= -> ->]|Hin]%elem_of_cons; [apply Hmono; by right|by eapply Hall].
  - rewrite Hw, Hw1. symmetry. apply Nat.add_assoc.
Qed.

(** The walk lists a directory per step. *)
Lemma walk_spec k : ∀ b seen todo ts,
  work ts = k → explored root b seen ts.*1 → Forall2 (pending root b) todo ts →
  (∀ t name, t ∈ ts → ¬ seen (t.1 ++ [name])) →
  ∃ r, steps from_directory_step (S k) (b, todo) = inr r ∧
    match r with
    | Ok b' => ∃ seen', explored root b' seen' []
    | Err (Symlink _) => tree_links root
    | _ => False
    end.
Proof using Hroot.
  induction k as [|k IH]; intros b seen todo ts Hw He Hp Hu;
    (destruct Hp as [|[dir_idx path] [ds es] todo ts (Hidx & Hes & Hdisk) Hp]; [eexists; split; [done|]; by exists seen|]);
    [done|]. cbn [fst snd] in Hidx, Hes, Hdisk.
  pose proof (node_ok_at _ _ _ Hroot Hes) as Hok. inversion_clear Hok as [|? Hnd _| |].
  inversion Hdisk as [|? ? entries Hread Hents| |]; subst.
  pose proof (process_entries_spec ds dir_idx path entries es Hents Hnd b seen todo ts) as Hpe.
  cbn [steps]. unfold from_directory_step at 1. cbn [fst snd]. rewrite Hread. cbn [try_io]. bind_cbn.
  assert (∀ name n, (name, n) ∈ es → node_at root (ds ++ [name]) = Some n ∧ ¬ seen (ds ++ [name])) as Hes'.
  { intros name n Hin. split; [by eapply node_at_entry|]. apply (Hu (ds, es)). by left. }
  assert (listing b seen ds dir_idx todo ts) as Hl.
  { split; [done|done|done|]. intros t name Ht. apply Hu. by right. }
  specialize (Hpe Hl Hes').
  destruct (process_entries b todo dir_idx path (inr <$> entries)) as [[b1 todo1]|[]|]; try done; [|by eexists].
  destruct Hpe as (seen' & ts' & Hl' & _ & Hall & Hw'). destruct Hl' as [He' Hp' _ Hu'].
  apply (IH b1 seen' todo1 ts'); [|by eapply explored_close|done|done].
  change (S (list_sum (map (λ e, ndirs e.2) es)) + work ts = S k)%nat in Hw. lia.
Qed.

End steps.

(** ** Packing a tree *)

Lemma from_directory_tree {FS : FileSystem} k path es :
  node_ok (NDir es) → on_disk path (NDir es) → (ndirs (NDir es) < 2 ^ k)%nat →
  match from_directory k path with
  | Some (Ok b) => represents_tree b (NDir es) ∧ ¬ tree_links (NDir es)
  | Some (Err (Symlink _)) => tree_links (NDir es)
  | _ => False
  end.
Proof.
  intros Hroot Hdisk Hk. unfold from_directory. rewrite run_steps.
  assert (tree_dir (NDir es) []) as H0 by (by exists es).
  destruct (walk_spec Hroot _ RomFsBuilder_new (λ _, False) [(0%nat, path)] [([], es)] eq_refl) as (r & Hr & Hres).
  - by apply explored_new.
  - constructor; [|constructor]. by split_and!.
  - naive_solver.
  - rewrite work_cons in Hr. cbn [snd] in Hr. rewrite Nat.add_0_r in Hr.
    rewrite (steps_mono _ _ _ _ _ Hk Hr).
    destruct r as [b'|[]|]; try done. destruct Hres as [seen' He]. by eapply explored_done.
Qed.

(** C7. A directory tree packs: when a path of the file system holds a tree of entries with distinct text
    names, [from_directory] lists each directory once and ends, within any bound above their number.
    If the tree holds no symbolic link it returns a builder that represents the tree exactly, with
    the contents of every file and with every directory, empty ones included; if it holds one, it is
    refused with [Symlink], and there is no other outcome. *)
Theorem from_directory_spec {FS : FileSystem} k path es :
  node_ok (NDir es) → on_disk path (NDir es) → (ndirs (NDir es) < 2 ^ k)%nat →
  match from_directory k path with
  | Some (Ok b) => represents_tree b (NDir es) ∧ ¬ tree_links (NDir es)
  | Some (Err (Symlink _)) => tree_links (NDir es)
  | _ => False
  end.
Proof. apply from_directory_tree. Qed.

(** A link and a device below directories, and an empty directory. *)
Definition sample_tree (n : node) : list (list byte * node) :=
  [([x62], NDir [([x78], NFile [x01; x02]); ([x79], NDir [])]); ([x61], NFile []); ([x63], n)].

Lemma sample_tree_ok n : node_ok n → node_ok (NDir (sample_tree n)).
Proof.
  intros Hn. assert (∀ b : byte, b ≠ x2f → utf8_valid [b] = true → name_ok [b]) as Hname.
  { intros b Hb Hu. split_and!; [done| |done]. by intros H%list_elem_of_singleton. }
  assert (∀ es, bool_decide (NoDup es.*1) = true → Forall (λ e : list byte * node, name_ok e.1 ∧ node_ok e.2) es → node_ok (NDir es)) as Hdir.
  { intros es Hes Hf. apply ok_dir; [by eapply bool_decide_eq_true_1|done]. }
  apply Hdir; [by vm_compute|]. repeat (apply Forall_cons; split; [split; [by apply Hname|]|]); [|constructor|done|constructor].
  apply Hdir; [by vm_compute|]. repeat (apply Forall_cons; split; [split; [by apply Hname|]|]); [constructor|by apply Hdir; [vm_compute|]|constructor].
Qed.

Lemma from_directory_spec_witness :
  (∃ b, @from_directory (fs_reference (NDir (sample_tree NOther))) 2 [] = Some (Ok b) ∧
     represents_tree b (NDir (sample_tree NOther)) ∧ d_path <$> rb_dirs b = [[]; [x2f; x62]; [x2f; x62; x2f; x79]]) ∧
  (@from_directory (fs_reference (NDir (sample_tree NSymlink))) 2 [] = Some (Err (@Symlink (fs_reference _) [[x63]])) ∧
     tree_links (NDir (sample_tree NSymlink))).
Proof.
  split.
  - pose proof (@from_directory_spec (fs_reference (NDir (sample_tree NOther))) 2 [] (sample_tree NOther)
      (sample_tree_ok _ ok_other) (reference_on_disk _ (sample_tree_ok _ ok_other)) ltac:(vm_compute; lia)) as H.
    eexists. split; [vm_compute; reflexivity|]. split; [exact (proj1 H)|reflexivity].
  - pose proof (@from_directory_spec (fs_reference (NDir (sample_tree NSymlink))) 2 [] (sample_tree NSymlink)
      (sample_tree_ok _ ok_symlink) (reference_on_disk _ (sample_tree_ok _ ok_symlink)) ltac:(vm_compute; lia)) as H.
    split; [vm_compute; reflexivity|exact H].
Defined.

(** ** Any file system *)

Section safe.
Context {FS : FileSystem}.

(** The stack's directories are the builder's. *)
Definition in_bounds (n : nat) (todo : list (nat * fs_path)) : Prop := Forall (λ i, i.1 < n)%nat todo.

Lemma process_entry_safe b todo dir_idx path entry :
  in_bounds (length (rb_dirs b)) todo → (dir_idx < length (rb_dirs b))%nat →
  match process_entry b todo dir_idx path entry with
  | Ok (b', todo') => in_bounds (length (rb_dirs b')) todo' ∧ (length (rb_dirs b) ≤ length (rb_dirs b'))%nat
  | Err _ => True
  | Panic => False
  end.
Proof.
  intros Hb Hd. unfold process_entry, try_io. destruct entry as [|e]; bind_cbn; [done|].
  destruct (os_file_type e) as [|t]; bind_cbn; [done|]. destruct (to_str (os_file_name e)) as [name|]; bind_cbn; [|done].
  destruct (lookup_lt_is_Some_2 _ _ Hd) as [d Hdir]. rewrite Hdir. bind_cbn. destruct t; bind_cbn.
  - rewrite (lookup_app_l_Some _ _ _ _ Hdir). bind_cbn. unfold set_field. cbn [rb_dirs].
    rewrite length_insert, length_app. cbn [length]. split; [|lia]. constructor; [cbn; lia|].
    eapply Forall_impl; [exact Hb|]. cbn. lia.
  - destruct (fs_read (os_path e)) as [|x]; bind_cbn; [done|]. unfold set_field. cbn [rb_dirs]. by rewrite length_insert.
  - done.
  - done.
Qed.

Lemma process_entries_safe dir_idx path entries : ∀ b todo,
  in_bounds (length (rb_dirs b)) todo → (dir_idx < length (rb_dirs b))%nat →
  match process_entries b todo dir_idx path entries with
  | Ok (b', todo') => in_bounds (length (rb_dirs b')) todo'
  | Err _ => True
  | Panic => False
  end.
Proof.
  induction entries as [|entry entries IH]; intros b todo Hb Hd; [done|]. cbn [process_entries].
  pose proof (process_entry_safe b todo dir_idx path entry Hb Hd) as H1.
  destruct (process_entry b todo dir_idx path entry) as [[b' todo']| |]; [|done|done]. destruct H1. bind_cbn.
  apply IH; [done|lia].
Qed.

(** The walk never panics, whatever the file system answers: the indices on the stack are always
    those of directories of the builder, so the indexing and the updates are in bounds. *)
Theorem from_directory_no_panic k path : from_directory k path ≠ Some Panic.
Proof.
  unfold from_directory.
  pose proof (run_inv from_directory_step (λ s, in_bounds (length (rb_dirs s.1)) s.2) (λ r, r ≠ Panic) k) as Hinv.
  assert (∀ s, in_bounds (length (rb_dirs s.1)) s.2 →
    match from_directory_step s with inl s' => in_bounds (length (rb_dirs s'.1)) s'.2 | inr r => r ≠ Panic end) as Hstep.
  { intros [b [|[dir_idx p] todo]] Hs; [done|]. apply Forall_cons in Hs as [Hd Hs].
    unfold from_directory_step, try_io. cbn [fst snd]. destruct (fs_read_dir p) as [|entries]; bind_cbn; [done|].
    pose proof (process_entries_safe dir_idx p entries b todo Hs Hd) as H.
    by destruct (process_entries _ _ _ _ _) as [[]| |]. }
  specialize (Hinv Hstep (RomFsBuilder_new, [(0%nat, path)]) ltac:(by repeat constructor)).
  destruct (run _ _ _); [done|]. congruence.
Qed.
End safe.
