(* ===== verification/RomFsPack.v ===== *)
(** * From a directory to an image and back

    [from_directory], [build], the reader and its iterator in a row: the image of a directory tree holds
    the tree's files, and does not depend on the order the file system lists entries in. *)

From stdpp Require Import gmap.
From S2P Require Import Prelude Bytes Strs Fs Layout Loops RomFsRaw RomFsTree RomFsWrite RomFsSort.
From S2P Require Import RomFsLayout RomFsImage RomFsRead RomFsRoundTrip RomFsExtract RomFsDirectory.
#[local] Open Scope Z_scope.

(** ** Definitions *)

(** Two trees with the same directories and the same files, in whatever order. *)
Definition same_tree (t t' : node) : Prop :=
  (∀ ds, tree_dir t ds ↔ tree_dir t' ds) ∧ ∀ cs x, tree_file t cs x ↔ tree_file t' cs x.

(** The image is a RomFS from whose root the iterator yields each file of the tree once, under its
    path and with its contents, and nothing else. *)
Definition unpacks_to `{Zerocopy} (image : list byte) (t : node) : Prop :=
  ∃ romfs root calls depth l, RomFsRead.try_from_bytes image = Ok romfs ∧ root_dir romfs = Ok root ∧
    extract calls depth romfs [] root = Some l ∧ NoDup l ∧ ∀ cs x, (cs, x) ∈ l ↔ tree_file t cs x.

(** A tree on disk that can be packed: proper names, no links, at least one file. *)
Record packable {FS : FileSystem} (path : fs_path) (es : list (list byte * node)) : Prop := {
  pk_ok : node_ok (NDir es);
  pk_disk : on_disk path (NDir es);
  pk_links : ¬ tree_links (NDir es);
  pk_file : ∃ cs x, tree_file (NDir es) cs x;
}.

(** ** Lemmas *)

Lemma same_tree_represents b t t' : same_tree t t' → represents_tree b t → represents_tree b t'.
Proof.
  intros [Hd Hf] (m & Hr & Hm). exists m. split; [by eapply represents_ext|]. intros cs x. by rewrite Hm, Hf.
Qed.

Lemma represents_tree_unique b b' t :
  represents_tree b t → represents_tree b' t →
  ∃ m, represents b m (tree_dir t) ∧ represents b' m (tree_dir t).
Proof.
  intros (m & Hr & Hm) (m' & Hr' & Hm'). exists m. split; [done|].
  assert (m' = m) as <-; [|done]. apply map_eq. intros cs. apply option_eq. intros x. by rewrite Hm, Hm'.
Qed.

(** The order of a directory's entries does not reach what is at a path. *)
Lemma child_perm es es' name : es ≡ₚ es' → NoDup es.*1 → child es name = child es' name.
Proof.
  intros Hp Hnd. apply option_eq. intros c. split; intros Hc%child_elem.
  - apply child_unique; [by rewrite <-Hp|by rewrite <-Hp].
  - apply child_unique; [done|by rewrite Hp].
Qed.

Lemma node_at_perm es es' name names :
  es ≡ₚ es' → NoDup es.*1 → node_at (NDir es) (name :: names) = node_at (NDir es') (name :: names).
Proof. intros Hp Hnd. cbn. by rewrite (child_perm es es' name Hp Hnd). Qed.

Lemma same_tree_perm es es' : es ≡ₚ es' → NoDup es.*1 → same_tree (NDir es) (NDir es').
Proof.
  intros Hp Hnd. pose proof (λ name names, node_at_perm es es' name names Hp Hnd) as Hat.
  unfold same_tree, tree_dir, tree_file. split.
  - intros [|name ds]; [|by rewrite Hat]. cbn. split; intros _; by eexists.
  - intros [|name cs] x; [done|by rewrite Hat].
Qed.

Lemma pack_image {ZC : Zerocopy} {FS : FileSystem} k path es :
  packable path es → (ndirs (NDir es) < 2 ^ k)%nat →
  ∃ b, from_directory k path = Some (Ok b) ∧
    (fits (rb_dirs b) (rb_files b) → ∃ image, RomFsWrite.build b = Ok image ∧ unpacks_to image (NDir es)).
Proof.
  intros [Hok Hdisk Hlinks (cs0 & x0 & H0)] Hk. pose proof (from_directory_tree k path es Hok Hdisk Hk) as H.
  destruct (from_directory k path) as [[b|[]|]|]; try done. destruct H as [(m & Hr & Hm) _].
  exists b. split; [done|]. intros Hfit.
  assert (m ≠ ∅) as Hne by (intros ->; apply Hm in H0; by rewrite lookup_empty in H0).
  destruct (extract_built b m _ Hr Hne Hfit) as (image & romfs & root & calls & depth & l & Hb & Ht & Hroot & Hl & Hnd & Hin).
  exists image. split; [done|]. exists romfs, root, calls, depth, l. split_and!; [done..|]. intros cs x. by rewrite Hin, Hm.
Qed.

(** ** Theorems *)

(** C3. Packing a directory and unpacking the image gives the directory's files: for a tree on disk with
    at least one file and no links, whose image fits the format, [from_directory] and [build] write
    an image that the reader accepts, and walking its directories from the root with the iterator
    yields each file of the tree once, under its path and with its contents, and nothing else. *)
Theorem romfs_pack_directory {ZC : Zerocopy} {FS : FileSystem} k path es :
  node_ok (NDir es) → on_disk path (NDir es) → (ndirs (NDir es) < 2 ^ k)%nat →
  ¬ tree_links (NDir es) → (∃ cs x, tree_file (NDir es) cs x) →
  ∃ b, from_directory k path = Some (Ok b) ∧
    (fits (rb_dirs b) (rb_files b) →
     ∃ image romfs root calls depth l, build b = Ok image ∧ try_from_bytes image = Ok romfs ∧
       root_dir romfs = Ok root ∧ extract calls depth romfs [] root = Some l ∧ NoDup l ∧
       ∀ cs x, (cs, x) ∈ l ↔ tree_file (NDir es) cs x).
Proof.
  intros Hok Hdisk Hk Hlinks Hfile. destruct (pack_image k path es) as (b & Hb & H); [by split|done|].
  exists b. split; [done|]. intros (image & Hi & romfs & root & calls & depth & l & Hl)%H.
  by exists image, romfs, root, calls, depth, l.
Qed.

(** C22. The image of a directory does not depend on the order the file system lists entries in: two
    paths, on the same file system or not, that hold trees with the same directories and the same
    files and no links, give the same bytes, or the same refusal to build. *)
Theorem romfs_pack_reproducible (FS FS' : FileSystem) k k' (path : @fs_path FS) (path' : @fs_path FS') es es' :
  node_ok (NDir es) → node_ok (NDir es') → on_disk path (NDir es) → on_disk path' (NDir es') →
  (ndirs (NDir es) < 2 ^ k)%nat → (ndirs (NDir es') < 2 ^ k')%nat →
  ¬ tree_links (NDir es) → ¬ tree_links (NDir es') → same_tree (NDir es) (NDir es') →
  ∃ b b', from_directory k path = Some (Ok b) ∧ from_directory k' path' = Some (Ok b') ∧ build b = build b'.
Proof.
  intros Hok Hok' Hdisk Hdisk' Hk Hk' Hl Hl' Hsame.
  pose proof (from_directory_tree k path es Hok Hdisk Hk) as H.
  pose proof (from_directory_tree k' path' es' Hok' Hdisk' Hk') as H'.
  destruct (from_directory k path) as [[b|[]|]|]; try done.
  destruct (from_directory k' path') as [[b'|[]|]|]; try done.
  destruct H as [H _], H' as [H' _]. apply (same_tree_represents _ _ _ Hsame) in H.
  destruct (represents_tree_unique b b' _ H H') as (m & Hr & Hr'). exists b, b'.
  split_and!; [done|done|]. by eapply build_unique.
Qed.

(** ** Witnesses *)

(** The entries of the sample tree without the link, as listed and in the opposite order. *)
Definition sample_listing : list (list byte * node) := sample_tree NOther.
Definition sample_listing' : list (list byte * node) := reverse (sample_tree NOther).

Lemma sample_listing_ok : node_ok (NDir sample_listing).
Proof. apply sample_tree_ok, ok_other. Qed.

Lemma sample_listing_reverse_ok : node_ok (NDir sample_listing').
Proof.
  pose proof sample_listing_ok as H. inversion H as [|? Hnd Hf| |]. subst. apply ok_dir.
  - unfold sample_listing'. by rewrite reverse_Permutation.
  - unfold sample_listing'. by rewrite reverse_Permutation.
Qed.

Lemma sample_listing_same : same_tree (NDir sample_listing) (NDir sample_listing').
Proof.
  apply same_tree_perm; [unfold sample_listing'; by rewrite reverse_Permutation|]. pose proof sample_listing_ok as H. by inversion H.
Qed.

Lemma sample_listing_file : tree_file (NDir sample_listing) [[x62]; [x78]] [x01; x02].
Proof. reflexivity. Qed.

(** The sample tree has no links: the walk would have refused it. *)
Lemma sample_listing_no_links : ¬ tree_links (NDir sample_listing).
Proof.
  pose proof (@from_directory_tree (fs_reference (NDir sample_listing)) 2 [] sample_listing
    sample_listing_ok (reference_on_disk _ sample_listing_ok) ltac:(vm_compute; lia)) as H.
  assert (match @from_directory (fs_reference (NDir sample_listing)) 2 [] with Some (Ok _) => true | _ => false end = true) as Hb
    by (vm_compute; reflexivity).
  destruct (@from_directory (fs_reference (NDir sample_listing)) 2 []) as [[b|e|]|]; [exact (proj2 H)|discriminate Hb..].
Qed.

Lemma sample_listing_reverse_no_links : ¬ tree_links (NDir sample_listing').
Proof.
  intros [[|name cs] Hcs]; [done|]. apply sample_listing_no_links. exists (name :: cs). rewrite <-Hcs.
  apply node_at_perm; [|pose proof sample_listing_ok as H; by inversion H].
  unfold sample_listing'. by rewrite reverse_Permutation.
Qed.

Definition sample_packed : RomFsBuilder :=
  match @from_directory (fs_reference (NDir sample_listing)) 2 [] with Some (Ok b) => b | _ => RomFsBuilder_new end.
Lemma sample_packed_fits : fits (rb_dirs sample_packed) (rb_files sample_packed).
Proof. split; vm_compute; discriminate. Qed.

Lemma romfs_pack_directory_witness :
  ∃ b image romfs root calls depth l, @from_directory (fs_reference (NDir sample_listing)) 2 [] = Some (Ok b) ∧
    build b = Ok image ∧ @try_from_bytes zerocopy_reference image = Ok romfs ∧
    @root_dir zerocopy_reference romfs = Ok root ∧ @extract zerocopy_reference calls depth romfs [] root = Some l ∧
    ([[x62]; [x78]], [x01; x02]) ∈ l.
Proof.
  destruct (@romfs_pack_directory zerocopy_reference (fs_reference (NDir sample_listing)) 2 [] sample_listing
    sample_listing_ok (reference_on_disk _ sample_listing_ok) ltac:(vm_compute; lia) sample_listing_no_links
    (ex_intro _ _ (ex_intro _ _ sample_listing_file))) as (b & Hb & H).
  assert (sample_packed = b) as He by (unfold sample_packed; rewrite Hb; reflexivity).
  destruct H as (image & romfs & root & calls & depth & l & Hi & Ht & Hr & Hl & _ & Hin).
  { rewrite <-He. exact sample_packed_fits. }
  exists b, image, romfs, root, calls, depth, l. split; [exact Hb|]. split; [exact Hi|]. split; [exact Ht|].
  split; [exact Hr|]. split; [exact Hl|]. apply Hin. exact sample_listing_file.
Defined.

Lemma romfs_pack_reproducible_witness :
  ∃ b b', @from_directory (fs_reference (NDir sample_listing)) 2 [] = Some (Ok b) ∧
    @from_directory (fs_reference (NDir sample_listing')) 2 [] = Some (Ok b') ∧
    d_path <$> rb_dirs b ≠ [] ∧ build b = build b'.
Proof.
  destruct (romfs_pack_reproducible (fs_reference (NDir sample_listing)) (fs_reference (NDir sample_listing')) 2 2 [] []
    sample_listing sample_listing' sample_listing_ok sample_listing_reverse_ok
    (reference_on_disk _ sample_listing_ok) (reference_on_disk _ sample_listing_reverse_ok)
    ltac:(vm_compute; lia) ltac:(vm_compute; lia) sample_listing_no_links sample_listing_reverse_no_links sample_listing_same)
    as (b & b' & Hb & Hb' & H).
  exists b, b'. split; [exact Hb|]. split; [exact Hb'|]. split; [|exact H].
  assert (sample_packed = b) as <- by (unfold sample_packed; rewrite Hb; reflexivity). discriminate.
Defined.
