(* ===== verification/Nacp.v ===== *)
(** * NACP control structures: [raw/nacp.rs], [write/nacp.rs] and [read/nacp.rs]

    A fixed structure of [0x4000] bytes. The builder holds titles per language until [build] writes
    them over a zeroed structure; the reader picks an entry by language and falls back to the first
    one in use. An [option] whose [None] is a panic is the result of an infallible function. *)

From S2P Require Import Prelude Bytes Strs Layout Ptr.
#[local] Open Scope Z_scope.

(** ** The structures *)

Record NacpLanguageEntry := {
  nl_name : list byte;
  nl_author : list byte;
}.
#[export] Instance NacpLanguageEntry_layout : Layout NacpLanguageEntry.
Proof.
  refine (L_struct (byte_array 0x200 ⊗ byte_array 0x100)%layout
    (λ '(a, b), Build_NacpLanguageEntry a b) (λ x, (nl_name x, nl_author x)) _ _); solve_struct.
Defined.

Record NacpNeighborDetectionGroupConfig := {
  ng_group_id : Z;
  ng_key : list byte;
}.
#[export] Instance NacpNeighborDetectionGroupConfig_layout : Layout NacpNeighborDetectionGroupConfig.
Proof.
  refine (L_struct (u64 ⊗ byte_array 0x10)%layout
    (λ '(a, b), Build_NacpNeighborDetectionGroupConfig a b) (λ x, (ng_group_id x, ng_key x)) _ _);
    solve_struct.
Defined.

Record NacpNeighborDetectionClientConfig := {
  nd_send_group_config : NacpNeighborDetectionGroupConfig;
  nd_receivable_group_configs : list NacpNeighborDetectionGroupConfig;
}.
#[export] Instance NacpNeighborDetectionClientConfig_layout : Layout NacpNeighborDetectionClientConfig.
Proof.
  refine (L_struct (NacpNeighborDetectionGroupConfig_layout
                    ⊗ (NacpNeighborDetectionGroupConfig_layout × 0x10))%layout
    (λ '(a, b), Build_NacpNeighborDetectionClientConfig a b)
    (λ x, (nd_send_group_config x, nd_receivable_group_configs x)) _ _); solve_struct.
Defined.

Record NacpJitConfiguration := {
  nj_flags : Z;
  nj_memory_size : Z;
}.
#[export] Instance NacpJitConfiguration_layout : Layout NacpJitConfiguration.
Proof.
  refine (L_struct (u64 ⊗ u64)%layout
    (λ '(a, b), Build_NacpJitConfiguration a b) (λ x, (nj_flags x, nj_memory_size x)) _ _); solve_struct.
Defined.

Record NacpStruct := {
  ns_lang : list NacpLanguageEntry;
  ns_isbn : list byte;
  ns_startup_user_account : Z;
  ns_user_account_switch_lock : Z;
  ns_add_on_content_registration_type : Z;
  ns_attribute_flag : Z;
  ns_supported_language_flag : Z;
  ns_parental_control_flag : Z;
  ns_screenshot : Z;
  ns_video_capture : Z;
  ns_data_loss_confirmation : Z;
  ns_play_log_policy : Z;
  ns_presence_group_id : Z;
  ns_rating_age : list Z;
  ns_display_version : list byte;
  ns_add_on_content_base_id : Z;
  ns_save_data_owner_id : Z;
  ns_user_account_save_data_size : Z;
  ns_user_account_save_data_journal_size : Z;
  ns_device_save_data_size : Z;
  ns_device_save_data_journal_size : Z;
  ns_bcat_delivery_cache_storage_size : Z;
  ns_application_error_code_category : Z;
  ns_local_communication_id : list Z;
  ns_logo_type : Z;
  ns_logo_handling : Z;
  ns_runtime_add_on_content_install : Z;
  ns_runtime_parameter_delivery : Z;
  ns_reserved_x30f4 : list byte;
  ns_crash_report : Z;
  ns_hdcp : Z;
  ns_pseudo_device_id_seed : Z;
  ns_bcat_passphrase : list byte;
  ns_startup_user_account_option : Z;
  ns_reserved_user_account_save_data_op : list byte;
  ns_user_account_save_data_size_max : Z;
  ns_user_account_save_data_journal_size_max : Z;
  ns_device_save_data_size_max : Z;
  ns_device_save_data_journal_size_max : Z;
  ns_temporary_storage_size : Z;
  ns_cache_storage_size : Z;
  ns_cache_storage_journal_size : Z;
  ns_cache_storage_data_and_journal_size_max : Z;
  ns_cache_storage_index_max : Z;
  ns_reserved_x318a : list byte;
  ns_play_log_queryable_application_id : list Z;
  ns_play_log_query_capability : Z;
  ns_repair_flag : Z;
  ns_program_index : Z;
  ns_required_network_service_license_on_launch : Z;
  ns_reserved_x3214 : Z;
  ns_neighbor_detection_client_config : NacpNeighborDetectionClientConfig;
  ns_jit_configuration : NacpJitConfiguration;
  ns_reserved_x33c0 : list byte;
}.
#[export] Instance NacpStruct_layout : Layout NacpStruct.
Proof.
  refine (L_struct ((NacpLanguageEntry_layout × 16) ⊗ byte_array 0x25 ⊗ u8 ⊗ u8 ⊗ u8 ⊗ u32 ⊗ u32 ⊗ u32 ⊗ u8 ⊗
    u8 ⊗ u8 ⊗ u8 ⊗ u64 ⊗ (i8 × 0x20) ⊗ byte_array 0x10 ⊗ u64 ⊗ u64 ⊗ u64 ⊗ u64 ⊗ u64 ⊗ u64 ⊗
    u64 ⊗ u64 ⊗ (u64 × 8) ⊗ u8 ⊗ u8 ⊗ u8 ⊗ u8 ⊗ byte_array 2 ⊗ u8 ⊗ u8 ⊗ u64 ⊗ byte_array 0x41 ⊗
    u8 ⊗ byte_array 6 ⊗ u64 ⊗ u64 ⊗ u64 ⊗ u64 ⊗ u64 ⊗ u64 ⊗ u64 ⊗ u64 ⊗ u16 ⊗ byte_array 6 ⊗
    (u64 × 0x10) ⊗ u8 ⊗ u8 ⊗ u8 ⊗ u8 ⊗ u32 ⊗ NacpNeighborDetectionClientConfig_layout ⊗
    NacpJitConfiguration_layout ⊗ byte_array 0xc40)%layout
    (λ '(a0, a1, a2, a3, a4, a5, a6, a7, a8, a9, a10, a11, a12, a13, a14, a15, a16, a17, a18, a19,
        a20, a21, a22, a23, a24, a25, a26, a27, a28, a29, a30, a31, a32, a33, a34, a35, a36, a37,
        a38, a39, a40, a41, a42, a43, a44, a45, a46, a47, a48, a49, a50, a51, a52, a53),
      Build_NacpStruct a0 a1 a2 a3 a4 a5 a6 a7 a8 a9 a10 a11 a12 a13 a14 a15 a16 a17 a18 a19 a20 a21 a22 a23 a24
        a25 a26 a27 a28 a29 a30 a31 a32 a33 a34 a35 a36 a37 a38 a39 a40 a41 a42 a43 a44 a45 a46
        a47 a48 a49 a50 a51 a52 a53)
    (λ x, (ns_lang x, ns_isbn x, ns_startup_user_account x, ns_user_account_switch_lock x,
          ns_add_on_content_registration_type x, ns_attribute_flag x,
          ns_supported_language_flag x, ns_parental_control_flag x, ns_screenshot x,
          ns_video_capture x, ns_data_loss_confirmation x, ns_play_log_policy x,
          ns_presence_group_id x, ns_rating_age x, ns_display_version x,
          ns_add_on_content_base_id x, ns_save_data_owner_id x, ns_user_account_save_data_size x,
          ns_user_account_save_data_journal_size x, ns_device_save_data_size x,
          ns_device_save_data_journal_size x, ns_bcat_delivery_cache_storage_size x,
          ns_application_error_code_category x, ns_local_communication_id x, ns_logo_type x,
          ns_logo_handling x, ns_runtime_add_on_content_install x,
          ns_runtime_parameter_delivery x, ns_reserved_x30f4 x, ns_crash_report x, ns_hdcp x,
          ns_pseudo_device_id_seed x, ns_bcat_passphrase x, ns_startup_user_account_option x,
          ns_reserved_user_account_save_data_op x, ns_user_account_save_data_size_max x,
          ns_user_account_save_data_journal_size_max x, ns_device_save_data_size_max x,
          ns_device_save_data_journal_size_max x, ns_temporary_storage_size x,
          ns_cache_storage_size x, ns_cache_storage_journal_size x,
          ns_cache_storage_data_and_journal_size_max x, ns_cache_storage_index_max x,
          ns_reserved_x318a x, ns_play_log_queryable_application_id x,
          ns_play_log_query_capability x, ns_repair_flag x, ns_program_index x,
          ns_required_network_service_license_on_launch x, ns_reserved_x3214 x,
          ns_neighbor_detection_client_config x, ns_jit_configuration x, ns_reserved_x33c0 x)) _ _); solve_struct.
Defined.
#[export] Instance eta_NacpStruct : Eta NacpStruct := λ x,
  Build_NacpStruct (ns_lang x) (ns_isbn x) (ns_startup_user_account x) (ns_user_account_switch_lock x)
    (ns_add_on_content_registration_type x) (ns_attribute_flag x) (ns_supported_language_flag x)
    (ns_parental_control_flag x) (ns_screenshot x) (ns_video_capture x)
    (ns_data_loss_confirmation x) (ns_play_log_policy x) (ns_presence_group_id x)
    (ns_rating_age x) (ns_display_version x) (ns_add_on_content_base_id x)
    (ns_save_data_owner_id x) (ns_user_account_save_data_size x)
    (ns_user_account_save_data_journal_size x) (ns_device_save_data_size x)
    (ns_device_save_data_journal_size x) (ns_bcat_delivery_cache_storage_size x)
    (ns_application_error_code_category x) (ns_local_communication_id x) (ns_logo_type x)
    (ns_logo_handling x) (ns_runtime_add_on_content_install x) (ns_runtime_parameter_delivery x)
    (ns_reserved_x30f4 x) (ns_crash_report x) (ns_hdcp x) (ns_pseudo_device_id_seed x)
    (ns_bcat_passphrase x) (ns_startup_user_account_option x)
    (ns_reserved_user_account_save_data_op x) (ns_user_account_save_data_size_max x)
    (ns_user_account_save_data_journal_size_max x) (ns_device_save_data_size_max x)
    (ns_device_save_data_journal_size_max x) (ns_temporary_storage_size x)
    (ns_cache_storage_size x) (ns_cache_storage_journal_size x)
    (ns_cache_storage_data_and_journal_size_max x) (ns_cache_storage_index_max x)
    (ns_reserved_x318a x) (ns_play_log_queryable_application_id x)
    (ns_play_log_query_capability x) (ns_repair_flag x) (ns_program_index x)
    (ns_required_network_service_license_on_launch x) (ns_reserved_x3214 x)
    (ns_neighbor_detection_client_config x) (ns_jit_configuration x) (ns_reserved_x33c0 x).

(** ** Languages *)

Inductive SetLanguage :=
| JA | ENUS | FR | DE | IT | ES | ZHCN | KO | NL | PT | RU | ZHTW | ENGB | FRCA | ES419 | ZHHANS | ZHHANT
| PTBR.

(** [lang as usize]. *)
Definition language_code (lang : SetLanguage) : Z :=
  match lang with
  | JA => 0 | ENUS => 1 | FR => 2 | DE => 3 | IT => 4 | ES => 5 | ZHCN => 6 | KO => 7 | NL => 8 | PT => 9
  | RU => 10 | ZHTW => 11 | ENGB => 12 | FRCA => 13 | ES419 => 14 | ZHHANS => 15 | ZHHANT => 16 | PTBR => 17
  end.

Definition LANGUAGE_TABLE : list Z := [2; 0; 3; 4; 7; 6; 14; 12; 8; 10; 11; 13; 1; 9; 5; 14; 13; 15].

Definition language_to_index (lang : SetLanguage) : option Z :=
  Some match lang with
  | ENUS => 0 | ENGB => 1 | JA => 2 | FR => 3 | DE => 4 | ES419 => 5 | ES => 6 | IT => 7 | NL => 8
  | FRCA => 9 | PT => 10 | RU => 11 | KO => 12 | ZHTW | ZHHANT => 13 | ZHCN | ZHHANS => 14 | PTBR => 15
  end.

(** ** The builder *)

Record NacpBuilder := {
  nb_names : list (option (list byte));
  nb_authors : list (option (list byte));
  nb_display_version : option (list byte);
  nb_application_id : option Z;
  nb_save_data_owner_id : option Z;
  nb_user_account_save_data_size : option Z;
  nb_user_account_save_data_journal_size : option Z;
}.
#[export] Instance eta_NacpBuilder : Eta NacpBuilder := λ b,
  Build_NacpBuilder (nb_names b) (nb_authors b) (nb_display_version b) (nb_application_id b)
    (nb_save_data_owner_id b) (nb_user_account_save_data_size b) (nb_user_account_save_data_journal_size b).

Definition NacpBuilder_new : NacpBuilder :=
  {| nb_names := replicate 16 None; nb_authors := replicate 16 None; nb_display_version := None;
     nb_application_id := None; nb_save_data_owner_id := None; nb_user_account_save_data_size := None;
     nb_user_account_save_data_journal_size := None |}.

Definition nacp_name (b : NacpBuilder) (name : list byte) : NacpBuilder :=
  b <| nb_names := map (λ _, Some name) (nb_names b) |>.
Definition nacp_name_for_language (b : NacpBuilder) (lang : SetLanguage) (name : list byte)
    : option NacpBuilder :=
  match language_to_index lang with
  | Some idx => names ← set_index (nb_names b) idx (Some name); Some (b <| nb_names := names |>)
  | None => Some b
  end.
Definition nacp_author (b : NacpBuilder) (author : list byte) : NacpBuilder :=
  b <| nb_authors := map (λ _, Some author) (nb_authors b) |>.
Definition nacp_author_for_language (b : NacpBuilder) (lang : SetLanguage) (author : list byte)
    : option NacpBuilder :=
  match language_to_index lang with
  | Some idx => authors ← set_index (nb_authors b) idx (Some author); Some (b <| nb_authors := authors |>)
  | None => Some b
  end.
Definition nacp_version (b : NacpBuilder) (version : list byte) : NacpBuilder :=
  b <| nb_display_version := Some version |>.
Definition nacp_application_id (b : NacpBuilder) (id : Z) : NacpBuilder :=
  b <| nb_application_id := Some id |>.
Definition nacp_save_data_owner_id (b : NacpBuilder) (id : Z) : NacpBuilder :=
  b <| nb_save_data_owner_id := Some id |>.
Definition nacp_user_account_save_data_size (b : NacpBuilder) (size : Z) : NacpBuilder :=
  b <| nb_user_account_save_data_size := Some size |>.
Definition nacp_user_account_save_data_journal_size (b : NacpBuilder) (size : Z) : NacpBuilder :=
  b <| nb_user_account_save_data_journal_size := Some size |>.

Inductive BuildError :=
| NameTooLong (language_index len : Z)
| AuthorTooLong (language_index len : Z)
| VersionTooLong (len : Z)
| InternalBufferSizeError.

(** Copy an optional text over the front of its zeroed field, unless it is as long as [max]. *)
Definition fill_text (field : list byte) (text : option (list byte)) (max : Z) (error : Z → BuildError)
    : outcome BuildError (list byte) :=
  match text with
  | None => Ok field
  | Some bytes =>
    _ ← guard_err (max <=? len bytes) (error (len bytes));
    or_panic (copy_from_slice field 0 (len bytes) bytes)
  end.

(** The loop over the zipped names and authors, from entry [i] on. *)
Fixpoint fill_languages (i : Z) (titles : list (option (list byte) * option (list byte)))
    (lang : list NacpLanguageEntry) : outcome BuildError (list NacpLanguageEntry) :=
  match titles with
  | [] => Ok lang
  | (name_opt, author_opt) :: titles =>
    entry ← or_panic (index lang i);
    name ← fill_text (nl_name entry) name_opt 0x200 (NameTooLong i);
    author ← fill_text (nl_author entry) author_opt 0x100 (AuthorTooLong i);
    lang ← or_panic (set_index lang i {| nl_name := name; nl_author := author |});
    fill_languages (i + 1) titles lang
  end.

(** The fields every built structure has. *)
Definition fill_defaults (nacp : NacpStruct) : NacpStruct :=
  nacp <| ns_startup_user_account := 1 |> <| ns_supported_language_flag := 0xFFFF |>
       <| ns_data_loss_confirmation := 1 |> <| ns_rating_age := zrep 0x20 (-1) |>
       <| ns_user_account_save_data_size := 0x3e00000 |>
       <| ns_user_account_save_data_journal_size := 0x180000 |>
       <| ns_logo_type := 2 |> <| ns_logo_handling := 1 |>.

(** The fields that follow from the application id; [None] is a panic. *)
Definition fill_application_id (nacp : NacpStruct) (application_id : option Z) : option NacpStruct :=
  match application_id with
  | None => Some nacp
  | Some id =>
    add_on ← checked_add id 0x1000;
    ids ← set_index (ns_local_communication_id nacp) 0 id;
    ids ← set_index ids 1 id;
    Some (nacp <| ns_presence_group_id := id |> <| ns_add_on_content_base_id := add_on |>
               <| ns_save_data_owner_id := id |> <| ns_local_communication_id := ids |>
               <| ns_pseudo_device_id_seed := id |>)
  end.

Definition fill_save_data (nacp : NacpStruct) (b : NacpBuilder) : NacpStruct :=
  let nacp := match nb_save_data_owner_id b with
              | Some id => nacp <| ns_save_data_owner_id := id |> | None => nacp end in
  let nacp := match nb_user_account_save_data_size b with
              | Some size => nacp <| ns_user_account_save_data_size := size |> | None => nacp end in
  match nb_user_account_save_data_journal_size b with
  | Some size => nacp <| ns_user_account_save_data_journal_size := size |>
  | None => nacp
  end.

Section build.
Context `{Zerocopy}.

(** The structure is viewed in place, so the buffer returned is its bytes. *)
Definition build (b : NacpBuilder) : outcome BuildError (list byte) :=
  buf ← or_panic (vec_zeroed 0x4000);
  nacp ← ok_or (ref_from_bytes NacpStruct buf) InternalBufferSizeError;
  lang ← fill_languages 0 (zip (nb_names b) (nb_authors b)) (ns_lang nacp);
  let nacp := nacp <| ns_lang := lang |> in
  version ← fill_text (ns_display_version nacp) (nb_display_version b) 0x10 VersionTooLong;
  let nacp := nacp <| ns_display_version := version |> in
  let nacp := fill_defaults nacp in
  nacp ← or_panic (fill_application_id nacp (nb_application_id b));
  Ok (as_bytes (fill_save_data nacp b)).
End build.

(** ** The reader *)

Record Nacp := {
  na_raw : NacpStruct;
}.

Record FromBytesError := {
  required : Z;
  available : Z;
}.

Definition try_from_bytes `{Zerocopy} (bytes : list byte) : outcome FromBytesError Nacp :=
  _ ← guard_err (len bytes <? size_of NacpStruct) (Build_FromBytesError (size_of NacpStruct) (len bytes));
  '(raw, _) ← ok_or (ref_from_prefix NacpStruct bytes) (Build_FromBytesError 0x4000 (len bytes));
  Ok {| na_raw := raw |}.

(** The outer [None] of the accessors is a panic. *)
Definition language_entry (nacp : Nacp) (i : Z) : option (option NacpLanguageEntry) :=
  if 16 <=? i then Some None else
  entry ← index (ns_lang (na_raw nacp)) i;
  first ← index (nl_name entry) 0;
  if b2z first =? 0 then Some None else Some (Some entry).

Definition cstr_to_str (bytes : list byte) : option (list byte) :=
  let end_ := nul_position bytes in
  s ← get_to bytes end_;
  Some (utf8_or_empty s).

Definition display_version (nacp : Nacp) : option (list byte) :=
  cstr_to_str (ns_display_version (na_raw nacp)).

(** [for i in 0..16 { if let Some(entry) = self.language_entry(i) { return Some(entry); } }], from the
    indices left. *)
Fixpoint first_entry (nacp : Nacp) (indices : list Z) : option (option NacpLanguageEntry) :=
  match indices with
  | [] => Some None
  | i :: indices =>
    entry ← language_entry nacp i;
    match entry with Some entry => Some (Some entry) | None => first_entry nacp indices end
  end.

Definition language_entry_for (nacp : Nacp) (lang : SetLanguage) : option (option NacpLanguageEntry) :=
  let idx := default 0 (index LANGUAGE_TABLE (language_code lang)) in
  entry ← language_entry nacp idx;
  match entry with
  | Some entry => Some (Some entry)
  | None => first_entry nacp (seqZ 0 16)
  end.

(** ** What a builder stands for *)

(** A text in its field, padded with zeros. *)
Definition stored_text (n : Z) (text : option (list byte)) : list byte :=
  match text with Some s => s ++ zeros (n - len s) | None => zeros n end.
Definition text_fits (n : Z) (text : option (list byte)) : Prop :=
  match text with Some s => len s < n | None => True end.
Definition stored_title (title : option (list byte) * option (list byte)) : NacpLanguageEntry :=
  {| nl_name := stored_text 0x200 title.1; nl_author := stored_text 0x100 title.2 |}.
Definition title_fits (title : option (list byte) * option (list byte)) : Prop :=
  text_fits 0x200 title.1 ∧ text_fits 0x100 title.2.
(** The error of entry [i]: the name is looked at first. *)
Definition title_error (i : Z) (title : option (list byte) * option (list byte)) (e : BuildError) : Prop :=
  (∃ s, title.1 = Some s ∧ 0x200 ≤ len s ∧ e = NameTooLong i (len s)) ∨
  (text_fits 0x200 title.1 ∧ ∃ s, title.2 = Some s ∧ 0x100 ≤ len s ∧ e = AuthorTooLong i (len s)).

Definition titles (b : NacpBuilder) : list (option (list byte) * option (list byte)) :=
  zip (nb_names b) (nb_authors b).

Definition opt_u64 (o : option Z) : Prop := match o with Some z => is_u64 z | None => True end.
(** The arrays have 16 entries and the numbers are [u64]s. *)
Record builder_ok (b : NacpBuilder) : Prop := {
  bo_names : length (nb_names b) = 16%nat;
  bo_authors : length (nb_authors b) = 16%nat;
  bo_application_id : opt_u64 (nb_application_id b);
  bo_save_data_owner_id : opt_u64 (nb_save_data_owner_id b);
  bo_size : opt_u64 (nb_user_account_save_data_size b);
  bo_journal_size : opt_u64 (nb_user_account_save_data_journal_size b);
}.

(** Every text is shorter than its field, and the add-on content id does not overflow. *)
Record builder_fits (b : NacpBuilder) : Prop := {
  bf_titles : Forall title_fits (titles b);
  bf_version : text_fits 0x10 (nb_display_version b);
  bf_id : match nb_application_id b with Some id => id + 0x1000 ≤ U64_MAX | None => True end;
}.

Definition zero : NacpStruct := of_bytes (zeros 0x4000).
Definition raw_with (b : NacpBuilder) : NacpStruct :=
  fill_defaults (zero <| ns_lang := stored_title <$> titles b |>
                      <| ns_display_version := stored_text 0x10 (nb_display_version b) |>).

(** ** Texts *)

Lemma fill_text_zeros n text error : 0 ≤ n →
  (text_fits n text ∧ fill_text (zeros n) text n error = Ok (stored_text n text)) ∨
  ∃ s, text = Some s ∧ n ≤ len s ∧ fill_text (zeros n) text n error = Err (error (len s)).
Proof.
  intros Hn. destruct text as [s|]; [|by left]. unfold fill_text, guard_err. pose proof (len_nonneg s).
  case_match; zify_bool; [by right; exists s|]. left. split; [done|]. cbn [mbind outcome_bind].
  replace (zeros n) with (zeros (len s) ++ zeros (n - len s)) by (rewrite <-zeros_add by lia; f_equal; lia).
  by rewrite copy_from_slice_start by (rewrite ?len_zeros by lia; done).
Qed.

Lemma len_stored_text n text : 0 ≤ n → text_fits n text → len (stored_text n text) = n.
Proof.
  intros Hn. destruct text as [s|]; cbn; [|intros _; by apply len_zeros]. intros Hs. pose proof (len_nonneg s).
  rewrite len_app, len_zeros by lia. lia.
Qed.

Definition zero_title : NacpLanguageEntry := {| nl_name := zeros 0x200; nl_author := zeros 0x100 |}.

Lemma fill_languages_spec i ts pre :
  len pre = i →
  match fill_languages i ts (pre ++ replicate (length ts) zero_title) with
  | Ok lang => Forall title_fits ts ∧ lang = pre ++ (stored_title <$> ts)
  | Err e => ∃ j t, ts !! j = Some t ∧ Forall title_fits (take j ts) ∧ title_error (i + Z.of_nat j) t e
  | Panic => False
  end.
Proof.
  revert i pre. induction ts as [|[name author] ts IH]; intros i pre Hi; [by split|].
  cbn [length replicate fill_languages]. rewrite index_app_eq by done.
  cbn [or_panic mbind outcome_bind nl_name nl_author zero_title].
  destruct (fill_text_zeros 0x200 name (NameTooLong i)) as [[Hn ->]|(s & -> & Hs & ->)]; [lia| |].
  2:{ exists 0%nat, (Some s, author). split_and!; [done|constructor|]. left. exists s. split_and!; [done..|].
      by rewrite Z.add_0_r. }
  cbn [mbind outcome_bind].
  destruct (fill_text_zeros 0x100 author (AuthorTooLong i)) as [[Ha ->]|(s & -> & Hs & ->)]; [lia| |].
  2:{ exists 0%nat, (name, Some s). split_and!; [done|constructor|]. right. split; [done|]. exists s.
      split_and!; [done..|]. by rewrite Z.add_0_r. }
  cbn [mbind outcome_bind]. rewrite set_index_app_eq by done. cbn [or_panic mbind outcome_bind].
  match goal with |- context [pre ++ ?e :: _] => specialize (IH (i + 1) (pre ++ [e])) end.
  rewrite <-app_assoc in IH. cbn [app] in IH.
  specialize (IH ltac:(rewrite len_app, len_cons, len_nil; lia)).
  destruct (fill_languages _ ts _) as [lang|e|]; [|..|done].
  - destruct IH as [Hf ->]. split; [by constructor|]. by rewrite <-app_assoc.
  - destruct IH as (k & t & Hk & Hf & He). exists (S k), t. split; [done|]. split; [by constructor|].
    by replace (i + Z.of_nat (S k)) with (i + 1 + Z.of_nat k) by lia.
Qed.

(** ** The structure that is written *)

Lemma size_of_NacpStruct : size_of NacpStruct = 0x4000.
Proof. reflexivity. Qed.

Lemma zero_fields :
  ns_lang zero = replicate 16 zero_title ∧ ns_display_version zero = zeros 0x10 ∧
  ns_local_communication_id zero = replicate 8 0 ∧ ns_presence_group_id zero = 0 ∧
  ns_add_on_content_base_id zero = 0 ∧ ns_save_data_owner_id zero = 0 ∧ ns_pseudo_device_id_seed zero = 0.
Proof. split_and!; vm_compute; reflexivity. Qed.

Lemma wf_zero : wf zero.
Proof. apply wf_of_bytes. by rewrite len_zeros. Qed.

Lemma view_zeroed `{Zerocopy} : ref_from_bytes NacpStruct (zeros 0x4000) = Some zero.
Proof. apply (ref_from_bytes_ok (T:=NacpStruct) (zeros 0x4000)). by apply len_zeros. Qed.
#[local] Opaque zero.

Lemma wf_title t : title_fits t → wf (stored_title t).
Proof. intros [Hn Ha]. split; by apply len_stored_text. Qed.

(** The fields [build] writes can be replaced by any values of their widths. *)
Lemma wf_written x lang version : wf x →
  length lang = 16%nat → Forall wf lang → len version = 0x10 →
  wf (fill_defaults (x <| ns_lang := lang |> <| ns_display_version := version |>)).
Proof.
  intros Hx Hl Hw Hv. destruct x. cbn in Hx |- *. destruct_and! Hx. split_and!; try done.
  by apply Forall_replicate.
Qed.

(** What [fill_application_id] writes for an id. *)
Definition with_application_id (x : NacpStruct) (id : Z) : NacpStruct :=
  x <| ns_presence_group_id := id |> <| ns_add_on_content_base_id := id + 0x1000 |>
    <| ns_save_data_owner_id := id |> <| ns_local_communication_id := id :: id :: replicate 6 0 |>
    <| ns_pseudo_device_id_seed := id |>.

Lemma fill_application_id_spec x id :
  ns_local_communication_id x = replicate 8 0 →
  fill_application_id x (Some id) =
    if id + 0x1000 <=? U64_MAX then Some (with_application_id x id) else None.
Proof.
  intros Hx. unfold fill_application_id, checked_add. rewrite Hx. change USIZE_MAX with U64_MAX.
  by destruct (_ <=? U64_MAX).
Qed.

Lemma wf_with_application_id x id :
  wf x → is_u64 id → id + 0x1000 ≤ U64_MAX → wf (with_application_id x id).
Proof.
  intros Hx Hid Hmax. assert (0 ≤ id < 256 ^ Z.of_nat 8 ∧ id + 0x1000 < 256 ^ Z.of_nat 8) as [Hi Hm].
  { unfold is_u64 in Hid. mlia. }
  destruct x. cbn in Hx |- *. destruct_and! Hx. split_and!; try done; try lia.
  constructor; [done|]. constructor; [done|]. apply (Forall_replicate _ 6). cbn. lia.
Qed.

Lemma wf_fill_save_data x b : wf x → builder_ok b → wf (fill_save_data x b).
Proof.
  intros Hx [_ _ _ Ho Hs Hj]. unfold fill_save_data.
  assert (∀ z, is_u64 z → 0 ≤ z < 256 ^ Z.of_nat 8) as Hu by (unfold is_u64; intros; mlia).
  destruct x. cbn in Hx. destruct_and! Hx.
  destruct (nb_save_data_owner_id b), (nb_user_account_save_data_size b), (nb_user_account_save_data_journal_size b);
    cbn; split_and!; try done; try lia; by apply Hu.
Qed.

Definition raw_of (b : NacpBuilder) : NacpStruct :=
  fill_save_data (match nb_application_id b with
                  | Some id => with_application_id (raw_with b) id
                  | None => raw_with b
                  end) b.

Lemma length_titles b : builder_ok b → length (titles b) = 16%nat.
Proof. intros [Hn Ha _ _ _ _]. unfold titles. rewrite length_zip_with. lia. Qed.

Lemma wf_nacp_raw b : builder_ok b → builder_fits b → wf (raw_of b).
Proof.
  intros Hb [Ht Hv Hid]. apply wf_fill_save_data; [|done].
  assert (wf (raw_with b)) as Hw.
  { apply wf_written; [apply wf_zero|by rewrite length_fmap, length_titles| |by apply len_stored_text].
    apply Forall_fmap. eapply Forall_impl; [exact Ht|]. apply wf_title. }
  pose proof (bo_application_id b Hb) as Hu. destruct (nb_application_id b); [|done].
  by apply wf_with_application_id.
Qed.

Lemma version_after_lang x lang : ns_display_version (x <| ns_lang := lang |>) = ns_display_version x.
Proof. done. Qed.
Lemma ids_of_written x lang version :
  ns_local_communication_id (fill_defaults (x <| ns_lang := lang |> <| ns_display_version := version |>)) =
  ns_local_communication_id x.
Proof. done. Qed.

Section build_spec.
Context `{Zerocopy}.

(** Every way [build] can end. *)
Lemma nacp_build_cases b : builder_ok b →
  match build b with
  | Ok bytes => builder_fits b ∧ bytes = as_bytes (raw_of b)
  | Err e =>
    (∃ j t, titles b !! j = Some t ∧ Forall title_fits (take j (titles b)) ∧ title_error (Z.of_nat j) t e) ∨
    (Forall title_fits (titles b) ∧
       ∃ v, nb_display_version b = Some v ∧ 0x10 ≤ len v ∧ e = VersionTooLong (len v))
  | Panic =>
    Forall title_fits (titles b) ∧ text_fits 0x10 (nb_display_version b) ∧
    ∃ id, nb_application_id b = Some id ∧ U64_MAX < id + 0x1000
  end.
Proof.
  intros Hb. unfold build. rewrite vec_zeroed_ok by done. cbn [or_panic mbind outcome_bind].
  rewrite view_zeroed. cbn [ok_or mbind outcome_bind]. fold (titles b).
  destruct zero_fields as (Hlang & Hver & Hids & _). rewrite Hlang.
  pose proof (fill_languages_spec 0 (titles b) [] eq_refl) as Hl. rewrite (length_titles b Hb) in Hl. cbn [app] in Hl.
  match goal with |- context [fill_languages 0 (titles b) _ ≫= ?k] => set (K := k) end.
  destruct (fill_languages 0 (titles b) _) as [lang|e|]; cbn [mbind outcome_bind]; [|left; exact Hl|destruct Hl].
  destruct Hl as [Ht ->]. unfold K. rewrite version_after_lang, Hver. clear K.
  assert (ns_local_communication_id (raw_with b) = replicate 8 0) as Hr.
  { unfold raw_with. rewrite ids_of_written. exact Hids. }
  clear Hlang Hver Hids.
  destruct (fill_text_zeros 0x10 (nb_display_version b) VersionTooLong) as [[Hv ->]|(v & Hve & Hv & ->)]; [lia| |].
  2:{ cbn [mbind outcome_bind]. right. split; [exact Ht|]. exists v. split_and!; [exact Hve|exact Hv|reflexivity]. }
  cbn [mbind outcome_bind]. fold (raw_with b).
  unfold raw_of. destruct (nb_application_id b) as [id|] eqn:Hid.
  - rewrite (fill_application_id_spec _ _ Hr). clear Hr. destruct (Z.leb_spec (id + 0x1000) U64_MAX); cbn [or_panic mbind outcome_bind].
    + split; [|done]. split; [done|done|by rewrite Hid].
    + split_and!; [done|done|]. by exists id.
  - clear Hr. cbn [fill_application_id or_panic mbind outcome_bind]. split; [|done]. split; [done|done|by rewrite Hid].
Qed.

Lemma nacp_build_ok b : builder_ok b → builder_fits b → build b = Ok (as_bytes (raw_of b)).
Proof.
  intros Hb [Ht Hv Hid]. pose proof (nacp_build_cases b Hb) as Hc. destruct (build b) as [bytes|e|].
  - by destruct Hc as [_ ->].
  - exfalso. destruct Hc as [(j & t & Hj & _ & He)|(_ & v & Hve & Hl & _)].
    + rewrite Forall_lookup in Ht. destruct (Ht j t Hj) as [Hn Ha].
      destruct He as [(s & Hs & Hl & _)|(_ & s & Hs & Hl & _)]; [rewrite Hs in Hn|rewrite Hs in Ha]; cbn in *; lia.
    + rewrite Hve in Hv. cbn in Hv. lia.
  - exfalso. destruct Hc as (_ & _ & id & Hi & Hm). rewrite Hi in Hid. lia.
Qed.

Lemma nacp_read_ok x rest : wf x → try_from_bytes (as_bytes x ++ rest) = Ok {| na_raw := x |}.
Proof.
  intros Hx. unfold try_from_bytes, guard_err. pose proof (len_nonneg rest).
  rewrite len_app, len_as_bytes by done. settle. rewrite ref_from_prefix_as_bytes by done. done.
Qed.
End build_spec.

(** ** Reading it back *)

(** An entry is in use when its name does not begin with a NUL. *)
Definition in_use (name : option (list byte)) : bool :=
  match name with Some (c :: _) => negb (b2z c =? 0) | _ => false end.

(** What the reader sees of entry [i] of a builder. *)
Definition title_at (b : NacpBuilder) (i : Z) : option NacpLanguageEntry :=
  title ← index (titles b) i;
  if in_use title.1 then Some (stored_title title) else None.

Lemma index_fmap {A B} (f : A → B) l i : index (f <$> l) i = f <$> index l i.
Proof. unfold index. case_match; [apply list_lookup_fmap|done]. Qed.

Lemma lang_raw_of b : ns_lang (raw_of b) = stored_title <$> titles b.
Proof.
  unfold raw_of, fill_save_data.
  by destruct (nb_application_id b), (nb_save_data_owner_id b), (nb_user_account_save_data_size b),
    (nb_user_account_save_data_journal_size b).
Qed.

Lemma version_raw_of b : ns_display_version (raw_of b) = stored_text 0x10 (nb_display_version b).
Proof.
  unfold raw_of, fill_save_data.
  by destruct (nb_application_id b), (nb_save_data_owner_id b), (nb_user_account_save_data_size b),
    (nb_user_account_save_data_journal_size b).
Qed.

Lemma first_byte_stored n name : 0 < n → text_fits n name →
  ∃ first, index (stored_text n name) 0 = Some first ∧ (b2z first =? 0) = negb (in_use name).
Proof.
  intros Hn Hf. destruct name as [[|c s]|]; cbn [stored_text].
  - exists x00. split; [|done]. change ([] ++ zeros (n - len [])) with (zeros (n - 0)). apply index_zrep. lia.
  - exists c. split; [done|]. cbn. by rewrite negb_involutive.
  - exists x00. split; [|done]. apply index_zrep. lia.
Qed.

Lemma language_entry_built b i : builder_ok b → builder_fits b → 0 ≤ i →
  language_entry {| na_raw := raw_of b |} i = Some (title_at b i).
Proof.
  intros Hb Hf Hi. unfold language_entry, title_at. cbn [na_raw]. rewrite lang_raw_of.
  assert (len (titles b) = 16) as Hl by (unfold len; by rewrite (length_titles b Hb)).
  rewrite index_fmap. destruct (index (titles b) i) as [t|] eqn:Ht; cbn [fmap option_fmap option_map mbind option_bind].
  2:{ apply index_None_inv in Ht; [|done]. by settle. }
  pose proof (index_Some_inv _ _ _ Ht) as Hr. settle.
  pose proof (bf_titles b Hf) as Hts. rewrite Forall_lookup in Hts.
  unfold index in Ht. rewrite (Zle_imp_le_bool _ _ Hi) in Ht. destruct (Hts _ _ Ht) as [Hn _].
  destruct (first_byte_stored 0x200 t.1) as (first & Hfirst & Hz); [lia|done|].
  cbn [nl_name stored_title]. rewrite Hfirst. cbn [mbind option_bind]. rewrite Hz. by destruct (in_use t.1).
Qed.

(** A version that is text without a NUL reads back. *)
Lemma display_version_built b v :
  builder_fits b → default [] (nb_display_version b) = v → utf8_valid v = true → contains_byte v 0 = false →
  display_version {| na_raw := raw_of b |} = Some v.
Proof.
  intros [_ Hv _] Hd Hu Hc. unfold display_version, cstr_to_str. cbn [na_raw]. rewrite version_raw_of.
  assert (len v < 0x10 ∧ stored_text 0x10 (nb_display_version b) = v ++ x00 :: zeros (0xf - len v)) as [Hl ->].
  { destruct (nb_display_version b) as [w|]; cbn in Hd, Hv |- *; subst; [|by split]. pose proof (len_nonneg v).
    split; [done|]. f_equal. replace (16 - len v) with (1 + (15 - len v)) by lia. rewrite zeros_add by lia. done. }
  rewrite nul_position_app by done. pose proof (len_nonneg v).
  rewrite get_to_ok by (rewrite len_app; pose proof (len_nonneg (x00 :: zeros (15 - len v))); lia).
  cbn [mbind option_bind]. rewrite ztake_app_eq by done. by rewrite utf8_or_empty_valid.
Qed.

(** ** The fields *)

(** The numbers of a built structure: those the builder was given, those an application id fills in,
    and the defaults. *)
Record fields_of (b : NacpBuilder) (raw : NacpStruct) : Prop := {
  fo_presence_group_id : ns_presence_group_id raw = default 0 (nb_application_id b);
  fo_add_on_content_base_id :
    ns_add_on_content_base_id raw = from_option (λ id, id + 0x1000) 0 (nb_application_id b);
  fo_save_data_owner_id :
    ns_save_data_owner_id raw = default (default 0 (nb_application_id b)) (nb_save_data_owner_id b);
  fo_local_communication_id :
    ns_local_communication_id raw
    = replicate 2 (default 0 (nb_application_id b)) ++ replicate 6 0;
  fo_pseudo_device_id_seed : ns_pseudo_device_id_seed raw = default 0 (nb_application_id b);
  fo_user_account_save_data_size :
    ns_user_account_save_data_size raw = default 0x3e00000 (nb_user_account_save_data_size b);
  fo_user_account_save_data_journal_size :
    ns_user_account_save_data_journal_size raw = default 0x180000 (nb_user_account_save_data_journal_size b);
  fo_supported_language_flag : ns_supported_language_flag raw = 0xFFFF;
  fo_rating_age : ns_rating_age raw = replicate 0x20 (-1);
}.

Lemma fields_written x lang version b :
  ns_local_communication_id x = replicate 8 0 → ns_presence_group_id x = 0 →
  ns_add_on_content_base_id x = 0 → ns_save_data_owner_id x = 0 → ns_pseudo_device_id_seed x = 0 →
  let x := fill_defaults (x <| ns_lang := lang |> <| ns_display_version := version |>) in
  fields_of b (fill_save_data (match nb_application_id b with
                               | Some id => with_application_id x id
                               | None => x
                               end) b).
Proof.
  intros Hl Hp Ha Ho Hs. unfold fill_save_data.
  destruct (nb_application_id b) as [id|] eqn:Hid, (nb_save_data_owner_id b) eqn:Hio,
    (nb_user_account_save_data_size b) eqn:His, (nb_user_account_save_data_journal_size b) eqn:Hij;
    split; rewrite ?Hid, ?Hio, ?His, ?Hij; (reflexivity || assumption).
Qed.

Lemma fields_raw_of b : fields_of b (raw_of b).
Proof.
  destruct zero_fields as (_ & _ & Hl & Hp & Ha & Ho & Hs).
  unfold raw_of, raw_with. exact (fields_written zero _ _ b Hl Hp Ha Ho Hs).
Qed.

(** ** The round trip *)

(** C12. A builder whose texts fit their fields builds a structure of [0x4000] bytes, and a buffer that
    starts with it reads back: every entry whose name is not empty has the name and author of the
    builder, padded with zeros, and every other index is unused; the version is the builder's; and the
    ids and sizes are the builder's, those that follow from the application id, or the defaults. *)
Theorem nacp_round_trip `{Zerocopy} b rest : builder_ok b → builder_fits b →
  ∃ bytes nacp, build b = Ok bytes ∧ len bytes = 0x4000 ∧ try_from_bytes (bytes ++ rest) = Ok nacp ∧
    (∀ i, 0 ≤ i → language_entry nacp i = Some (title_at b i)) ∧
    (∀ v, default [] (nb_display_version b) = v → utf8_valid v = true → contains_byte v 0 = false →
       display_version nacp = Some v) ∧
    fields_of b (na_raw nacp).
Proof.
  intros Hb Hf. pose proof (wf_nacp_raw b Hb Hf) as Hw. exists (as_bytes (raw_of b)), {| na_raw := raw_of b |}.
  split; [by apply nacp_build_ok|]. split; [by rewrite len_as_bytes|]. split; [by apply nacp_read_ok|].
  split; [intros; by apply language_entry_built|]. split; [intros; by apply display_version_built|].
  apply fields_raw_of.
Qed.

Definition sample_nacp : NacpBuilder :=
  nacp_application_id (nacp_version (nacp_name NacpBuilder_new [x41; x42]) [x31; x2e; x30]) 0x0100000000001000.

Lemma sample_nacp_ok : builder_ok sample_nacp.
Proof. split; (reflexivity || done || (cbn; unfold is_u64; mlia)). Qed.
Lemma sample_nacp_fits : builder_fits sample_nacp.
Proof. split; [|done|cbn; mlia]. repeat constructor; done. Qed.

Lemma nacp_round_trip_witness :
  ∃ bytes nacp, @build zerocopy_reference sample_nacp = Ok bytes ∧
    @try_from_bytes zerocopy_reference (bytes ++ [x00]) = Ok nacp ∧
    language_entry nacp 15 = Some (title_at sample_nacp 15) ∧
    display_version nacp = Some [x31; x2e; x30] ∧
    ns_add_on_content_base_id (na_raw nacp) = 0x0100000000002000.
Proof.
  destruct (@nacp_round_trip zerocopy_reference sample_nacp [x00] sample_nacp_ok sample_nacp_fits)
    as (bytes & nacp & Hb & _ & Hr & He & Hv & Hf).
  exists bytes, nacp. split; [exact Hb|]. split; [exact Hr|]. split; [by apply He|].
  split; [by apply (Hv [x31; x2e; x30])|]. exact (fo_add_on_content_base_id _ _ Hf).
Defined.

(** ** Errors *)

(** [build] fails for a text as long as its field or longer, names the first such entry, a name before
    an author, and then the version; it panics exactly when every text fits and the id of the add-on
    content, [0x1000] above the application id, is out of range; and it never reports a wrong buffer
    size. *)
Theorem nacp_build_errors `{Zerocopy} b : builder_ok b →
  match build b with
  | Ok _ => builder_fits b
  | Err (NameTooLong i n) =>
    ∃ j t s, i = Z.of_nat j ∧ titles b !! j = Some t ∧ t.1 = Some s ∧ n = len s ∧ 0x200 ≤ n ∧
      Forall title_fits (take j (titles b))
  | Err (AuthorTooLong i n) =>
    ∃ j t s, i = Z.of_nat j ∧ titles b !! j = Some t ∧ text_fits 0x200 t.1 ∧ t.2 = Some s ∧ n = len s ∧
      0x100 ≤ n ∧ Forall title_fits (take j (titles b))
  | Err (VersionTooLong n) =>
    Forall title_fits (titles b) ∧ ∃ v, nb_display_version b = Some v ∧ n = len v ∧ 0x10 ≤ n
  | Err InternalBufferSizeError => False
  | Panic =>
    Forall title_fits (titles b) ∧ text_fits 0x10 (nb_display_version b) ∧
    ∃ id, nb_application_id b = Some id ∧ U64_MAX < id + 0x1000
  end.
Proof.
  intros Hb. pose proof (nacp_build_cases b Hb) as Hc. destruct (build b) as [bytes|e|]; [apply Hc| |exact Hc].
  destruct Hc as [(j & t & Hj & Hf & [(s & Hs & Hl & ->)|(Hn & s & Hs & Hl & ->)])|(Hf & v & Hv & Hl & ->)].
  - by exists j, t, s.
  - by exists j, t, s.
  - split; [done|]. by exists v.
Qed.

Lemma nacp_build_errors_witness :
  @build zerocopy_reference (nacp_version NacpBuilder_new (zrep 0x10 x41)) = Err (VersionTooLong 0x10) ∧
  match @build zerocopy_reference (nacp_application_id NacpBuilder_new U64_MAX) with
  | Panic => True | _ => False end.
Proof.
  split; [vm_compute; reflexivity|].
  assert (builder_ok (nacp_application_id NacpBuilder_new U64_MAX)) as Hb.
  { split; (reflexivity || done || (cbn; unfold is_u64; mlia)). }
  pose proof (@nacp_build_errors zerocopy_reference _ Hb) as Hc.
  destruct (build _) as [bytes|[i n|i n|n|]|] in Hc |- *; [|..|exact I].
  - destruct Hc as [_ _ Hid]. cbn in Hid. unfold U64_MAX in Hid. lia.
  - destruct Hc as (j & t & s & _ & Hj & Hs & _).
    assert (titles (nacp_application_id NacpBuilder_new U64_MAX) = replicate 16 (None, None)) as Ht by reflexivity.
    rewrite Ht in Hj. apply lookup_replicate in Hj as [-> _]. discriminate Hs.
  - destruct Hc as (j & t & s & _ & Hj & _ & Hs & _).
    assert (titles (nacp_application_id NacpBuilder_new U64_MAX) = replicate 16 (None, None)) as Ht by reflexivity.
    rewrite Ht in Hj. apply lookup_replicate in Hj as [-> _]. discriminate Hs.
  - destruct Hc as (_ & v & Hv & _). discriminate Hv.
  - destruct Hc.
Defined.

(** ** Titles by language *)

Inductive setter :=
| SetName (name : list byte)
| SetNameFor (lang : SetLanguage) (name : list byte)
| SetAuthor (author : list byte)
| SetAuthorFor (lang : SetLanguage) (author : list byte).

Definition apply_setter (b : NacpBuilder) (s : setter) : option NacpBuilder :=
  match s with
  | SetName name => Some (nacp_name b name)
  | SetNameFor lang name => nacp_name_for_language b lang name
  | SetAuthor author => Some (nacp_author b author)
  | SetAuthorFor lang author => nacp_author_for_language b lang author
  end.
Fixpoint apply_setters (b : NacpBuilder) (l : list setter) : option NacpBuilder :=
  match l with [] => Some b | s :: l => b ← apply_setter b s; apply_setters b l end.

(** The name, or the author, a setter gives entry [i]. *)
Definition name_for (i : Z) (s : setter) : option (list byte) :=
  match s with
  | SetName name => Some name
  | SetNameFor lang name => if bool_decide (language_to_index lang = Some i) then Some name else None
  | _ => None
  end.
Definition author_for (i : Z) (s : setter) : option (list byte) :=
  match s with
  | SetAuthor author => Some author
  | SetAuthorFor lang author => if bool_decide (language_to_index lang = Some i) then Some author else None
  | _ => None
  end.
Definition last_title (setters : list setter) (i : Z) : option (list byte) * option (list byte) :=
  (last (omap (name_for i) setters), last (omap (author_for i) setters)).

(** The index both sides give a language. *)
Lemma language_index lang :
  ∃ i, language_to_index lang = Some i ∧ index LANGUAGE_TABLE (language_code lang) = Some i ∧ 0 ≤ i < 16.
Proof. destruct lang; eexists; (split; [reflexivity|split; [reflexivity|lia]]). Qed.

(** What a setter leaves at an entry. *)
Definition entry_after (set : setter → option (list byte)) (old : option (list byte)) (s : setter)
    : option (list byte) :=
  match set s with Some x => Some x | None => old end.

Lemma foldl_entry_after set old l :
  foldl (entry_after set) old l = match last (omap set l) with Some x => Some x | None => old end.
Proof.
  revert old. induction l as [|s l IH]; intros old; [done|]. cbn [foldl omap list_omap].
  rewrite IH. unfold entry_after. destruct (set s) as [x|]; [|done]. rewrite last_cons. by destruct (last _).
Qed.

(** An array of 16 entries with these contents. *)
Definition holds (l : list (option (list byte))) (f : Z → option (list byte)) : Prop :=
  len l = 16 ∧ ∀ i, 0 ≤ i < 16 → index l i = Some (f i).

Lemma holds_fill l f x : holds l f → holds (map (λ _, x) l) (λ _, x).
Proof.
  intros [Hl Hi]. split; [by rewrite len_map|]. intros i Hr. change (map (λ _, x) l) with ((λ _, x) <$> l).
  by rewrite index_fmap, Hi.
Qed.

Lemma holds_set l f k x : holds l f → 0 ≤ k < 16 →
  ∃ l', set_index l k x = Some l' ∧ holds l' (λ i, if i =? k then x else f i).
Proof.
  intros [Hl Hi] Hk. eexists. split; [apply set_index_ok; lia|]. set (l' := <[Z.to_nat k:=x]> l).
  assert (set_index l k x = Some l') as Hs by (apply set_index_ok; lia).
  split; [by apply set_index_inv in Hs as [_ ->]|]. intros i Hr.
  rewrite (index_set_index _ _ _ _ _ Hs). case_match; zify_bool; [done|by apply Hi].
Qed.

Definition with_titles (l m : list (option (list byte))) : NacpBuilder :=
  NacpBuilder_new <| nb_names := l |> <| nb_authors := m |>.

Lemma holds_ext l f g : holds l f → (∀ i, f i = g i) → holds l g.
Proof. intros [Hl Hi] Hfg. split; [done|]. intros i Hr. by rewrite Hi, Hfg. Qed.

Lemma apply_setter_spec l m f g s : holds l f → holds m g →
  ∃ l' m', apply_setter (with_titles l m) s = Some (with_titles l' m') ∧
    holds l' (λ i, entry_after (name_for i) (f i) s) ∧ holds m' (λ i, entry_after (author_for i) (g i) s).
Proof.
  intros Hl Hm. destruct s as [x|lang x|x|lang x]; cbn [apply_setter].
  - eexists _, m. split; [done|]. split; [by apply (holds_fill _ f)|done].
  - unfold nacp_name_for_language. destruct (language_index lang) as (k & Hk & _ & Hr). rewrite Hk.
    destruct (holds_set l f k (Some x) Hl Hr) as (l' & Hs & Hl'). exists l', m.
    change (nb_names (with_titles l m)) with l. rewrite Hs. split; [done|]. split; [|done].
    eapply holds_ext; [exact Hl'|]. intros i. unfold entry_after, name_for. rewrite Hk.
    destruct (Z.eqb_spec i k) as [->|Hne]; [by rewrite bool_decide_true|]. rewrite bool_decide_false; congruence.
  - eexists l, _. split; [done|]. split; [done|by apply (holds_fill _ g)].
  - unfold nacp_author_for_language. destruct (language_index lang) as (k & Hk & _ & Hr). rewrite Hk.
    destruct (holds_set m g k (Some x) Hm Hr) as (m' & Hs & Hm'). exists l, m'.
    change (nb_authors (with_titles l m)) with m. rewrite Hs. split; [done|]. split; [done|].
    eapply holds_ext; [exact Hm'|]. intros i. unfold entry_after, author_for. rewrite Hk.
    destruct (Z.eqb_spec i k) as [->|Hne]; [by rewrite bool_decide_true|]. rewrite bool_decide_false; congruence.
Qed.

Lemma apply_setters_spec setters l m f g : holds l f → holds m g →
  ∃ l' m', apply_setters (with_titles l m) setters = Some (with_titles l' m') ∧
    holds l' (λ i, foldl (entry_after (name_for i)) (f i) setters) ∧
    holds m' (λ i, foldl (entry_after (author_for i)) (g i) setters).
Proof.
  revert l m f g. induction setters as [|s setters IH]; intros l m f g Hl Hm; [by exists l, m|].
  destruct (apply_setter_spec l m f g s Hl Hm) as (l1 & m1 & Hs & Hl1 & Hm1).
  destruct (IH _ _ _ _ Hl1 Hm1) as (l2 & m2 & Hr & Hl2 & Hm2). exists l2, m2.
  cbn [apply_setters]. rewrite Hs. cbn [mbind option_bind]. done.
Qed.

Lemma holds_new : holds (replicate 16 None) (λ _, None).
Proof. split; [done|]. intros i Hi. by apply (index_zrep 16). Qed.

(** The arrays a list of setters leaves hold, for each entry, the last title set for it. *)
Lemma set_titles setters :
  ∃ b, apply_setters NacpBuilder_new setters = Some b ∧ builder_ok b ∧
    ∀ i, 0 ≤ i < 16 → index (titles b) i = Some (last_title setters i).
Proof.
  destruct (apply_setters_spec setters _ _ _ _ holds_new holds_new) as (l & m & Hs & [Hl Hli] & [Hm Hmi]).
  exists (with_titles l m). split; [done|]. split; [split; (done || (cbn; unfold len in *; lia))|].
  intros i Hi. specialize (Hli i Hi). specialize (Hmi i Hi). rewrite foldl_entry_after in Hli, Hmi.
  unfold index in *. rewrite (Zle_imp_le_bool 0 i) in * by lia.
  change (titles (with_titles l m)) with (zip l m). apply lookup_zip_with_Some.
  exists (last (omap (name_for i) setters)), (last (omap (author_for i) setters)). split; [done|].
  rewrite Hli, Hmi. by destruct (last (omap (name_for i) setters)), (last (omap (author_for i) setters)).
Qed.

Lemma first_entry_spec nacp (f : Z → option NacpLanguageEntry) l :
  (∀ i, i ∈ l → language_entry nacp i = Some (f i)) → first_entry nacp l = Some (head (omap f l)).
Proof.
  induction l as [|i l IH]; intros Hl; [done|]. cbn [first_entry omap list_omap]. rewrite Hl by constructor.
  cbn [mbind option_bind]. destruct (f i); [done|]. apply IH. intros j Hj. apply Hl. by constructor.
Qed.

Lemma language_entry_for_spec nacp lang (f : Z → option NacpLanguageEntry) :
  (∀ i, 0 ≤ i < 16 → language_entry nacp i = Some (f i)) →
  ∃ i, language_to_index lang = Some i ∧
    language_entry_for nacp lang = Some (head (omap f (i :: seqZ 0 16))).
Proof.
  intros Hf. destruct (language_index lang) as (i & Hi & Ht & Hr). exists i. split; [done|].
  unfold language_entry_for. rewrite Ht. change (default 0 (Some i)) with i. rewrite Hf by done. cbn [mbind option_bind omap list_omap].
  destruct (f i); [done|]. apply first_entry_spec. intros j Hj%elem_of_seqZ. apply Hf. lia.
Qed.

(** The entry the reader shows for index [i] after these setters: the last title set for it, when its
    name is in use. *)
Definition shown (setters : list setter) (i : Z) : option NacpLanguageEntry :=
  let title := last_title setters i in if in_use title.1 then Some (stored_title title) else None.

(** C25. Titles set for all languages and for one compose, and the last writer for a language wins; and the
    reader, which has a table of its own from languages to entries, shows for a language the title last
    set for it, or when that is empty the first entry in use, or nothing when none is. *)
Theorem nacp_titles `{Zerocopy} setters :
  ∃ b, apply_setters NacpBuilder_new setters = Some b ∧
    (∀ i, 0 ≤ i < 16 → index (titles b) i = Some (last_title setters i)) ∧
    ∀ bytes, build b = Ok bytes → ∃ nacp, try_from_bytes bytes = Ok nacp ∧
      ∀ lang, ∃ i, language_to_index lang = Some i ∧
        language_entry_for nacp lang = Some (head (omap (shown setters) (i :: seqZ 0 16))).
Proof.
  destruct (set_titles setters) as (b & Hs & Hb & Ht). exists b. split; [done|]. split; [done|].
  intros bytes Hbytes. pose proof (nacp_build_cases b Hb) as Hc. rewrite Hbytes in Hc. destruct Hc as [Hf ->].
  exists {| na_raw := raw_of b |}. split.
  { rewrite <-(app_nil_r (as_bytes (raw_of b))). apply nacp_read_ok. by apply wf_nacp_raw. }
  intros lang. apply language_entry_for_spec. intros i Hi. rewrite language_entry_built by (done || lia).
  unfold title_at. by rewrite Ht.
Qed.

(** French is overridden after the name for all; the publisher for all comes last. *)
Definition sample_setters : list setter :=
  [SetNameFor JA [x6a]; SetName [x41]; SetNameFor FR [x66]; SetAuthorFor FR [x31]; SetAuthor [x32]].

Lemma nacp_titles_witness :
  ∃ b bytes nacp, apply_setters NacpBuilder_new sample_setters = Some b ∧
    @build zerocopy_reference b = Ok bytes ∧ @try_from_bytes zerocopy_reference bytes = Ok nacp ∧
    language_entry_for nacp FR = Some (Some (stored_title (Some [x66], Some [x32]))) ∧
    language_entry_for nacp JA = Some (Some (stored_title (Some [x41], Some [x32]))).
Proof.
  destruct (@nacp_titles zerocopy_reference sample_setters) as (b & Hb & _ & Hr).
  assert (∃ bytes, @build zerocopy_reference b = Ok bytes) as [bytes Hbytes].
  { injection Hb as <-. eexists. apply nacp_build_ok; split; try reflexivity; try exact I. repeat constructor; done. }
  destruct (Hr bytes Hbytes) as (nacp & Hn & Hl). exists b, bytes, nacp. split; [exact Hb|]. split; [exact Hbytes|].
  split; [exact Hn|]. split.
  - destruct (Hl FR) as (i & Hi & ->). injection Hi as <-. reflexivity.
  - destruct (Hl JA) as (i & Hi & ->). injection Hi as <-. reflexivity.
Defined.

(** ** The reader on any bytes *)

Lemma cstr_to_str_spec l :
  ∃ s, cstr_to_str l = Some s ∧ utf8_valid s = true ∧ contains_byte s 0 = false.
Proof.
  unfold cstr_to_str. rewrite get_to_ok by apply nul_position_range. cbn [mbind option_bind].
  eexists. split; [done|]. unfold utf8_or_empty. destruct (utf8_valid (ztake (nul_position l) l)) eqn:Hu; [|done].
  split; [done|]. apply contains_byte_before_nul.
Qed.

Lemma language_entry_total nacp i : wf (na_raw nacp) → 0 ≤ i →
  ∃ e, language_entry nacp i = Some e ∧ (16 ≤ i → e = None).
Proof.
  intros Hw Hi. unfold language_entry. case_match; zify_bool; [by exists None|].
  assert (len (ns_lang (na_raw nacp)) = 16 ∧ Forall wf (ns_lang (na_raw nacp))) as [Hl Hls].
  { destruct nacp as [raw]. destruct raw. cbn in Hw |- *. destruct_and! Hw. split; [|done]. unfold len.
    match goal with H : length _ = _ |- _ => by rewrite H end. }
  destruct (index_in_range (ns_lang (na_raw nacp)) i) as [e He]; [lia|]. rewrite He. cbn [mbind option_bind].
  assert (len (nl_name e) = 0x200) as Hn.
  { rewrite Forall_lookup in Hls. unfold index in He. rewrite (Zle_imp_le_bool _ _ Hi) in He. apply (Hls _ _ He). }
  destruct (index_in_range (nl_name e) 0) as [c Hc]; [lia|]. rewrite Hc. cbn [mbind option_bind].
  destruct (b2z c =? 0); eexists; (split; [done|lia]).
Qed.

Lemma head_omap_None {A B} (f : A → option B) l : head (omap f l) = None ↔ ∀ x, x ∈ l → f x = None.
Proof.
  induction l as [|x l IH]; cbn [omap list_omap head]; [split; [by intros _ x Hx%elem_of_nil|done]|].
  destruct (f x) eqn:Hx; cbn [head].
  - split; [done|]. intros Hf. rewrite <-Hx. apply Hf. constructor.
  - rewrite IH. split; [intros Hf y [->|Hy]%elem_of_cons; auto|]. intros Hf y Hy. apply Hf. by constructor.
Qed.

(** Any bytes are safe to read: [try_from_bytes] accepts exactly the buffers of at least [0x4000] bytes
    and takes the structure from their front; no accessor of it panics at any index or for any language;
    the version is text without a NUL; and a language is shown nothing exactly when no entry of the
    table is in use. *)
Theorem nacp_reader_safe `{Zerocopy} bytes :
  match try_from_bytes bytes with
  | Ok nacp =>
    0x4000 ≤ len bytes ∧ as_bytes (na_raw nacp) = ztake 0x4000 bytes ∧
    (∀ i, 0 ≤ i → ∃ e, language_entry nacp i = Some e ∧ (16 ≤ i → e = None)) ∧
    (∃ v, display_version nacp = Some v ∧ utf8_valid v = true ∧ contains_byte v 0 = false) ∧
    ∀ lang, ∃ e, language_entry_for nacp lang = Some e ∧
      (e = None ↔ ∀ i, 0 ≤ i < 16 → language_entry nacp i = Some None)
  | Err e => len bytes < 0x4000 ∧ e = {| required := 0x4000; available := len bytes |}
  | Panic => False
  end.
Proof.
  unfold try_from_bytes, guard_err. rewrite size_of_NacpStruct.
  destruct (Z.ltb_spec (len bytes) 0x4000) as [Hlen|Hlen]; [by split|].
  cbn [mbind outcome_bind]. rewrite ref_from_prefix_ok by (rewrite size_of_NacpStruct; lia).
  rewrite size_of_NacpStruct. cbn [ok_or mbind outcome_bind].
  assert (len (ztake 0x4000 bytes) = size_of NacpStruct) as Hl by (rewrite size_of_NacpStruct, len_ztake; lia).
  set (nacp := {| na_raw := of_bytes (ztake 0x4000 bytes) |}).
  assert (wf (na_raw nacp)) as Hw by by apply wf_of_bytes.
  assert (∀ i, 0 ≤ i < 16 → language_entry nacp i = Some (default None (language_entry nacp i))) as Ht.
  { intros i Hi. by destruct (language_entry_total nacp i Hw) as (e & -> & _); [lia|]. }
  split; [lia|]. split; [rewrite as_bytes_spec; by apply to_of_bytes|].
  split; [intros i Hi; by apply language_entry_total|]. split; [apply cstr_to_str_spec|].
  intros lang. destruct (language_entry_for_spec nacp lang _ Ht) as (i & Hi & ->).
  destruct (language_index lang) as (k & Hk & _ & Hr). rewrite Hi in Hk. injection Hk as ->.
  eexists. split; [done|]. rewrite head_omap_None. split.
  - intros Hf j Hj. rewrite Ht by done. f_equal. apply Hf. constructor. apply elem_of_seqZ. lia.
  - intros Hf j [->|Hj]%elem_of_cons; [by rewrite Hf|]. apply elem_of_seqZ in Hj. by rewrite Hf by lia.
Qed.

(** ** Memory *)

Inductive FromPtrError := FromPtr (source : FromBytesError).

Definition try_from_ptr `{Zerocopy} (mem : memory) (ptr : Z) : outcome FromPtrError Nacp :=
  map_err FromPtr (try_from_bytes (from_raw_parts mem ptr 0x4000)).

(** The reader on a buffer that is long enough. *)
Lemma nacp_try_from_bytes_long `{Zerocopy} bytes (raw : NacpStruct) :
  0x4000 ≤ len bytes → raw = of_bytes (ztake 0x4000 bytes) → try_from_bytes bytes = Ok {| na_raw := raw |}.
Proof.
  intros Hl. rewrite <-size_of_NacpStruct in Hl |- *. unfold try_from_bytes.
  rewrite (proj2 (Z.ltb_ge _ _)) by done. cbn [guard_err mbind outcome_bind].
  rewrite ref_from_prefix_ok by done.
  generalize (of_bytes (ztake (size_of NacpStruct) bytes) : NacpStruct). intros raw' ->. done.
Qed.

(** A NACP in memory is always read: exactly [0x4000] bytes are borrowed, whatever they are, and a buffer
    that starts with what is there reads as the same NACP. *)
Theorem nacp_try_from_ptr `{Zerocopy} mem ptr :
  ∃ nacp, try_from_ptr mem ptr = Ok nacp ∧ as_bytes (na_raw nacp) = from_raw_parts mem ptr 0x4000 ∧
    ∀ bytes, mem_holds mem ptr bytes → 0x4000 ≤ len bytes → try_from_bytes bytes = Ok nacp.
Proof.
  unfold try_from_ptr.
  assert (len (from_raw_parts mem ptr 0x4000) = 0x4000) as Hl by (apply len_from_raw_parts; lia).
  remember (of_bytes (from_raw_parts mem ptr 0x4000) : NacpStruct) as raw eqn:Hraw.
  exists {| na_raw := raw |}. split; [|split].
  - rewrite (nacp_try_from_bytes_long _ raw); [reflexivity|lia|]. rewrite ztake_all by lia. exact Hraw.
  - cbn [na_raw]. rewrite Hraw, as_bytes_spec. apply to_of_bytes. by rewrite size_of_NacpStruct.
  - intros bytes Hb Hlen. apply nacp_try_from_bytes_long; [done|].
    rewrite <-(from_raw_parts_take mem ptr bytes 0x4000 Hb ltac:(lia)). exact Hraw.
Qed.
