(* ===== verification/Elf.v ===== *)
(** * ELF segments: [elf/segments.rs]

    From a linked ELF to the segments an NRO or NSO builder is filled with. The ELF itself is read by
    the object crate, which is third-party: the class [ObjectElf] takes what the code asks of it as a
    parameter, with what its documentation says as laws. An [option] whose [None] is a panic is the
    result of an infallible function. *)

From S2P Require Import Prelude Bytes Strs Layout Crates Nro Nso.
#[local] Open Scope Z_scope.

(** ** The object crate *)

(** What [ObjectSegment] and [ObjectSection] tell; [None] stands for an error the code does not look
    into. *)
Record ElfSegment := {
  seg_address : Z;
  seg_mem_size : Z;
  seg_file_range : Z * Z;
  seg_data : option (list byte);
}.
Record ElfSection := {
  sec_name : option (list byte);
  sec_address : Z;
  sec_size : Z;
  sec_is_note : bool;
  sec_data : option (list byte);
}.

Record segment_ok (s : ElfSegment) : Prop := {
  so_address : is_u64 (seg_address s);
  so_mem_size : is_u64 (seg_mem_size s);
  so_file_size : is_u64 (seg_file_range s).2;
  (** The data of a segment is its file range. *)
  so_data_len l : seg_data s = Some l → len l = (seg_file_range s).2;
}.

Class ObjectElf := {
  PT_LOAD : Z;
  NT_GNU_BUILD_ID : Z;
  elf : Type;
  read_error : Type;
  elf_parse : list byte → read_error + elf;
  is_aarch64 : elf → bool;
  (** [elf_program_headers]: the type of each, with the segment it describes. *)
  program_headers : elf → list (Z * ElfSegment);
  (** [Object::segments]. *)
  segments : elf → list ElfSegment;
  sections : elf → list ElfSection;
  (** "Get an iterator for the loadable segments in the file. For ELF, this is program headers with
      type [PT_LOAD]." *)
  segments_spec e : segments e = (filter (λ h, h.1 = PT_LOAD) (program_headers e)).*2;
  NT_GNU_BUILD_ID_u32 : is_u32 NT_GNU_BUILD_ID;
  segments_ok e : Forall segment_ok (segments e);
}.

(** ** Parsing *)

Record SectionInfo := {
  si_addr : Z;
  si_size : Z;
}.

Record ElfSegments := {
  es_text : list byte;
  es_text_vaddr : Z;
  es_rodata : list byte;
  es_rodata_vaddr : Z;
  es_data : list byte;
  es_data_vaddr : Z;
  es_bss_size : Z;
  es_build_id : option (list byte);
  es_mod0_offset : option Z;
  es_dynamic : option SectionInfo;
  es_dynstr : option SectionInfo;
  es_dynsym : option SectionInfo;
  es_eh_frame_hdr : option SectionInfo;
}.

(** The tuples [(address, data, memsz, filesz)] the segments are collected as. *)
Record LoadSegment := {
  ls_addr : Z;
  ls_data : list byte;
  ls_memsz : Z;
  ls_filesz : Z;
}.

Section parse.
Context `{ObjectElf}.

Inductive ParseError :=
| InvalidElf (source : read_error)
| UnsupportedArch
| MissingText
| MissingRodata
| MissingData
| UnreadableSegment (address : Z).

(** The loop over the program headers zipped with the segments. *)
Fixpoint load_segments (l : list ((Z * ElfSegment) * ElfSegment)) : outcome ParseError (list LoadSegment) :=
  match l with
  | [] => Ok []
  | (raw, seg) :: l =>
    if raw.1 =? PT_LOAD then
      data ← ok_or (seg_data seg) (UnreadableSegment (seg_address seg));
      rest ← load_segments l;
      Ok ({| ls_addr := seg_address seg; ls_data := data; ls_memsz := seg_mem_size seg;
             ls_filesz := (seg_file_range seg).2 |} :: rest)
    else load_segments l
  end.

(** [(value + 0xFFF) & !0xFFF]. *)
Definition round_page (value : Z) : option Z :=
  sum ← checked_add value 0xFFF;
  Some (Z.land sum (Z.lnot 0xFFF)).

Definition bss_size_of (segs : list LoadSegment) : outcome ParseError Z :=
  if 4 <=? len segs then
    seg ← ok_or (segs !! 3%nat) MissingData;
    or_panic (round_page (ls_memsz seg))
  else
    seg ← ok_or (segs !! 2%nat) MissingData;
    if ls_filesz seg <? ls_memsz seg then
      aligned_filesz ← or_panic (round_page (ls_filesz seg));
      if aligned_filesz <? ls_memsz seg then or_panic (round_page (ls_memsz seg - aligned_filesz)) else Ok 0
    else Ok 0.

(** What the body of the loop over the sections makes of the data of a note: [Some None] is
    [continue]. *)
Definition note_build_id (data : list byte) : option (option (list byte)) :=
  if len data <? 12 then Some None else
  namesz_bytes ← get_range data 0 4;
  descsz_bytes ← get_range data 4 8;
  type_bytes ← get_range data 8 12;
  let namesz := le_val namesz_bytes in
  let descsz := le_val descsz_bytes in
  let note_type := le_val type_bytes in
  if (note_type =? NT_GNU_BUILD_ID) && (namesz =? 4) then
    name_end ← checked_add 12 namesz;
    if len data <? name_end then Some None else
    name ← get_range data 12 name_end;
    if negb (bool_decide (name = [x47; x4e; x55; x00])) then Some None else
    padded ← checked_add namesz 3;
    desc_offset ← checked_add 12 (Z.land padded (Z.lnot 3));
    if len data <? desc_offset then Some None else
    let copy_size := Z.min (Z.min descsz 0x20) (len data - desc_offset) in
    desc ← get_range data desc_offset (desc_offset + copy_size);
    build_id ← copy_from_slice (zeros 0x20) 0 copy_size desc;
    Some (Some build_id)
  else Some None.

Definition section_build_id (section : ElfSection) : option (option (list byte)) :=
  if sec_is_note section then
    match sec_data section with Some data => note_build_id data | None => Some None end
  else Some None.

Fixpoint extract_build_id (l : list ElfSection) : option (option (list byte)) :=
  match l with
  | [] => Some None
  | section :: l =>
    id ← section_build_id section;
    match id with Some id => Some (Some id) | None => extract_build_id l end
  end.

Definition mod0_offset_of (text : list byte) : option (option Z) :=
  if 8 <=? len text then
    offset_bytes ← get_range text 4 8;
    let offset := le_val offset_bytes in
    Some (if (0 <? offset) && (offset <? as_u32 (len text)) then Some offset else None)
  else Some None.

(** The last section of a name. *)
Fixpoint find_section (name : list byte) (found : option SectionInfo) (l : list ElfSection) : option SectionInfo :=
  match l with
  | [] => found
  | section :: l =>
    let info := {| si_addr := sec_address section; si_size := sec_size section |} in
    find_section name (if bool_decide (sec_name section = Some name) then Some info else found) l
  end.

Definition dynamic_name : list byte := [x2e; x64; x79; x6e; x61; x6d; x69; x63].
Definition dynstr_name : list byte := [x2e; x64; x79; x6e; x73; x74; x72].
Definition dynsym_name : list byte := [x2e; x64; x79; x6e; x73; x79; x6d].
Definition eh_frame_hdr_name : list byte :=
  [x2e; x65; x68; x5f; x66; x72; x61; x6d; x65; x5f; x68; x64; x72].

Definition by_addr (a b : LoadSegment) : bool := ls_addr a <=? ls_addr b.

Definition parse (data : list byte) : outcome ParseError ElfSegments :=
  elf ← match elf_parse data with inl e => Err (InvalidElf e) | inr elf => Ok elf end;
  _ ← guard_err (negb (is_aarch64 elf)) UnsupportedArch;
  segs ← load_segments (zip (program_headers elf) (segments elf));
  let segs := sort_by by_addr segs in
  text ← ok_or (segs !! 0%nat) MissingText;
  rodata ← ok_or (segs !! 1%nat) MissingRodata;
  data ← ok_or (segs !! 2%nat) MissingData;
  bss_size ← bss_size_of segs;
  build_id ← or_panic (extract_build_id (sections elf));
  mod0_offset ← or_panic (mod0_offset_of (ls_data text));
  Ok {| es_text := ls_data text; es_text_vaddr := ls_addr text;
        es_rodata := ls_data rodata; es_rodata_vaddr := ls_addr rodata;
        es_data := ls_data data; es_data_vaddr := ls_addr data;
        es_bss_size := bss_size; es_build_id := build_id; es_mod0_offset := mod0_offset;
        es_dynamic := find_section dynamic_name None (sections elf);
        es_dynstr := find_section dynstr_name None (sections elf);
        es_dynsym := find_section dynsym_name None (sections elf);
        es_eh_frame_hdr := find_section eh_frame_hdr_name None (sections elf) |}.
End parse.

(** ** Filling the builders *)

Definition into_nro_builder (s : ElfSegments) : NroBuilder :=
  let builder := nro_text NroBuilder_new (es_text s) in
  let builder := nro_text_vaddr builder (as_u32 (es_text_vaddr s)) in
  let builder := nro_rodata builder (es_rodata s) in
  let builder := nro_rodata_vaddr builder (as_u32 (es_rodata_vaddr s)) in
  let builder := nro_data builder (es_data s) in
  let builder := nro_data_vaddr builder (as_u32 (es_data_vaddr s)) in
  let builder := nro_bss_size builder (as_u32 (es_bss_size s)) in
  match es_build_id s with Some build_id => nro_build_id builder build_id | None => builder end.

Definition into_nso_builder (s : ElfSegments) : NsoBuilder :=
  let builder := nso_text NsoBuilder_new (es_text s) in
  let builder := nso_text_vaddr builder (as_u32 (es_text_vaddr s)) in
  let builder := nso_rodata builder (es_rodata s) in
  let builder := nso_rodata_vaddr builder (as_u32 (es_rodata_vaddr s)) in
  let builder := nso_data builder (es_data s) in
  let builder := nso_data_vaddr builder (as_u32 (es_data_vaddr s)) in
  let builder := nso_bss_size builder (as_u32 (es_bss_size s)) in
  match es_build_id s with Some build_id => nso_module_id builder build_id | None => builder end.

(** ** Lemmas: the segments that are considered *)

Section parse_lemmas.
Context `{ObjectElf}.

(** A segment whose data can be read, as the tuple the code collects. *)
Definition load_of (seg : ElfSegment) : option LoadSegment :=
  data ← seg_data seg;
  Some {| ls_addr := seg_address seg; ls_data := data; ls_memsz := seg_mem_size seg;
          ls_filesz := (seg_file_range seg).2 |}.

(** The segments paired with a [PT_LOAD] header. *)
Definition considered (l : list ((Z * ElfSegment) * ElfSegment)) : list ElfSegment :=
  (filter (λ p, p.1.1 = PT_LOAD) l).*2.

Lemma load_segments_spec l :
  match load_segments l with
  | Ok segs => mapM load_of (considered l) = Some segs
  | Err e => ∃ s, s ∈ considered l ∧ seg_data s = None ∧ e = UnreadableSegment (seg_address s)
  | Panic => False
  end.
Proof.
  unfold considered. induction l as [|[raw seg] l IH]; [done|]. cbn [load_segments]. rewrite filter_cons. cbn [fst].
  destruct (Z.eqb_spec raw.1 PT_LOAD) as [Hl|Hl]; [rewrite decide_True by done|by rewrite decide_False].
  cbn [fmap list_fmap snd]. destruct (seg_data seg) as [data|] eqn:Hd; bind_cbn.
  - destruct (load_segments l) as [segs|e|]; bind_cbn; [| |done].
    { cbn [mapM]. rewrite IH. unfold load_of. by rewrite Hd. }
    destruct IH as (s & Hs & He). exists s. split; [by constructor|done].
  - exists seg. split; [constructor|done].
Qed.

Lemma considered_length l : (length (considered l) ≤ length l)%nat.
Proof. unfold considered. rewrite length_fmap. apply length_filter. Qed.

(** When the [PT_LOAD] headers come first, each is paired with its own segment. *)
Lemma considered_loads_first loads others :
  Forall (λ h, h.1 = PT_LOAD) loads →
  considered (zip (loads ++ others) loads.*2) = loads.*2.
Proof.
  unfold considered. induction 1 as [|h loads Hh Hl IH]; [by destruct others|].
  cbn [app fmap list_fmap zip_with]. rewrite filter_cons_True by done. cbn [fmap list_fmap snd]. by f_equal.
Qed.

Lemma filter_loads_first (loads others : list (Z * ElfSegment)) :
  Forall (λ h, h.1 = PT_LOAD) loads → Forall (λ h, h.1 ≠ PT_LOAD) others →
  filter (λ h, h.1 = PT_LOAD) (loads ++ others) = loads.
Proof.
  intros Hl Ho. induction Hl as [|h loads Hh Hl IH]; cbn [app].
  - induction Ho as [|h others Hh Ho IH]; [done|]. by rewrite filter_cons_False.
  - rewrite filter_cons_True by done. by f_equal.
Qed.

End parse_lemmas.

(** ** Lemmas: sizes *)

Lemma round_page_spec v : 0 ≤ v →
  match round_page v with
  | Some r => r mod 0x1000 = 0 ∧ v ≤ r < v + 0x1000
  | None => U64_MAX < v + 0xFFF
  end.
Proof.
  intros Hv. unfold round_page, checked_add. destruct (Z.leb_spec (v + 0xFFF) USIZE_MAX); cbn [mbind option_bind]; [|done].
  change (Z.land (v + 4095) (Z.lnot 4095)) with (align_up v (2 ^ 12)).
  destruct (align_up_spec v 0x1000 12) as (H1 & H2 & H3); [lia..|]. done.
Qed.

(** What [bss_size_of] returns: whole pages that, with the pages of the data segment's file contents,
    or alone for a fourth segment, cover the memory size, with less than a page to spare. *)
Definition bss_covers (segs : list LoadSegment) (bss : Z) : Prop :=
  bss mod 0x1000 = 0 ∧
  match segs with
  | [_; _; d] => ∃ pages, pages mod 0x1000 = 0 ∧ ls_filesz d ≤ pages < ls_filesz d + 0x1000 ∧
      (ls_memsz d ≤ pages ∧ bss = 0 ∨ pages < ls_memsz d ≤ pages + bss ∧ pages + bss < ls_memsz d + 0x1000)
  | _ :: _ :: _ :: x :: _ => ls_memsz x ≤ bss < ls_memsz x + 0x1000
  | _ => False
  end.

Lemma bss_size_of_spec `{ObjectElf} segs :
  Forall (λ s, is_u64 (ls_memsz s) ∧ is_u64 (ls_filesz s)) segs → (3 ≤ length segs)%nat →
  match bss_size_of segs with
  | Ok bss => bss_covers segs bss
  | Err _ => False
  | Panic => ∃ s, s ∈ segs ∧ U64_MAX < ls_memsz s + 0xFFF
  end.
Proof.
  intros Hw Hl. destruct segs as [|a [|b [|d segs]]]; cbn in Hl; try lia. clear Hl.
  apply Forall_cons in Hw as [_ Hw]. apply Forall_cons in Hw as [_ Hw]. apply Forall_cons in Hw as [[Hdm Hdf] Hw].
  unfold is_u64 in Hdm, Hdf. unfold bss_size_of. destruct segs as [|x segs].
  - change (4 <=? len [a; b; d]) with false. cbn [lookup list_lookup ok_or mbind outcome_bind].
    destruct (Z.ltb_spec (ls_filesz d) (ls_memsz d)) as [Hlt|Hge].
    2:{ split; [done|]. destruct (align_up_spec (ls_filesz d) 0x1000 12) as (H1 & H2); [lia..|].
        exists (align_up (ls_filesz d) 0x1000). split_and!; [done|lia..|]. left. split; [lia|done]. }
    pose proof (round_page_spec (ls_filesz d) ltac:(lia)) as Hr.
    destruct (round_page (ls_filesz d)) as [pages|]; cbn [or_panic mbind outcome_bind].
    2:{ exists d. split; [by do 2 right; left|lia]. }
    destruct Hr as [Hp Hr]. destruct (Z.ltb_spec pages (ls_memsz d)) as [Hlt'|Hge'].
    2:{ split; [done|]. exists pages. split_and!; [done|lia..|]. left. split; [lia|done]. }
    pose proof (round_page_spec (ls_memsz d - pages) ltac:(lia)) as Hb.
    destruct (round_page (ls_memsz d - pages)) as [bss|]; cbn [or_panic].
    + destruct Hb as [Hb Hb']. split; [done|]. exists pages. split_and!; [done|lia..|]. right. lia.
    + exists d. split; [by do 2 right; left|lia].
  - replace (4 <=? len (a :: b :: d :: x :: segs)) with true by (rewrite !len_cons; pose proof (len_nonneg segs); symmetry; apply Z.leb_le; lia).
    cbn [lookup list_lookup ok_or mbind outcome_bind]. apply Forall_cons in Hw as [[Hxm _] _]. unfold is_u64 in Hxm.
    pose proof (round_page_spec (ls_memsz x) ltac:(lia)) as Hr. destruct (round_page (ls_memsz x)) as [bss|]; cbn [or_panic].
    + done.
    + exists x. split; [by do 3 right; left|lia].
Qed.

(** ** Lemmas: the build id *)

Lemma note_build_id_total `{ObjectElf} data :
  ∃ id, note_build_id data = Some id ∧ ∀ i, id = Some i → len i = 0x20.
Proof.
  unfold note_build_id. destruct (Z.ltb_spec (len data) 12) as [Hs|Hs]; [by exists None|].
  rewrite !get_range_ok by lia. cbn [mbind option_bind].
  match goal with |- context [if ?c then _ else _] => destruct c eqn:Hc; [|by exists None] end.
  apply andb_true_iff in Hc as [_ Hn%Z.eqb_eq]. rewrite Hn. change (checked_add 12 4) with (Some 16). cbn [mbind option_bind].
  destruct (Z.ltb_spec (len data) 16) as [Hs'|Hs']; [by exists None|]. rewrite get_range_ok by lia. cbn [mbind option_bind].
  case_match; [by exists None|]. change (checked_add 4 3) with (Some 7). cbn [mbind option_bind].
  change (checked_add 12 (Z.land 7 (Z.lnot 3))) with (Some 16). cbn [mbind option_bind].
  destruct (Z.ltb_spec (len data) 16); [lia|].
  match goal with |- context [Z.min (Z.min ?d 0x20) _] => pose proof (le_val_range (ztake (8 - 4) (zdrop 4 data))) as Hd; set (descsz := d) in * end.
  set (n := Z.min (Z.min descsz 32) (len data - 16)). assert (0 ≤ n ≤ 32 ∧ n ≤ len data - 16) as [Hn0 Hn1] by lia.
  rewrite get_range_ok by lia. cbn [mbind option_bind].
  assert (len (ztake (16 + n - 16) (zdrop 16 data)) = n) as Hl by (rewrite len_ztake; [lia|]; rewrite len_zdrop; lia).
  replace (zeros 32) with (zeros n ++ zeros (32 - n)) by (rewrite <-zeros_add by lia; f_equal; lia).
  rewrite copy_from_slice_start by (rewrite ?len_zeros by lia; lia). cbn [mbind option_bind].
  eexists. split; [done|]. intros i [= <-]. rewrite len_app, Hl, len_zeros by lia. lia.
Qed.

Lemma extract_build_id_total `{ObjectElf} l :
  ∃ id, extract_build_id l = Some id ∧ ∀ i, id = Some i → len i = 0x20.
Proof.
  induction l as [|s l IH]; [by exists None|]. cbn [extract_build_id].
  assert (∃ id, section_build_id s = Some id ∧ ∀ i, id = Some i → len i = 0x20) as (id & -> & Hid).
  { unfold section_build_id. destruct (sec_is_note s); [|by exists None].
    destruct (sec_data s); [apply note_build_id_total|by exists None]. }
  cbn [mbind option_bind]. destruct id as [id|]; [|done]. eexists. by split.
Qed.

Lemma mod0_offset_of_total text : is_Some (mod0_offset_of text).
Proof.
  unfold mod0_offset_of. destruct (Z.leb_spec 8 (len text)); [|by eexists].
  rewrite get_range_ok by lia. by eexists.
Qed.

(** ** Properties *)

Section properties.
Context `{ObjectElf}.

(** The loadable segments come first among the program headers, as linker scripts for the platform
    list them. *)
Definition loads_first (e : elf) : Prop :=
  ∃ loads others, program_headers e = loads ++ others ∧
    Forall (λ h, h.1 = PT_LOAD) loads ∧ Forall (λ h, h.1 ≠ PT_LOAD) others.

Lemma considered_all e : loads_first e → considered (zip (program_headers e) (segments e)) = segments e.
Proof.
  intros (loads & others & Hh & Hl & Ho). rewrite segments_spec, Hh, filter_loads_first by done.
  by apply considered_loads_first.
Qed.

Lemma load_of_widths segs found : Forall segment_ok segs → mapM load_of segs = Some found →
  Forall (λ s, is_u64 (ls_memsz s) ∧ is_u64 (ls_filesz s)) found ∧
  ∀ s, s ∈ found → ∃ seg, seg ∈ segs ∧ ls_memsz s = seg_mem_size seg.
Proof.
  intros Hok Hm%mapM_Some. induction Hm as [|seg s segs found Hs Hm IH]; [by split; [|intros s Hs%elem_of_nil]|].
  apply Forall_cons in Hok as [Ho Hok]. destruct (IH Hok) as [Hw Hin]. unfold load_of in Hs.
  destruct (seg_data seg); [|done]. injection Hs as <-. split.
  - constructor; [|done]. split; apply Ho.
  - intros s [->|Hs]%elem_of_cons; [by exists seg; split; [left|]|].
    destruct (Hin s Hs) as (g & Hg & He). exists g. split; [by right|done].
Qed.

Lemma sort_by_addr_sorted l : StronglySorted (λ a b, ls_addr a ≤ ls_addr b) (sort_by by_addr l).
Proof.
  assert (StronglySorted (λ x y, by_addr x y = true) (sort_by by_addr l)) as Hs.
  { apply sort_by_sorted; unfold by_addr; intros; zify_bool; lia. }
  induction Hs as [|x k Hk IH Hx]; constructor; [done|]. eapply Forall_impl; [exact Hx|]. intros y Hy. by apply Z.leb_le.
Qed.

Lemma mod0_offset_in_range text o : mod0_offset_of text = Some (Some o) → 0 < o < len text.
Proof.
  unfold mod0_offset_of. destruct (Z.leb_spec 8 (len text)); [|done]. rewrite get_range_ok by lia.
  cbn [mbind option_bind]. case_match eqn:Hc; [|done]. intros [= <-]. apply andb_true_iff in Hc as [Hp Hlt].
  apply Z.ltb_lt in Hp, Hlt. split; [done|]. unfold as_u32 in Hlt. pose proof (Z.mod_le (len text) (2 ^ 32)). lia.
Qed.

(** C24. What [parse] finds in an ELF whose loadable segments come first: exactly when the machine is
    AArch64, every loadable segment can be read and there are at least three, it returns, as text,
    rodata and data, the first three by address; the BSS size is whole pages that
    cover what the image asks beyond the file, with less than a page to spare; a MOD0 offset lies
    inside the text. Each error names its cause, and the only panic is a memory size so large that
    rounding it to a page overflows. *)
Theorem elf_parse_spec data e : elf_parse data = inr e → loads_first e →
  match parse data with
  | Ok s =>
    is_aarch64 e = true ∧
    ∃ found t r d rest, mapM load_of (segments e) = Some found ∧
      t :: r :: d :: rest ≡ₚ found ∧ StronglySorted (λ a b, ls_addr a ≤ ls_addr b) (t :: r :: d :: rest) ∧
      (es_text s = ls_data t ∧ es_text_vaddr s = ls_addr t) ∧
      (es_rodata s = ls_data r ∧ es_rodata_vaddr s = ls_addr r) ∧
      (es_data s = ls_data d ∧ es_data_vaddr s = ls_addr d) ∧
      bss_covers (t :: r :: d :: rest) (es_bss_size s) ∧
      ∀ o, es_mod0_offset s = Some o → 0 < o < len (es_text s)
  | Err (InvalidElf _) => False
  | Err UnsupportedArch => is_aarch64 e = false
  | Err (UnreadableSegment a) => ∃ s, s ∈ segments e ∧ seg_data s = None ∧ a = seg_address s
  | Err MissingText => segments e = []
  | Err MissingRodata => length (segments e) = 1%nat
  | Err MissingData => length (segments e) = 2%nat
  | Panic => ∃ s, s ∈ segments e ∧ U64_MAX < seg_mem_size s + 0xFFF
  end.
Proof.
  intros He Hlf. unfold parse. rewrite He. cbn [mbind outcome_bind]. unfold guard_err.
  destruct (is_aarch64 e) eqn:Ha; [|done]. cbn [negb mbind outcome_bind].
  pose proof (load_segments_spec (zip (program_headers e) (segments e))) as Hl. rewrite (considered_all e Hlf) in Hl.
  destruct (load_segments _) as [found|x|]; cbn [mbind outcome_bind]; [|by destruct Hl as (s & Hs & Hd & ->); exists s|done].
  destruct (load_of_widths _ _ (segments_ok e) Hl) as [Hw Hin].
  pose proof (sort_by_perm by_addr found) as Hp. pose proof (sort_by_addr_sorted found) as Hst.
  assert (length (segments e) = length (sort_by by_addr found)) as Hlen.
  { rewrite Hp. apply mapM_Some in Hl. by eapply Forall2_length. }
  destruct (sort_by by_addr found) as [|t [|r [|d rest]]] eqn:Hs; cbn [lookup list_lookup ok_or mbind outcome_bind];
    [by apply nil_length_inv|done|done|].
  rewrite <-Hp in Hw. pose proof (bss_size_of_spec _ Hw ltac:(cbn; lia)) as Hb.
  destruct (bss_size_of _) as [bss|x|]; cbn [mbind outcome_bind]; [|done|].
  2:{ destruct Hb as (s & Hs' & Hm). rewrite Hp in Hs'. destruct (Hin s Hs') as (seg & Hseg & Heq). exists seg. split; [done|lia]. }
  destruct (extract_build_id_total (sections e)) as (id & -> & _). cbn [or_panic mbind outcome_bind].
  destruct (mod0_offset_of_total (ls_data t)) as [o Ho]. rewrite Ho. cbn [or_panic mbind outcome_bind].
  split; [done|]. exists found, t, r, d, rest. split_and!; try done.
  intros o' Ho'. cbn in Ho' |- *. subst o. by apply mod0_offset_in_range.
Qed.

(** C39. The program headers are zipped with a list that holds only the loadable segments, so a header of
    another type in front shifts the pairing: every loadable header is then paired with the segment
    after its own, the first segment is never taken, and an ELF with just the three segments the
    formats need is refused. *)
Theorem elf_parse_skew data e h t :
  elf_parse data = inr e → program_headers e = h :: t → h.1 ≠ PT_LOAD →
  (segments e = [] ∨ ∃ first others, segments e = first :: others ∧
     considered (zip (program_headers e) (segments e)) `sublist_of` others) ∧
  (length (segments e) = 3%nat → ∀ s, parse data ≠ Ok s).
Proof.
  intros He Hh Hne. assert (∀ first others, segments e = first :: others →
    considered (zip (program_headers e) (segments e)) `sublist_of` others) as Hs.
  { intros first others Hs. rewrite Hh, Hs. unfold considered. cbn [zip_with]. rewrite filter_cons_False by done.
    transitivity ((zip t others).*2); [apply fmap_sublist, sublist_filter|].
    clear. revert t. induction others as [|o others IH]; intros [|x t]; cbn; try apply sublist_nil_l.
    by apply sublist_skip. }
  assert (segments e = [] ∨ ∃ first others, segments e = first :: others) as Hc by (destruct (segments e); eauto).
  split. { destruct Hc as [|(first & others & E)]; [by left|]. right. exists first, others. split; [done|by eapply Hs]. }
  intros Hl s. destruct Hc as [E|(first & others & E)]; [by rewrite E in Hl|]. specialize (Hs first others E).
  rewrite E in Hl, Hs.
  apply sublist_length in Hs. cbn in Hl. unfold parse. rewrite He. cbn [mbind outcome_bind]. rewrite E. unfold guard_err.
  destruct (negb (is_aarch64 e)); [done|]. cbn [mbind outcome_bind].
  pose proof (load_segments_spec (zip (program_headers e) (first :: others))) as Hld.
  destruct (load_segments _) as [found|x|]; cbn [mbind outcome_bind]; [|done|done].
  apply mapM_Some, Forall2_length in Hld. pose proof (Permutation_length (sort_by_perm by_addr found)) as Hp.
  destruct (sort_by by_addr found) as [|a [|b [|c k]]]; cbn [lookup list_lookup ok_or mbind outcome_bind] in *; try done.
  cbn in Hp. lia.
Qed.

(** A GNU build ID note: the three words, the name, and the id. *)
Definition note (id : list byte) : list byte :=
  le_bytes 4 4 ++ le_bytes 4 (len id) ++ le_bytes 4 NT_GNU_BUILD_ID ++ [x47; x4e; x55; x00] ++ id.

Lemma note_build_id_note id rest : len id ≤ U32_MAX →
  note_build_id (note id ++ rest) = Some (Some (vec_resize id 0x20 x00)).
Proof.
  intros Hid. unfold note. rewrite <-!app_assoc. set (a := le_bytes 4 4). set (b := le_bytes 4 (len id)).
  set (c := le_bytes 4 NT_GNU_BUILD_ID). set (g := [x47; x4e; x55; x00]).
  assert (len a = 4 ∧ len b = 4 ∧ len c = 4 ∧ len g = 4) as (Ha & Hb & Hc & Hg) by (unfold a, b, c; rewrite !len_le_bytes; done).
  pose proof (len_nonneg id). pose proof (len_nonneg rest).
  set (n := Z.min (len id) 32). pose proof (ztake_zdrop n id) as Hsplit.
  assert (len (ztake n id) = n) as Hln by (rewrite len_ztake; lia).
  set (l := a ++ b ++ c ++ g ++ id ++ rest).
  assert (len l = 16 + len id + len rest) as Hl by (unfold l; rewrite !len_app; lia).
  assert (get_range l 0 4 = Some a) as Ra by (apply (get_range_mid [] a); [done|rewrite len_nil; lia]).
  assert (get_range l 4 8 = Some b) as Rb by (apply get_range_mid; lia).
  assert (get_range l 8 12 = Some c) as Rc.
  { unfold l. rewrite (app_assoc a b). apply get_range_mid; rewrite len_app; lia. }
  assert (get_range l 12 16 = Some g) as Rg.
  { unfold l. rewrite (app_assoc b c), (app_assoc a (b ++ c)). apply get_range_mid; rewrite !len_app; lia. }
  assert (get_range l 16 (16 + n) = Some (ztake n id)) as Rd.
  { unfold l. rewrite (app_assoc c g), (app_assoc b (c ++ g)), (app_assoc a).
    rewrite <-Hsplit at 1. rewrite <-(app_assoc (ztake n id)). apply get_range_mid; rewrite !len_app; lia. }
  clearbody l. unfold note_build_id. rewrite Hl, (proj2 (Z.ltb_ge _ 12)) by lia. rewrite Ra, Rb, Rc.
  cbn [mbind option_bind]. replace (le_val a) with 4 by done. unfold b, c.
  pose proof NT_GNU_BUILD_ID_u32 as Hnt. unfold is_u32 in Hnt.
  rewrite !le_val_le_bytes_small by (change (256 ^ Z.of_nat 4) with (U32_MAX + 1); lia). rewrite !Z.eqb_refl. cbn [andb].
  change (checked_add 12 4) with (Some 16). cbn [mbind option_bind]. rewrite (proj2 (Z.ltb_ge _ 16)) by lia.
  rewrite Rg. cbn [mbind option_bind]. rewrite bool_decide_true by done. cbn [negb].
  change (checked_add 4 3) with (Some 7). cbn [mbind option_bind].
  change (checked_add 12 (Z.land 7 (Z.lnot 3))) with (Some 16). cbn [mbind option_bind]. rewrite (proj2 (Z.ltb_ge _ 16)) by lia.
  replace (Z.min (Z.min (len id) 32) (16 + len id + len rest - 16)) with n by lia. rewrite Rd. cbn [mbind option_bind].
  replace (zeros 32) with (zeros n ++ zeros (32 - n)) by (rewrite <-zeros_add by lia; f_equal; lia).
  rewrite copy_from_slice_start by (rewrite ?len_zeros by lia; lia). cbn [mbind option_bind].
  unfold vec_resize, zeros. do 3 f_equal.
  - destruct (Z.min_spec (len id) 32) as [[? He]|[? He]]; unfold n; rewrite He; [|done]. by rewrite !ztake_all by lia.
  - destruct (Z.min_spec (len id) 32) as [[? He]|[? He]]; unfold n; rewrite He; [done|]. by rewrite !zrep_nonpos by lia.
Qed.

(** The build ID of an ELF is the id of its first build ID note, padded with zeros or cut to [0x20]
    bytes; whatever follows the note in its section does not matter. *)
Theorem elf_build_id_found pre section post id rest :
  Forall (λ s, section_build_id s = Some None) pre → sec_is_note section = true →
  sec_data section = Some (note id ++ rest) → len id ≤ U32_MAX →
  extract_build_id (pre ++ section :: post) = Some (Some (vec_resize id 0x20 x00)).
Proof.
  intros Hpre Hn Hd Hid. induction Hpre as [|s pre Hs Hpre IH]; cbn [app extract_build_id];
    [|by rewrite Hs].
  unfold section_build_id. rewrite Hn, Hd. by rewrite note_build_id_note.
Qed.
End properties.

(** ** From an ELF to an image *)

Lemma parse_build_id_len `{ObjectElf} data s id : parse data = Ok s → es_build_id s = Some id → len id = 0x20.
Proof.
  unfold parse. intros Hp Hid. inv_outcome. cbn in Hid. subst.
  match goal with Hm : or_panic (extract_build_id ?l) = Ok _ |- _ =>
    destruct (extract_build_id_total l) as (x & Hx & Hlen); rewrite Hx in Hm; injection Hm as -> end.
  by apply Hlen.
Qed.

(** The segments fit the 32-bit fields of an NSO, compressed as its builder does by default. *)
Record fits_nso `{Lz4} (s : ElfSegments) : Prop := {
  fn_vaddrs : is_u32 (es_text_vaddr s) ∧ is_u32 (es_rodata_vaddr s) ∧ is_u32 (es_data_vaddr s);
  fn_bss : is_u32 (es_bss_size s);
  fn_padded : len (Nso.padded (es_text s)) ≤ U32_MAX ∧ len (Nso.padded (es_rodata s)) ≤ U32_MAX ∧
              len (Nso.padded (es_data s)) ≤ U32_MAX;
  fn_stored : 0x100 + len (stored_form true (es_text s)) + len (stored_form true (es_rodata s))
              + len (stored_form true (es_data s)) ≤ U32_MAX;
}.

(** The segments are laid out from address 0 in order, without overlap, and end within 32 bits. *)
Record fits_nro (s : ElfSegments) : Prop := {
  fr_text_vaddr : es_text_vaddr s = 0;
  fr_text_nonempty : es_text s ≠ [];
  fr_order1 : len (Nro.padded (es_text s)) ≤ es_rodata_vaddr s;
  fr_order2 : es_rodata_vaddr s + len (Nro.padded (es_rodata s)) ≤ es_data_vaddr s;
  fr_size : es_data_vaddr s + len (Nro.padded (es_data s)) ≤ U32_MAX;
  fr_bss : is_u32 (es_bss_size s);
}.

Lemma into_nso_builder_ok `{ObjectElf} `{Lz4} data s : parse data = Ok s → fits_nso s →
  Nso.builder_ok (into_nso_builder s) (es_text s) (es_rodata s) (es_data s).
Proof.
  intros Hp [(Ht & Hr & Hd) Hb Hpad Hst]. pose proof (parse_build_id_len data s) as Hid. unfold into_nso_builder.
  rewrite !as_u32_small by done. destruct (es_build_id s) as [id|]; split; try done.
  cbn. intros i [= <-]. by apply Hid.
Qed.

Lemma into_nro_builder_ok `{ObjectElf} data s : parse data = Ok s → fits_nro s →
  layout_ok (into_nro_builder s) (es_text s) (es_rodata s) (es_data s).
Proof.
  intros Hp [Ht Hne H1 H2 H3 Hb]. pose proof (parse_build_id_len data s) as Hid. unfold into_nro_builder.
  pose proof (Nro.len_padded_nonneg (es_text s)). pose proof (Nro.len_padded_nonneg (es_rodata s)).
  pose proof (Nro.len_padded_nonneg (es_data s)). unfold is_u32 in Hb.
  rewrite !as_u32_small by (unfold is_u32; lia).
  destruct (es_build_id s) as [id|]; split; try done; cbn; rewrite ?len_nil; try mlia.
  all: try (intros i [= <-]; by apply Hid).
Qed.

(** C10. The whole way from an ELF to an executable: when the parsed segments fit an NSO, the builder
    filled from them builds an image whose segments expand to the ELF's, padded to pages, at the
    ELF's addresses, with its BSS size and its build ID; and when they are laid out as an NRO is, the
    NRO reads back the same way, its header in the place of bytes [0x10..0x80] of the text. *)
Theorem elf_images `{ObjectElf} `{Zerocopy} `{Sha256} `{Lz4} data s : parse data = Ok s →
  (fits_nso s → ∃ image n, Nso.build (into_nso_builder s) = Ok image ∧ Nso.try_from_bytes image = Ok n ∧
     Nso.text n = Ok (Nso.padded (es_text s)) ∧ Nso.rodata n = Ok (Nso.padded (es_rodata s)) ∧
     Nso.data n = Ok (Nso.padded (es_data s)) ∧
     memory_offset (so_text (o_header n)) = es_text_vaddr s ∧
     memory_offset (so_rodata (o_header n)) = es_rodata_vaddr s ∧
     memory_offset (so_data (o_header n)) = es_data_vaddr s ∧
     so_bss_size (o_header n) = es_bss_size s ∧
     Nso.module_id n = default (zeros 0x20) (es_build_id s)) ∧
  (fits_nro s → ∃ image n t, Nro.build (into_nro_builder s) = Ok image ∧ Nro.try_from_bytes image = Ok n ∧
     Nro.text_segment n = Some t ∧ ztake 0x10 t = ztake 0x10 (Nro.padded (es_text s)) ∧
     zdrop 0x80 t = zdrop 0x80 (Nro.padded (es_text s)) ∧
     Nro.rodata_segment n = Some (Nro.padded (es_rodata s)) ∧
     Nro.data_segment n = Some (Nro.padded (es_data s)) ∧
     nh_bss_size (n_header n) = es_bss_size s ∧
     Nro.build_id n = default (zeros 0x20) (es_build_id s)).
Proof.
  intros Hp. split.
  - intros Hf. pose proof (into_nso_builder_ok data s Hp Hf) as Hb. destruct Hf as [(Ht & Hr & Hd) Hbs _ _].
    eexists _, _. split; [by apply Nso.nso_build_spec|]. split; [by apply Nso.read_nso_image|].
    destruct (Nso.image_stored _ _ _ _ Hb) as (Hts & Hrs & Hds).
    unfold Nso.text, Nso.rodata, Nso.data. rewrite Hts, Hrs, Hds. bind_cbn.
    split; [apply Nso.expand_stored; by exists 0|]. split; [apply Nso.expand_stored; by exists 1|].
    split; [apply Nso.expand_stored; by exists 2|].
    unfold into_nso_builder. rewrite !as_u32_small by done. by destruct (es_build_id s).
  - intros Hf. pose proof (into_nro_builder_ok data s Hp Hf) as L. destruct Hf as [_ _ _ _ _ Hbs].
    eexists _, _, _. split; [by apply Nro.nro_build_spec|]. split; [by apply Nro.read_nro_image|].
    destruct (Nro.image_segments _ _ _ _ L (Nro.read_asset_header (into_nro_builder s))) as (S0 & S1 & S2).
    destruct (Nro.len_text_in_file _ _ _ _ L) as [Ht Hmin]. pose proof (Nro.len_nro_header _ _ _ _ L) as Hh.
    split; [exact S0|]. split_and!; [| |exact S1|exact S2| |].
    + unfold Nro.text_in_file. by rewrite ztake_app_eq by (rewrite len_ztake; lia).
    + unfold Nro.text_in_file. rewrite app_assoc. by rewrite zdrop_app_eq by (rewrite len_app, Hh, len_ztake; lia).
    + unfold into_nro_builder. rewrite !(as_u32_small (es_bss_size s)) by done. by destruct (es_build_id s).
    + unfold into_nro_builder. by destruct (es_build_id s).
Qed.

(** ** Witnesses *)

Definition sample_segment (address size : Z) (data : list byte) : ElfSegment :=
  {| seg_address := address; seg_mem_size := size; seg_file_range := (0, len data); seg_data := Some data |}.

(** Three loadable segments, out of address order, and a header of another type after or before
    them. *)
Definition sample_loads : list (Z * ElfSegment) :=
  [(1, sample_segment 0 2 [x01; x02]); (1, sample_segment 0x2000 0x1801 [x04]);
   (1, sample_segment 0x1000 1 [x03])].
Definition sample_other : Z * ElfSegment := (6, sample_segment 0 8 [x00]).

Definition sample_section : list byte → ElfSection := λ data,
  {| sec_name := None; sec_address := 0; sec_size := len data; sec_is_note := true; sec_data := Some data |}.

(** A crate that reads two ELFs, told apart by whether the file is empty. *)
Definition object_reference : ObjectElf.
Proof.
  refine {| PT_LOAD := 1; NT_GNU_BUILD_ID := 3; elf := bool; read_error := unit;
            elf_parse l := inr (negb (bool_decide (l = []))); is_aarch64 _ := true;
            program_headers e := if e : bool then sample_loads ++ [sample_other] else sample_other :: sample_loads;
            segments _ := sample_loads.*2;
            sections _ := [sample_section (le_bytes 4 4 ++ le_bytes 4 2 ++ le_bytes 4 3
                                           ++ [x47; x4e; x55; x00] ++ [xaa; xbb])] |}.
  - intros [|]; reflexivity.
  - split; discriminate.
  - intros _. repeat constructor; try discriminate; cbn; by intros ? [= <-].
Defined.

Definition sample_parsed : ElfSegments :=
  {| es_text := [x01; x02]; es_text_vaddr := 0; es_rodata := [x03]; es_rodata_vaddr := 0x1000;
     es_data := [x04]; es_data_vaddr := 0x2000; es_bss_size := 0x1000;
     es_build_id := Some (vec_resize [xaa; xbb] 0x20 x00); es_mod0_offset := None; es_dynamic := None;
     es_dynstr := None; es_dynsym := None; es_eh_frame_hdr := None |}.

Lemma sample_parse : @parse object_reference [x7f] = Ok sample_parsed.
Proof. vm_compute. reflexivity. Qed.

Lemma elf_parse_spec_witness :
  @parse object_reference [x7f] = Ok sample_parsed ∧
  ∃ t r d rest, bss_covers (t :: r :: d :: rest) 0x1000 ∧ ls_data d = [x04].
Proof.
  split; [exact sample_parse|].
  assert (@loads_first object_reference true) as Hl.
  { exists sample_loads, [sample_other]. split; [reflexivity|]. split; repeat constructor. discriminate. }
  pose proof (@elf_parse_spec object_reference [x7f] true eq_refl Hl) as Hs. rewrite sample_parse in Hs.
  destruct Hs as (_ & found & t & r & d & rest & _ & _ & _ & _ & _ & (Hd & _) & Hb & _).
  exists t, r, d, rest. split; [exact Hb|]. symmetry. exact Hd.
Defined.

Lemma elf_parse_skew_witness :
  @parse object_reference [] = Err MissingData ∧ ∀ s, @parse object_reference [] ≠ Ok s.
Proof.
  split; [vm_compute; reflexivity|].
  apply (@elf_parse_skew object_reference [] false sample_other sample_loads eq_refl eq_refl); [discriminate|reflexivity].
Defined.

Lemma elf_build_id_found_witness :
  @extract_build_id object_reference [sample_section (@note object_reference [xaa; xbb] ++ [x00])]
  = Some (Some (vec_resize [xaa; xbb] 0x20 x00)).
Proof.
  apply (@elf_build_id_found object_reference [] _ [] [xaa; xbb] [x00]); [constructor|reflexivity|reflexivity|discriminate].
Defined.

Lemma sample_fits_nso : @fits_nso lz4_reference sample_parsed.
Proof. split; try (vm_compute; first [done | repeat split; discriminate]). Qed.
Lemma sample_fits_nro : fits_nro sample_parsed.
Proof. split; try (vm_compute; first [done | repeat split; discriminate]). Qed.

Lemma elf_images_witness :
  (∃ image n, @Nso.build zerocopy_reference sha256_reference lz4_reference (into_nso_builder sample_parsed) = Ok image ∧
     @Nso.try_from_bytes zerocopy_reference image = Ok n ∧ @Nso.data lz4_reference n = Ok (Nso.padded [x04])) ∧
  (∃ image n, @Nro.build zerocopy_reference (into_nro_builder sample_parsed) = Ok image ∧
     @Nro.try_from_bytes zerocopy_reference image = Ok n ∧ Nro.rodata_segment n = Some (Nro.padded [x03])).
Proof.
  destruct (@elf_images object_reference zerocopy_reference sha256_reference lz4_reference [x7f] sample_parsed sample_parse)
    as [Hnso Hnro].
  destruct (Hnso sample_fits_nso) as (i1 & n1 & Hb1 & Hr1 & _ & _ & Hd1 & _).
  destruct (Hnro sample_fits_nro) as (i2 & n2 & t & Hb2 & Hr2 & _ & _ & _ & Hro2 & _).
  split; [exists i1, n1|exists i2, n2]; (split; [assumption|split; assumption]).
Defined.
