(* ===== verification/Carrier.v ===== *)
(** * Formats that carry a payload

    What a container format promises to whoever puts a payload in it: the image the writer finishes
    around the payload is one from which the reader takes the same payload. The interface is a class,
    its instances are the formats of this crate (file Package), and a container inside a container is
    an instance again, so that what is proved against the class holds at any nesting. *)

From S2P Require Import Prelude.
#[local] Open Scope Z_scope.

(** [C] is a container with one place left open: a builder, and where the payload goes in it. [seal]
    puts a payload there and finishes the image, [unseal] reads an image and takes out what is there,
    and [accepts] says which payloads the place has room for. [None] is any failure, a panic included. *)
Class Carrier (C : Type) := {
  seal : C → list byte → option (list byte);
  unseal : C → list byte → option (list byte);
  accepts : C → list byte → Prop;
  seal_unseal : ∀ c x, accepts c x → ∃ image, seal c x = Some image ∧ unseal c image = Some x;
}.

(** ** Nesting *)

Section nesting.
Context `{Carrier C} `{Carrier D}.

(** The payload goes in the inner container, and the inner image is the payload of the outer one. *)
Definition seal_nested (c : C * D) (x : list byte) : option (list byte) :=
  image ← seal c.2 x; seal c.1 image.
Definition unseal_nested (c : C * D) (image : list byte) : option (list byte) :=
  inner ← unseal c.1 image; unseal c.2 inner.
Definition accepts_nested (c : C * D) (x : list byte) : Prop :=
  accepts c.2 x ∧ ∀ inner, seal c.2 x = Some inner → accepts c.1 inner.

Lemma seal_unseal_nested c x :
  accepts_nested c x → ∃ image, seal_nested c x = Some image ∧ unseal_nested c image = Some x.
Proof.
  intros [Hx Hinner]. destruct (seal_unseal c.2 x Hx) as (inner & Hs & Ho).
  destruct (seal_unseal c.1 inner (Hinner inner Hs)) as (image & Hs' & Ho').
  exists image. unfold seal_nested, unseal_nested. rewrite Hs, Ho'. bind_cbn. done.
Qed.

#[export] Instance Carrier_nested : Carrier (C * D) :=
  {| seal := seal_nested; unseal := unseal_nested; accepts := accepts_nested; seal_unseal := seal_unseal_nested |}.
End nesting.

(** ** What every carrier has *)

Section laws.
Context `{Carrier C}.

(** An image determines the payload in it. *)
Lemma seal_inj c x y image :
  accepts c x → accepts c y → seal c x = Some image → seal c y = Some image → x = y.
Proof.
  intros Hx Hy Sx Sy. destruct (seal_unseal c x Hx) as (i & Hi & Ox), (seal_unseal c y Hy) as (j & Hj & Oy). congruence.
Qed.

(** What a reader of the payload finds in it, it finds in the image. *)
Lemma seal_reads c x (P : list byte → Prop) :
  accepts c x → P x → ∃ image x', seal c x = Some image ∧ unseal c image = Some x' ∧ P x'.
Proof. intros Hx HP. destruct (seal_unseal c x Hx) as (image & Hs & Ho). by exists image, x. Qed.
End laws.
