(* ===== verification/Containers.v ===== *)
(** * The containers: places a payload goes

    The instances of [Carrier]: a file of a PFS0 archive, a section of an NCA, and an asset of an NRO.
    [seal] is the calls of the builder that put the payload in and finish the image, [unseal] the calls
    of the reader that take it out. *)

From stdpp Require Import list.
From S2P Require Import Prelude Bytes Strs Layout Crates Carrier Ivfc Partition NcaRaw NcaWrite NcaRead Nro Pfs0.
#[local] Open Scope Z_scope.

(** ** A file of a PFS0 archive *)

(** The archive's other files, and the name the payload is stored under. *)
Record Pfs0Slot := {
  pfs0_files : Pfs0Builder;
  pfs0_name : list byte;
}.

Section pfs0.
Context `{ZC : Zerocopy}.

Definition seal_pfs0 (c : Pfs0Slot) (x : list byte) : option (list byte) :=
  match Pfs0.add_file (pfs0_files c) (pfs0_name c) x with Ok fs => Pfs0.build fs | _ => None end.
Definition unseal_pfs0 (c : Pfs0Slot) (image : list byte) : option (list byte) :=
  match Pfs0.try_from_bytes image with
  | Ok p => f ← file_by_name p (pfs0_name c); data <$> f
  | _ => None
  end.

Definition pfs0_with (c : Pfs0Slot) (x : list byte) : Pfs0Builder :=
  pfs0_files c ++ [{| fe_name := pfs0_name c; fe_data := x |}].
(** The name is one [add_file] takes and no other file has, and the whole fits the format. *)
Definition accepts_pfs0 (c : Pfs0Slot) (x : list byte) : Prop :=
  Pfs0.builder_ok (pfs0_with c x) ∧ fits_format (sort_by by_name (pfs0_with c x)).

Lemma add_file_ok fs n d :
  Pfs0.builder_ok (fs ++ [{| fe_name := n; fe_data := d |}]) → Pfs0.add_file fs n d = Ok (fs ++ [{| fe_name := n; fe_data := d |}]).
Proof.
  intros [[Hok (Hne & Hutf & Hnul & Hs1 & Hs2)%Forall_singleton]%Forall_app Hnd]. rewrite map_app in Hnd.
  cbn [fe_name map] in Hne, Hutf, Hnul, Hs1, Hs2, Hnd. apply NoDup_app in Hnd as (Hnd & Hd & _).
  pose proof (add_file_spec fs n d (conj Hok Hnd) Hutf) as H. destruct (Pfs0.add_file fs n d) as [fs'|[|m|m|m]|].
  - by destruct H as [-> _].
  - done.
  - destruct H as (_ & _ & H). congruence.
  - destruct H as (_ & _ & _ & [H|H]); congruence.
  - destruct H as [_ H]. destruct (Hd _ H). by left.
  - done.
Qed.

Lemma seal_pfs0_eq c x :
  accepts_pfs0 c x → seal_pfs0 c x = Some (build_bytes (sort_by by_name (pfs0_with c x))).
Proof. intros [Hb Hfit]. unfold seal_pfs0. rewrite add_file_ok by done. by apply pfs0_build_spec. Qed.

Lemma seal_unseal_pfs0 c x :
  accepts_pfs0 c x → ∃ image, seal_pfs0 c x = Some image ∧ unseal_pfs0 c image = Some x.
Proof.
  intros Hx. eexists. split; [by apply seal_pfs0_eq|]. destruct Hx as [[Hok Hnd] Hfit]. unfold unseal_pfs0.
  assert (Forall file_ok (sort_by by_name (pfs0_with c x))) as Hok' by (by rewrite sort_by_perm).
  rewrite read_build_bytes by done. unfold file_by_name. rewrite (find_resolved _ _ _ _ (archive_resolves _ Hok' Hfit)).
  rewrite (find_unique _ {| fe_name := pfs0_name c; fe_data := x |}); [done|by rewrite sort_by_perm|].
  rewrite sort_by_perm. apply elem_of_app. right. by left.
Qed.

#[export] Instance Carrier_pfs0 : Carrier Pfs0Slot :=
  {| seal := seal_pfs0; unseal := unseal_pfs0; accepts := accepts_pfs0; seal_unseal := seal_unseal_pfs0 |}.

(** Room for a file of [n] bytes: a name no other file has, and an archive short of its format's limits. *)
Record pfs0_room (c : Pfs0Slot) (n : Z) : Prop := {
  pr_ok : Pfs0.builder_ok (pfs0_with c []);
  pr_count : len (pfs0_files c) < U32_MAX;
  pr_strings : strings_len (pfs0_with c []) ≤ U32_MAX - 0x1f;
  pr_size : len (pfs0_files c) * 0x18 + strings_len (pfs0_with c []) + data_len (pfs0_files c) + n ≤ ISIZE_MAX - 0x60;
}.

Lemma strings_len_with c x : strings_len (pfs0_with c x) = strings_len (pfs0_with c []).
Proof. unfold strings_len, pfs0_with. by rewrite !map_app. Qed.

Lemma pfs0_room_accepts c x n : pfs0_room c n → len x ≤ n → accepts_pfs0 c x.
Proof.
  intros [[Hok Hnd] Hc Hst Hsize] Hx. split.
  - split; [|by unfold pfs0_with in *; rewrite map_app in *].
    unfold pfs0_with in *. apply Forall_app in Hok as [Hok Hf]. apply Forall_app. split; [done|].
    constructor; [|constructor]. by inversion Hf.
  - pose proof (sort_by_perm by_name (pfs0_with c x)) as Hp. unfold fits_format, string_table_len.
    assert (strings_len (sort_by by_name (pfs0_with c x)) = strings_len (pfs0_with c [])) as ->.
    { rewrite <-(strings_len_with c x). unfold strings_len. by rewrite Hp. }
    assert (data_len (sort_by by_name (pfs0_with c x)) = data_len (pfs0_files c) + len x) as ->.
    { unfold data_len. rewrite Hp. unfold pfs0_with. rewrite map_app, zsum_app. cbn. lia. }
    assert (len (sort_by by_name (pfs0_with c x)) = len (pfs0_files c) + 1) as ->.
    { rewrite len_sort_by. unfold pfs0_with. by rewrite len_app. }
    destruct (align_up_spec (strings_len (pfs0_with c [])) 0x20 5 ltac:(done) eq_refl) as [_ Ha].
    unfold_max. lia.
Qed.
End pfs0.

(** ** A section of an NCA *)

(** The archive's other sections, the free slot the payload goes in, and how: as a RomFS image or as a
    PFS0 hashed in blocks of the given size, in the clear or marked for encryption. *)
Record NcaSlot := {
  nca_builder : NcaBuilder;
  nca_slot : nat;
  nca_block_size : option Z;
  nca_encryption : SectionEncryption;
}.

Section nca.
Context `{ZC : Zerocopy} `{SH : Sha256}.

Definition nca_section (c : NcaSlot) (x : list byte) : Section_ :=
  {| sec_data := match nca_block_size c with None => RomFs x | Some bs => Partition x bs end;
     sec_encryption := nca_encryption c |}.
Definition nca_kind (c : NcaSlot) : NcaFsType :=
  match nca_block_size c with None => FsRomFs | Some _ => FsPfs0 end.

(** The image is the one whose encrypted sections the caller has yet to encrypt, and has decrypted. *)
Definition seal_nca (c : NcaSlot) (x : list byte) : option (list byte) :=
  match add_section (nca_builder c) (Z.of_nat (nca_slot c)) (nca_section c x) with
  | Ok b => match NcaWrite.build b with Ok p => to_bytes p | _ => None end
  | _ => None
  end.
Definition unseal_nca (c : NcaSlot) (image : list byte) : option (list byte) :=
  match NcaRead.try_from_bytes image with
  | Ok n =>
    match section n (Z.of_nat (nca_slot c)) with
    | Some (Some s) =>
      if bool_decide (fs_type s = nca_kind c) then Some (ns_data s) else None
    | _ => None
    end
  | _ => None
  end.

Definition nca_with (c : NcaSlot) (x : list byte) : NcaBuilder :=
  nca_builder c <| nb_sections := <[nca_slot c := Some (nca_section c x)]> (nb_sections (nca_builder c)) |>.
Record accepts_nca (c : NcaSlot) (x : list byte) : Prop := {
  ac_builder : NcaWrite.builder_ok (nca_builder c);
  ac_free : nb_sections (nca_builder c) !! nca_slot c = Some None;
  ac_section : section_ok (nca_section c x);
  ac_addressable : addressable (nca_with c x);
}.

Lemma seal_nca_eq c x : accepts_nca c x →
  NcaWrite.builder_ok (nca_with c x) ∧ seal_nca c x = Some (NcaRead.image_of (nca_with c x)).
Proof.
  intros [Hb Hfree Hs Ha]. unfold seal_nca.
  pose proof (add_section_spec (nca_builder c) (Z.of_nat (nca_slot c)) (nca_section c x) Hb Hs ltac:(lia)) as Hadd.
  destruct (add_section _ _ _) as [b|[i|i]|]; [| | |done].
  - destruct Hadd as (_ & Hb' & ->). rewrite Nat2Z.id. rewrite Nat2Z.id in Hb'. fold (nca_with c x) in Hb' |- *.
    by destruct (nca_to_bytes_spec _ Hb' Ha) as (p & -> & _ & ->).
  - destruct Hadd as [_ Hi]. destruct (bk_sections _ Hb) as [Hn _]. apply lookup_lt_Some in Hfree.
    rewrite Hn in Hfree. unfold NCA_SECTION_COUNT in Hfree. lia.
  - destruct Hadd as (_ & s' & Hs'). rewrite index_lookup in Hs'. congruence.
Qed.

Lemma seal_unseal_nca c x :
  accepts_nca c x → ∃ image, seal_nca c x = Some image ∧ unseal_nca c image = Some x.
Proof.
  intros Hx. destruct (seal_nca_eq c x Hx) as [Hb Hs]. eexists. split; [done|]. destruct Hx as [_ Hfree Hok Ha].
  unfold unseal_nca. rewrite (read_nca_image _ Hb Ha).
  assert (nb_sections (nca_with c x) !! nca_slot c = Some (Some (nca_section c x))) as Hin.
  { apply list_lookup_insert_eq. by eapply lookup_lt_Some. }
  destruct (slot_split _ _ _ Hin) as (pre & post & Hsplit & <-).
  destruct (slot_at _ Hb Ha pre _ post Hsplit) as (_ & _ & _ & _ & _ & ->). cbn [read_slot fmap option_fmap option_map].
  rewrite fs_type_read by done. unfold fs_kind, nca_kind, nca_section.
  by destruct (nca_block_size c); rewrite bool_decide_true.
Qed.

#[export] Instance Carrier_nca : Carrier NcaSlot :=
  {| seal := seal_nca; unseal := unseal_nca; accepts := accepts_nca; seal_unseal := seal_unseal_nca |}.

(** Room for a payload of [n] bytes: a free slot, and with what the section costs the archive is
    still short of what its media offsets reach. *)
Record nca_room (c : NcaSlot) (n : Z) : Prop := {
  nr_ok : NcaWrite.builder_ok (nca_builder c);
  nr_free : nb_sections (nca_builder c) !! nca_slot c = Some None;
  nr_block : ∀ bs, nca_block_size c = Some bs → 1 ≤ bs ≤ U32_MAX;
  nr_payload : n ≤ 2 ^ 56;
  nr_size : NCA_HEADER_SIZE + len (body_of (nb_sections (nca_builder c))) + growth (nca_section c []) * n + 0x40000
            ≤ U32_MAX * MEDIA_UNIT_SIZE;
}.

Lemma nca_room_accepts c x n : nca_room c n → len x ≤ n → accepts_nca c x.
Proof.
  intros [Hb Hfree Hbs Hn Hsize] Hx.
  assert (len (payload (nca_section c x)) = len x) as Hl by (unfold payload, nca_section; cbn; by destruct (nca_block_size c)).
  assert (section_ok (nca_section c x)) as Hs.
  { split; [lia|]. unfold nca_section. cbn [sec_data]. destruct (nca_block_size c); [by apply Hbs|done]. }
  split; [done..|]. unfold addressable. destruct (slot_split _ _ _ Hfree) as (pre & post & Hsplit & Hpre).
  assert (nb_sections (nca_with c x) = pre ++ Some (nca_section c x) :: post) as ->.
  { assert (nca_slot c = length pre) as Hi by (unfold len in Hpre; lia). cbn [nca_with nb_sections set_field].
    by rewrite Hsplit, Hi, insert_app_r_alt, Nat.sub_diag by lia. }
  rewrite Hsplit in Hsize. rewrite !body_split, !len_app in *. cbn [region] in Hsize.
  pose proof (region_growth (nca_section c x) Hs) as Hg. rewrite Hl in Hg.
  assert (growth (nca_section c x) = growth (nca_section c [])) as Hgr
    by (unfold growth, nca_section; cbn; by destruct (nca_block_size c)).
  assert (0 ≤ growth (nca_section c [])) by (unfold growth; by destruct (sec_data _)).
  rewrite Hgr in Hg. change (len []) with 0 in Hsize. nia.
Qed.

Lemma len_seal_nca c x image :
  accepts_nca c x → seal_nca c x = Some image → len image ≤ U32_MAX * MEDIA_UNIT_SIZE.
Proof.
  intros Hx Hs. destruct (seal_nca_eq c x Hx) as [Hb Hi]. rewrite Hi in Hs. injection Hs as <-.
  pose proof (ac_addressable _ _ Hx) as Ha. by rewrite (len_nca_image _ Hb Ha).
Qed.
End nca.

(** ** An asset of an NRO *)

Inductive NroAsset := AssetIcon | AssetNacp | AssetRomfs.
#[export] Instance NroAsset_eq_dec : EqDecision NroAsset.
Proof. solve_decision. Defined.

(** The builder with its segments and other assets, and the asset the payload is. *)
Record NroSlot := {
  nro_builder : NroBuilder;
  nro_asset : NroAsset;
}.

Section nro.
Context `{ZC : Zerocopy}.

Definition nro_with (c : NroSlot) (x : list byte) : NroBuilder :=
  match nro_asset c with
  | AssetIcon => nro_asset_icon (nro_builder c) x
  | AssetNacp => nro_asset_nacp (nro_builder c) x
  | AssetRomfs => nro_asset_romfs (nro_builder c) x
  end.
Definition seal_nro (c : NroSlot) (x : list byte) : option (list byte) :=
  match Nro.build (nro_with c x) with Ok image => Some image | _ => None end.
Definition unseal_nro (c : NroSlot) (image : list byte) : option (list byte) :=
  match Nro.try_from_bytes image with
  | Ok n => mjoin match nro_asset c with
            | AssetIcon => asset_icon n | AssetNacp => asset_nacp n | AssetRomfs => asset_romfs n
            end
  | _ => None
  end.

(** The segments are laid out, and the asset is not empty: an empty one reads as absent. *)
Definition accepts_nro (c : NroSlot) (x : list byte) : Prop :=
  x ≠ [] ∧ ∃ text rodata data, layout_ok (nro_with c x) text rodata data.

Lemma seal_unseal_nro c x :
  accepts_nro c x → ∃ image, seal_nro c x = Some image ∧ unseal_nro c image = Some x.
Proof.
  intros (Hx & text & rodata & data & L). unfold seal_nro, unseal_nro. rewrite (nro_build_spec _ _ _ _ L).
  eexists. split; [done|]. rewrite (read_nro_image _ _ _ _ L).
  destruct (image_assets _ _ _ _ L (of_bytes (ztake 0x10 (padded text)))) as (A0 & A1 & A2).
  assert (visible (Some x) = Some x) as Hv by by destruct x.
  unfold nro_with in *. destruct (nro_asset c); [rewrite A0|rewrite A1|rewrite A2]; cbn [nb_icon nb_nacp nb_romfs
    nro_asset_icon nro_asset_nacp nro_asset_romfs set_field mjoin option_join]; by rewrite Hv.
Qed.

#[export] Instance Carrier_nro : Carrier NroSlot :=
  {| seal := seal_nro; unseal := unseal_nro; accepts := accepts_nro; seal_unseal := seal_unseal_nro |}.
End nro.
