(* ===== verification/Package.v ===== *)
(** * Packages: what a client puts in containers and gets back

    The program of a title is a RomFS in a section of an NCA, which is a file of the package, a PFS0
    archive; its content meta is a file of a PFS0 in a section of another NCA of the package; a homebrew
    program is an NRO with a NACP and a RomFS behind it. A client of the crate writes these with the
    builders in a row and reads them with the readers. *)

From stdpp Require Import gmap.
From S2P Require Import Prelude Bytes Strs Fs Layout Crates Carrier Partition NcaRaw NcaWrite Nro Cnmt Nacp Pfs0 Containers.
From S2P Require Import RomFsRaw RomFsTree RomFsWrite RomFsLayout RomFsRead RomFsExtract RomFsDirectory RomFsPack.
#[local] Open Scope Z_scope.

(** ** Definitions *)

(** The slot of a new archive of content meta, for a PFS0 hashed in blocks of [bs] bytes. *)
Definition meta_slot (b : CnmtBuilder) (bs : Z) (e : SectionEncryption) : NcaSlot :=
  {| nca_builder := NcaBuilder_new NcaRaw.Meta (cb_title_id b); nca_slot := 0; nca_block_size := Some bs;
     nca_encryption := e |}.
(** The archive of a content meta: one file, under the name the console looks for. *)
Definition meta_archive (b : CnmtBuilder) : Pfs0Slot := {| pfs0_files := []; pfs0_name := file_name b |}.

(** ** Lemmas *)

Lemma unpacks_nonempty `{Zerocopy} image t : unpacks_to image t → image ≠ [].
Proof.
  intros (romfs & _ & _ & _ & _ & Ht & _) ->. discriminate Ht.
Qed.

(** A payload of a PFS0 file in an NCA section, and the like: the room of the inner container is
    enough, since no NCA outgrows the 2 TiB that its media offsets reach. *)
Definition MAX_NCA_SIZE : Z := U32_MAX * MEDIA_UNIT_SIZE.

Lemma package_accepts `{Zerocopy} `{Sha256} (package : Pfs0Slot) (slot : NcaSlot) x n :
  pfs0_room package MAX_NCA_SIZE → nca_room slot n → len x ≤ n → accepts (package, slot) x.
Proof.
  intros Hp Hn Hx. pose proof (nca_room_accepts slot x n Hn Hx) as Hs. split; [done|].
  intros inner Hi. eapply pfs0_room_accepts; [done|]. by eapply len_seal_nca.
Qed.

Lemma meta_archive_room b n : 0 ≤ n ≤ 2 ^ 32 → pfs0_room (meta_archive b) n.
Proof.
  intros Hn. pose proof (cnmt_file_name_len b) as Hl. split.
  - split; [|by repeat constructor; intros ?%elem_of_nil]. constructor; [apply file_name_ok|constructor].
  - done.
  - unfold strings_len, pfs0_with. cbn [meta_archive pfs0_files pfs0_name app map fe_name zsum foldr]. rewrite Hl. unfold_max. lia.
  - unfold strings_len, pfs0_with. cbn [meta_archive pfs0_files pfs0_name app map fe_name zsum foldr data_len]. rewrite Hl.
    change (len []) with 0. unfold_max. lia.
Qed.

Lemma meta_slot_room `{Zerocopy} `{Sha256} b bs e n : is_u64 (cb_title_id b) → 1 ≤ bs ≤ U32_MAX → n ≤ 2 ^ 32 → nca_room (meta_slot b bs e) n.
Proof.
  intros Ht Hbs Hn. split; cbn [nca_builder nca_slot nca_block_size meta_slot].
  - by apply new_builder_ok.
  - done.
  - by intros ? [= <-].
  - lia.
  - change (growth (nca_section (meta_slot b bs e) [])) with 34.
    change (len (body_of _)) with 0. unfold NCA_HEADER_SIZE, MEDIA_UNIT_SIZE. unfold_max. lia.
Qed.

(** The archive of a content meta is small. *)
Lemma len_seal_meta `{Zerocopy} b x image :
  len x ≤ 0x1000 → seal (meta_archive b) x = Some image → len image ≤ 0x2000.
Proof.
  intros Hx Hs. pose proof (len_nonneg x).
  pose proof (pfs0_room_accepts (meta_archive b) x (len x) ltac:(apply meta_archive_room; lia) ltac:(done)) as Ha.
  cbn [seal Carrier_pfs0] in Hs. rewrite (seal_pfs0_eq _ _ Ha) in Hs. injection Hs as <-.
  rewrite len_build_bytes by apply Ha.
  change (sort_by by_name (pfs0_with (meta_archive b) x)) with [{| fe_name := file_name b; fe_data := x |}].
  pose proof (string_table_len_range [{| fe_name := file_name b; fe_data := x |}]) as [_ Hr].
  unfold strings_len, data_len in *. cbn [map zsum foldr fe_name fe_data] in *. rewrite cnmt_file_name_len in Hr.
  change (len [_]) with 1. lia.
Qed.

(** ** Theorems *)

(** Whatever carries it, a directory comes out as it went in: for a tree on disk whose image fits the
    format and a container that has room for the image, the container opens to an image that
    unpacks to the files of the tree. *)
Theorem carried_directory {ZC : Zerocopy} {FS : FileSystem} `{Carrier C} (c : C) k path es :
  packable path es → (ndirs (NDir es) < 2 ^ k)%nat →
  ∃ b, from_directory k path = Some (Ok b) ∧
    (fits (rb_dirs b) (rb_files b) → ∃ image, RomFsWrite.build b = Ok image ∧
       (accepts c image → ∃ file image', seal c image = Some file ∧ unseal c file = Some image' ∧
          unpacks_to image' (NDir es))).
Proof.
  intros Hp Hk. destruct (pack_image k path es Hp Hk) as (b & Hb & Hfit). exists b. split; [done|].
  intros (image & Hi & Hu)%Hfit. exists image. split; [done|]. intros Hc. by apply seal_reads.
Qed.

(** C4. A program package gives back the directory it was made from: packing a directory into a
    RomFS, the RomFS into a free section of an NCA and the NCA into a PFS0 archive succeeds when the
    two archives have room, and opening the archive, the NCA and the section gives an image that
    unpacks to exactly the files of the directory. *)
Theorem program_package {ZC : Zerocopy} {SH : Sha256} {FS : FileSystem} k path es (package : Pfs0Slot) (slot : NcaSlot) n :
  packable path es → (ndirs (NDir es) < 2 ^ k)%nat →
  nca_room slot n → pfs0_room package MAX_NCA_SIZE →
  ∃ b, from_directory k path = Some (Ok b) ∧
    (fits (rb_dirs b) (rb_files b) → ∃ image, RomFsWrite.build b = Ok image ∧
       (len image ≤ n → ∃ file image', seal (package, slot) image = Some file ∧
          unseal (package, slot) file = Some image' ∧ unpacks_to image' (NDir es))).
Proof.
  intros Hp Hk Hn Hr. destruct (pack_image k path es Hp Hk) as (b & Hb & Hfit). exists b. split; [done|].
  intros (image & Hi & Hu)%Hfit. exists image. split; [done|]. intros Hl. apply seal_reads; [|done].
  by eapply package_accepts.
Qed.

(** C20. The content meta of a title is found where the console looks for it: for every well-formed
    meta and every block size, the meta builds, its PFS0 takes it under its file name, a new meta NCA
    takes the PFS0, and a package with room takes the NCA, none of them failing. Opening them in turn
    gives exactly the meta that was built, and reading it the title, its version, the application type,
    the patch title 0x800 above (wrapping) and the records in content-type order, each with its hash,
    its NCA id (the first 16 bytes of the hash), its size and its type. *)
Theorem meta_package {ZC : Zerocopy} {SH : Sha256} b (package : Pfs0Slot) bs e :
  Cnmt.builder_wf b → 1 ≤ bs ≤ U32_MAX → pfs0_room package MAX_NCA_SIZE →
  ∃ meta file c, Cnmt.build b = Some meta ∧
    seal (package, (meta_slot b bs e, meta_archive b)) meta = Some file ∧
    unseal (package, (meta_slot b bs e, meta_archive b)) file = Some meta ∧
    Cnmt.try_from_bytes meta = Ok c ∧
    Cnmt.title_id c = cb_title_id b ∧ title_version c = cb_title_version b ∧ meta_type c = Some Cnmt.Application ∧
    (∃ h, c_extended_header c = Some h ∧ patch_title_id h = (cb_title_id b + 0x800) mod 2 ^ 64) ∧
    record_count c = len (cb_records b) ∧
    map (λ r, (cr_hash r, cr_nca_id r, record_size r, record_content_type r)) (c_records c)
      = map (λ r, (hash r, ztake 0x10 (hash r), Some (Cnmt.size r), Some (Cnmt.content_type r)))
          (sort_by by_type (cb_records b)).
Proof.
  intros Hb Hbs Hr. exists (Cnmt.image_of b).
  pose proof (len_records b Hb) as Hn. pose proof (len_cnmt_image b Hb) as Hl. pose proof (len_nonneg (cb_records b)).
  assert (accepts (meta_slot b bs e, meta_archive b) (Cnmt.image_of b)) as Hin.
  { split; [eapply pfs0_room_accepts; [apply (meta_archive_room b 0x1000); lia|lia]|].
    intros inner Hi%len_seal_meta; [|lia]. eapply nca_room_accepts; [|done].
    apply meta_slot_room; [apply bw_title, Hb|done|lia]. }
  assert (accepts (package, (meta_slot b bs e, meta_archive b)) (Cnmt.image_of b)) as Hout.
  { split; [done|]. intros nca Hs. eapply pfs0_room_accepts; [done|].
    cbn [seal Carrier_nested] in Hs. unfold seal_nested in Hs. cbn [fst snd] in Hs.
    apply bind_Some in Hs as (inner & Hi & Hs). eapply len_seal_nca; [|exact Hs].
    by apply (proj2 Hin). }
  destruct (seal_unseal _ _ Hout) as (file & Hs & Hu). eexists file, _.
  split; [by apply cnmt_build_spec|]. split; [done|]. split; [done|]. split; [by apply read_cnmt_image|].
  by apply cnmt_fields.
Qed.

(** C13. A homebrew program gives back its assets: an NRO whose segments are laid out, with a built NACP
    and a packed directory as its assets, builds and is accepted; its NACP accessor gives exactly the
    NACP that was built, which reads back every language entry, the display version and the numeric
    fields of the builder; its RomFS accessor gives exactly the image that was built, which unpacks to
    exactly the files of the directory. *)
Theorem homebrew_package {ZC : Zerocopy} {FS : FileSystem} k path es nacp nro text rodata data :
  packable path es → (ndirs (NDir es) < 2 ^ k)%nat → Nacp.builder_ok nacp → builder_fits nacp →
  ∃ b info, from_directory k path = Some (Ok b) ∧ Nacp.build nacp = Ok info ∧
    (fits (rb_dirs b) (rb_files b) → ∃ image, RomFsWrite.build b = Ok image ∧
       let nro' := nro_asset_romfs (nro_asset_nacp nro info) image in
       (layout_ok nro' text rodata data →
        ∃ file n read, Nro.build nro' = Ok file ∧ Nro.try_from_bytes file = Ok n ∧
          asset_nacp n = Some (Some info) ∧ Nacp.try_from_bytes info = Ok read ∧
          (∀ i, 0 ≤ i → language_entry read i = Some (title_at nacp i)) ∧
          (∀ v, default [] (nb_display_version nacp) = v → utf8_valid v = true → contains_byte v 0 = false →
             display_version read = Some v) ∧
          fields_of nacp (na_raw read) ∧
          asset_romfs n = Some (Some image) ∧ unpacks_to image (NDir es))).
Proof.
  intros Hp Hk Hb Hf. destruct (pack_image k path es Hp Hk) as (b & Hdir & Hfit).
  pose proof (wf_nacp_raw nacp Hb Hf) as Hw. exists b, (as_bytes (raw_of nacp)).
  split; [done|]. split; [by apply nacp_build_ok|]. intros (image & Hi & Hu)%Hfit. exists image. split; [done|].
  intros nro' L. eexists _, _, {| na_raw := raw_of nacp |}.
  split; [exact (nro_build_spec _ _ _ _ L)|]. split; [exact (read_nro_image _ _ _ _ L)|].
  destruct (image_assets _ _ _ _ L (of_bytes (ztake 0x10 (padded text)))) as (_ & A1 & A2).
  assert (as_bytes (raw_of nacp) ≠ []) as Hne by (intros He; pose proof (len_as_bytes _ Hw) as Hl; by rewrite He in Hl).
  split; [rewrite A1; by destruct (as_bytes (raw_of nacp))|].
  split; [rewrite <-(app_nil_r (as_bytes (raw_of nacp))); by apply nacp_read_ok|].
  split; [intros i Hpos; by apply language_entry_built|]. split; [intros; by apply display_version_built|].
  split; [apply fields_raw_of|]. split; [|done].
  rewrite A2. pose proof (unpacks_nonempty _ _ Hu). by destruct image.
Qed.

(** ** Witnesses *)

#[local] Existing Instances zerocopy_reference sha256_reference.

Lemma sample_packable : @packable (fs_reference (NDir sample_listing)) [] sample_listing.
Proof.
  split; [exact sample_listing_ok|exact (reference_on_disk _ sample_listing_ok)|exact sample_listing_no_links|].
  exists [[x62]; [x78]], [x01; x02]. exact sample_listing_file.
Qed.

Definition sample_image : list byte := match RomFsWrite.build sample_packed with Ok image => image | _ => [] end.

Definition sample_asset : NroSlot := {| nro_builder := sample_nro; nro_asset := AssetRomfs |}.

Lemma sample_asset_accepts : accepts_nro sample_asset sample_image.
Proof.
  assert (bool_decide (sample_image = []) = false) as H%bool_decide_eq_false by (vm_compute; reflexivity).
  split; [exact H|]. exists [x01; x02; x03], [x04], [x05; x06].
  split; try (vm_compute; first [reflexivity | discriminate | split; discriminate]). by intros ? [= <-].
Qed.

Lemma carried_directory_witness :
  ∃ image file image', RomFsWrite.build sample_packed = Ok image ∧
    seal sample_asset image = Some file ∧
    unseal sample_asset file = Some image' ∧
    unpacks_to image' (NDir sample_listing).
Proof.
  destruct (@carried_directory zerocopy_reference (fs_reference (NDir sample_listing)) NroSlot Carrier_nro
    sample_asset 2 [] sample_listing sample_packable ltac:(vm_compute; lia)) as (b & Hb & H).
  assert (sample_packed = b) as He by (unfold sample_packed; rewrite Hb; reflexivity). rewrite <-He in H.
  destruct (H sample_packed_fits) as (image & Hi & Hs).
  assert (sample_image = image) as <- by (unfold sample_image; rewrite Hi; reflexivity).
  destruct (Hs sample_asset_accepts) as (file & image' & Hs' & Hu & Hr).
  exists sample_image, file, image'. split; [exact Hi|]. split; [exact Hs'|]. split; [exact Hu|exact Hr].
Defined.

(** A package with one other file, and a new program archive whose second section is the RomFS. *)
Definition sample_package : Pfs0Slot := {| pfs0_files := [{| fe_name := [x61]; fe_data := [x01] |}]; pfs0_name := [x62] |}.
Definition sample_slot : NcaSlot :=
  {| nca_builder := NcaBuilder_new NcaRaw.Program 0x0100000000001000; nca_slot := 1; nca_block_size := None; nca_encryption := EncCtr |}.

Lemma sample_package_room : pfs0_room sample_package MAX_NCA_SIZE.
Proof.
  split; [|vm_compute; first [reflexivity | discriminate]..]. split; [repeat constructor; discriminate|].
  apply (bool_decide_unpack _). vm_compute. exact I.
Qed.
Lemma sample_slot_room : @nca_room zerocopy_reference sha256_reference sample_slot 0x10000.
Proof.
  split; [by apply new_builder_ok|reflexivity|discriminate|vm_compute; discriminate|].
  change (growth _) with 2. change (len (body_of _)) with 0. unfold NCA_HEADER_SIZE, MEDIA_UNIT_SIZE. unfold_max. lia.
Qed.

Lemma program_package_witness :
  ∃ image file image', RomFsWrite.build sample_packed = Ok image ∧
    seal (sample_package, sample_slot) image = Some file ∧ unseal (sample_package, sample_slot) file = Some image' ∧
    @unpacks_to zerocopy_reference image' (NDir sample_listing).
Proof.
  destruct (@program_package zerocopy_reference sha256_reference (fs_reference (NDir sample_listing)) 2 [] sample_listing
    sample_package sample_slot 0x10000 sample_packable ltac:(vm_compute; lia) sample_slot_room sample_package_room)
    as (b & Hb & H).
  assert (sample_packed = b) as He by (unfold sample_packed; rewrite Hb; reflexivity). rewrite <-He in H.
  destruct (H sample_packed_fits) as (image & Hi & Hs).
  assert (sample_image = image) as Hl by (unfold sample_image; rewrite Hi; reflexivity).
  destruct Hs as (file & image' & Hs & Hu & Hr); [rewrite <-Hl; vm_compute; discriminate|].
  exists image, file, image'. split; [exact Hi|]. split; [exact Hs|]. split; [exact Hu|exact Hr].
Defined.

Lemma meta_package_witness :
  ∃ meta file c, @Cnmt.build zerocopy_reference sample_cnmt = Some meta ∧
    seal (sample_package, (meta_slot sample_cnmt 0x1000 EncCtr, meta_archive sample_cnmt)) meta = Some file ∧
    unseal (sample_package, (meta_slot sample_cnmt 0x1000 EncCtr, meta_archive sample_cnmt)) file = Some meta ∧
    @Cnmt.try_from_bytes zerocopy_reference meta = Ok c ∧ Cnmt.title_id c = 0x0100000000001000 ∧
    title_version c = 0 ∧ meta_type c = Some Cnmt.Application ∧
    (∃ h, c_extended_header c = Some h ∧ patch_title_id h = 0x0100000000001800) ∧ record_count c = 2 ∧
    map (λ r, (cr_hash r, cr_nca_id r, record_size r, record_content_type r)) (c_records c)
      = [(zrep 0x20 xab, zrep 0x10 xab, Some 0x1234, Some Cnmt.Program);
         (zrep 0x20 xcd, zrep 0x10 xcd, Some 0x5678, Some Cnmt.Control)].
Proof.
  exact (@meta_package zerocopy_reference sha256_reference sample_cnmt sample_package 0x1000 EncCtr
    sample_cnmt_wf ltac:(split; discriminate) sample_package_room).
Defined.

Definition sample_info : list byte := match @Nacp.build zerocopy_reference sample_nacp with Ok info => info | _ => [] end.
Definition sample_homebrew : NroBuilder := nro_asset_romfs (nro_asset_nacp sample_nro sample_info) sample_image.

Lemma sample_homebrew_layout : layout_ok sample_homebrew [x01; x02; x03] [x04] [x05; x06].
Proof. split; try (vm_compute; first [reflexivity | discriminate | split; discriminate]). by intros ? [= <-]. Qed.

Lemma homebrew_package_witness :
  ∃ file n info image read, @Nro.build zerocopy_reference sample_homebrew = Ok file ∧
    @Nacp.build zerocopy_reference sample_nacp = Ok info ∧
    RomFsWrite.build sample_packed = Ok image ∧
    @Nro.try_from_bytes zerocopy_reference file = Ok n ∧ asset_nacp n = Some (Some info) ∧
    @Nacp.try_from_bytes zerocopy_reference info = Ok read ∧ language_entry read 15 = Some (title_at sample_nacp 15) ∧
    display_version read = Some [x31; x2e; x30] ∧ ns_presence_group_id (na_raw read) = 0x0100000000001000 ∧
    asset_romfs n = Some (Some image) ∧ @unpacks_to zerocopy_reference image (NDir sample_listing).
Proof.
  destruct (@homebrew_package zerocopy_reference (fs_reference (NDir sample_listing)) 2 [] sample_listing sample_nacp
    sample_nro [x01; x02; x03] [x04] [x05; x06] sample_packable ltac:(vm_compute; lia) sample_nacp_ok sample_nacp_fits)
    as (b & info & Hb & Hinfo & H).
  assert (sample_packed = b) as He by (unfold sample_packed; rewrite Hb; reflexivity). rewrite <-He in H.
  assert (sample_info = info) as Hl' by (unfold sample_info; rewrite Hinfo; reflexivity). rewrite <-Hl' in H.
  destruct (H sample_packed_fits) as (image & Hi & Hs).
  assert (sample_image = image) as Hl by (unfold sample_image; rewrite Hi; reflexivity). rewrite <-Hl in Hs.
  destruct (Hs sample_homebrew_layout) as (file & n & read & Hf & Hn & Ha & Hr & Ht & Hv & Hfo & Hra & Hu).
  exists file, n, sample_info, sample_image, read. split; [exact Hf|]. split; [by rewrite Hl'|].
  split; [by rewrite Hl|]. split; [exact Hn|]. split; [exact Ha|].
  split; [exact Hr|]. split; [apply Ht; lia|]. split; [by apply Hv|]. split; [apply (fo_presence_group_id _ _ Hfo)|].
  split; [exact Hra|exact Hu].
Defined.
