(* ===== verification/TestKit.v ===== *)
(** * Running the unit tests of the crate on the model

    The files [Tests...] hold the crate's own unit tests, translated like the rest of the code: a test is
    a computation that yields the truth of its assertions, or nothing when one of its [expect]s would
    panic. That they pass, each with the value its source asserts, is checked by evaluation, on the
    reference instances of the third-party classes; where an input is too large to evaluate, from the
    theorem that covers it. *)

From Stdlib Require Strings.String.
Export String.StringSyntax.
From S2P Require Import Prelude Bytes.
#[local] Open Scope Z_scope.

(** A byte string literal. *)
Definition b (s : String.string) : list byte := String.list_byte_of_string s.
#[global] Arguments b s%_string_scope.

(** [Result::expect]. *)
Definition expect {E A} (m : outcome E A) : option A := match m with Ok a => Some a | _ => None end.
(** [assert!(matches!(m, Err(pattern)))], and [assert!(m.is_err())]. *)
Definition fails_with {E A} (pattern : E → bool) (m : outcome E A) : bool :=
  match m with Err e => pattern e | _ => false end.
Definition fails {E A} (m : outcome E A) : bool := fails_with (λ _, true) m.

(** [image[at..at + bytes.len()].copy_from_slice(bytes)] on a [Vec]. *)
Definition patch (image : list byte) (offset : Z) (bytes : list byte) : option (list byte) :=
  copy_from_slice image offset (offset + len bytes) bytes.
(** The little-endian integer of [n] bytes at [offset]. *)
Definition read_le (n : Z) (image : list byte) (offset : Z) : option Z :=
  le_val <$> get_range image offset (offset + n).

Definition passes (test : option bool) : Prop := test = Some true.

(** Several assertions, in order. *)
Definition all (tests : list (option bool)) : option bool :=
  foldr (λ test rest, t ← test; r ← rest; Some (t && r)) (Some true) tests.
Lemma all_passes tests : Forall passes tests → passes (all tests).
Proof. unfold passes, all. induction 1 as [|test tests Ht _ IH]; [done|]. cbn [foldr]. by rewrite Ht, IH. Qed.
