(* ===== verification/TestsBlz.v ===== *)
(** * The unit tests of [blz.rs]

    The oracle [longest_match_brute_force] of the tests is a definition of [Blz]. A test that compares
    the match finder with it, or the decoder with the encoder, follows from the lemma of [BlzFinder] or
    [BlzRoundTrip] that covers every input; the others are evaluated. *)

From S2P Require Import Prelude Bytes Layout TestKit Blz BlzFinder BlzDecode BlzRoundTrip.
#[local] Open Scope Z_scope.
#[local] Existing Instance zerocopy_reference.

(** ** The helpers of the tests *)

(** One round of xorshift64. *)
Definition xorshift (state : Z) : Z :=
  let state := Z.lxor state (as_u64 (Z.shiftl state 13)) in
  let state := Z.lxor state (Z.shiftr state 7) in
  Z.lxor state (as_u64 (Z.shiftl state 17)).
Fixpoint pseudo_random_bytes (n : nat) (state : Z) : list byte :=
  match n with
  | O => []
  | S n => let state := xorshift state in z2b (as_u8 (Z.land state 0xFF)) :: pseudo_random_bytes n state
  end.

Definition longest_match_at_every_position (finder : MatchFinder) : option (list (Z * Z)) :=
  mapM (longest_match finder) (seqZ 0 (len (mf_data finder))).

Definition assert_matches_brute_force (data : list byte) (matches : list (Z * Z)) : option bool :=
  expected ← mapM (longest_match_brute_force data) (seqZ 0 (len matches));
  Some ((len matches =? len data) && bool_decide (matches = expected)).

Definition assert_round_trips (data : list byte) : option bool :=
  compressed ← compress data;
  decompressed ← expect (decompress compressed (len data));
  Some (bool_decide (decompressed = data)).

(** The three steps of every test of the finder. *)
Definition finder_agrees (data : list byte) : option bool :=
  finder ← MatchFinder_new data;
  matches ← longest_match_at_every_position finder;
  assert_matches_brute_force data matches.

(** ** The encoder and the decoder *)

Definition compress_with_a_short_run_stores_rather_than_packing : option bool :=
  let data := zrep 12 x11 in
  compressed ← compress data;
  extra_len ← read_le 4 compressed (len compressed - 4);
  decompressed ← expect (decompress compressed (len data));
  Some ((extra_len =? 0) && bool_decide (decompressed = data)).

Definition claims_stored_honestly (index : Z) (stream : list byte) : option bool :=
  extra_len ← trailing_u32 stream 4;
  let stored_len := len stream - 4 in
  Some (negb (extra_len =? 0) || (index / 2 <=? stored_len)).
Definition compress_never_writes_a_zero_extra_length_on_a_packed_stream : option bool :=
  let corpus := pseudo_random_bytes 600 0x51ED5EEDC0FFEE01 in
  runs ← all ((λ n, stream ← compress (zrep n x22); claims_stored_honestly (2 * n) stream) <$> seqZ 0 600);
  random ← all ((λ n, stream ← compress (ztake n corpus); claims_stored_honestly (2 * n + 1) stream) <$> seqZ 0 600);
  Some (runs && random).

Definition decompress_with_empty_input_returns_empty : option bool := assert_round_trips [].
Definition decompress_with_incompressible_input_round_trips : option bool :=
  assert_round_trips (pseudo_random_bytes 4096 0x2545F4914F6CDD1D).
Definition decompress_with_rle_input_round_trips : option bool := assert_round_trips (zrep 8192 xaa).
Definition decompress_with_structured_input_round_trips : option bool :=
  assert_round_trips (concat ((λ index, (le_bytes 4 index ++ b "nx-object")%list) <$> seqZ 0 512)).
Definition decompress_with_a_prefix_that_stays_raw_round_trips : option bool :=
  assert_round_trips (pseudo_random_bytes 2048 0x9E3779B97F4A7C15 ++ zrep 8192 x5c)%list.
Definition decompress_with_lengths_from_one_to_a_thousand_round_trips : option bool :=
  let corpus := pseudo_random_bytes 1000 0x0DDB1A5E5BAD5EED in
  all (seqZ 0 (len corpus) ≫= λ n, [assert_round_trips (ztake n corpus); assert_round_trips (zrep n x11)]).

Definition decompress_with_a_truncated_buffer_fails : option bool :=
  Some (fails_with (λ e, if e is BufferTooSmall _ _ then true else false) (decompress (zeros 2) 8)).
Definition decompress_with_a_trailer_claiming_more_than_the_buffer_fails : option bool :=
  data ← patch (zeros 16) 4 (le_bytes 4 U32_MAX);
  data ← patch data 8 (le_bytes 4 12);
  data ← patch data 12 (le_bytes 4 1);
  Some (fails_with (λ e, if e is MalformedTrailer _ _ _ then true else false) (decompress data 8)).
Definition decompress_with_a_header_size_below_the_trailer_fails : option bool :=
  data ← patch (zeros 16) 4 (le_bytes 4 16);
  data ← patch data 8 (le_bytes 4 4);
  data ← patch data 12 (le_bytes 4 1);
  Some (fails_with (λ e, if e is MalformedTrailer _ _ _ then true else false) (decompress data 8)).

(** ** The match finder *)

Definition longest_match_with_empty_input_matches_brute_force : option bool := finder_agrees [].
Definition longest_match_with_one_byte_input_matches_brute_force : option bool := finder_agrees [x42].
Definition longest_match_with_two_byte_input_matches_brute_force : option bool := finder_agrees [x42; x43].
Definition longest_match_with_rle_input_matches_brute_force : option bool := finder_agrees (zrep (MAX_OFFSET + 256) xab).
Definition longest_match_with_incompressible_input_matches_brute_force : option bool :=
  finder_agrees (pseudo_random_bytes 8192 0x123456789ABCDEF0).
Definition longest_match_with_repeated_prefix_input_matches_brute_force : option bool :=
  finder_agrees (concat ((λ i, [x11; x22; x33; z2b (as_u8 (Z.land i 0xFF))]) <$> seqZ 0 600)).
Definition pattern_at_both_ends : option (list byte) :=
  let pattern := [x01; x02; x03; x04; x05; x06; x07; x08] in
  let data := pseudo_random_bytes (Z.to_nat (MAX_OFFSET + len pattern + 16)) 0xDEADBEEFCAFEF00D in
  data ← patch data 0 pattern;
  patch data MAX_OFFSET pattern.
Definition longest_match_at_max_offset_boundary_matches_brute_force : option bool :=
  data ← pattern_at_both_ends; finder_agrees data.
Definition longest_match_with_structured_input_matches_brute_force : option bool :=
  finder_agrees (concat (replicate 64 (b "the quick brown fox jumps over the lazy dog. "))).

(** ** They pass *)

Lemma finder_agrees_passes data : len data < NONE → passes (finder_agrees data).
Proof.
  intros Hd. unfold finder_agrees. destruct (MatchFinder_new_spec data Hd) as (f & -> & Hf & Hok). bind_cbn.
  assert (∃ ms, Forall2 (λ pos m, longest_match f pos = Some m) (seqZ 0 (len data)) ms ∧
                Forall2 (λ pos m, longest_match_brute_force data pos = Some m) (seqZ 0 (len data)) ms) as (ms & H1 & H2).
  { assert (Forall (λ pos, 0 ≤ pos < len data) (seqZ 0 (len data))) as Hall by (apply Forall_seqZ; lia).
    induction Hall as [|pos l Hpos _ (ms & H1 & H2)]; [by exists []|]. rewrite <-Hf in Hpos.
    destruct (longest_match_oracle f pos Hok Hpos) as (m & Hm & Hb). rewrite Hf in Hb. exists (m :: ms). by split; constructor. }
  unfold longest_match_at_every_position. rewrite Hf, (mapM_Some_2 _ _ _ H1). bind_cbn.
  assert (len ms = len data) as Hl.
  { pose proof (len_nonneg data). apply Forall2_length in H1. rewrite length_seqZ in H1. unfold len in *. lia. }
  unfold assert_matches_brute_force. rewrite Hl, (mapM_Some_2 _ _ _ H2). bind_cbn. unfold passes.
  by rewrite Z.eqb_refl, bool_decide_true.
Qed.

Lemma round_trips_passes data : len data < NONE → passes (assert_round_trips data).
Proof.
  intros Hd. unfold assert_round_trips. destruct (compress_round_trip data Hd) as (c & -> & Hc). bind_cbn.
  rewrite Hc. cbn [expect]. bind_cbn. unfold passes. by rewrite bool_decide_true.
Qed.

Lemma stored_honestly_passes data index :
  len data < NONE → index / 2 = len data → passes (stream ← compress data; claims_stored_honestly index stream).
Proof.
  intros Hd Hi. destruct (compress_cases data Hd) as (c & -> & Hc). bind_cbn. unfold claims_stored_honestly, passes.
  destruct Hc as [[-> ->]|(prefix & packed & xl & _ & _ & -> & Hx)]; bind_cbn.
  - rewrite len_stored_stream, Hi. pose proof (padding_range (len data)). cbn [Z.eqb negb orb]. f_equal. apply Z.leb_le. lia.
  - by rewrite (proj2 (Z.eqb_neq xl 0)) by lia.
Qed.

Lemma length_pseudo_random_bytes n state : length (pseudo_random_bytes n state) = n.
Proof. revert state. induction n as [|n IH]; intros state; [done|]. cbn. by rewrite IH. Qed.
Lemma len_pseudo_random_bytes n state : len (pseudo_random_bytes n state) = Z.of_nat n.
Proof. unfold len. by rewrite length_pseudo_random_bytes. Qed.

(** A list of tests that are instances of one lemma, on inputs whose length is evaluated. *)
Ltac covered_by lem :=
  lazymatch goal with
  | |- Forall passes [] => apply Forall_nil_2
  | |- Forall passes (?t :: _) => apply Forall_cons_2; [unfold t; apply lem; vm_compute; reflexivity|covered_by lem]
  end.

(** The evaluated tests. *)
Example blz_tests_pass : Forall passes
  [compress_with_a_short_run_stores_rather_than_packing; decompress_with_a_truncated_buffer_fails;
   decompress_with_a_trailer_claiming_more_than_the_buffer_fails; decompress_with_a_header_size_below_the_trailer_fails].
Proof. repeat constructor; vm_compute; reflexivity. Qed.

Example finder_tests_pass : Forall passes
  [longest_match_with_empty_input_matches_brute_force; longest_match_with_one_byte_input_matches_brute_force;
   longest_match_with_two_byte_input_matches_brute_force; longest_match_with_rle_input_matches_brute_force;
   longest_match_with_incompressible_input_matches_brute_force;
   longest_match_with_repeated_prefix_input_matches_brute_force;
   longest_match_with_structured_input_matches_brute_force].
Proof.
  covered_by finder_agrees_passes.
Qed.

Example finder_boundary_test_passes : passes longest_match_at_max_offset_boundary_matches_brute_force.
Proof.
  unfold longest_match_at_max_offset_boundary_matches_brute_force.
  assert ((if pattern_at_both_ends is Some data then len data <? NONE else false) = true) as H by (vm_compute; reflexivity).
  destruct pattern_at_both_ends as [data|]; [|done]. apply finder_agrees_passes. by apply Z.ltb_lt.
Qed.

Example round_trip_tests_pass : Forall passes
  [decompress_with_empty_input_returns_empty; decompress_with_incompressible_input_round_trips;
   decompress_with_rle_input_round_trips; decompress_with_structured_input_round_trips;
   decompress_with_a_prefix_that_stays_raw_round_trips].
Proof.
  covered_by round_trips_passes.
Qed.

Example every_length_test_passes : passes decompress_with_lengths_from_one_to_a_thousand_round_trips.
Proof.
  apply all_passes. rewrite len_pseudo_random_bytes. apply Forall_bind.
  apply (Forall_impl (λ n, 0 ≤ n < 1000)); [apply Forall_seqZ; lia|]. intros n Hn.
  repeat constructor; apply round_trips_passes.
  - rewrite len_ztake by (rewrite len_pseudo_random_bytes; lia). unfold NONE. unfold_max. lia.
  - rewrite len_zrep by lia. unfold NONE. unfold_max. lia.
Qed.

Example stored_test_passes : passes compress_never_writes_a_zero_extra_length_on_a_packed_stream.
Proof.
  unfold compress_never_writes_a_zero_extra_length_on_a_packed_stream. cbv zeta.
  assert (∀ f, (∀ n, 0 ≤ n < 600 → passes (f n)) → all (f <$> seqZ 0 600) = Some true) as H.
  { intros f Hf. apply all_passes, Forall_fmap. apply (Forall_impl (λ n, 0 ≤ n < 600)); [apply Forall_seqZ; lia|done]. }
  rewrite !H; [done| |]; intros n Hn; apply stored_honestly_passes.
  - rewrite len_zrep by lia. unfold NONE. unfold_max. lia.
  - rewrite len_zrep by lia. div_lia.
  - rewrite len_ztake by (rewrite len_pseudo_random_bytes; lia). unfold NONE. unfold_max. lia.
  - rewrite len_ztake by (rewrite len_pseudo_random_bytes; lia). div_lia.
Qed.
