(* ===== verification/TestsPfs0.v ===== *)
(** * The unit tests of [write/pfs0.rs] and [read/pfs0.rs] *)

From S2P Require Import Prelude Bytes Layout TestKit Pfs0.
#[local] Open Scope Z_scope.
#[local] Existing Instance zerocopy_reference.

(** ** [write/pfs0.rs] *)

Definition read_u32 (image : list byte) (offset : Z) : option Z := read_le 4 image offset.
Definition read_u64 (image : list byte) (offset : Z) : option Z := read_le 8 image offset.

Definition build_with_no_files_produces_a_header_only_archive : option bool :=
  image ← build [];
  count ← read_u32 image 4;
  Some ((len image =? 0x10) && (count =? 0)).

Definition build_sorts_entries_by_name_regardless_of_insertion_order : option bool :=
  builder ← expect (add_file [] (b "main.npdm") (b "npdm"));
  builder ← expect (add_file builder (b "main") (b "nso"));
  image ← build builder;
  let string_table := 0x10 + 2 * 0x18 in
  head ← get_range image string_table (string_table + 5);
  first ← read_u64 image (0x10 + 8);
  Some (bool_decide (head = (b "main" ++ [x00])%list) && (first =? 3)).

Definition build_pads_the_string_table_to_its_alignment : option bool :=
  builder ← expect (add_file [] (b "a") (b "x"));
  image ← build builder;
  size ← read_u32 image 8;
  Some ((size =? 0x20) && (len image =? 0x10 + 0x18 + 0x20 + 1)).

Definition add_file_with_an_empty_name_fails : option bool :=
  Some (fails_with (λ e, if e is EmptyFileName then true else false) (add_file [] (b "") (b "data"))).

Definition add_file_with_a_path_separator_fails : option bool :=
  Some (fails_with (λ e, match e with InvalidFileNameNul _ | InvalidFileNameSeparator _ => true | _ => false end)
          (add_file [] (b "dir/file") (b "data"))).

Definition add_file_with_a_duplicate_name_fails : option bool :=
  builder ← expect (add_file [] (b "main") (b "first"));
  Some (fails_with (λ e, if e is DuplicateFile _ then true else false) (add_file builder (b "main") (b "second"))).

(** ** [read/pfs0.rs] *)

(** The names, each with a NUL, and where each starts; and the padding of the table. *)
Definition name_offsets (files : list (list byte * list byte)) : list byte * list Z :=
  foldl (λ '(string_table, offsets) '(name, _), (string_table ++ name ++ [x00], offsets ++ [as_u32 (len string_table)]))%list
    ([], []) files.
Definition pad_to (n : Z) (l : list byte) : list byte := (l ++ zeros (align_up (len l) n - len l))%list.

(** An archive by hand, in the order given, so that the reader is tested without the builder. *)
Definition archive (files : list (list byte * list byte)) : list byte :=
  let '(string_table, name_offsets) := name_offsets files in
  let string_table := pad_to 0x20 string_table in
  let '(entries, _) := foldl (λ '(entries, offset) '((_, data), name_offset),
    (entries ++ le_bytes 8 offset ++ le_bytes 8 (len data) ++ le_bytes 4 name_offset ++ le_bytes 4 0, offset + len data))%list
    ([], 0) (zip files name_offsets) in
  (le_bytes 4 0x30534650 ++ le_bytes 4 (as_u32 (len files)) ++ le_bytes 4 (as_u32 (len string_table)) ++ le_bytes 4 0 ++
   entries ++ string_table ++ concat (map snd files))%list.

Definition is_file (f : option Pfs0File) (n d : list byte) : bool := bool_decide ((λ f, (name f, data f)) <$> f = Some (n, d)).

Definition try_from_bytes_with_two_files_resolves_both : option bool :=
  pfs0 ← expect (try_from_bytes (archive [(b "main", b "code"); (b "main.npdm", b "descriptor")]));
  main ← file pfs0 0;
  npdm ← file pfs0 1;
  Some ((file_count pfs0 =? 2) && is_file main (b "main") (b "code") && is_file npdm (b "main.npdm") (b "descriptor")).

Definition try_from_bytes_with_no_files_succeeds : option bool :=
  pfs0 ← expect (try_from_bytes (archive []));
  Some (file_count pfs0 =? 0).

Definition try_from_bytes_with_wrong_magic_fails : option bool :=
  image ← set_index (archive [(b "main", b "code")]) 0 x58;
  Some (fails_with (λ e, if e is InvalidMagic _ then true else false) (try_from_bytes image)).

Definition try_from_bytes_with_a_file_past_the_data_region_fails : option bool :=
  image ← patch (archive [(b "main", b "code")]) (0x10 + 0x8) (le_bytes 8 0x1000);
  Some (fails_with (λ e, if e is FileOutOfBounds _ _ _ _ then true else false) (try_from_bytes image)).

Definition try_from_bytes_with_a_name_outside_the_string_table_fails : option bool :=
  image ← patch (archive [(b "main", b "code")]) (0x10 + 0x10) (le_bytes 4 0xFFFFFFFF);
  Some (fails_with (λ e, if e is NameOutOfBounds _ _ _ then true else false) (try_from_bytes image)).

Definition try_from_bytes_with_a_truncated_entry_table_fails : option bool :=
  image ← patch (archive []) 0x4 (le_bytes 4 1);
  Some (fails_with (λ e, if e is EntryTableOutOfBounds _ _ then true else false) (try_from_bytes image)).

Definition file_by_name_with_a_name_the_archive_holds_returns_it : option bool :=
  pfs0 ← expect (try_from_bytes (archive [(b "main", b "code"); (b "main.npdm", b "descriptor")]));
  file ← file_by_name pfs0 (b "main.npdm");
  Some (bool_decide (data <$> file = Some (b "descriptor"))).

Definition file_by_name_with_a_name_the_archive_lacks_returns_none : option bool :=
  pfs0 ← expect (try_from_bytes (archive [(b "main", b "code")]));
  file ← file_by_name pfs0 (b "logo");
  Some (if file is None then true else false).

Example pfs0_tests_pass : Forall passes
  [build_with_no_files_produces_a_header_only_archive; build_sorts_entries_by_name_regardless_of_insertion_order;
   build_pads_the_string_table_to_its_alignment; add_file_with_an_empty_name_fails;
   add_file_with_a_path_separator_fails; add_file_with_a_duplicate_name_fails;
   try_from_bytes_with_two_files_resolves_both; try_from_bytes_with_no_files_succeeds;
   try_from_bytes_with_wrong_magic_fails; try_from_bytes_with_a_file_past_the_data_region_fails;
   try_from_bytes_with_a_name_outside_the_string_table_fails; try_from_bytes_with_a_truncated_entry_table_fails;
   file_by_name_with_a_name_the_archive_holds_returns_it; file_by_name_with_a_name_the_archive_lacks_returns_none].
Proof. repeat constructor; vm_compute; reflexivity. Qed.
