(* ===== verification/TestsCnmt.v ===== *)
(** * The unit tests of [write/cnmt.rs] and [read/cnmt.rs] *)

From S2P Require Import Prelude Bytes Layout TestKit Cnmt.
#[local] Open Scope Z_scope.
#[local] Existing Instance zerocopy_reference.

(** ** [write/cnmt.rs] *)

(** A record whose hash is one byte repeated. *)
Definition record (byte : byte) (content_type : CnmtContentType) : ContentRecord :=
  {| hash := zrep 0x20 byte; size := 0x1000; content_type := content_type |}.
Definition new_builder : CnmtBuilder := CnmtBuilder_new 0x0100000000001000.

Definition build_names_the_nca_by_the_head_of_its_hash : option bool :=
  builder ← expect (add_content new_builder (record xab Program));
  meta ← build builder;
  nca_id ← get_range meta (0x30 + 0x20) (0x30 + 0x30);
  Some (bool_decide (nca_id = zrep 0x10 xab)).

Definition build_orders_records_by_content_type_regardless_of_insertion_order : option bool :=
  builder ← expect (add_content new_builder (record x02 Control));
  builder ← expect (add_content builder (record x01 Program));
  meta ← build builder;
  first_record_type ← index meta (0x30 + 0x36);
  Some (b2z first_record_type =? content_type_code Program).

Definition build_derives_the_patch_title_id_from_the_title_id : option bool :=
  meta ← build new_builder;
  patch_title_id ← read_le 8 meta 0x20;
  Some (patch_title_id =? 0x0100000000001800).

Definition file_name_matches_what_the_console_looks_up : option bool :=
  Some (bool_decide (file_name new_builder = b "Application_0100000000001000.cnmt")).

Definition add_content_with_a_repeated_content_type_fails : option bool :=
  builder ← expect (add_content new_builder (record x01 Program));
  Some (fails (add_content builder (record x02 Program))).

(** ** [read/cnmt.rs] *)

Definition cnmt : option (list byte) :=
  builder ← expect (add_content new_builder {| hash := zrep 0x20 xab; size := 0x1234; content_type := Program |});
  builder ← expect (add_content builder {| hash := zrep 0x20 xcd; size := 0x5678; content_type := Control |});
  build builder.

Definition try_from_bytes_with_a_built_meta_succeeds : option bool :=
  meta ← cnmt;
  cnmt ← expect (try_from_bytes meta);
  Some ((title_id cnmt =? 0x0100000000001000) && (record_count cnmt =? 2) &&
        (if meta_type cnmt is Some Application then true else false)).

Definition records_with_a_built_meta_returns_what_was_added : option bool :=
  meta ← cnmt;
  cnmt ← expect (try_from_bytes meta);
  records ← mapM (λ record, size ← record_size record; Some (size, record_content_type record)) (c_records cnmt);
  Some (bool_decide (records = [(0x1234, Some Program); (0x5678, Some Control)])).

Definition nca_id_with_a_built_meta_is_the_head_of_the_hash : option bool :=
  meta ← cnmt;
  cnmt ← expect (try_from_bytes meta);
  record ← head (c_records cnmt);
  head ← get_to (cr_hash record) 0x10;
  Some (bool_decide (cr_nca_id record = head)).

Definition extended_header_with_an_application_meta_derives_the_patch_title_id : option bool :=
  meta ← cnmt;
  cnmt ← expect (try_from_bytes meta);
  extended ← c_extended_header cnmt;
  Some (patch_title_id extended =? 0x0100000000001800).

Definition try_from_bytes_with_a_truncated_buffer_fails : option bool :=
  meta ← cnmt;
  truncated ← get_to meta 0x10;
  Some (fails_with (λ e, if e is BufferTooSmall _ _ then true else false) (try_from_bytes truncated)).

Definition try_from_bytes_with_more_records_than_the_buffer_holds_fails : option bool :=
  meta ← cnmt;
  meta ← patch meta 0x10 (le_bytes 2 0xFFFF);
  Some (fails_with (λ e, if e is RecordsOutOfBounds _ _ then true else false) (try_from_bytes meta)).

Example cnmt_tests_pass : Forall passes
  [build_names_the_nca_by_the_head_of_its_hash; build_orders_records_by_content_type_regardless_of_insertion_order;
   build_derives_the_patch_title_id_from_the_title_id; file_name_matches_what_the_console_looks_up;
   add_content_with_a_repeated_content_type_fails; try_from_bytes_with_a_built_meta_succeeds;
   records_with_a_built_meta_returns_what_was_added; nca_id_with_a_built_meta_is_the_head_of_the_hash;
   extended_header_with_an_application_meta_derives_the_patch_title_id; try_from_bytes_with_a_truncated_buffer_fails;
   try_from_bytes_with_more_records_than_the_buffer_holds_fails].
Proof. repeat constructor; vm_compute; reflexivity. Qed.
