(* ===== verification/TestsKip.v ===== *)
(** * The unit tests of [read/kip.rs]

    The tests share two images; each test is a function of the image that its first line builds. The
    images are built and read with a codec that keeps the interface of [BlzCodec] by storing: the tests
    assert nothing of the compressed form, and those of the real codec are in [TestsBlz]. *)

From S2P Require Import Prelude Bytes Layout TestKit Blz BlzCodec Kip.
#[local] Open Scope Z_scope.
#[local] Existing Instance zerocopy_reference.

#[local] Program Instance stored_codec : BlzCodec := {|
  blz_compress data := if len data <? NONE then Some data else None;
  blz_decompress data size := if len data =? size then Ok data else Err (UnexpectedLength size (len data));
|}.
Next Obligation. intros data Hd. exists data. by rewrite (proj2 (Z.ltb_lt _ _)), Z.eqb_refl by done. Qed.
Next Obligation. intros data c. cbn. case_match; [|done]. intros [= <-]. lia. Qed.
Next Obligation. intros data size _ _. cbn. destruct (Z.eqb_spec (len data) size); [done|exact I]. Qed.

(** A KIP1 carrying the three segments, each holding a distinctive run. *)
Definition kip1 (text rodata data : list byte) : option (list byte) :=
  expect (build (kip_data (kip_rodata (kip_text (kip_title_id (kip_name Kip1Builder_new (b "roundtrip"))
    0x0100000000001000) text) rodata) data)).
Definition large_image : option (list byte) := kip1 (zrep 0x400 xaa) (zrep 0x200 xbb) (zrep 0x100 xcc).
Definition small_image : option (list byte) := kip1 (zrep 0x100 xaa) (zrep 0x100 xbb) (zrep 0x100 xcc).

Definition try_from_bytes_with_a_built_image_succeeds (image : list byte) : option bool :=
  kip ← expect (try_from_bytes image);
  name ← name kip;
  Some (bool_decide (name = b "roundtrip") && (title_id kip =? 0x0100000000001000)).

Definition try_from_bytes_with_wrong_magic_fails (image : list byte) : option bool :=
  image ← set_index image 0 x58;
  Some (fails_with (λ e, if e is InvalidMagic _ then true else false) (try_from_bytes image)).

(** The source cuts the image at [0x180], inside its text segment. *)
Definition try_from_bytes_with_a_truncated_image_fails (image : list byte) : option bool :=
  truncated ← get_to image 0x180;
  Some (fails_with (λ e, if e is SegmentOutOfBounds _ _ _ _ then true else false) (try_from_bytes truncated)).

Definition decompress_with_a_built_image_returns_the_segments_that_were_packed (image : list byte) : option bool :=
  kip ← expect (try_from_bytes image);
  segments ← segments kip;
  segments ← mapM (λ segment, expect (segment_decompress segment)) segments;
  Some (bool_decide (segments = [zrep 0x400 xaa; zrep 0x200 xbb; zrep 0x100 xcc; []])).

Definition segment_with_the_bss_index_stores_no_bytes (image : list byte) : option bool :=
  kip ← expect (try_from_bytes image);
  bss ← segment kip 3;
  bss ← bss;
  Some ((len (stored bss) =? 0) && negb (compressed bss)).

Definition segment_with_an_index_past_the_loaded_segments_returns_none (image : list byte) : option bool :=
  kip ← expect (try_from_bytes image);
  segment ← segment kip 4;
  Some (if segment is None then true else false).

Definition is_compressed_with_a_built_image_marks_the_first_three_segments (image : list byte) : option bool :=
  kip ← expect (try_from_bytes image);
  segments ← segments kip;
  Some (bool_decide (map compressed segments = [true; true; true; false])).

Example kip_tests_pass : ∃ large small, large_image = Some large ∧ small_image = Some small ∧ Forall passes
  [try_from_bytes_with_a_built_image_succeeds large; try_from_bytes_with_wrong_magic_fails small;
   try_from_bytes_with_a_truncated_image_fails large;
   decompress_with_a_built_image_returns_the_segments_that_were_packed large;
   segment_with_the_bss_index_stores_no_bytes small;
   segment_with_an_index_past_the_loaded_segments_returns_none small;
   is_compressed_with_a_built_image_marks_the_first_three_segments large].
Proof.
  eexists _, _. split; [vm_compute; reflexivity|]. split; [vm_compute; reflexivity|].
  repeat constructor; vm_compute; reflexivity.
Qed.
