(* ===== verification/TestsNso.v ===== *)
(** * The unit tests of [read/nso.rs] *)

From S2P Require Import Prelude Bytes Layout Crates TestKit Nso.
#[local] Open Scope Z_scope.
#[local] Existing Instances zerocopy_reference sha256_reference lz4_reference.

Definition PAGE : Z := 0x1000.
(** What the builder pads a segment to. *)
Definition whole_pages (data : list byte) : list byte := vec_resize data (div_ceil (len data) PAGE * PAGE) x00.

Definition nso (text rodata data : list byte) (compressed : bool) : option (list byte) :=
  expect (build (nso_compressed (nso_data (nso_rodata (nso_text NsoBuilder_new text) rodata) data) compressed)).
Definition test_image (compressed : bool) : option (list byte) :=
  nso (zrep 0x1000 xaa) (zrep 0x800 xbb) (zrep 0x400 xcc) compressed.

Definition text_with_a_compressed_image_returns_the_segment_that_was_packed : option bool :=
  image ← test_image true;
  parsed ← expect (try_from_bytes image);
  segment ← expect (text parsed);
  Some (bool_decide (segment = whole_pages (zrep 0x1000 xaa))).

Definition rodata_with_a_compressed_image_returns_the_segment_that_was_packed : option bool :=
  image ← test_image true;
  parsed ← expect (try_from_bytes image);
  segment ← expect (rodata parsed);
  Some (bool_decide (segment = whole_pages (zrep 0x800 xbb))).

Definition data_with_a_compressed_image_returns_the_segment_that_was_packed : option bool :=
  image ← test_image true;
  parsed ← expect (try_from_bytes image);
  segment ← expect (data parsed);
  Some (bool_decide (segment = whole_pages (zrep 0x400 xcc))).

Definition text_with_an_uncompressed_image_returns_the_stored_bytes : option bool :=
  image ← test_image false;
  parsed ← expect (try_from_bytes image);
  segment ← expect (text parsed);
  Some (bool_decide (segment = whole_pages (zrep 0x1000 xaa))).

Definition text_with_a_corrupted_stream_fails : option bool :=
  image ← test_image true;
  parsed ← expect (try_from_bytes image);
  let offset := file_offset (so_text (o_header parsed)) in
  corrupted ← patch image offset (zrep 0x10 xff);
  parsed ← expect (try_from_bytes corrupted);
  Some (fails (text parsed)).

Example nso_tests_pass : Forall passes
  [text_with_a_compressed_image_returns_the_segment_that_was_packed;
   rodata_with_a_compressed_image_returns_the_segment_that_was_packed;
   data_with_a_compressed_image_returns_the_segment_that_was_packed;
   text_with_an_uncompressed_image_returns_the_stored_bytes; text_with_a_corrupted_stream_fails].
Proof. repeat constructor; vm_compute; reflexivity. Qed.
