(* ===== verification/TestsNca.v ===== *)
(** * The unit tests of [write/nca.rs], [read/nca.rs] and [write/nca/] *)

From S2P Require Import Prelude Bytes Layout Crates TestKit Ivfc Partition NcaRaw NcaWrite NcaRead.
#[local] Open Scope Z_scope.
#[local] Existing Instances zerocopy_reference sha256_reference.

(** ** [write/nca/partition.rs] *)

Definition build_records_the_archive_after_the_padded_table : option bool :=
  let archive := zrep 0x800 x7e in
  section ← Partition.build archive 0x1000;
  let archive_offset := pfs0_offset (Partition.superblock section) in
  stored ← get_from (ps_data section) archive_offset;
  Some ((archive_offset mod MEDIA_UNIT_SIZE =? 0) && bool_decide (stored = archive)).

Definition build_sizes_the_table_by_the_number_of_blocks : option bool :=
  section ← Partition.build (zeros 0x2001) 0x1000;
  Some (hash_table_size (Partition.superblock section) =? 3 * 0x20).

Definition build_excludes_the_padding_from_the_recorded_table_size : option bool :=
  section ← Partition.build (zeros 0x1000) 0x1000;
  Some (hash_table_size (Partition.superblock section) <? pfs0_offset (Partition.superblock section)).

(** ** [write/nca/ivfc.rs] *)

Definition build_makes_the_image_the_last_level : option bool :=
  let romfs := zrep 100 x5a in
  tree ← Ivfc.build romfs;
  last ← index (level_headers tree) (Z.of_nat IVFC_MAX_LEVELS - 1);
  stored ← get_from (tree_data tree) (len (tree_data tree) - len romfs);
  Some ((hash_data_size last =? len romfs) && bool_decide (stored = romfs)).

Definition build_pads_every_derived_level_to_a_whole_block : option bool :=
  tree ← Ivfc.build (zeros 1);
  derived ← get_to (level_headers tree) (Z.of_nat IVFC_MAX_LEVELS - 1);
  Some (forallb (λ header, hash_data_size header mod IVFC_BLOCK_SIZE =? 0) derived).

Definition starts_where_the_one_below_ended (lower upper : IvfcLevelHeader) : bool :=
  logical_offset upper =? logical_offset lower + hash_data_size lower.
Definition build_accumulates_logical_offsets_across_the_levels : option bool :=
  tree ← Ivfc.build (zeros 0x10000);
  first ← index (level_headers tree) 0;
  Some ((logical_offset first =? 0) &&
        forallb (λ '(lower, upper), starts_where_the_one_below_ended lower upper)
          (zip (level_headers tree) (tail (level_headers tree)))).

Definition build_is_deterministic_for_the_same_image : option bool :=
  first ← Ivfc.build (zrep 0x4321 x11);
  second ← Ivfc.build (zrep 0x4321 x11);
  Some (bool_decide (master_hash first = master_hash second) && bool_decide (tree_data first = tree_data second)).

(** ** [write/nca.rs] *)

(** A PFS0-shaped section holding [n] bytes of filler. *)
Definition partition_section (n : Z) (encryption : SectionEncryption) : Section_ :=
  {| sec_data := Partition (zrep n x33) 0x10000; sec_encryption := encryption |}.
Definition new_program : NcaBuilder := NcaBuilder_new Program 0x0100000000001000.

Definition build_starts_the_first_section_right_after_the_header : option bool :=
  builder ← expect (add_section new_program 0 (partition_section 0x400 EncCtr));
  nca ← expect (NcaWrite.build builder);
  entry ← index (section_entries (pn_header nca)) 0;
  Some (media_start_offset entry * MEDIA_UNIT_SIZE =? NCA_HEADER_SIZE).

(** A program with no RomFS still carries its logo at index 2. *)
Definition program_with_a_logo : option PlainNca :=
  builder ← expect (add_section new_program 0 (partition_section 0x400 EncCtr));
  builder ← expect (add_section builder 2 (partition_section 0x200 EncNone));
  expect (NcaWrite.build builder).

Definition build_leaves_a_skipped_index_zeroed : option bool :=
  nca ← program_with_a_logo;
  skipped ← index (section_entries (pn_header nca)) 1;
  logo ← index (section_entries (pn_header nca)) 2;
  Some ((media_end_offset skipped =? 0) && negb (media_end_offset logo =? 0)).

Definition build_names_only_the_ctr_sections_as_needing_encryption : option bool :=
  nca ← program_with_a_logo;
  pending ← ctr_sections nca;
  logo ← index (fs_headers (pn_header nca)) 2;
  Some ((len pending =? 1) && (fh_crypt_type logo =? crypt_type_code CryptNone)).

Definition build_records_a_size_that_covers_the_header_and_the_body : option bool :=
  builder ← expect (add_section (NcaBuilder_new Control 0x0100000000001000) 0 (partition_section 0x400 EncCtr));
  nca ← expect (NcaWrite.build builder);
  image ← to_bytes nca;
  Some ((nca_size (pn_header nca) =? NCA_HEADER_SIZE + len (pn_body nca)) && (len image =? nca_size (pn_header nca))).

Definition section_at_an_occupied_index_fails : option bool :=
  builder ← expect (add_section new_program 0 (partition_section 0x200 EncCtr));
  Some (fails (add_section builder 0 (partition_section 0x200 EncCtr))).

Definition build_with_key_generation_one_leaves_both_header_fields_clear : option bool :=
  builder ← expect (add_section (nca_key_generation_set new_program FIRST) 0 (partition_section 0x200 EncCtr));
  nca ← expect (NcaWrite.build builder);
  Some ((crypto_type (pn_header nca) =? 0) && (crypto_type2 (pn_header nca) =? 0)).

Definition build_with_a_key_generation_above_two_carries_it_in_the_high_field : option bool :=
  generation ← expect (key_generation_try_from 11);
  builder ← expect (add_section (nca_key_generation_set new_program generation) 0 (partition_section 0x200 EncCtr));
  nca ← expect (NcaWrite.build builder);
  Some ((crypto_type (pn_header nca) =? 2) && (crypto_type2 (pn_header nca) =? 11)).

Definition try_from_rejects_a_key_generation_of_zero_or_past_the_last : option bool :=
  Some (forallb (λ value, fails (key_generation_try_from value)) [0; 33]).

Definition section_counter_puts_the_block_offset_in_the_low_half : option bool :=
  counter ← section_counter (zeros 8) 0xC00;
  high ← get_to counter 0x8;
  low ← get_from counter 0x8;
  Some (bool_decide (high = zeros 8) && (le_val (reverse low) =? 0xC0)).

(** ** [read/nca.rs] *)

Definition plain_nca (size : Z) : option (list byte) :=
  builder ← expect (add_section new_program 0
    {| sec_data := Partition (zrep size xab) 0x1000; sec_encryption := EncNone |});
  nca ← expect (NcaWrite.build builder);
  to_bytes nca.

Definition try_from_bytes_with_a_plaintext_archive_succeeds : option bool :=
  image ← plain_nca 0x400;
  nca ← expect (try_from_bytes image);
  Some (bool_decide (n_content_type nca = Program) && (title_id nca =? 0x0100000000001000)).

Definition try_from_bytes_with_an_encrypted_header_fails : option bool :=
  image ← plain_nca 0x400;
  image ← patch image 0x200 [xde; xad; xbe; xef];
  Some (fails_with (λ e, if e is InvalidMagic _ then true else false) (try_from_bytes image)).

Definition try_from_bytes_with_a_truncated_image_fails : option bool :=
  image ← plain_nca 0x400;
  truncated ← get_to image 0x800;
  Some (fails_with (λ e, if e is BufferTooSmall _ _ then true else false) (try_from_bytes truncated)).

Definition try_from_bytes_with_a_section_past_the_end_fails : option bool :=
  image ← plain_nca 0x400;
  let end_at := 0x200 + 0x40 + 0x4 in
  image ← patch image end_at (le_bytes 4 0xFFFF);
  Some (fails_with (λ e, if e is SectionOutOfBounds _ _ _ _ then true else false) (try_from_bytes image)).

Definition try_from_bytes_with_an_unknown_content_type_fails : option bool :=
  image ← plain_nca 0x400;
  image ← set_index image 0x205 x63;
  Some (fails_with (λ e, if e is UnknownContentType found then found =? 0x63 else false) (try_from_bytes image)).

Definition section_with_a_partition_section_returns_the_archive_alone : option bool :=
  image ← plain_nca 0x400;
  nca ← expect (try_from_bytes image);
  section ← section nca 0;
  section ← section;
  Some (bool_decide (ns_data section = zrep 0x400 xab) &&
        (if superblock section is SbPfs0 _ then true else false) && bool_decide (encryption section = CryptNone)).

Definition section_with_an_empty_slot_returns_none : option bool :=
  image ← plain_nca 0x400;
  nca ← expect (try_from_bytes image);
  section ← section nca 1;
  Some (if section is None then true else false).

Definition sections_with_one_section_placed_yields_only_it : option bool :=
  image ← plain_nca 0x400;
  nca ← expect (try_from_bytes image);
  sections ← sections nca;
  Some (bool_decide (map ns_index sections = [0])).

Definition counter_with_an_unencrypted_section_returns_none : option bool :=
  image ← plain_nca 0x400;
  nca ← expect (try_from_bytes image);
  section ← section nca 0;
  section ← section;
  counter ← counter section;
  Some (if counter is None then true else false).

Definition key_generation_with_a_first_generation_archive_returns_one : option bool :=
  builder ← expect (add_section (nca_key_generation_set new_program FIRST) 0
    {| sec_data := Partition (zrep 0x200 xab) 0x1000; sec_encryption := EncNone |});
  nca ← expect (NcaWrite.build builder);
  image ← to_bytes nca;
  nca ← expect (try_from_bytes image);
  Some (key_generation nca =? 1).

Example hash_structure_tests_pass : Forall passes
  [build_records_the_archive_after_the_padded_table; build_sizes_the_table_by_the_number_of_blocks;
   build_excludes_the_padding_from_the_recorded_table_size; build_makes_the_image_the_last_level;
   build_pads_every_derived_level_to_a_whole_block; build_accumulates_logical_offsets_across_the_levels;
   build_is_deterministic_for_the_same_image].
Proof. repeat constructor; vm_compute; reflexivity. Qed.

Example nca_writer_tests_pass : Forall passes
  [build_starts_the_first_section_right_after_the_header; build_leaves_a_skipped_index_zeroed;
   build_names_only_the_ctr_sections_as_needing_encryption; build_records_a_size_that_covers_the_header_and_the_body;
   section_at_an_occupied_index_fails; build_with_key_generation_one_leaves_both_header_fields_clear;
   build_with_a_key_generation_above_two_carries_it_in_the_high_field;
   try_from_rejects_a_key_generation_of_zero_or_past_the_last; section_counter_puts_the_block_offset_in_the_low_half].
Proof. repeat constructor; vm_compute; reflexivity. Qed.

Example nca_reader_tests_pass : Forall passes
  [try_from_bytes_with_a_plaintext_archive_succeeds; try_from_bytes_with_an_encrypted_header_fails;
   try_from_bytes_with_a_truncated_image_fails; try_from_bytes_with_a_section_past_the_end_fails;
   try_from_bytes_with_an_unknown_content_type_fails; section_with_a_partition_section_returns_the_archive_alone;
   section_with_an_empty_slot_returns_none; sections_with_one_section_placed_yields_only_it;
   counter_with_an_unencrypted_section_returns_none; key_generation_with_a_first_generation_archive_returns_one].
Proof. repeat constructor; vm_compute; reflexivity. Qed.
