(* ===== verification/TestsRomFs.v ===== *)
(** * The unit tests of [raw/romfs.rs] and [write/romfs.rs] *)

From S2P Require Import Prelude Bytes Layout TestKit RomFsRaw RomFsTree RomFsWrite.
#[local] Open Scope Z_scope.
#[local] Existing Instance zerocopy_reference.

(** ** [raw/romfs.rs] *)

(** The offset of the root directory's entry. *)
Definition ROOT : Z := 0.

Definition path_hash_with_an_empty_name_returns_the_seeded_parent : option bool :=
  Some (path_hash ROOT (b "") =? 123456789).

Definition path_hash_with_a_different_parent_returns_a_different_hash : option bool :=
  let sibling_dir := 0x18 in
  Some (negb (path_hash sibling_dir (b "data") =? path_hash ROOT (b "data"))).

(** The name is the four characters U+30D5 U+30A1 U+30A4 U+30EB, in UTF-8. *)
Definition path_hash_with_a_multi_byte_name_hashes_every_byte : option bool :=
  let name := [xe3; x83; x95; xe3; x82; xa1; xe3; x82; xa4; xe3; x83; xab] in
  Some (path_hash ROOT name =? 0xF3B584EB).

(** ** [write/romfs.rs] *)

Definition build_lays_out_entries_by_path_regardless_of_insertion_order : option bool :=
  sorted ← expect (add_file RomFsBuilder_new (b "/alpha/one.txt") (b "one"));
  sorted ← expect (add_file sorted (b "/alpha/two.txt") (b "two"));
  sorted ← expect (add_file sorted (b "/beta/three.txt") (b "three"));
  shuffled ← expect (add_file RomFsBuilder_new (b "/beta/three.txt") (b "three"));
  shuffled ← expect (add_file shuffled (b "/alpha/two.txt") (b "two"));
  shuffled ← expect (add_file shuffled (b "/alpha/one.txt") (b "one"));
  from_sorted ← expect (build sorted);
  from_shuffled ← expect (build shuffled);
  Some (bool_decide (from_sorted = from_shuffled)).

Example romfs_tests_pass : Forall passes
  [path_hash_with_an_empty_name_returns_the_seeded_parent;
   path_hash_with_a_different_parent_returns_a_different_hash;
   path_hash_with_a_multi_byte_name_hashes_every_byte;
   build_lays_out_entries_by_path_regardless_of_insertion_order].
Proof. repeat constructor; vm_compute; reflexivity. Qed.
